(* ===== verification/_CoqProject ===== *)
-Q . S2P
Prelude.v
GoFloat.v
SimModel.v
SchedInputs.v
Admission.v
Fairness.v
Preemption.v
Selection.v
Placement.v
Runtime.v
Simulator.v
SimErrors.v
SimConcurrency.v
Resources.v
Memory.v
DeepCopy.v
SchedState.v
LoopInterleaving.v
Cluster.v
RunMetrics.v
SchedulerLoop.v
Reconciler.v
PoolReconciler.v
SimHttp.v
Submitter.v
Worker.v
Backlog.v
Producer.v
Pipeline.v
WorkerJobs.v
ProfileTool.v
Programs.v
Metrics.v
Handlers.v
MetricUpdates.v
Operator.v
OperatorLiveness.v
WorkerLiveness.v
EndToEnd.v
Startup.v
