(* ===== verification/Prelude.v ===== *)
(** * GPU scheduler: a Rocq model of the operator, the scheduler and the simulator

    The program is a Kubernetes operator that queues, admits and runs GPU workloads on a simulated
    fleet.  Its parts and how they interact:

    - the _scheduler_ (internal/scheduler) is a library of pure functions: it validates a view of a
      namespace, orders the queue by priority and age, interleaves tenants by weighted round robin,
      checks caps and fit, chooses preemption victims, and decides on one admission at a time;
    - the _scheduler loop_ (internal/controller/scheduler_loop.go) keeps that view up to date from
      watch events, runs scheduling cycles when something changed, patches the chosen workloads to
      Scheduled and preempts victims, through the API server and the simulator;
    - the _workload reconciler_ (internal/controller/gpuworkload_controller.go) queues new workloads,
      executes admitted ones on the simulator, polls running ones and cleans up;
    - the _simulator_ (internal/sim) keeps the pools of devices, the allocations and the runs, places
      allocations on devices and estimates how long a run takes;
    - the _pool and quota reconcilers_ register the pools with the local and, if configured, a remote
      simulator and report their usage;
    - the _submitter_ (internal/submitter) turns requests from Kafka into workload resources;
    - the _workers_ (internal/worker) are pods that claim scheduled workloads and run them on a remote
      simulator, which serves the operations of the simulator over HTTP (internal/sim/http.go);
    - the _load producer_ (internal/producer, cmd/producer) sends generated or seeded requests to the
      submitter's topic;
    - metrics of the backlog, a tool that refreshes the table of hardware profiles and the programs
      under cmd/ surround these.

    ** Files, in dependency order, and what they model

    - [Prelude]: the Go language and library as far as the program uses them: 64-bit integers with
      wrap-around ([[+]], [[-]], [[*]]), strings as byte strings with [strings.TrimSpace], [ToLower],
      [Cut], [Contains] and quoting, error values with wrapping, time stamps as nanoseconds, the
      order in which a map is ranged over (class [MapIter]: any order), stable sorting; shared
      lemmas, tactics and the hint database [go].
    - [GoFloat]: [float64] as IEEE binary64 of the Standard Library's [SpecFloat].
    - [SimModel]: internal/sim/model.go and the hardware profiles of contract.go.
    - [SchedInputs]: inputs.go: the record types, [Validate], [ApplyVirtualAdmission].
    - [Admission]: compat.go, fit.go, ordering.go, fairness.go.
    - [Fairness]: fairness_wrr.go.
    - [Preemption]: preemption.go.
    - [Selection]: selection.go, [SelectOneForAdmission].
    - [Placement]: the placement policies of contract.go.
    - [Runtime]: the duration estimate of contract.go.
    - [Simulator]: the state of state.go and the operations of contract.go on it.
    - [SimErrors]: the texts of the simulator's errors and how they are told apart.
    - [SimConcurrency]: concurrent callers of the simulator: each operation is one step under the mutex,
      [AllocateWithOptions] two, since its guards run before it locks.
    - [Resources]: the custom resources of api/v1alpha1, conversion.go, [buildRuntimeInput] and
      [aggregateFleetFromPools].
    - [Memory]: a heap with pointers and slices, and what it means for an object to be readable from a
      heap or to own its cells.
    - [DeepCopy]: api/v1alpha1/zz_generated.deepcopy.go, every function, on that heap.
    - [SchedState]: the in-memory state of the scheduler loop, its handlers, the trigger channel, the
      snapshot of a namespace.
    - [LoopInterleaving]: the same handlers as sequences of locked operations and sends to the trigger,
      run by the goroutines of the three informers, of [Start] and of the cycles in any interleaving.
    - [Cluster]: what the controllers run against: the API server (class [ApiClient], with laws
      [ApiLaws]), the interface [WorkloadRuntimeSimulator] (with laws [SimulatorLaws] that the
      simulator of [Simulator] discharges), apimachinery helpers ([ApiMachinery]), the effects
      (metrics, events, messages), and a small executable server for the witnesses.
    - [RunMetrics]: the histogram of run durations (sim/metrics.go and its calls in contract.go).
    - [SchedulerLoop]: the scheduling cycle: retries, preemption of victims, the admission patch, the
      batch of a namespace, the loop over namespaces.
    - [Reconciler]: [Reconcile] of the workload controller and all it calls.
    - [PoolReconciler]: the reconcilers of pools and quotas and the fleet registrar
      (gpunodepool_controller.go, tenantquota_controller.go, fleet_registrar.go).
    - [SimHttp]: the HTTP server of the simulator, the client of the workers (simclient.go), and a
      network that joins them.
    - [Submitter]: internal/submitter and the messages of internal/kafka: validation, naming, mapping
      and the consumer loop.
    - [Worker]: internal/worker: claiming, running, polling, reporting; the three modes of discovery.
    - [Backlog]: the polling loop of internal/metrics/backlog.go and its gauges.
    - [Producer]: internal/producer/generator.go over [math/rand] (class [Rand]), and
      cmd/producer/main.go: flags, sources, serial sending, and the goroutines of concurrent sending as
      a step function under an arbitrary schedule.
    - [Pipeline]: producer, topic and submitter together.
    - [WorkerJobs]: the reconciler's legacy path with one Job per workload
      (worker/job_template.go, [ensureWorkerJob], [syncWorkloadPhaseFromWorkerJob]).
    - [ProfileTool]: tools/refresh_profiles.
    - [Programs]: what the operator and the workers read from their environment (cmd/main.go,
      cmd/worker-deployment/main.go), and the claimable topic between them (claimable_producer.go).
    - [Metrics]: the collectors of the four programs (metrics/operator.go, metrics/backlog.go,
      sim/metrics.go, worker/metrics.go, submitter/metrics.go) and their registration.
    - [Handlers], [MetricUpdates]: what holds of every call that a handler makes, and of every metric
      that it updates.
    - [Operator], [OperatorLiveness], [EndToEnd]: the operator as one system: reconciliations, cycles
      and registrations on one API server and one simulator.  [OperatorLiveness] and [WorkerLiveness]
      have a server that nobody else writes to, on which the operator and a worker finish what they
      take.
    - [Startup]: how the programs start and stop: [Start] of the scheduler loop, [main] of the operator
      with its manager, [main] of the submitter with [Run] of its consumer, [main] of the simulator.

    State is passed explicitly; a Go struct is a record whose fields carry a prefix; an operation that
    mutates its receiver returns the new state.  An error is a value of [error]; a panic, where the
    code can have one, is [None].  Maps are [gmap]s, and a loop over a map goes through [map_iter],
    whose order is arbitrary, so the theorems hold for every order.

    ** What the theorems show

    - Scheduler: [Validate] accepts exactly the inputs of an order-free contract; the queue order is
      the stable sort and the round robin equals its closed form, is a permutation that keeps each
      tenant's order, and is weighted-fair at every prefix; the greedy victims are minimal in the
      lowest sufficient priority band, and preemption fails exactly when it must; a decision is the
      first workload that fits, or else the first that fits by preemption, or nothing, with the exact
      reason; the cap test is exact on 64-bit sums; a virtual admission keeps the inputs valid and
      accounts for exactly what was admitted.
    - Simulator: by induction over all sequences of operations, no device is ever held twice, runs follow
      their lifecycle and a workload has one running run at most; an allocation under a known policy, not
      bound to nodes, succeeds exactly when enough devices that fit the request are free; release undoes
      allocation; usage is exact; placements respect limits and are complete, level or packed as their
      policy says; the duration estimate is total on valid inputs, deterministic under a seed, and its
      multipliers are bounded. Under concurrent callers no device is held twice either, and as long as no
      two allocations of one workload overlap, the interleaved simulator refines the atomic one; every run
      is observed in the histogram of durations once.
    - Scheduler loop: between any two events of the workload informer the buckets refine the last object
      delivered for each workload.  Under every interleaving of the handlers and the cycles, a snapshot is
      refused exactly for unsound requests, fleets or quotas of the objects, and never for ids, times or
      totals; once nothing is pending, fleet, quotas and queue are those the last cycle found and what ran
      then still runs, but for workloads that were deleted, so changes of these wake the scheduler (a
      workload that leaves Scheduled or is deleted need not).  A cycle admits in one namespace only,
      within the batch limit, the free devices and the tenant caps; every write is made against the
      version that was read and moves a workload from Queued to Scheduled or to Preempted; retries are
      bounded and exact.
    - Reconciler: every write follows the lifecycle; a workload is marked Running only after it was
      allocated and started, follows the simulator until its run ends, is left as it is by a reconciliation
      that finds it in a terminal phase, and is released before its finalizer goes.
    - Pools: after a reconciliation the pool is registered with its devices and its status is, field by
      field at 32 bits, what the simulator holds under the names of the pool, which is the usage of the
      pool when these names are its own; the registrar updates the local simulator first and reports
      remote failures in strict mode only.
    - Submitter: every message ends in the dead-letter topic, a created resource, a known one or an
      error, for a reason that is exact; names are valid; what is created is what the scheduler takes.
    - Remote simulator: over HTTP each operation does what it does locally, with conflicts recognised
      by their text exactly; a fleet registered strictly is the same in both simulators.
    - Workers: what a claim writes, on every branch; a run is reported as it ended and its devices are
      released afterwards; its writes are claims of scheduled workloads it read and reports of the run it
      claimed (the claim is a merge patch and carries no version); on a quiet server a worker finishes
      what it claims.
    - Producer: every generated request is in range, valid and mapped to a workload the scheduler
      takes; the goroutines end under any schedule that lets them run, send nothing twice and report an
      error exactly when something was not sent; and the whole way from the command line through the
      topic, with messages in any order and more than once, gives one workload per request that the
      server did not refuse.  The partition a message is labelled with is not where it goes: the
      configured balancer decides by the key.
    - Around it: the gauges of the backlog are exact after every successful poll; a Job is created once
      and its outcome carried over once; the table that the profile tool writes is the one the simulator
      loads; operator and workers with the same environment meet at the same topic and simulator; every
      program can register its metrics and every update it makes is of a metric it registered, with its
      kind and labels; the submitter stops when it is told to, and the operator starts only whole.
    - The operator as a whole: in whatever order its handlers run, with other clients in between, its
      writes are legal, no device is allocated twice, and devices and runs belong to workloads that were
      scheduled; a namespace in which a queued workload fits gets one scheduled, and a scheduled workload
      that can be placed is started, followed and finished.
    - Copies: what the cache hands out shares no cell with the cache, which is what lets all other files
      treat an object as a value.

    Some closed examples record behaviour that is easy to miss: [batch_preempts_own_admission],
    [finished_victim_overwritten], [requeued_id_is_duplicate], [zero_memory_blocks_namespace],
    [preemption_ignores_incoming_priority], [greedy_tie_break_ignores_priority], [duration_overflow],
    [nested_pool_usage], [shrunk_pool_negative], [shrunk_pool_blocks_namespace],
    [colliding_request_dropped], [failed_message_skipped], [raw_kind_mapped], [stolen_run],
    [preempted_revived], [preempted_reported_succeeded], [watch_stops_after_error],
    [failed_list_keeps_tenants], [failed_write_reported], [retried_job_reported_failed],
    [missing_job_left_running], [overlapping_allocations_lose_devices], [removal_unnoticed],
    [scheduled_departure_unnoticed], [promotion_uncounted], [deleted_run_adopted].

    ** Fuel, bounds and assumptions

    Loops are structural where they can be.  The round robin runs with the length of the queue as
    fuel (each round emits at least one workload; [WRR_closed_form] shows the result does not depend
    on it), the spread placement with the number of devices; the batch loop recurses on what is left
    of [MaxAdmissionsPerCycle]; retries on their bound of five; the loop that collapses dashes in a
    name on the length of the name, each pass being shorter ([collapse_spec]).  The polling loop of a
    worker ends only when its run does; its fuel is the number of polls, and [worker_completes] says
    how many are enough.  [InRange] states the ranges under which no sum of the scheduler wraps:
    counts from 32-bit fields, totals within 64 bits.
    The consumer of the submitter runs until its context is cancelled; [submitter_stops] says how much
    fuel is enough.
    An operation under a mutex is one atomic step.  [SchedState] runs each informer handler as one
    function, [LoopInterleaving] as the sequence of its locked operations.  [Simulator] has
    [AllocateWithOptions] as one step, [SimConcurrency] as the two that it is.  Between the
    calls of a cycle or of a reconciliation the API server may change arbitrarily (its state is
    threaded through abstract operations), and the in-memory state may change between the namespaces
    of a cycle.  [ApiLaws] is the documented behaviour of the API server: a write is accepted only
    against the version it was based on, a version identifies one state of an object, and an error of a
    write means that nothing was written.  [Create] of the submitter may fail with or without having
    written.

    ** Not modelled, and why

    Logging and the decoding of flags carry no logic of their own; signals only cancel a context.  A
    context that ends in the middle of a cycle or of a reconciliation is not distinguished from calls that
    fail.  The creation of the worker's informer and the mocks and helpers of the tests, which no program
    links, are left out.  Data races (a map read outside the lock while it is written) are undefined in
    Go; the model gives such a read the value of some moment, and [AllocateWithOptions] its two unlocked
    reads at one moment.  Writes of the controllers that the server makes and whose answer is lost (a
    timeout) are left out, as are allocations of slices that exceed the memory and letters outside ASCII
    that become ASCII letters when lower-cased.  The patches of one cycle carry one time. JSON, YAML, HTTP
    transport, Kafka, SHA-256 and the random source are parameters with their documented behaviour as
    laws; the laws of the JSON codecs are about ASCII text, since other bytes need not survive. *)

From stdpp Require Import prelude gmap strings list sorting pretty.

(** ** Notation scope, hint databases *)

Declare Scope go_scope.
Delimit Scope go_scope with go.

Create HintDb go.

Local Open Scope Z_scope.

(** ** Machine integers

    Go's [int] is 64 bits wide on every platform the images are built for; the
    CRD fields are [int32] and [int64].  A value is a [Z] in range and every
    addition, subtraction and multiplication wraps, as the language says. *)

Definition int64_min : Z := - 2 ^ 63.
Definition int64_max : Z := 2 ^ 63 - 1.
Definition int32_min : Z := - 2 ^ 31.
Definition int32_max : Z := 2 ^ 31 - 1.

Definition wrap64 (z : Z) : Z := (z + 2 ^ 63) mod 2 ^ 64 - 2 ^ 63.
Definition wrap32 (z : Z) : Z := (z + 2 ^ 31) mod 2 ^ 32 - 2 ^ 31.

Definition int64_add (x y : Z) : Z := wrap64 (x + y).
Definition int64_sub (x y : Z) : Z := wrap64 (x - y).
Definition int64_mul (x y : Z) : Z := wrap64 (x * y).

Notation "x [+] y" := (int64_add x y) (at level 50, left associativity) : go_scope.
Notation "x [-] y" := (int64_sub x y) (at level 50, left associativity) : go_scope.
Notation "x [*] y" := (int64_mul x y) (at level 40, left associativity) : go_scope.
Local Open Scope go_scope.

Definition in_int64 (z : Z) : Prop := int64_min ≤ z ≤ int64_max.
Definition in_int32 (z : Z) : Prop := int32_min ≤ z ≤ int32_max.

(** The sum of a list at unbounded precision, and as a Go loop
    [for _, x := range l { acc += f(x) }] computes it. *)
Definition Zsum {A} (f : A → Z) (l : list A) : Z := foldr (λ x acc, f x + acc) 0 l.
Definition int64_sum {A} (f : A → Z) (acc : Z) (l : list A) : Z :=
  foldl (λ acc x, acc [+] f x) acc l.

(** ** Strings

    A Go string is a sequence of bytes; [ascii] is a byte.  [strings.ToLower] and
    [strings.TrimSpace] are written out for ASCII input: a byte from 0x80 up is
    neither a letter nor a space here, where Go would decode it as UTF-8. *)

Definition is_space (c : Ascii.ascii) : bool :=
  let n := Ascii.nat_of_ascii c in
  ((9 <=? n) && (n <=? 13))%nat || (n =? 32)%nat.

Definition ascii_lower (c : Ascii.ascii) : Ascii.ascii :=
  let n := Ascii.nat_of_ascii c in
  if ((65 <=? n) && (n <=? 90))%nat then Ascii.ascii_of_nat (n + 32) else c.

Definition bytes (s : string) : list Ascii.ascii := String.list_ascii_of_string s.
Definition of_bytes (l : list Ascii.ascii) : string := String.string_of_list_ascii l.

Fixpoint drop_while {A} (f : A → bool) (l : list A) : list A :=
  match l with
  | [] => []
  | x :: l' => if f x then drop_while f l' else l
  end.

Definition trim_list {A} (f : A → bool) (l : list A) : list A :=
  rev (drop_while f (rev (drop_while f l))).

Definition ToLower (s : string) : string := of_bytes (ascii_lower <$> bytes s).
Definition TrimSpace (s : string) : string := of_bytes (trim_list is_space (bytes s)).

(** [strings.HasPrefix], [strings.Contains] and [strings.Cut] with a one-byte separator. *)
Fixpoint HasPrefix (s pre : string) : bool :=
  match pre, s with
  | EmptyString, _ => true
  | String c pre', String d s' => Ascii.eqb c d && HasPrefix s' pre'
  | String _ _, EmptyString => false
  end.

Fixpoint Contains (s sub : string) : bool :=
  HasPrefix s sub ||
  match s with
  | EmptyString => false
  | String _ s' => Contains s' sub
  end.

Fixpoint Cut (s : string) (sep : Ascii.ascii) : option (string * string) :=
  match s with
  | EmptyString => None
  | String c s' =>
      if Ascii.eqb c sep then Some (EmptyString, s')
      else match Cut s' sep with
           | Some (before, after) => Some (String c before, after)
           | None => None
           end
  end.

(** [fmt.Sprintf("%q", s)] on ASCII input ([strconv.Quote]). *)
Definition hex_digit (n : nat) : Ascii.ascii :=
  Ascii.ascii_of_nat (if (n <? 10)%nat then n + 48 else n + 87)%nat.

Definition quote_byte (c : Ascii.ascii) : string :=
  let n := Ascii.nat_of_ascii c in
  let esc (d : nat) : string := of_bytes [Ascii.ascii_of_nat 92; Ascii.ascii_of_nat d] in
  if (n =? 34)%nat then esc 34%nat
  else if (n =? 92)%nat then esc 92%nat
  else if (n =? 7)%nat then esc 97%nat
  else if (n =? 8)%nat then esc 98%nat
  else if (n =? 12)%nat then esc 102%nat
  else if (n =? 10)%nat then esc 110%nat
  else if (n =? 13)%nat then esc 114%nat
  else if (n =? 9)%nat then esc 116%nat
  else if (n =? 11)%nat then esc 118%nat
  else if ((n <? 32) || (126 <? n))%nat
  then of_bytes [Ascii.ascii_of_nat 92; Ascii.ascii_of_nat 120;
                 hex_digit (n / 16)%nat; hex_digit (n mod 16)%nat]
  else of_bytes [c].

Definition dquote : string := of_bytes [Ascii.ascii_of_nat 34].
Definition Quote (s : string) : string :=
  dquote +:+ foldr (λ c acc, quote_byte c +:+ acc) EmptyString (bytes s) +:+ dquote.

(** ** Errors

    [fmt.Errorf] without a wrapped error, [fmt.Errorf] with [%w] at the end of the
    message, and the [*StatusError] of the Kubernetes API machinery. *)

Inductive StatusReason := NotFound | Conflict | AlreadyExists | OtherReason.

#[export] Instance StatusReason_eq_dec : EqDecision StatusReason.
Proof. solve_decision. Defined.

Inductive error :=
| Errorf (msg : string)
| Wrapf (prefix : string) (inner : error)
| StatusError (reason : StatusReason) (msg : string).

Fixpoint Error (e : error) : string :=
  match e with
  | Errorf msg => msg
  | Wrapf prefix inner => prefix +:+ ": " +:+ Error inner
  | StatusError _ msg => msg
  end.

(** [apierrors.ReasonForError]: the reason of the first API error of the chain. *)
Fixpoint ReasonForError (e : error) : option StatusReason :=
  match e with
  | Errorf _ => None
  | Wrapf _ inner => ReasonForError inner
  | StatusError r _ => Some r
  end.

Definition IsNotFound (e : error) : bool := bool_decide (ReasonForError e = Some NotFound).
Definition IsConflict (e : error) : bool := bool_decide (ReasonForError e = Some Conflict).
Definition IsAlreadyExists (e : error) : bool :=
  bool_decide (ReasonForError e = Some AlreadyExists).

(** A Go result [(T, error)] of which the caller reads only one side. *)
Inductive Result (A : Type) := Ok (a : A) | Err (e : error).
Arguments Ok {A} a.
Arguments Err {A} e.

(** The first error a loop [for i, x := range l { if err := f(i, x); err != nil { return err } }]
    returns. *)
Fixpoint range_error {A} (f : nat → A → option error) (i : nat) (l : list A) : option error :=
  match l with
  | [] => None
  | x :: l' => match f i x with Some e => Some e | None => range_error f (S i) l' end
  end.

(** ** Time

    A [time.Time] is the number of nanoseconds since Go's zero time (1 January of year 1). *)

Definition Time := Z.
Definition IsZero (t : Time) : bool := t =? 0.
Definition Before (t u : Time) : bool := t <? u.
Definition After (t u : Time) : bool := u <? t.
Definition TimeEqual (t u : Time) : bool := t =? u.

(** ** Ranging over a map

    Go iterates over a map in an unspecified order.  An operation that ranges over
    maps takes the order as an argument: any function that lists the entries. *)

Class MapIter := {
  map_iter : ∀ {V : Type}, gmap string V → list (string * V);
  map_iter_perm : ∀ {V : Type} (m : gmap string V), map_iter m ≡ₚ map_to_list m;
}.

Definition map_iter_canonical : MapIter :=
  {| map_iter := λ V m, map_to_list m; map_iter_perm := λ V m, reflexivity _ |}.

(** ** sort.SliceStable

    Insertion sort: an element goes in front of the first one it is not greater than.
    [SliceStable_unique] below shows that nothing of the algorithm is left in the result: for a
    strict weak order there is one sorted list that keeps equivalent elements in place. *)

Fixpoint insert_stable {A} (less : A → A → bool) (x : A) (l : list A) : list A :=
  match l with
  | [] => [x]
  | y :: l' => if less y x then y :: insert_stable less x l' else x :: y :: l'
  end.

Definition SliceStable {A} (less : A → A → bool) (l : list A) : list A :=
  foldr (insert_stable less) [] l.

Class StrictWeakOrder {A} (less : A → A → bool) : Prop := {
  swo_irrefl : ∀ x, less x x = false;
  swo_trans : ∀ x y z, less x y = true → less y z = true → less x z = true;
  swo_negtrans : ∀ x y z, less x y = false → less y z = false → less x z = false;
}.

Definition equiv_less {A} (less : A → A → bool) (x y : A) : bool :=
  negb (less x y) && negb (less y x).

Definition sorted_less {A} (less : A → A → bool) : list A → Prop :=
  StronglySorted (λ x y, less y x = false).

(** The multiset inclusion, sum and order facts below are shared by the components. *)

(** ** Tactics *)

(** Case analysis on the tests a Go function makes, keeping the equations. *)
Ltac case_tests :=
  repeat first [ progress simplify_eq/= | case_match ].

(** Unfolds the range predicates and hands the goal to [lia]. *)
Ltac int_lia :=
  unfold in_int64, in_int32, int64_min, int64_max, int32_min, int32_max in *; lia.

(** Turns boolean comparisons of the hypotheses into propositions first. *)
Ltac test_lia :=
  rewrite ?Z.eqb_eq, ?Z.eqb_neq, ?Z.leb_le, ?Z.leb_gt, ?Z.ltb_lt, ?Z.ltb_ge,
    ?Nat.eqb_eq, ?Nat.eqb_neq, ?Nat.leb_le, ?Nat.leb_gt, ?Nat.ltb_lt, ?Nat.ltb_ge in *;
  lia.

(** ** Machine integers: facts *)

Lemma wrap64_id z : in_int64 z → wrap64 z = z.
Proof.
  unfold in_int64, int64_min, int64_max, wrap64. intros H.
  rewrite Z.mod_small by lia. lia.
Qed.

Lemma wrap32_id z : in_int32 z → wrap32 z = z.
Proof.
  unfold in_int32, int32_min, int32_max, wrap32. intros H.
  rewrite Z.mod_small by lia. lia.
Qed.

Lemma wrap64_range z : in_int64 (wrap64 z).
Proof.
  unfold in_int64, int64_min, int64_max, wrap64.
  pose proof (Z.mod_pos_bound (z + 2 ^ 63) (2 ^ 64)). lia.
Qed.

Lemma wrap64_add_l x y : wrap64 (wrap64 x + y) = wrap64 (x + y).
Proof.
  unfold wrap64.
  replace ((x + 2 ^ 63) mod 2 ^ 64 - 2 ^ 63 + y + 2 ^ 63)
    with ((x + 2 ^ 63) mod 2 ^ 64 + y) by lia.
  rewrite Z.add_mod_idemp_l by lia. do 2 f_equal. lia.
Qed.

Lemma int64_add_id x y : in_int64 (x + y) → x [+] y = x + y.
Proof. apply wrap64_id. Qed.
Lemma int64_sub_id x y : in_int64 (x - y) → x [-] y = x - y.
Proof. apply wrap64_id. Qed.
Lemma int64_mul_id x y : in_int64 (x * y) → x [*] y = x * y.
Proof. apply wrap64_id. Qed.

Lemma in_int32_int64 z : in_int32 z → in_int64 z.
Proof. int_lia. Qed.

#[export] Hint Resolve wrap64_range in_int32_int64 : go.

(** ** Sums *)

Section sums.
Context {A : Type} (f : A → Z).
Implicit Types l k : list A.

Lemma Zsum_app l k : Zsum f (l ++ k) = Zsum f l + Zsum f k.
Proof. induction l as [|x l IH]; simpl; [lia|]. rewrite IH. lia. Qed.

Lemma Zsum_cons x l : Zsum f (x :: l) = f x + Zsum f l.
Proof. done. Qed.

Lemma Zsum_permutation l k : l ≡ₚ k → Zsum f l = Zsum f k.
Proof. induction 1; simpl; lia. Qed.

#[export] Instance Zsum_Proper : Proper ((≡ₚ) ==> (=)) (Zsum f).
Proof. intros l k. apply Zsum_permutation. Qed.

Lemma Zsum_nonneg l : (∀ x, x ∈ l → 0 ≤ f x) → 0 ≤ Zsum f l.
Proof.
  induction l as [|x l IH]; intros H; [done|]. rewrite Zsum_cons.
  pose proof (H x ltac:(set_solver)). specialize (IH ltac:(set_solver)). lia.
Qed.

Lemma Zsum_submseteq l k : (∀ x, x ∈ k → 0 ≤ f x) → l ⊆+ k → Zsum f l ≤ Zsum f k.
Proof.
  intros Hk [r Hr]%submseteq_Permutation.
  rewrite (Zsum_permutation _ _ Hr), Zsum_app.
  assert (0 ≤ Zsum f r); [|lia].
  apply Zsum_nonneg. intros x Hx. apply Hk. rewrite Hr. set_solver.
Qed.

Lemma Zsum_ext g l : (∀ x, x ∈ l → f x = g x) → Zsum f l = Zsum g l.
Proof.
  induction l as [|x l IH]; intros H; [done|]. simpl.
  rewrite (H x) by set_solver. rewrite IH by set_solver. done.
Qed.

Lemma Zsum_bound b l : (∀ x, x ∈ l → f x ≤ b) → Zsum f l ≤ b * Z.of_nat (length l).
Proof.
  induction l as [|x l IH]; intros H; simpl; [lia|].
  pose proof (H x ltac:(set_solver)). specialize (IH ltac:(set_solver)). lia.
Qed.

(** Wrapping at every step of a loop or once at the end gives the same sum. *)
Lemma int64_sum_wrap acc l : int64_sum f (wrap64 acc) l = wrap64 (acc + Zsum f l).
Proof.
  unfold int64_sum. revert acc; induction l as [|x l IH]; intros acc; simpl.
  - f_equal. lia.
  - unfold int64_add at 2. rewrite wrap64_add_l, IH. f_equal. lia.
Qed.

Lemma int64_sum_id acc l :
  in_int64 acc → in_int64 (acc + Zsum f l) → int64_sum f acc l = acc + Zsum f l.
Proof.
  intros Ha Hs. rewrite <- (wrap64_id acc) at 1 by done.
  rewrite int64_sum_wrap. by apply wrap64_id.
Qed.

(** The [k] largest elements have the largest sum among all choices of [k] elements. *)
Lemma Zsum_take_max l k :
  StronglySorted (λ x y, f y ≤ f x) l → k ⊆+ l → Zsum f k ≤ Zsum f (take (length k) l).
Proof.
  intros Hs; revert k.
  induction Hs as [|x l Hs IH Hx]; intros k Hk.
  { apply submseteq_nil_r in Hk as ->. done. }
  apply submseteq_cons_r in Hk as [Hk|(k' & -> & Hk)].
  - destruct k as [|y k]; [done|].
    assert (Hy : y ∈ l) by (eapply elem_of_submseteq; [by left|done]).
    rewrite Forall_forall in Hx. specialize (Hx y Hy).
    assert (Hk' : k ⊆+ l).
    { etransitivity; [|exact Hk]. by apply submseteq_cons. }
    specialize (IH k Hk'). cbn [length take]. rewrite !Zsum_cons. lia.
  - cbn [length take]. rewrite !Zsum_cons. specialize (IH k' Hk). lia.
Qed.

End sums.

(** ** Stable sorting *)

Section stable.
Context {A : Type} (less : A → A → bool) `{!StrictWeakOrder less}.
Implicit Types (x y : A) (l : list A).

Lemma insert_stable_perm x l : insert_stable less x l ≡ₚ x :: l.
Proof.
  induction l as [|y l IH]; simpl; [done|].
  destruct (less y x); [|done]. rewrite IH. apply Permutation_swap.
Qed.

Lemma SliceStable_perm l : SliceStable less l ≡ₚ l.
Proof.
  induction l as [|x l IH]; simpl; [done|].
  rewrite insert_stable_perm. by f_equiv.
Qed.

Lemma less_asymm x y : less x y = true → less y x = false.
Proof.
  intros H. destruct (less y x) eqn:E; [|done].
  pose proof (swo_trans x y x H E). by rewrite swo_irrefl in *.
Qed.

Lemma insert_stable_sorted x l :
  sorted_less less l → sorted_less less (insert_stable less x l).
Proof.
  unfold sorted_less. induction 1 as [|y l Hs IH Hy]; simpl; [by repeat constructor|].
  destruct (less y x) eqn:E.
  - constructor; [done|]. rewrite insert_stable_perm. constructor; [|done].
    by apply less_asymm.
  - constructor; [by constructor|]. constructor; [done|].
    eapply Forall_impl; [exact Hy|]. simpl. intros z Hz.
    by eapply swo_negtrans.
Qed.

Lemma SliceStable_sorted l : sorted_less less (SliceStable less l).
Proof. induction l; simpl; [constructor|by apply insert_stable_sorted]. Qed.

Lemma equiv_less_false_l x y z :
  equiv_less less x z = true → less y x = true → less y z = true.
Proof.
  unfold equiv_less. rewrite andb_true_iff, !negb_true_iff. intros [H1 H2] H.
  destruct (less y z) eqn:E; [done|]. by rewrite (swo_negtrans y z x) in H.
Qed.

Lemma insert_stable_filter z x l :
  filter (λ y, equiv_less less z y = true) (insert_stable less x l) =
  filter (λ y, equiv_less less z y = true) (x :: l).
Proof.
  induction l as [|y l IH]; simpl; [done|].
  destruct (less y x) eqn:E; [|done].
  rewrite filter_cons, IH, !filter_cons.
  case_decide as Hy; case_decide as Hx; try done.
  exfalso. revert E Hy Hx. unfold equiv_less.
  rewrite !andb_true_iff, !negb_true_iff. intros E [? ?] [? ?].
  by rewrite (swo_negtrans y z x) in E.
Qed.

Lemma SliceStable_stable z l :
  filter (λ y, equiv_less less z y = true) (SliceStable less l) =
  filter (λ y, equiv_less less z y = true) l.
Proof.
  induction l as [|x l IH]; simpl; [done|].
  rewrite insert_stable_filter, !filter_cons, IH. done.
Qed.

Lemma equiv_less_refl x : equiv_less less x x = true.
Proof. unfold equiv_less. by rewrite (swo_irrefl (less:=less) x). Qed.

(** The heads of two sorted lists with the same equivalence classes are equivalent. *)
Lemma sorted_head_le x y l k :
  sorted_less less (y :: k) →
  (∀ z, filter (λ y, equiv_less less z y = true) (x :: l) =
        filter (λ y, equiv_less less z y = true) (y :: k)) →
  less x y = false.
Proof.
  intros Hs Hf. inversion_clear Hs as [|? ? _ Hk].
  assert (Hx : x ∈ filter (λ z, equiv_less less x z = true) (y :: k)).
  { rewrite <- Hf. apply list_elem_of_filter. split; [apply equiv_less_refl|by left]. }
  apply list_elem_of_filter in Hx as [_ [->|Hx]%elem_of_cons].
  - apply swo_irrefl.
  - by eapply Forall_forall in Hk.
Qed.

Lemma stable_sorted_unique l k :
  sorted_less less l → sorted_less less k →
  (∀ z, filter (λ y, equiv_less less z y = true) l =
        filter (λ y, equiv_less less z y = true) k) →
  l = k.
Proof.
  intros Hl; revert k. induction Hl as [|x l Hl IH Hx]; intros [|y k] Hk Hf; [done| | |].
  - specialize (Hf y). rewrite filter_cons_True in Hf by apply equiv_less_refl. done.
  - specialize (Hf x). rewrite filter_cons_True in Hf by apply equiv_less_refl. done.
  - assert (Hxy : equiv_less less x y = true).
    { unfold equiv_less. rewrite andb_true_iff, !negb_true_iff. split.
      - eapply sorted_head_le; [exact Hk|exact Hf].
      - eapply (sorted_head_le y x k l); [exact (SSorted_cons x Hl Hx)|by intros; symmetry]. }
    assert (x = y) as <-.
    { specialize (Hf x). rewrite !filter_cons_True in Hf by auto using equiv_less_refl.
      by simplify_eq. }
    f_equal. apply IH; [by eapply StronglySorted_inv|]. intros z. specialize (Hf z).
    rewrite !filter_cons in Hf. case_decide; by simplify_eq.
Qed.

(** The result of [sort.SliceStable] is determined by its documentation. *)
Lemma SliceStable_unique l k :
  sorted_less less k →
  (∀ z, filter (λ y, equiv_less less z y = true) k =
        filter (λ y, equiv_less less z y = true) l) →
  k = SliceStable less l.
Proof.
  intros Hs Hf. apply stable_sorted_unique; [done|apply SliceStable_sorted|].
  intros z. by rewrite SliceStable_stable.
Qed.

Lemma SliceStable_elem_of x l : x ∈ SliceStable less l ↔ x ∈ l.
Proof. by rewrite SliceStable_perm. Qed.

Lemma SliceStable_length l : length (SliceStable less l) = length l.
Proof. by rewrite SliceStable_perm. Qed.

End stable.

(** ** Lists and maps *)

Lemma filter_all {A} (P : A → Prop) `{∀ x, Decision (P x)} (l : list A) :
  (∀ x, x ∈ l → P x) → filter P l = l.
Proof.
  induction l as [|x l IH]; intros HP; [done|].
  rewrite filter_cons_True by set_solver. f_equal. set_solver.
Qed.

Lemma filter_none {A} (P : A → Prop) `{∀ x, Decision (P x)} (l : list A) :
  (∀ x, x ∈ l → ¬ P x) → filter P l = [].
Proof.
  induction l as [|x l IH]; intros HP; [done|].
  rewrite filter_cons_False by set_solver. set_solver.
Qed.

Lemma range_error_Forall {A} (f : A → option error) i l :
  range_error (λ _ x, f x) i l = None ↔ Forall (λ x, f x = None) l.
Proof.
  revert i; induction l as [|x l IH]; intros i; simpl; [by rewrite Forall_nil|].
  rewrite Forall_cons. destruct (f x); [naive_solver|]. rewrite IH. naive_solver.
Qed.

Lemma Forall_map_iter `{MapIter} {V} (P : string → V → Prop) (m : gmap string V) :
  Forall (λ e, P e.1 e.2) (map_iter m) ↔ map_Forall P m.
Proof.
  rewrite map_iter_perm, map_Forall_to_list. rewrite !Forall_forall.
  split; intros HP [k v] Hkv; by apply (HP (k, v)).
Qed.

Lemma Zsum_map_insert {V} (f : string * V → Z) (m : gmap string V) k v old :
  m !! k = Some old →
  Zsum f (map_to_list (<[k := v]> m)) = Zsum f (map_to_list m) - f (k, old) + f (k, v).
Proof.
  intros Hk. rewrite <- (insert_delete_eq m k v).
  rewrite map_to_list_insert by apply lookup_delete_eq.
  rewrite <- (map_to_list_delete m k old Hk), !Zsum_cons. lia.
Qed.

Lemma Zsum_map_lookup {V} (f : string * V → Z) (m : gmap string V) k v :
  m !! k = Some v → (∀ k' v', m !! k' = Some v' → 0 ≤ f (k', v')) →
  f (k, v) ≤ Zsum f (map_to_list m).
Proof.
  intros Hk Hf. rewrite <- (map_to_list_delete m k v Hk), Zsum_cons.
  assert (0 ≤ Zsum f (map_to_list (delete k m))); [|lia].
  apply Zsum_nonneg. intros [k' v'] H%elem_of_map_to_list.
  apply (Hf k'). apply lookup_delete_Some in H. tauto.
Qed.

(** Removing an element by its key from a list of distinct keys. *)
Lemma filter_key_ne {A} (key : A → string) (l : list A) w :
  NoDup (key <$> l) → w ∈ l → w :: filter (λ x, key x ≠ key w) l ≡ₚ l.
Proof.
  induction l as [|x l IH]; intros Hnd Hw; [by apply elem_of_nil in Hw|].
  rewrite fmap_cons, NoDup_cons in Hnd. destruct Hnd as [Hx Hnd].
  rewrite filter_cons. apply elem_of_cons in Hw as [->|Hw].
  - rewrite decide_False by (intros []; done).
    rewrite filter_all; [done|]. intros y Hy He. apply Hx. rewrite <- He.
    by apply list_elem_of_fmap_2.
  - rewrite decide_True.
    + rewrite Permutation_swap. f_equiv. by apply IH.
    + intros He. apply Hx. rewrite He. by apply list_elem_of_fmap_2.
Qed.


(** The classes of a list by its keys, put one behind the other, are the list again. *)
Lemma concat_filter_key {A K} `{EqDecision K} (key : A → K) (ks : list K) (l : list A) :
  NoDup ks → (∀ x, x ∈ l → key x ∈ ks) →
  concat ((λ k, filter (λ x, key x = k) l) <$> ks) ≡ₚ l.
Proof.
  intros Hnd; revert l. induction Hnd as [|k ks Hk Hnd IH]; intros l Hl.
  { destruct l as [|x l]; [done|]. specialize (Hl x ltac:(set_solver)). set_solver. }
  rewrite fmap_cons; simpl. rewrite <- (filter_app_complement (λ x, key x = k) l) at 2.
  f_equiv. rewrite <- (IH (filter (λ x, ¬ key x = k) l)).
  - apply reflexive_eq. f_equal. apply list_fmap_ext. intros i k' Hk'%list_elem_of_lookup_2.
    rewrite list_filter_filter. apply list_filter_iff. intros x. set_solver.
  - intros x [Hx Hx']%list_elem_of_filter. specialize (Hl x Hx'). set_solver.
Qed.

(** Picking one class out of a concatenation of disjoint classes. *)
Lemma filter_concat_key {A K} `{EqDecision K} (key : A → K) (ks : list K) (g : K → list A) k :
  NoDup ks → (∀ k' x, x ∈ g k' → key x = k') →
  filter (λ x, key x = k) (concat (g <$> ks)) = if decide (k ∈ ks) then g k else [].
Proof.
  intros Hnd Hg. induction Hnd as [|k' ks Hk Hnd IH].
  { by rewrite decide_False by set_solver. }
  rewrite fmap_cons. cbn [concat]. rewrite filter_app, IH. destruct (decide (k = k')) as [->|Hne].
  - rewrite filter_all by eauto. rewrite (decide_False (P := k' ∈ ks)) by done.
    by rewrite decide_True, app_nil_r by (by left).
  - rewrite filter_none by (intros x Hx%Hg; congruence).
    assert (Hiff : k ∈ k' :: ks ↔ k ∈ ks) by set_solver.
    by rewrite (decide_ext _ _ _ _ Hiff).
Qed.

Lemma StronglySorted_weaken {A} (R S : A → A → Prop) l :
  (∀ x y, R x y → S x y) → StronglySorted R l → StronglySorted S l.
Proof.
  intros HRS. induction 1 as [|x l _ IH Hx]; constructor; [done|].
  eapply Forall_impl; [exact Hx|]. auto.
Qed.

(** ** Strings: facts *)

Lemma bytes_app s t : bytes (s +:+ t) = bytes s ++ bytes t.
Proof. unfold bytes. induction s as [|c s IH]; simpl; [done|]. by rewrite IH. Qed.

Lemma bytes_inj s t : bytes s = bytes t → s = t.
Proof.
  intros H. rewrite <- (String.string_of_list_ascii_of_string s),
    <- (String.string_of_list_ascii_of_string t). unfold bytes in H. by rewrite H.
Qed.

Definition slash : Ascii.ascii := Ascii.ascii_of_nat 47.

(** Two lists that are equal, split at the first occurrence of [x] in each. *)
Lemma app_first_inj {A} (x : A) l1 l2 k1 k2 :
  x ∉ l1 → x ∉ l2 → l1 ++ x :: k1 = l2 ++ x :: k2 → l1 = l2 ∧ k1 = k2.
Proof.
  revert l2; induction l1 as [|y l1 IH]; intros [|z l2] H1 H2 He; simplify_eq/=.
  - done.
  - set_solver.
  - set_solver.
  - destruct (IH l2) as [-> ->]; [set_solver|set_solver|done|done].
Qed.

(** The part behind the last slash, and the part in front of it. *)
Lemma last_slash_inj s1 s2 t1 t2 :
  slash ∉ bytes t1 → slash ∉ bytes t2 →
  s1 +:+ "/" +:+ t1 = s2 +:+ "/" +:+ t2 → s1 = s2 ∧ t1 = t2.
Proof.
  intros H1 H2 He. apply (f_equal bytes), (f_equal reverse) in He.
  rewrite !bytes_app, !reverse_app in He.
  change (reverse (bytes "/")) with [slash] in He. rewrite <- !app_assoc in He.
  apply app_first_inj in He as [Ht Hs]; [|by rewrite elem_of_reverse..].
  split; apply bytes_inj; by apply (inj reverse).
Qed.

Lemma pretty_N_go_bytes x s c :
  (0 < x)%N → c ∈ bytes (pretty_N_go x s) →
  (∃ d, (d < 10)%N ∧ c = pretty_N_char d) ∨ c ∈ bytes s.
Proof.
  revert s. induction (N.lt_wf_0 x) as [x _ IH]; intros s Hx.
  rewrite pretty_N_go_step by done.
  assert (Hc : ∀ c, c ∈ bytes (String (pretty_N_char (x `mod` 10)) s) →
    (∃ d, (d < 10)%N ∧ c = pretty_N_char d) ∨ c ∈ bytes s).
  { intros b [->|?]%elem_of_cons; [left; eexists; split; [|done]|by right].
    by apply N.mod_lt. }
  destruct (decide (0 < x `div` 10)%N) as [Hd|Hd].
  - intros [?|Hb]%IH; [by left|by apply Hc|by apply N.div_lt|done].
  - apply N.nlt_ge, N.le_0_r in Hd. rewrite Hd, pretty_N_go_0. apply Hc.
Qed.

Lemma pretty_N_bytes (n : N) c : c ∈ bytes (pretty n) → ∃ d, (d < 10)%N ∧ c = pretty_N_char d.
Proof.
  unfold pretty, pretty_N. case_decide as Hn.
  - intros [->|?%elem_of_nil]%elem_of_cons; [|done]. by exists 0%N.
  - intros [?|?%elem_of_nil]%pretty_N_go_bytes; [done|done|lia].
Qed.

Lemma pretty_nat_no_slash (n : nat) : slash ∉ bytes (pretty n).
Proof.
  intros (d & Hd & He)%(pretty_N_bytes (N.of_nat n)).
  assert (d = 0 ∨ d = 1 ∨ d = 2 ∨ d = 3 ∨ d = 4 ∨ d = 5 ∨ d = 6 ∨ d = 7 ∨ d = 8 ∨ d = 9)%N by lia.
  naive_solver.
Qed.

Lemma append_inj s t1 t2 : s +:+ t1 = s +:+ t2 → t1 = t2.
Proof. induction s as [|c s IH]; simpl; [done|]. intros [= ?]. auto. Qed.

Lemma append_assoc s t u : (s +:+ t) +:+ u = s +:+ t +:+ u.
Proof. induction s as [|c s IH]; [done|]. by apply (f_equal (String.String c)). Qed.

Lemma list_bind_fmap {A B C} (f : A → B) (g : B → list C) l :
  (f <$> l) ≫= g = l ≫= λ x, g (f x).
Proof. induction l as [|x l IH]; csimpl; [done|]. by rewrite IH. Qed.

Lemma sublist_fmap {A B} (f : A → B) l k : l `sublist_of` k → f <$> l `sublist_of` f <$> k.
Proof. induction 1; csimpl; by constructor. Qed.

Lemma submseteq_NoDup {A} (l k : list A) : l ⊆+ k → NoDup k → NoDup l.
Proof. intros [r ->]%submseteq_Permutation. rewrite NoDup_app. tauto. Qed.

Lemma list_filter_iff_strong {A} (P Q : A → Prop) `{∀ x, Decision (P x), ∀ x, Decision (Q x)} (l : list A) :
  (∀ x, x ∈ l → P x ↔ Q x) → filter P l = filter Q l.
Proof.
  induction l as [|x l IH]; intros HPQ; [done|]. rewrite !filter_cons.
  rewrite IH by (intros; apply HPQ; by right). pose proof (HPQ x (list_elem_of_here _ _)).
  repeat case_decide; tauto.
Qed.

(** ** Trimming and lower case *)

Lemma drop_while_nil {A} (f : A → bool) l : drop_while f l = [] ↔ Forall (λ x, f x = true) l.
Proof.
  induction l as [|x l IH]; simpl; [by rewrite Forall_nil|]. rewrite Forall_cons.
  destruct (f x); [naive_solver|]. naive_solver.
Qed.

Lemma drop_while_suffix {A} (f : A → bool) l :
  ∃ k, l = k ++ drop_while f l ∧ Forall (λ x, f x = true) k.
Proof.
  induction l as [|x l (k & Hk & Hf)]; simpl; [by exists []|]. destruct (f x) eqn:Hx.
  - exists (x :: k). split; [simpl; by f_equal|by constructor].
  - by exists [].
Qed.

Lemma trim_list_nil {A} (f : A → bool) l : trim_list f l = [] ↔ Forall (λ x, f x = true) l.
Proof.
  unfold trim_list. destruct (drop_while_suffix f l) as (k & Hk & Hf). split.
  - intros H. apply (f_equal (@rev A)) in H. rewrite rev_involutive in H. simpl in H.
    apply drop_while_nil in H. rewrite Hk. apply Forall_app. split; [done|].
    apply Forall_forall. intros x Hx. rewrite Forall_forall in H.
    apply H, list_elem_of_In, in_rev. rewrite rev_involutive. by apply list_elem_of_In.
  - intros H. apply drop_while_nil in H. by rewrite H.
Qed.

Lemma trim_list_elem {A} (f : A → bool) l x : x ∈ l → f x = false → x ∈ trim_list f l.
Proof.
  intros Hx Hf. unfold trim_list.
  assert (H : ∀ l, x ∈ l → x ∈ drop_while f l).
  { intros l' Hl'. destruct (drop_while_suffix f l') as (k & Hk & Hall). rewrite Hk in Hl'.
    apply elem_of_app in Hl' as [Hl'|?]; [|done]. rewrite Forall_forall in Hall.
    specialize (Hall x Hl'). congruence. }
  rewrite list_elem_of_In, <- in_rev, <- list_elem_of_In. apply H.
  rewrite list_elem_of_In, <- in_rev, <- list_elem_of_In. by apply H.
Qed.

Lemma bytes_of_bytes l : bytes (of_bytes l) = l.
Proof. apply String.list_ascii_of_string_of_list_ascii. Qed.

Lemma of_bytes_nil l : of_bytes l = EmptyString ↔ l = [].
Proof. by destruct l. Qed.

(** Trimming leaves nothing to trim. *)
Lemma drop_while_head {A} (f : A → bool) l c : head (drop_while f l) = Some c → f c = false.
Proof. induction l as [|x l IH]; simpl; [done|]. destruct (f x) eqn:E; [done|]. by intros [= <-]. Qed.

Lemma last_rev {A} (l : list A) : last (rev l) = head l.
Proof. rewrite rev_alt. apply last_reverse. Qed.

Lemma drop_while_last {A} (f : A → bool) l c : last (drop_while f l) = Some c → last l = Some c.
Proof.
  intros Hc. destruct (drop_while_suffix f l) as (k & Hk & _). rewrite Hk, last_app, Hc. done.
Qed.

Lemma head_rev {A} (l : list A) : head (rev l) = last l.
Proof. rewrite <- (rev_involutive l) at 2. by rewrite last_rev. Qed.

Lemma trim_list_edges {A} (f : A → bool) l :
  (∀ c, head (trim_list f l) = Some c → f c = false) ∧
  (∀ c, last (trim_list f l) = Some c → f c = false).
Proof.
  unfold trim_list. split; intros c.
  - rewrite head_rev. intros Hc%drop_while_last. rewrite last_rev in Hc. by apply drop_while_head in Hc.
  - rewrite last_rev. apply drop_while_head.
Qed.

Lemma drop_while_id {A} (f : A → bool) l :
  (∀ c, head l = Some c → f c = false) → drop_while f l = l.
Proof. destruct l as [|c l]; [done|]. intros Hf. simpl. by rewrite (Hf c eq_refl). Qed.

Lemma trim_list_id {A} (f : A → bool) l :
  (∀ c, head l = Some c → f c = false) → (∀ c, last l = Some c → f c = false) → trim_list f l = l.
Proof.
  intros Hh Hl. unfold trim_list. rewrite (drop_while_id f l) by done. rewrite drop_while_id.
  - apply rev_involutive.
  - intros c. rewrite head_rev. apply Hl.
Qed.

Lemma trim_list_idemp {A} (f : A → bool) l : trim_list f (trim_list f l) = trim_list f l.
Proof. apply trim_list_id; apply trim_list_edges. Qed.

Lemma drop_while_Forall {A} (f : A → bool) (P : A → Prop) l : Forall P l → Forall P (drop_while f l).
Proof.
  intros HP. destruct (drop_while_suffix f l) as (k & Hk & _). rewrite Hk in HP.
  by apply Forall_app in HP as [_ ?].
Qed.

Lemma Forall_rev_iff {A} (P : A → Prop) (l : list A) : Forall P (rev l) ↔ Forall P l.
Proof. split; intros HP%Forall_rev; [by rewrite rev_involutive in HP|done]. Qed.

Lemma trim_list_Forall {A} (f : A → bool) (P : A → Prop) l : Forall P l → Forall P (trim_list f l).
Proof. intros HP. apply Forall_rev_iff, drop_while_Forall, Forall_rev_iff. by apply drop_while_Forall. Qed.

(** A string is blank when it has spaces only. *)
Lemma TrimSpace_blank s : TrimSpace s = "" ↔ Forall (λ c, is_space c = true) (bytes s).
Proof. unfold TrimSpace. by rewrite of_bytes_nil, trim_list_nil. Qed.

Lemma ToLower_bytes s : bytes (ToLower s) = ascii_lower <$> bytes s.
Proof. apply bytes_of_bytes. Qed.

Lemma is_space_lower c : is_space (ascii_lower c) = is_space c.
Proof. by destruct c as [[] [] [] [] [] [] [] []]. Qed.

Lemma ToLower_blank s : TrimSpace (ToLower s) = "" ↔ TrimSpace s = "".
Proof.
  rewrite !TrimSpace_blank, ToLower_bytes, Forall_fmap. apply Forall_proper; [|done].
  intros c. simpl. by rewrite is_space_lower.
Qed.

Lemma TrimSpace_idem_blank s : TrimSpace (TrimSpace s) = "" ↔ TrimSpace s = "".
Proof.
  rewrite !TrimSpace_blank. unfold TrimSpace. rewrite bytes_of_bytes. split.
  - intros H. apply Forall_forall. intros c Hc. destruct (is_space c) eqn:E; [done|].
    rewrite Forall_forall in H. rewrite <- E. apply H. by apply trim_list_elem.
  - intros H. by rewrite (proj2 (trim_list_nil _ _) H).
Qed.

Lemma ToLower_empty s : ToLower s = "" ↔ s = "".
Proof. unfold ToLower. rewrite of_bytes_nil. destruct s; split; intros H; by inversion H. Qed.

(** A normalised profile name is empty exactly when it is blank. *)
Lemma normalized_blank s : TrimSpace (ToLower (TrimSpace s)) = "" ↔ ToLower (TrimSpace s) = "".
Proof. by rewrite ToLower_blank, TrimSpace_idem_blank, ToLower_empty. Qed.

Lemma TrimSpace_idemp s : TrimSpace (TrimSpace s) = TrimSpace s.
Proof. unfold TrimSpace. by rewrite bytes_of_bytes, trim_list_idemp. Qed.

(** The canonical form of a name is canonical. *)
Lemma ascii_lower_idemp c : ascii_lower (ascii_lower c) = ascii_lower c.
Proof. by destruct c as [[] [] [] [] [] [] [] []]. Qed.

Lemma TrimSpace_lower_idemp s :
  ToLower (TrimSpace (ToLower (TrimSpace s))) = ToLower (TrimSpace s).
Proof.
  unfold ToLower, TrimSpace. rewrite !bytes_of_bytes. set (l := trim_list is_space (bytes s)).
  assert (trim_list is_space (ascii_lower <$> l) = ascii_lower <$> l) as ->.
  { destruct (trim_list_edges is_space (bytes s)) as [Hh Hl]. apply trim_list_id; intros c.
    - fold l in Hh. destruct l as [|d k]; [done|]. intros [= <-]. rewrite is_space_lower. by apply Hh.
    - rewrite fmap_last. intros (d & Hd & ->)%fmap_Some. rewrite is_space_lower. by apply Hl. }
  f_equal. rewrite <- list_fmap_compose. apply list_fmap_ext. intros i c _. apply ascii_lower_idemp.
Qed.

(** Text that [encoding/json] writes and reads back unchanged: what is not UTF-8 would be replaced. *)
Definition ascii_text (s : string) : Prop :=
  Forall (λ c, (Ascii.nat_of_ascii c < 128)%nat) (bytes s).

Lemma ascii_text_lower s : ascii_text s → ascii_text (ToLower s).
Proof.
  unfold ascii_text, ToLower. rewrite bytes_of_bytes. intros Hs. apply Forall_fmap.
  eapply Forall_impl; [exact Hs|]. intros c Hc. cbn.
  by destruct c as [[] [] [] [] [] [] [] []]; vm_compute in Hc |- *; lia.
Qed.

Lemma ascii_text_trim s : ascii_text s → ascii_text (TrimSpace s).
Proof. unfold ascii_text, TrimSpace. rewrite bytes_of_bytes. apply trim_list_Forall. Qed.

(** Numbers as text, for the codecs of the examples. *)
Fixpoint digits_of (p : positive) : string :=
  match p with
  | xH => ""
  | xO p => String (Ascii.ascii_of_nat 48) (digits_of p)
  | xI p => String (Ascii.ascii_of_nat 49) (digits_of p)
  end.

Fixpoint of_digits (s : string) : positive :=
  match s with
  | EmptyString => xH
  | String c s => if decide (c = Ascii.ascii_of_nat 48) then xO (of_digits s) else xI (of_digits s)
  end.

Lemma digits_round_trip p : of_digits (digits_of p) = p.
Proof. induction p as [p IH|p IH|]; cbn; by rewrite ?IH. Qed.
