(* ===== verification/GoFloat.v ===== *)
(** * float64

    IEEE 754 binary64 arithmetic through the executable operations of [SpecFloat] (precision 53,
    largest exponent 1024, round to nearest even), and the functions of Go's [math] package that
    the runtime estimator calls.  Every operation rounds on its own: the compiler may fuse
    [x*y + z] on some platforms, amd64 at its default level does not. *)

From stdpp Require Import prelude countable.
From Stdlib Require Import SpecFloat.
From S2P Require Import Prelude.

Local Open Scope Z_scope.

Abbreviation float64 := spec_float.

#[export] Instance float64_eq_dec : EqDecision float64.
Proof. solve_decision. Defined.

#[export] Instance float64_countable : Countable float64.
Proof.
  refine (inj_countable'
    (λ f, match f with
          | SpecFloat.S754_zero s => inl (inl s)
          | SpecFloat.S754_infinity s => inl (inr s)
          | SpecFloat.S754_nan => inr (inl ())
          | SpecFloat.S754_finite s m e => inr (inr (s, m, e))
          end)
    (λ x, match x with
          | inl (inl s) => SpecFloat.S754_zero s
          | inl (inr s) => SpecFloat.S754_infinity s
          | inr (inl ()) => SpecFloat.S754_nan
          | inr (inr (s, m, e)) => SpecFloat.S754_finite s m e
          end) _); by intros [].
Defined.

Definition fadd : float64 → float64 → float64 := SFadd 53 1024.
Definition fsub : float64 → float64 → float64 := SFsub 53 1024.
Definition fmul : float64 → float64 → float64 := SFmul 53 1024.
Definition fdiv : float64 → float64 → float64 := SFdiv 53 1024.
Definition flt (x y : float64) : bool := SFltb x y.
Definition fgt (x y : float64) : bool := SFltb y x.
Definition fle (x y : float64) : bool := SFleb x y.
Definition feq (x y : float64) : bool := SFeqb x y.

(** [float64(n)] for an integer [n]. *)
Definition of_int (n : Z) : float64 := binary_normalize 53 1024 n 0 false.

(** The constant [n/d] of the source: the quotient of two exact values, rounded once. *)
Definition lit (n d : Z) : float64 := fdiv (of_int n) (of_int d).

Declare Scope float_scope.
Delimit Scope float_scope with F.
Notation "x + y" := (fadd x y) : float_scope.
Notation "x - y" := (fsub x y) : float_scope.
Notation "x * y" := (fmul x y) : float_scope.
Notation "x / y" := (fdiv x y) : float_scope.
Notation "x <? y" := (flt x y) : float_scope.
Notation "x >? y" := (fgt x y) : float_scope.
Notation "x <=? y" := (fle x y) : float_scope.
Notation "x =? y" := (feq x y) : float_scope.

(** A finite constant given by its mantissa and binary exponent. *)
Definition bits (m : positive) (e : Z) : float64 := S754_finite false m e.

Definition fone : float64 := of_int 1.
Definition fzero : float64 := of_int 0.

Definition fsqrt : float64 → float64 := SFsqrt 53 1024.
Definition frexp (x : float64) : float64 * Z := SFfrexp 53 1024 x.

(** [math.Ceil]. *)
Definition fceil (x : float64) : float64 :=
  match x with
  | S754_finite s m e =>
      if (0 <=? e)%Z then x
      else
        let v := cond_Zopp s (Zpos m) in
        let c := (- ((- v) / 2 ^ (- e)))%Z in
        binary_normalize 53 1024 c 0 s
  | _ => x
  end.

(** [math.Log]: argument reduction and the polynomial of the FreeBSD [__ieee754_log]. *)
Definition Ln2Hi : float64 := bits 6243314766446592 (-53).
Definition Ln2Lo : float64 := bits 7382048951581814 (-85).
Definition L1 : float64 := bits 6004799503160723 (-53).
Definition L2 : float64 := bits 7205759403686404 (-54).
Definition L3 : float64 := bits 5146971033736025 (-54).
Definition L4 : float64 := bits 8006390766270639 (-55).
Definition L5 : float64 := bits 6551322304906206 (-55).
Definition L6 : float64 := bits 5517391500461727 (-55).
Definition L7 : float64 := bits 5331612937900612 (-55).
Definition half_sqrt2 : float64 := bits 6369051672525773 (-53).

Definition flog (x : float64) : float64 :=
  match x with
  | S754_nan => S754_nan
  | S754_infinity false => x
  | S754_infinity true => S754_nan
  | S754_zero _ => S754_infinity true
  | S754_finite true _ _ => S754_nan
  | S754_finite false _ _ =>
      let '(f0, k0) := frexp x in
      let '(f1, ki) := if (f0 <? half_sqrt2)%F then ((f0 * of_int 2)%F, (k0 - 1)%Z) else (f0, k0) in
      let f := (f1 - fone)%F in
      let k := of_int ki in
      let s := (f / (of_int 2 + f))%F in
      let s2 := (s * s)%F in
      let s4 := (s2 * s2)%F in
      let t1 := (s2 * (L1 + s4 * (L3 + s4 * (L5 + s4 * L7))))%F in
      let t2 := (s4 * (L2 + s4 * (L4 + s4 * L6)))%F in
      let R := (t1 + t2)%F in
      let hfsq := (lit 1 2 * f * f)%F in
      (k * Ln2Hi - ((hfsq - (s * (hfsq + R) + k * Ln2Lo)) - f))%F
  end.

(** The constant [1/Ln2], and [math.Log2], exact on powers of two. *)
Definition inv_ln2 : float64 := bits 6497320848556798 (-52).

Definition flog2 (x : float64) : float64 :=
  let '(frac, e) := frexp x in
  if (frac =? lit 1 2)%F then of_int (e - 1)
  else (flog frac * inv_ln2 + of_int e)%F.
