(* ===== verification/SimModel.v ===== *)
(** * Data model of the simulator (internal/sim/model.go, and the profile tables of contract.go)

    The structs of the simulator package with their fields, the embedded hardware profiles, and
    the validation and reference values computed from them when the package is initialised. *)

From stdpp Require Import prelude gmap strings pretty.
From S2P Require Import Prelude GoFloat.

Local Open Scope Z_scope.
Local Open Scope go_scope.

(** ** Fleet *)

Record GPUNodePoolSpec := {
  sp_NodeCount : Z;
  sp_DevicesPerNode : Z;
  sp_MemoryMiBPerDevice : Z;
  sp_DeviceType : string;
  sp_Profile : string;
}.

Record Device := {
  d_ID : string;
  d_MemoryMiB : Z;
  d_DeviceType : string;
  d_Profile : string;
}.

Record Node := { n_ID : string; n_Devices : list Device }.

Record Allocation := { a_WorkloadID : string; a_DeviceIDs : list string }.

Definition PlacementPolicyFirstFit : string := "first_fit".
Definition PlacementPolicyPack : string := "pack".
Definition PlacementPolicySpread : string := "spread".
Definition PlacementPolicyLocalityAware : string := "locality_aware".

Record AllocationOptions := {
  o_PlacementPolicy : string;
  o_RequireSameNode : bool;
  o_MaxNodes : Z;
  o_PreferredDeviceType : string;
  o_PreferredProfile : string;
}.

(** ** Workload kinds: the eight constants of the [WorkloadKind] string type *)

Definition WorkloadKindTraining : string := "training".
Definition WorkloadKindInference : string := "inference".
Definition WorkloadKindEval : string := "eval".
Definition WorkloadKindFineTune : string := "fine_tune".
Definition WorkloadKindRLHF : string := "rlhf".
Definition WorkloadKindEmbedding : string := "embedding".
Definition WorkloadKindDataPreprocess : string := "data_preprocess".
Definition WorkloadKindDistillation : string := "distillation".

Definition workloadKinds : list string :=
  [WorkloadKindTraining; WorkloadKindInference; WorkloadKindEval; WorkloadKindFineTune;
   WorkloadKindRLHF; WorkloadKindEmbedding; WorkloadKindDataPreprocess;
   WorkloadKindDistillation].

(** The [switch kind { case ...: default: }] the validations share. *)
Definition supportedKind (kind : string) : bool := bool_decide (kind ∈ workloadKinds).

(** ** Runtime inputs *)

Record TrainingRuntime := {
  tr_GlobalBatchSize : Z;
  tr_MicroBatchSize : Z;
  tr_GradAccumSteps : Z;
  tr_SequenceLength : Z;
}.

Record InferenceRuntime := { inf_BatchSize : Z }.

Record EvalRuntime := {
  ev_BatchSize : Z;
  ev_MetricOverheadPct : float64;
  ev_ValidationOverheadPct : float64;
}.

Record FineTuneRuntime := {
  ft_GlobalBatchSize : Z;
  ft_MicroBatchSize : Z;
  ft_GradAccumSteps : Z;
  ft_WarmStartOverheadPct : float64;
  ft_CheckpointLoadOverheadPct : float64;
}.

Record RLHFRuntime := {
  rl_RolloutBatchSize : Z;
  rl_RewardBatchSize : Z;
  rl_UpdateBatchSize : Z;
  rl_PolicyUpdateSteps : Z;
}.

Record EmbeddingRuntime := {
  em_BatchSize : Z;
  em_VectorDimension : Z;
  em_AvgTokenLength : Z;
}.

Record DataPreprocessRuntime := {
  dp_InputBytes : Z;
  dp_TokenizationOverheadPct : float64;
  dp_AugmentationOverheadPct : float64;
}.

Record DistillationRuntime := {
  di_TeacherProfile : string;
  di_BatchSize : Z;
  di_TeacherForwardOverheadPct : float64;
}.

Record JitterConfig := { j_Enabled : bool; j_Pct : float64; j_Seed : Z }.

(** A nil pointer is [None]. *)
Record RuntimeInput := {
  ri_WorkloadID : string;
  ri_Tokens : Z;
  ri_Profile : string;
  ri_Kind : string;
  ri_Training : option TrainingRuntime;
  ri_Inference : option InferenceRuntime;
  ri_Eval : option EvalRuntime;
  ri_FineTune : option FineTuneRuntime;
  ri_RLHF : option RLHFRuntime;
  ri_Embedding : option EmbeddingRuntime;
  ri_DataPreprocess : option DataPreprocessRuntime;
  ri_Distillation : option DistillationRuntime;
  ri_Jitter : option JitterConfig;
}.

(** The four constants of [RunStatus], and any other value of the string type. *)
Inductive RunStatus :=
| RunStatusRunning
| RunStatusSucceeded
| RunStatusFailed
| RunStatusPreempted
| RunStatusOther (s : string).

#[export] Instance RunStatus_eq_dec : EqDecision RunStatus.
Proof. solve_decision. Defined.

(** ** Hardware profiles *)

Record HardwareProfile := {
  hp_Name : string;
  hp_MemoryMiB : Z;
  hp_MemBandwidthGBps : float64;
  hp_PeakTFLOPSBF16 : option float64;
  hp_InterconnectGBps : option float64;
  hp_Notes : string;
  hp_SourceURL : string;
  hp_SourceURLs : list string;
}.

(** The decoded contents of the embedded hardware_profiles.json. *)
Definition hardwareProfilesJSON : list HardwareProfile :=
  [ {| hp_Name := "h100_sxm"; hp_MemoryMiB := 81920; hp_MemBandwidthGBps := of_int 3350;
       hp_PeakTFLOPSBF16 := Some (of_int 989); hp_InterconnectGBps := Some (of_int 900);
       hp_Notes := "H100 SXM profile for simulator calibration; compute/interconnect are approximate published peak values.";
       hp_SourceURL := "https://www.nvidia.com/en-us/data-center/h100/";
       hp_SourceURLs :=
         ["https://resources.nvidia.com/en-us-tensor-core/nvidia-tensor-core-gpu-datasheet";
          "https://www.nvidia.com/en-us/data-center/h100/"] |};
    {| hp_Name := "a100_80gb"; hp_MemoryMiB := 81920; hp_MemBandwidthGBps := of_int 2039;
       hp_PeakTFLOPSBF16 := Some (of_int 312); hp_InterconnectGBps := None;
       hp_Notes := "A100 80GB profile for simulator calibration; BF16 value uses Tensor Core peak.";
       hp_SourceURL := "https://www.nvidia.com/en-us/data-center/a100/";
       hp_SourceURLs :=
         ["https://www.nvidia.com/content/dam/en-zz/Solutions/Data-Center/a100/pdf/nvidia-a100-datasheet-us-nvidia-1758950-r4-web.pdf";
          "https://www.nvidia.com/en-us/data-center/a100/"] |};
    {| hp_Name := "tpu_v5e_chip"; hp_MemoryMiB := 16384; hp_MemBandwidthGBps := of_int 819;
       hp_PeakTFLOPSBF16 := None; hp_InterconnectGBps := None;
       hp_Notes := "Cloud TPU v5e single-chip profile for simulator calibration.";
       hp_SourceURL := "https://cloud.google.com/tpu/docs/v5e";
       hp_SourceURLs := ["https://cloud.google.com/tpu/docs/v5e"] |};
    {| hp_Name := "trn1_instance"; hp_MemoryMiB := 524288; hp_MemBandwidthGBps := of_int 8200;
       hp_PeakTFLOPSBF16 := None; hp_InterconnectGBps := None;
       hp_Notes := "Trn1.32xlarge aggregate profile for simulator calibration across 16 Trainium devices.";
       hp_SourceURL := "https://aws.amazon.com/ec2/instance-types/trn1/";
       hp_SourceURLs :=
         ["https://aws.amazon.com/ec2/instance-types/trn1/";
          "https://aws.amazon.com/machine-learning/trainium/"] |} ].

(** [mustLoadHardwareProfilesFromJSON] on the decoded list; [Err] is the panic. *)
Definition loadProfile (out : gmap string HardwareProfile) (p : HardwareProfile)
    : Result (gmap string HardwareProfile) :=
  let key := ToLower (TrimSpace (hp_Name p)) in
  let bad msg := Err (Errorf ("invalid hardware profile " +:+ Quote key +:+ ": " +:+ msg)) in
  if decide (key = "") then Err (Errorf "invalid hardware profile: missing name")
  else if decide (is_Some (out !! key)) then bad "duplicate name"
  else if hp_MemoryMiB p <=? 0 then bad "memoryMiB must be > 0"
  else if (hp_MemBandwidthGBps p <=? fzero)%F then bad "memBandwidthGBps must be > 0"
  else if decide (TrimSpace (hp_Notes p) = "") then bad "notes is required"
  else if decide (TrimSpace (hp_SourceURL p) = "") then bad "source_url is required"
  else match range_error (λ i u, if decide (TrimSpace u = "")
                                 then Some (Errorf ("invalid hardware profile " +:+ Quote key
                                        +:+ ": source_urls[" +:+ pretty i +:+ "] is empty"))
                                 else None) 0 (hp_SourceURLs p) with
       | Some e => Err e
       | None =>
           Ok (<[key := {| hp_Name := key; hp_MemoryMiB := hp_MemoryMiB p;
                           hp_MemBandwidthGBps := hp_MemBandwidthGBps p;
                           hp_PeakTFLOPSBF16 := hp_PeakTFLOPSBF16 p;
                           hp_InterconnectGBps := hp_InterconnectGBps p;
                           hp_Notes := hp_Notes p; hp_SourceURL := hp_SourceURL p;
                           hp_SourceURLs := hp_SourceURLs p |}]> out)
       end.

Fixpoint mustLoadHardwareProfiles (out : gmap string HardwareProfile)
    (l : list HardwareProfile) : Result (gmap string HardwareProfile) :=
  match l with
  | [] => Ok out
  | p :: l' => match loadProfile out p with
               | Ok out' => mustLoadHardwareProfiles out' l'
               | Err e => Err e
               end
  end.

(** The package variable [hardwareProfiles], and [HardwareProfiles()], which copies it.  The
    package initialiser panics on an [Err]; [hardwareProfiles_load] shows that it does not. *)
Definition hardwareProfiles : gmap string HardwareProfile :=
  match mustLoadHardwareProfiles ∅ hardwareProfilesJSON with Ok m => m | Err _ => ∅ end.

Definition HardwareProfiles : gmap string HardwareProfile := hardwareProfiles.

Definition profileTokensPerSecond : gmap string float64 :=
  list_to_map [("h100_sxm", of_int 12000); ("a100_80gb", of_int 7000);
               ("tpu_v5e_chip", of_int 6500); ("trn1_instance", of_int 5000)].

(** [medianFloat64]: [sort.Float64s] orders the values, none of which is NaN. *)
Definition medianFloat64 (values : list float64) (fallback : float64) : float64 :=
  match values with
  | [] => fallback
  | _ =>
      let sorted := SliceStable flt values in
      let mid := (length sorted / 2)%nat in
      if (length sorted mod 2 =? 1)%nat then default fzero (sorted !! mid)
      else ((default fzero (sorted !! (mid - 1)%nat) + default fzero (sorted !! mid)) / of_int 2)%F
  end.

Record hardwareRuntimeReferences := {
  ref_memBandwidthGBps : float64;
  ref_peakTFLOPSBF16 : float64;
  ref_interconnectGBps : float64;
}.

Definition deriveHardwareRuntimeReferences `{MapIter} (profiles : gmap string HardwareProfile)
    : hardwareRuntimeReferences :=
  let ps := (map_iter profiles).*2 in
  let positive (o : option float64) : list float64 :=
    match o with Some x => if (x >? fzero)%F then [x] else [] | None => [] end in
  {| ref_memBandwidthGBps :=
       medianFloat64 (ps ≫= λ p, positive (Some (hp_MemBandwidthGBps p))) fone;
     ref_peakTFLOPSBF16 := medianFloat64 (ps ≫= λ p, positive (hp_PeakTFLOPSBF16 p)) fone;
     ref_interconnectGBps := medianFloat64 (ps ≫= λ p, positive (hp_InterconnectGBps p)) fone |}.

(** ** Facts *)

(** The embedded table passes the checks of the loader: the initialiser does not panic. *)
Lemma hardwareProfiles_load :
  mustLoadHardwareProfiles ∅ hardwareProfilesJSON = Ok hardwareProfiles.
Proof.
  assert (match mustLoadHardwareProfiles ∅ hardwareProfilesJSON with Ok _ => true | Err _ => false end
          = true) as H by (vm_compute; reflexivity).
  unfold hardwareProfiles. by destruct (mustLoadHardwareProfiles _ _).
Qed.

(** Every profile with a base throughput has hardware metadata, and conversely. *)
Lemma profile_tables_agree p :
  is_Some (profileTokensPerSecond !! p) ↔ is_Some (hardwareProfiles !! p).
Proof.
  assert (bool_decide (dom profileTokensPerSecond = dom hardwareProfiles) = true) as H
    by (vm_compute; reflexivity).
  apply bool_decide_eq_true_1 in H. by rewrite <- !elem_of_dom, H.
Qed.
