(* ===== verification/SchedInputs.v ===== *)
(** * Scheduler inputs (internal/scheduler/inputs.go)

    The scheduler's view of a namespace: queued, scheduled and running workloads, the free
    capacity of the fleet, the tenant quotas; the validation of that view and the virtual admission
    that batching applies to it. *)

From stdpp Require Import prelude gmap strings sorting pretty.
From S2P Require Import Prelude GoFloat SimModel.

Local Open Scope Z_scope.
Local Open Scope go_scope.

Record QueuedWorkload := {
  q_WorkloadID : string;
  q_Tenant : string;
  q_Priority : Z;
  q_QueuedAt : Time;
  q_GPUCount : Z;
  q_GPUMemoryMiB : Z;
  q_Profile : string;
  q_Tokens : Z;
  q_Kind : string;
}.

Record RunningWorkload := {
  r_WorkloadID : string;
  r_Tenant : string;
  r_Priority : Z;
  r_StartedAt : Time;
  r_GPUCount : Z;
  r_GPUMemoryMiB : Z;
  r_Profile : string;
  r_Tokens : Z;
  r_Kind : string;
}.

Record ProfileFreeCapacity := {
  c_FreeDevices : Z;
  c_FreeMemoryMiB : Z;
  c_MemoryMiBPerDevice : Z;
}.

(** A nil [ByProfile] is [None]; reading it is reading an empty map ([byProfile]). *)
Record FleetFreeCapacity := {
  f_TotalFreeDevices : Z;
  f_TotalFreeMemoryMiB : Z;
  f_ByProfile : option (gmap string ProfileFreeCapacity);
}.

Record TenantQuota := { t_MaxGPUs : Z; t_MaxMemoryMiB : Z; t_Weight : Z }.

Record SchedulingInputs := {
  in_QueuedWorkloads : list QueuedWorkload;
  in_ScheduledWorkloads : list RunningWorkload;
  in_RunningWorkloads : list RunningWorkload;
  in_FleetFreeCapacity : FleetFreeCapacity;
  in_TenantQuotas : gmap string TenantQuota;
}.

#[export] Instance QueuedWorkload_eq_dec : EqDecision QueuedWorkload.
Proof. solve_decision. Defined.
#[export] Instance RunningWorkload_eq_dec : EqDecision RunningWorkload.
Proof. solve_decision. Defined.
#[export] Instance ProfileFreeCapacity_eq_dec : EqDecision ProfileFreeCapacity.
Proof. solve_decision. Defined.

Definition byProfile (fleet : FleetFreeCapacity) : gmap string ProfileFreeCapacity :=
  default ∅ (f_ByProfile fleet).

(** ** Validate *)

(** [fmt.Errorf("coll[%d]: ...", i)] *)
Definition at_index (coll : string) (i : nat) (msg : string) : error :=
  Errorf (coll +:+ "[" +:+ pretty i +:+ "]: " +:+ msg).

Definition got (n : Z) : string := ", got " +:+ pretty n.

(** The checks the three loops make on a workload after those on its id; [missing] is the check on
    its time stamp. *)
Definition checkRequest (missing : option string) (tenant : string) (gpuCount gpuMemoryMiB : Z)
    (profile : string) (tokens : Z) (kind : string) : option string :=
  if decide (TrimSpace tenant = "") then Some "tenant is required"
  else match missing with
  | Some msg => Some msg
  | None =>
  if gpuCount <=? 0 then Some ("gpuCount must be positive" +:+ got gpuCount)
  else if gpuMemoryMiB <=? 0 then Some ("gpuMemoryMiB must be positive" +:+ got gpuMemoryMiB)
  else if decide (TrimSpace profile = "") then Some "profile is required"
  else if tokens <=? 0 then Some ("tokens must be positive" +:+ got tokens)
  else if negb (supportedKind kind) then Some ("unsupported kind " +:+ Quote kind)
  else None
  end.

(** The checks on the id: required, and not among the ids seen so far. *)
Definition checkID (seen : gset string) (id : string) : option string :=
  if decide (TrimSpace id = "") then Some "workloadID is required"
  else if decide (id ∈ seen) then Some ("duplicate workloadID " +:+ Quote id)
  else None.

(** A loop over workloads: the ids seen so far are threaded through. *)
Fixpoint validateLoop {A} (coll : string) (id : A → string) (check : A → option string)
    (seen : gset string) (i : nat) (l : list A) : Result (gset string) :=
  match l with
  | [] => Ok seen
  | w :: l' =>
      match checkID seen (id w) with
      | Some msg => Err (at_index coll i msg)
      | None =>
          match check w with
          | Some msg => Err (at_index coll i msg)
          | None => validateLoop coll id check ({[id w]} ∪ seen) (S i) l'
          end
      end
  end.

Definition checkQueued (w : QueuedWorkload) : option string :=
  checkRequest (if IsZero (q_QueuedAt w) then Some "queuedAt is required" else None)
    (q_Tenant w) (q_GPUCount w) (q_GPUMemoryMiB w) (q_Profile w) (q_Tokens w) (q_Kind w).

Definition checkScheduled (w : RunningWorkload) : option string :=
  checkRequest None
    (r_Tenant w) (r_GPUCount w) (r_GPUMemoryMiB w) (r_Profile w) (r_Tokens w) (r_Kind w).

Definition checkRunning (w : RunningWorkload) : option string :=
  checkRequest (if IsZero (r_StartedAt w) then Some "startedAt is required" else None)
    (r_Tenant w) (r_GPUCount w) (r_GPUMemoryMiB w) (r_Profile w) (r_Tokens w) (r_Kind w).

(** The loop over [ByProfile] with its two running sums. *)
Fixpoint validateProfiles (sumDevices sumMemory : Z)
    (l : list (string * ProfileFreeCapacity)) : Result (Z * Z) :=
  match l with
  | [] => Ok (sumDevices, sumMemory)
  | (profile, cap) :: l' =>
      let fail msg :=
        Err (Errorf ("fleetFreeCapacity.byProfile[" +:+ Quote profile +:+ "]." +:+ msg)) in
      if decide (TrimSpace profile = "")
      then Err (Errorf "fleetFreeCapacity.byProfile has empty profile key")
      else if c_FreeDevices cap <? 0
           then fail ("freeDevices must be >= 0" +:+ got (c_FreeDevices cap))
      else if c_FreeMemoryMiB cap <? 0
           then fail ("freeMemoryMiB must be >= 0" +:+ got (c_FreeMemoryMiB cap))
      else if (0 <? c_FreeDevices cap) && (c_MemoryMiBPerDevice cap <=? 0)
           then fail ("memoryMiBPerDevice must be > 0 when freeDevices > 0"
                      +:+ got (c_MemoryMiBPerDevice cap))
      else validateProfiles (sumDevices [+] c_FreeDevices cap)
                            (sumMemory [+] c_FreeMemoryMiB cap) l'
  end.

Definition validateQuota (e : string * TenantQuota) : option error :=
  let '(tenant, q) := e in
  let fail field n :=
    Some (Errorf ("tenantQuotas[" +:+ Quote tenant +:+ "]." +:+ field +:+ " must be >= 0"
                  +:+ got n)) in
  if decide (TrimSpace tenant = "") then Some (Errorf "tenantQuotas has empty tenant key")
  else if t_MaxGPUs q <? 0 then fail "maxGPUs" (t_MaxGPUs q)
  else if t_MaxMemoryMiB q <? 0 then fail "maxMemoryMiB" (t_MaxMemoryMiB q)
  else if t_Weight q <? 0 then fail "weight" (t_Weight q)
  else None.

Definition Validate `{MapIter} (inp : SchedulingInputs) : option error :=
  match validateLoop "queuedWorkloads" q_WorkloadID checkQueued ∅ 0 (in_QueuedWorkloads inp) with
  | Err e => Some e
  | Ok seen1 =>
  match validateLoop "scheduledWorkloads" r_WorkloadID checkScheduled seen1 0
          (in_ScheduledWorkloads inp) with
  | Err e => Some e
  | Ok seen2 =>
  match validateLoop "runningWorkloads" r_WorkloadID checkRunning seen2 0 (in_RunningWorkloads inp) with
  | Err e => Some e
  | Ok _ =>
  let fleet := in_FleetFreeCapacity inp in
  if f_TotalFreeDevices fleet <? 0
  then Some (Errorf ("fleetFreeCapacity.totalFreeDevices must be >= 0"
                     +:+ got (f_TotalFreeDevices fleet)))
  else if f_TotalFreeMemoryMiB fleet <? 0
  then Some (Errorf ("fleetFreeCapacity.totalFreeMemoryMiB must be >= 0"
                     +:+ got (f_TotalFreeMemoryMiB fleet)))
  else match validateProfiles 0 0 (map_iter (byProfile fleet)) with
  | Err e => Some e
  | Ok (sumDevices, sumMemory) =>
  if negb (sumDevices =? f_TotalFreeDevices fleet)
  then Some (Errorf ("fleetFreeCapacity totals mismatch: totalFreeDevices="
                     +:+ pretty (f_TotalFreeDevices fleet) +:+ " but byProfile sums to "
                     +:+ pretty sumDevices))
  else if negb (sumMemory =? f_TotalFreeMemoryMiB fleet)
  then Some (Errorf ("fleetFreeCapacity totals mismatch: totalFreeMemoryMiB="
                     +:+ pretty (f_TotalFreeMemoryMiB fleet) +:+ " but byProfile sums to "
                     +:+ pretty sumMemory))
  else range_error (λ _ e, validateQuota e) 0 (map_iter (in_TenantQuotas inp))
  end end end end.

(** ** Virtual admission *)

Definition admittedAsRunning (w : QueuedWorkload) (now : Time) : RunningWorkload :=
  {| r_WorkloadID := q_WorkloadID w; r_Tenant := q_Tenant w; r_Priority := q_Priority w;
     r_StartedAt := now; r_GPUCount := q_GPUCount w; r_GPUMemoryMiB := q_GPUMemoryMiB w;
     r_Profile := q_Profile w; r_Tokens := q_Tokens w; r_Kind := q_Kind w |}.

(** [None] is the run-time panic of [make] with capacity [len(inputs.QueuedWorkloads)-1 < 0];
    otherwise the inputs returned, and the error returned with them. *)
Definition ApplyVirtualAdmission (inp : SchedulingInputs) (admitted : QueuedWorkload) (now : Time)
    : option (SchedulingInputs * option error) :=
  if Z.of_nat (length (in_QueuedWorkloads inp)) - 1 <? 0 then None
  else
  let fleet := in_FleetFreeCapacity inp in
  let out (devices memory : Z) (profiles : gmap string ProfileFreeCapacity) :=
    {| in_QueuedWorkloads :=
         filter (λ q, q_WorkloadID q ≠ q_WorkloadID admitted) (in_QueuedWorkloads inp);
       in_ScheduledWorkloads := in_ScheduledWorkloads inp;
       in_RunningWorkloads := in_RunningWorkloads inp ++ [admittedAsRunning admitted now];
       in_FleetFreeCapacity :=
         {| f_TotalFreeDevices := devices; f_TotalFreeMemoryMiB := memory;
            f_ByProfile := Some profiles |};
       in_TenantQuotas := in_TenantQuotas inp |} in
  let unchanged := out (f_TotalFreeDevices fleet) (f_TotalFreeMemoryMiB fleet) (byProfile fleet) in
  match byProfile fleet !! q_Profile admitted with
  | None => Some (unchanged, Some (Errorf ("profile " +:+ Quote (q_Profile admitted)
                                            +:+ " not in fleet")))
  | Some cap =>
      let memory := q_GPUCount admitted [*] c_MemoryMiBPerDevice cap in
      let cap' := {| c_FreeDevices := c_FreeDevices cap [-] q_GPUCount admitted;
                     c_FreeMemoryMiB := c_FreeMemoryMiB cap [-] memory;
                     c_MemoryMiBPerDevice := c_MemoryMiBPerDevice cap |} in
      if (c_FreeDevices cap' <? 0) || (c_FreeMemoryMiB cap' <? 0)
      then Some (unchanged, Some (Errorf "virtual admission would make capacity negative"))
      else Some (out (f_TotalFreeDevices fleet [-] q_GPUCount admitted)
                     (f_TotalFreeMemoryMiB fleet [-] memory)
                     (<[q_Profile admitted := cap']> (byProfile fleet)), None)
  end.

Definition QueuedWorkloadByID (inp : SchedulingInputs) (workloadID : string)
    : option QueuedWorkload :=
  head (filter (λ q, q_WorkloadID q = workloadID) (in_QueuedWorkloads inp)).

(** ** What a valid input is *)

(** The fields of one workload that [Validate] looks at, apart from its id. *)
Definition valid_request (tenant profile kind : string) (gpus mem tokens : Z) : Prop :=
  TrimSpace tenant ≠ "" ∧ TrimSpace profile ≠ "" ∧ kind ∈ workloadKinds ∧
  0 < gpus ∧ 0 < mem ∧ 0 < tokens.

Definition valid_queued (w : QueuedWorkload) : Prop :=
  q_QueuedAt w ≠ 0 ∧
  valid_request (q_Tenant w) (q_Profile w) (q_Kind w) (q_GPUCount w) (q_GPUMemoryMiB w)
                (q_Tokens w).

Definition valid_scheduled (w : RunningWorkload) : Prop :=
  valid_request (r_Tenant w) (r_Profile w) (r_Kind w) (r_GPUCount w) (r_GPUMemoryMiB w)
                (r_Tokens w).

Definition valid_running (w : RunningWorkload) : Prop := r_StartedAt w ≠ 0 ∧ valid_scheduled w.

Definition valid_profile (profile : string) (cap : ProfileFreeCapacity) : Prop :=
  TrimSpace profile ≠ "" ∧ 0 ≤ c_FreeDevices cap ∧ 0 ≤ c_FreeMemoryMiB cap ∧
  (0 < c_FreeDevices cap → 0 < c_MemoryMiBPerDevice cap).

Definition valid_quota (tenant : string) (q : TenantQuota) : Prop :=
  TrimSpace tenant ≠ "" ∧ 0 ≤ t_MaxGPUs q ∧ 0 ≤ t_MaxMemoryMiB q ∧ 0 ≤ t_Weight q.

(** All ids of the three lists, in the order [Validate] meets them. *)
Definition all_ids (inp : SchedulingInputs) : list string :=
  (q_WorkloadID <$> in_QueuedWorkloads inp) ++ (r_WorkloadID <$> in_ScheduledWorkloads inp)
    ++ (r_WorkloadID <$> in_RunningWorkloads inp).

Definition free_devices (fleet : FleetFreeCapacity) : Z :=
  Zsum (λ e, c_FreeDevices e.2) (map_to_list (byProfile fleet)).
Definition free_memory (fleet : FleetFreeCapacity) : Z :=
  Zsum (λ e, c_FreeMemoryMiB e.2) (map_to_list (byProfile fleet)).

(** The contract [Validate] checks, with no order in it. *)
Record Valid (inp : SchedulingInputs) : Prop := {
  valid_ids : NoDup (all_ids inp);
  valid_ids_nonempty : Forall (λ id, TrimSpace id ≠ "") (all_ids inp);
  valid_qs : Forall valid_queued (in_QueuedWorkloads inp);
  valid_ss : Forall valid_scheduled (in_ScheduledWorkloads inp);
  valid_rs : Forall valid_running (in_RunningWorkloads inp);
  valid_total_devices : 0 ≤ f_TotalFreeDevices (in_FleetFreeCapacity inp);
  valid_total_memory : 0 ≤ f_TotalFreeMemoryMiB (in_FleetFreeCapacity inp);
  valid_profiles : map_Forall valid_profile (byProfile (in_FleetFreeCapacity inp));
  valid_sum_devices :
    wrap64 (free_devices (in_FleetFreeCapacity inp)) = f_TotalFreeDevices (in_FleetFreeCapacity inp);
  valid_sum_memory :
    wrap64 (free_memory (in_FleetFreeCapacity inp)) = f_TotalFreeMemoryMiB (in_FleetFreeCapacity inp);
  valid_quotas : map_Forall valid_quota (in_TenantQuotas inp);
}.

(** ** The checks, one loop at a time *)

(** One test of a chain: when it fires the chain fails, and so does the specification. *)
Local Ltac fire :=
  split; [by intros; destruct_and?|]; intros; destruct_and?; (contradiction || lia || congruence).

Lemma supportedKind_spec k : supportedKind k = true ↔ k ∈ workloadKinds.
Proof. unfold supportedKind. apply bool_decide_eq_true. Qed.

Lemma checkRequest_None missing tenant gpus mem profile tokens kind :
  checkRequest missing tenant gpus mem profile tokens kind = None ↔
  missing = None ∧ valid_request tenant profile kind gpus mem tokens.
Proof.
  unfold checkRequest, valid_request. rewrite <- supportedKind_spec.
  case_decide; [fire|]. destruct missing; [fire|].
  destruct (gpus <=? 0) eqn:?; [fire|]. destruct (mem <=? 0) eqn:?; [fire|].
  case_decide; [fire|]. destruct (tokens <=? 0) eqn:?; [fire|].
  destruct (supportedKind kind); simpl; [|fire].
  split; [|done]. intros _. split_and!; done || lia.
Qed.

Lemma checkQueued_None w : checkQueued w = None ↔ valid_queued w.
Proof.
  unfold checkQueued, valid_queued, IsZero. rewrite checkRequest_None.
  destruct (q_QueuedAt w =? 0) eqn:E; [fire|].
  split; intros [_ ?]; (split; [done || lia|done]).
Qed.

Lemma checkScheduled_None w : checkScheduled w = None ↔ valid_scheduled w.
Proof. unfold checkScheduled, valid_scheduled. rewrite checkRequest_None. naive_solver. Qed.

Lemma checkRunning_None w : checkRunning w = None ↔ valid_running w.
Proof.
  unfold checkRunning, valid_running, valid_scheduled, IsZero. rewrite checkRequest_None.
  destruct (r_StartedAt w =? 0) eqn:E; [fire|].
  split; intros [_ ?]; (split; [done || lia|done]).
Qed.

Lemma checkID_None seen id : checkID seen id = None ↔ TrimSpace id ≠ "" ∧ id ∉ seen.
Proof. unfold checkID. case_decide; [fire|]. case_decide; [fire|]. done. Qed.

Section loop.
Context {A : Type} (coll : string) (id : A → string) (check : A → option string).

(** The ids of a list are new and distinct. *)
Definition fresh_ids (seen : gset string) (l : list A) : Prop :=
  NoDup (id <$> l) ∧ ∀ x, x ∈ (id <$> l) → x ∉ seen.

Lemma fresh_ids_cons seen x l :
  fresh_ids seen (x :: l) ↔ id x ∉ seen ∧ fresh_ids ({[id x]} ∪ seen) l.
Proof.
  unfold fresh_ids. rewrite fmap_cons, NoDup_cons.
  setoid_rewrite elem_of_cons. setoid_rewrite not_elem_of_union.
  setoid_rewrite not_elem_of_singleton. naive_solver.
Qed.

Lemma validateLoop_Ok seen i l seen' :
  validateLoop coll id check seen i l = Ok seen' ↔
  Forall (λ w, TrimSpace (id w) ≠ "" ∧ check w = None) l ∧ fresh_ids seen l ∧
  seen' = list_to_set (id <$> l) ∪ seen.
Proof.
  revert seen i; induction l as [|w l IH]; intros seen i; cbn [validateLoop].
  { rewrite Forall_nil, fmap_nil, list_to_set_nil, (left_id_L ∅ (∪)). split; [|naive_solver].
    intros [= ->]. split_and!; [done| |done]. split; [constructor|set_solver]. }
  rewrite Forall_cons, fresh_ids_cons, fmap_cons, list_to_set_cons.
  destruct (checkID seen (id w)) as [|] eqn:E.
  { split; [done|]. intros ([[? ?] _] & [? _] & _).
    assert (checkID seen (id w) = None) by by apply checkID_None. congruence. }
  apply checkID_None in E as [??].
  destruct (check w); [fire|]. rewrite IH.
  replace ({[id w]} ∪ list_to_set (id <$> l) ∪ seen)
    with (list_to_set (id <$> l) ∪ ({[id w]} ∪ seen)) by set_solver.
  split; intros; destruct_and!; by split_and!.
Qed.

(** The same list in terms of the loop's verdict only. *)
Lemma validateLoop_verdict seen i l :
  Forall (λ w, TrimSpace (id w) ≠ "" ∧ check w = None) l → fresh_ids seen l →
  validateLoop coll id check seen i l = Ok (list_to_set (id <$> l) ∪ seen).
Proof. intros. by apply validateLoop_Ok. Qed.

End loop.

Lemma validateProfiles_Ok d m l d' m' :
  validateProfiles d m l = Ok (d', m') ↔
  Forall (λ e, valid_profile e.1 e.2) l ∧
  d' = int64_sum (λ e, c_FreeDevices e.2) d l ∧ m' = int64_sum (λ e, c_FreeMemoryMiB e.2) m l.
Proof.
  revert d m; induction l as [|[p cap] l IH]; intros d m; simpl.
  { unfold int64_sum; simpl. rewrite Forall_nil. naive_solver. }
  rewrite Forall_cons; simpl. unfold valid_profile at 1.
  case_decide; [fire|]. destruct (c_FreeDevices cap <? 0) eqn:?; [fire|].
  destruct (c_FreeMemoryMiB cap <? 0) eqn:?; [fire|].
  destruct ((0 <? c_FreeDevices cap) && (c_MemoryMiBPerDevice cap <=? 0)) eqn:?; [fire|].
  rewrite IH. unfold int64_sum; simpl. split; intros; destruct_and!; split_and!; done || lia.
Qed.

Lemma validateQuota_None e : validateQuota e = None ↔ valid_quota e.1 e.2.
Proof.
  destruct e as [t q]; simpl. unfold valid_quota. case_decide; [fire|].
  destruct (t_MaxGPUs q <? 0) eqn:?; [fire|]. destruct (t_MaxMemoryMiB q <? 0) eqn:?; [fire|].
  destruct (t_Weight q <? 0) eqn:?; [fire|].
  split; [|done]. intros _. split_and!; done || lia.
Qed.


(** The ids of the three lists are distinct when each loop meets only new ones. *)
Lemma all_ids_NoDup inp :
  NoDup (all_ids inp) ↔
  fresh_ids q_WorkloadID ∅ (in_QueuedWorkloads inp) ∧
  fresh_ids r_WorkloadID (list_to_set (q_WorkloadID <$> in_QueuedWorkloads inp) ∪ ∅)
            (in_ScheduledWorkloads inp) ∧
  fresh_ids r_WorkloadID (list_to_set (r_WorkloadID <$> in_ScheduledWorkloads inp) ∪
                          (list_to_set (q_WorkloadID <$> in_QueuedWorkloads inp) ∪ ∅))
            (in_RunningWorkloads inp).
Proof.
  unfold all_ids, fresh_ids. rewrite !NoDup_app.
  generalize (q_WorkloadID <$> in_QueuedWorkloads inp) as q,
    (r_WorkloadID <$> in_ScheduledWorkloads inp) as s,
    (r_WorkloadID <$> in_RunningWorkloads inp) as r.
  intros q s r. split; intros; destruct_and!; split_and!; try done; set_solver.
Qed.

Lemma Forall_checks {A} (id : A → string) (check : A → option string) (P : A → Prop) l :
  (∀ w, check w = None ↔ P w) →
  Forall (λ w, TrimSpace (id w) ≠ "" ∧ check w = None) l ↔
  Forall (λ i, TrimSpace i ≠ "") (id <$> l) ∧ Forall P l.
Proof.
  intros H. rewrite Forall_fmap, <- Forall_and. apply Forall_proper; [|done].
  intros w. by rewrite H.
Qed.

(** The three loops together. *)
Lemma validate_workloads inp :
  (∃ s1 s2 s3,
    validateLoop "queuedWorkloads" q_WorkloadID checkQueued ∅ 0 (in_QueuedWorkloads inp) = Ok s1 ∧
    validateLoop "scheduledWorkloads" r_WorkloadID checkScheduled s1 0
      (in_ScheduledWorkloads inp) = Ok s2 ∧
    validateLoop "runningWorkloads" r_WorkloadID checkRunning s2 0
      (in_RunningWorkloads inp) = Ok s3) ↔
  NoDup (all_ids inp) ∧ Forall (λ id, TrimSpace id ≠ "") (all_ids inp) ∧
  Forall valid_queued (in_QueuedWorkloads inp) ∧
  Forall valid_scheduled (in_ScheduledWorkloads inp) ∧
  Forall valid_running (in_RunningWorkloads inp).
Proof.
  rewrite all_ids_NoDup. unfold all_ids. rewrite !Forall_app.
  setoid_rewrite validateLoop_Ok.
  setoid_rewrite (Forall_checks q_WorkloadID _ _ _ checkQueued_None).
  setoid_rewrite (Forall_checks r_WorkloadID _ _ _ checkScheduled_None).
  setoid_rewrite (Forall_checks r_WorkloadID _ _ _ checkRunning_None).
  split.
  - intros (s1 & s2 & s3 & (?&?&->) & (?&?&->) & (?&?&->)). destruct_and!. by split_and!.
  - intros (?&?&?&?&?). destruct_and!. do 3 eexists. by split_and!.
Qed.

Lemma validate_fleet `{MapIter} fleet d m :
  validateProfiles 0 0 (map_iter (byProfile fleet)) = Ok (d, m) ↔
  map_Forall valid_profile (byProfile fleet) ∧ d = wrap64 (free_devices fleet) ∧
  m = wrap64 (free_memory fleet).
Proof.
  rewrite validateProfiles_Ok, (Forall_map_iter valid_profile).
  change 0 with (wrap64 0) at 1 2. rewrite !int64_sum_wrap.
  unfold free_devices, free_memory. by rewrite !map_iter_perm.
Qed.

Lemma Validate_None `{MapIter} inp : Validate inp = None ↔ Valid inp.
Proof.
  unfold Validate. split.
  - destruct (validateLoop "queuedWorkloads" _ _ _ _ _) as [s1|] eqn:E1; [|done].
    destruct (validateLoop "scheduledWorkloads" _ _ _ _ _) as [s2|] eqn:E2; [|done].
    destruct (validateLoop "runningWorkloads" _ _ _ _ _) as [s3|] eqn:E3; [|done].
    destruct (f_TotalFreeDevices _ <? 0) eqn:?; [done|].
    destruct (f_TotalFreeMemoryMiB _ <? 0) eqn:?; [done|].
    destruct (validateProfiles _ _ _) as [[d m]|] eqn:E4; [|done].
    apply validate_fleet in E4 as (? & -> & ->).
    destruct (negb (_ =? f_TotalFreeDevices _)) eqn:?; [done|].
    destruct (negb (_ =? f_TotalFreeMemoryMiB _)) eqn:?; [done|].
    intros Hq. apply (range_error_Forall validateQuota) in Hq.
    pose proof (proj1 (validate_workloads inp) ltac:(eauto 10)); destruct_and!.
    constructor; try done; try lia.
    apply Forall_map_iter. eapply Forall_impl; [exact Hq|]. intros e. apply validateQuota_None.
  - intros [].
    destruct (proj2 (validate_workloads inp)) as (s1 & s2 & s3 & -> & -> & ->); [done|].
    destruct (f_TotalFreeDevices _ <? 0) eqn:?; [lia|].
    destruct (f_TotalFreeMemoryMiB _ <? 0) eqn:?; [lia|].
    rewrite (proj2 (validate_fleet _ _ _) (conj valid_profiles0 (conj eq_refl eq_refl))).
    rewrite valid_sum_devices0, valid_sum_memory0, !Z.eqb_refl. simpl.
    apply (range_error_Forall validateQuota). eapply Forall_impl; [by apply (Forall_map_iter valid_quota)|].
    intros e. apply validateQuota_None.
Qed.

(** ** Ranges

    The counts come from [int32] fields of the resources, and the sums over the fleet fit an
    [int64]: under these conditions no sum of the scheduler wraps. *)

Record InRange (inp : SchedulingInputs) : Prop := {
  ir_queued : Forall (λ w, q_GPUCount w ≤ int32_max) (in_QueuedWorkloads inp);
  ir_committed : Forall (λ r, r_GPUCount r ≤ int32_max)
                   (in_ScheduledWorkloads inp ++ in_RunningWorkloads inp);
  ir_memory : map_Forall (λ _ c, 0 ≤ c_MemoryMiBPerDevice c ≤ int32_max)
                (byProfile (in_FleetFreeCapacity inp));
  ir_free_devices : free_devices (in_FleetFreeCapacity inp) ≤ int64_max;
  ir_free_memory : free_memory (in_FleetFreeCapacity inp) ≤ int64_max;
  ir_length : Z.of_nat (length (all_ids inp)) ≤ 2 ^ 31;
}.

(** ** Virtual admission *)

Section virtual.
Context (inp : SchedulingInputs) (w : QueuedWorkload) (now : Time).
Hypotheses (HV : Valid inp) (HR : InRange inp) (Hw : w ∈ in_QueuedWorkloads inp).

Lemma virtual_gpus : 0 < q_GPUCount w ≤ int32_max.
Proof.
  destruct HV, HR. rewrite Forall_forall in valid_qs0, ir_queued0.
  specialize (valid_qs0 w Hw) as (_ & _ & _ & _ & ? & _). specialize (ir_queued0 w Hw). lia.
Qed.

(** The totals are the sums over the profiles, and each of them covers its profile. *)
Lemma virtual_totals cap :
  byProfile (in_FleetFreeCapacity inp) !! q_Profile w = Some cap →
  f_TotalFreeDevices (in_FleetFreeCapacity inp) = free_devices (in_FleetFreeCapacity inp) ∧
  f_TotalFreeMemoryMiB (in_FleetFreeCapacity inp) = free_memory (in_FleetFreeCapacity inp) ∧
  c_FreeDevices cap ≤ free_devices (in_FleetFreeCapacity inp) ≤ int64_max ∧
  c_FreeMemoryMiB cap ≤ free_memory (in_FleetFreeCapacity inp) ≤ int64_max.
Proof.
  intros Hc. destruct HV, HR.
  assert (c_FreeDevices cap ≤ free_devices (in_FleetFreeCapacity inp)).
  { apply (Zsum_map_lookup (λ e, c_FreeDevices e.2) _ _ _ Hc).
    by intros ?? (_ & ? & _)%valid_profiles0. }
  assert (c_FreeMemoryMiB cap ≤ free_memory (in_FleetFreeCapacity inp)).
  { apply (Zsum_map_lookup (λ e, c_FreeMemoryMiB e.2) _ _ _ Hc).
    by intros ?? (_ & _ & ? & _)%valid_profiles0. }
  pose proof (valid_profiles0 _ _ Hc) as (_ & ? & ? & _).
  rewrite wrap64_id in valid_sum_devices0 by int_lia.
  rewrite wrap64_id in valid_sum_memory0 by int_lia. done.
Qed.

Lemma virtual_cap cap :
  byProfile (in_FleetFreeCapacity inp) !! q_Profile w = Some cap →
  0 ≤ c_FreeDevices cap ≤ int64_max ∧ 0 ≤ c_FreeMemoryMiB cap ≤ int64_max ∧
  0 ≤ c_MemoryMiBPerDevice cap ≤ int32_max.
Proof.
  intros Hc. pose proof (virtual_totals cap Hc).
  pose proof (valid_profiles _ HV _ _ Hc) as (_ & ? & ? & _).
  pose proof (ir_memory _ HR _ _ Hc). simpl in *. split_and!; done || lia || int_lia.
Qed.

(** The inputs after the admission, with the arithmetic at unbounded precision. *)
Definition admitted_inputs (cap : ProfileFreeCapacity) : SchedulingInputs :=
  let fleet := in_FleetFreeCapacity inp in
  let memory := q_GPUCount w * c_MemoryMiBPerDevice cap in
  {| in_QueuedWorkloads :=
       filter (λ q, q_WorkloadID q ≠ q_WorkloadID w) (in_QueuedWorkloads inp);
     in_ScheduledWorkloads := in_ScheduledWorkloads inp;
     in_RunningWorkloads := in_RunningWorkloads inp ++ [admittedAsRunning w now];
     in_FleetFreeCapacity :=
       {| f_TotalFreeDevices := f_TotalFreeDevices fleet - q_GPUCount w;
          f_TotalFreeMemoryMiB := f_TotalFreeMemoryMiB fleet - memory;
          f_ByProfile :=
            Some (<[q_Profile w :=
                      {| c_FreeDevices := c_FreeDevices cap - q_GPUCount w;
                         c_FreeMemoryMiB := c_FreeMemoryMiB cap - memory;
                         c_MemoryMiBPerDevice := c_MemoryMiBPerDevice cap |}]>
                    (byProfile fleet)) |};
     in_TenantQuotas := in_TenantQuotas inp |}.

Lemma virtual_length : 0 < Z.of_nat (length (in_QueuedWorkloads inp)).
Proof. destruct (in_QueuedWorkloads inp); [by apply elem_of_nil in Hw|]. simpl. lia. Qed.

(** On an input in range the admission either takes exactly the devices and the memory of the
    workload, or fails because one of the two is missing; it never panics. *)
Lemma ApplyVirtualAdmission_spec :
  match byProfile (in_FleetFreeCapacity inp) !! q_Profile w with
  | None => ∃ out e, ApplyVirtualAdmission inp w now = Some (out, Some e)
  | Some cap =>
      if decide (q_GPUCount w ≤ c_FreeDevices cap ∧
                 q_GPUCount w * c_MemoryMiBPerDevice cap ≤ c_FreeMemoryMiB cap)
      then ApplyVirtualAdmission inp w now = Some (admitted_inputs cap, None)
      else ∃ out e, ApplyVirtualAdmission inp w now = Some (out, Some e)
  end.
Proof.
  unfold ApplyVirtualAdmission. pose proof virtual_length.
  destruct (_ - 1 <? 0) eqn:E; [lia|]. clear E.
  destruct (byProfile _ !! _) as [cap|] eqn:Hc; [|by eauto].
  pose proof virtual_gpus. pose proof (virtual_cap cap Hc) as (?&?&?).
  assert (Hm : 0 ≤ q_GPUCount w * c_MemoryMiBPerDevice cap ≤ 2 ^ 62)
    by (unfold in_int32, int32_min, int32_max in *; nia).
  rewrite (int64_mul_id (q_GPUCount w)) by int_lia.
  rewrite (int64_sub_id (c_FreeDevices cap)) by int_lia.
  rewrite (int64_sub_id (c_FreeMemoryMiB cap)) by int_lia.
  case_decide as Hd; cbn [c_FreeDevices c_FreeMemoryMiB];
    (destruct (_ || _) eqn:E; [try lia; by eauto|try (exfalso; lia)]).
  destruct HV, HR. unfold admitted_inputs.
  pose proof (virtual_totals cap Hc).
  rewrite (int64_sub_id (f_TotalFreeDevices _)) by int_lia.
  rewrite (int64_sub_id (f_TotalFreeMemoryMiB _)) by int_lia. done.
Qed.

Lemma admitted_ids cap : all_ids (admitted_inputs cap) ≡ₚ all_ids inp.
Proof.
  unfold all_ids; simpl. rewrite fmap_app.
  pose proof (valid_ids _ HV) as Hnd. unfold all_ids in Hnd.
  apply NoDup_app in Hnd as (Hnd & _ & _).
  rewrite <- (filter_key_ne q_WorkloadID (in_QueuedWorkloads inp) w Hnd Hw) at 2.
  simpl. solve_Permutation.
Qed.

Lemma admitted_free_devices cap :
  byProfile (in_FleetFreeCapacity inp) !! q_Profile w = Some cap →
  free_devices (in_FleetFreeCapacity (admitted_inputs cap)) =
  free_devices (in_FleetFreeCapacity inp) - q_GPUCount w.
Proof.
  intros Hc. unfold free_devices.
  etransitivity; [apply (Zsum_map_insert (λ e, c_FreeDevices e.2) _ _ _ _ Hc)|]. simpl. lia.
Qed.

Lemma admitted_free_memory cap :
  byProfile (in_FleetFreeCapacity inp) !! q_Profile w = Some cap →
  free_memory (in_FleetFreeCapacity (admitted_inputs cap)) =
  free_memory (in_FleetFreeCapacity inp) - q_GPUCount w * c_MemoryMiBPerDevice cap.
Proof.
  intros Hc. unfold free_memory.
  etransitivity; [apply (Zsum_map_insert (λ e, c_FreeMemoryMiB e.2) _ _ _ _ Hc)|]. simpl. lia.
Qed.

Lemma admitted_valid cap :
  byProfile (in_FleetFreeCapacity inp) !! q_Profile w = Some cap →
  q_GPUCount w ≤ c_FreeDevices cap →
  q_GPUCount w * c_MemoryMiBPerDevice cap ≤ c_FreeMemoryMiB cap →
  now ≠ 0 →
  Valid (admitted_inputs cap).
Proof.
  intros Hc Hd Hm Hnow. pose proof HV as [].
  pose proof (virtual_totals cap Hc).
  constructor; cbn [in_QueuedWorkloads in_ScheduledWorkloads in_RunningWorkloads in_TenantQuotas
    admitted_inputs]; try done.
  - by rewrite admitted_ids.
  - by rewrite admitted_ids.
  - rewrite Forall_forall in *. intros q [_ Hq]%list_elem_of_filter. by apply valid_qs0.
  - apply Forall_app. split; [done|]. constructor; [|done].
    rewrite Forall_forall in valid_qs0. by destruct (valid_qs0 w Hw).
  - simpl. lia.
  - simpl. lia.
  - apply map_Forall_insert_2; [|done].
    pose proof (valid_profiles0 _ _ Hc) as (? & ? & ? & ?).
    pose proof virtual_gpus. split_and!; simpl; done || lia.
  - rewrite (admitted_free_devices cap Hc). pose proof virtual_gpus.
    rewrite wrap64_id; [simpl; lia|int_lia].
  - rewrite (admitted_free_memory cap Hc).
    pose proof virtual_gpus. pose proof (virtual_cap cap Hc).
    rewrite wrap64_id; [simpl; lia|]. unfold in_int64, int64_min, int64_max in *. nia.
Qed.

Lemma admitted_range cap :
  byProfile (in_FleetFreeCapacity inp) !! q_Profile w = Some cap →
  InRange (admitted_inputs cap).
Proof.
  intros Hc. pose proof HR as []. pose proof (virtual_totals cap Hc).
  pose proof virtual_gpus. pose proof (virtual_cap cap Hc).
  constructor; cbn [in_QueuedWorkloads in_ScheduledWorkloads in_RunningWorkloads admitted_inputs].
  - rewrite Forall_forall in *. intros q [_ Hq]%list_elem_of_filter. by apply ir_queued0.
  - rewrite app_assoc. apply Forall_app. split; [done|]. constructor; [simpl; lia|done].
  - apply map_Forall_insert_2; simpl; [by apply (ir_memory0 _ _ Hc)|done].
  - rewrite (admitted_free_devices cap Hc). lia.
  - rewrite (admitted_free_memory cap Hc). nia.
  - by rewrite admitted_ids.
Qed.

(** A successful virtual admission returns [admitted_inputs], valid and in range again. *)
Lemma virtual_success out :
  now ≠ 0 → ApplyVirtualAdmission inp w now = Some (out, None) →
  ∃ cap, byProfile (in_FleetFreeCapacity inp) !! q_Profile w = Some cap ∧
    q_GPUCount w ≤ c_FreeDevices cap ∧ out = admitted_inputs cap ∧ Valid out ∧ InRange out.
Proof.
  intros Hnow Ho. pose proof ApplyVirtualAdmission_spec as Hs.
  destruct (_ !! _) as [cap|] eqn:Hc; [|naive_solver].
  case_decide as Hd; [|naive_solver].
  rewrite Hs in Ho. simplify_eq. destruct Hd. exists cap. split_and!; try done.
  - by apply admitted_valid.
  - by apply admitted_range.
Qed.

End virtual.

(** [Validate] accepts exactly the inputs that satisfy the contract [Valid] (distinct non-blank
    ids over the three lists, positive requests, known kinds, non-negative capacities whose sums are
    the totals, non-negative quotas), whatever order the maps are ranged in. *)
Theorem Validate_exact `{MapIter} (inp : SchedulingInputs) : Validate inp = None ↔ Valid inp.
Proof. apply Validate_None. Qed.

(** C14: on valid inputs in range, [ApplyVirtualAdmission] of a queued workload never panics, fails
    exactly when the workload's profile is missing or short of devices or memory, and otherwise
    moves the workload from the queue to the running list and takes exactly its devices and their
    memory out of the profile and the totals, giving valid inputs in range again. *)
Theorem virtual_admission_correct (inp : SchedulingInputs) (w : QueuedWorkload) (now : Time) :
  Valid inp → InRange inp → w ∈ in_QueuedWorkloads inp → now ≠ 0 →
  ∃ out err, ApplyVirtualAdmission inp w now = Some (out, err) ∧
    (err = None ↔
       ∃ cap, byProfile (in_FleetFreeCapacity inp) !! q_Profile w = Some cap ∧
         q_GPUCount w ≤ c_FreeDevices cap ∧
         q_GPUCount w * c_MemoryMiBPerDevice cap ≤ c_FreeMemoryMiB cap) ∧
    (err = None → Valid out ∧ InRange out ∧ all_ids out ≡ₚ all_ids inp ∧
       ∃ cap, byProfile (in_FleetFreeCapacity inp) !! q_Profile w = Some cap ∧
              out = admitted_inputs inp w now cap).
Proof.
  intros HV HR Hw Hnow. pose proof (ApplyVirtualAdmission_spec inp w now HV HR Hw) as Hs.
  destruct (byProfile _ !! _) as [cap|] eqn:Hc.
  2:{ destruct Hs as (out & e & Hs). exists out, (Some e). split; [done|].
      split; [|done]. split; [done|]. intros (? & ? & _). done. }
  case_decide as Hd.
  - exists (admitted_inputs inp w now cap), None. split; [done|].
    split; [split; [intros _; by exists cap|done]|]. intros _. destruct Hd. split_and!.
    + by apply admitted_valid.
    + by apply admitted_range.
    + by apply admitted_ids.
    + by exists cap.
  - destruct Hs as (out & e & Hs). exists out, (Some e). split; [done|].
    split; [|done]. split; [done|]. intros (cap' & [= <-] & ?). tauto.
Qed.

(** ** Witness *)

Module VirtualExample.
Definition w : QueuedWorkload :=
  {| q_WorkloadID := "ns/w"; q_Tenant := "a"; q_Priority := 3; q_QueuedAt := 5; q_GPUCount := 2;
     q_GPUMemoryMiB := 40000; q_Profile := "h100_sxm"; q_Tokens := 10; q_Kind := "training" |}.
Definition inp : SchedulingInputs :=
  {| in_QueuedWorkloads := [w]; in_ScheduledWorkloads := []; in_RunningWorkloads := [];
     in_FleetFreeCapacity :=
       {| f_TotalFreeDevices := 4; f_TotalFreeMemoryMiB := 4 * 81920;
          f_ByProfile := Some {[ "h100_sxm" :=
            {| c_FreeDevices := 4; c_FreeMemoryMiB := 4 * 81920;
               c_MemoryMiBPerDevice := 81920 |} ]} |};
     in_TenantQuotas := ∅ |}.
End VirtualExample.

Lemma virtual_admission_correct_witness :
  ∃ out err, ApplyVirtualAdmission VirtualExample.inp VirtualExample.w 100 = Some (out, err).
Proof.
  destruct (virtual_admission_correct VirtualExample.inp VirtualExample.w 100) as (out & err & H & _).
  - apply (Validate_None (H := map_iter_canonical)). by vm_compute.
  - constructor.
    1: repeat constructor; by vm_compute.
    1: repeat constructor.
    1: apply map_Forall_singleton; by vm_compute.
    all: by vm_compute.
  - by left.
  - done.
  - exists out, err. exact H.
Defined.
