(* ===== verification/Admission.v ===== *)
(** * Admission checks (internal/scheduler/compat.go, fit.go, ordering.go, fairness.go)

    The tests one candidate has to pass, the order in which candidates are considered, and the
    tenants' usage and caps. *)

From stdpp Require Import prelude gmap strings sorting pretty.
From S2P Require Import Prelude GoFloat SimModel SchedInputs.

Local Open Scope Z_scope.
Local Open Scope go_scope.

(** ** compat.go *)

Definition normalizeProfileName (p : string) : string := ToLower (TrimSpace p).

Definition CompatibleProfileAndKind (w : QueuedWorkload) (fleet : FleetFreeCapacity)
    : option error :=
  if negb (supportedKind (q_Kind w))
  then Some (Errorf ("unsupported kind " +:+ Quote (q_Kind w)))
  else
  let profile := normalizeProfileName (q_Profile w) in
  if decide (profile = "") then Some (Errorf "profile is required")
  else
  match f_ByProfile fleet with
  | Some m =>
      match m !! profile with
      | None => Some (Errorf ("profile " +:+ Quote profile
                              +:+ " is not present in fleet free-capacity snapshot"))
      | Some _ =>
          match HardwareProfiles !! profile with
          | None => Some (Errorf ("profile " +:+ Quote profile
                                  +:+ " is not known to simulator hardware profiles"))
          | Some _ => None
          end
      end
  | None =>
      match HardwareProfiles !! profile with
      | None => Some (Errorf ("profile " +:+ Quote profile
                              +:+ " is not known to simulator hardware profiles"))
      | Some _ => None
      end
  end.

(** ** fit.go *)

Definition FitsGPUCount (w : QueuedWorkload) (fleet : FleetFreeCapacity) : Result bool :=
  if q_GPUCount w <=? 0
  then Err (Errorf ("gpuCount must be positive" +:+ got (q_GPUCount w)))
  else if decide (q_Profile w = "") then Err (Errorf "profile is required")
  else match byProfile fleet !! q_Profile w with
       | None => Err (Errorf ("no free-capacity entry for profile " +:+ Quote (q_Profile w)))
       | Some cap => Ok (q_GPUCount w <=? c_FreeDevices cap)
       end.

Definition FitsPerDeviceMemory (w : QueuedWorkload) (fleet : FleetFreeCapacity) : Result bool :=
  if q_GPUMemoryMiB w <=? 0
  then Err (Errorf ("gpuMemoryMiB must be positive" +:+ got (q_GPUMemoryMiB w)))
  else if decide (q_Profile w = "") then Err (Errorf "profile is required")
  else match byProfile fleet !! q_Profile w with
       | None => Err (Errorf ("no free-capacity entry for profile " +:+ Quote (q_Profile w)))
       | Some cap =>
           if c_MemoryMiBPerDevice cap <=? 0
           then Err (Errorf ("missing memoryMiBPerDevice for profile " +:+ Quote (q_Profile w)))
           else Ok (q_GPUMemoryMiB w <=? c_MemoryMiBPerDevice cap)
       end.

(** ** ordering.go *)

Definition queued_less (x y : QueuedWorkload) : bool :=
  if negb (q_Priority x =? q_Priority y) then q_Priority y <? q_Priority x
  else if negb (TimeEqual (q_QueuedAt x) (q_QueuedAt y)) then Before (q_QueuedAt x) (q_QueuedAt y)
  else false.

Definition OrderQueued (workloads : list QueuedWorkload) : list QueuedWorkload :=
  SliceStable queued_less workloads.

(** ** fairness.go *)

(** [out[w.Tenant] += w.GPUCount]; a missing key reads as 0. *)
Definition TenantGPUsUsed (running : list RunningWorkload) : gmap string Z :=
  foldl (λ out w, <[r_Tenant w := default 0 (out !! r_Tenant w) [+] r_GPUCount w]> out)
        ∅ running.

Definition ExceedsTenantGPUCap (queued : QueuedWorkload) (runningUsage : gmap string Z)
    (quotas : gmap string TenantQuota) : bool :=
  match quotas !! q_Tenant queued with
  | None => false
  | Some q =>
      if t_MaxGPUs q =? 0 then false
      else t_MaxGPUs q <? default 0 (runningUsage !! q_Tenant queued) [+] q_GPUCount queued
  end.

(** ** Reference definitions *)

(** The GPUs a tenant holds in a list of workloads. *)
Definition tenant_gpus (t : string) (l : list RunningWorkload) : Z :=
  Zsum r_GPUCount (filter (λ w, r_Tenant w = t) l).

(** The tenant's cap, if it has one. *)
Definition tenant_cap (quotas : gmap string TenantQuota) (t : string) : option Z :=
  match quotas !! t with
  | Some q => if t_MaxGPUs q =? 0 then None else Some (t_MaxGPUs q)
  | None => None
  end.

(** The candidate passes the three capacity checks of the first pass. *)
Definition fits (w : QueuedWorkload) (fleet : FleetFreeCapacity) : Prop :=
  ∃ cap, byProfile fleet !! q_Profile w = Some cap ∧
    q_GPUCount w ≤ c_FreeDevices cap ∧ q_GPUMemoryMiB w ≤ c_MemoryMiBPerDevice cap.

(** ** Lemmas *)

#[export] Instance queued_less_swo : StrictWeakOrder queued_less.
Proof.
  split; unfold queued_less, TimeEqual, Before.
  - intros x. by rewrite !Z.eqb_refl.
  - intros x y z. repeat case_match; lia.
  - intros x y z. repeat case_match; lia.
Qed.

(** Nobody behind a candidate has a higher priority, or the same priority and an earlier time. *)
Lemma queued_less_false x y :
  queued_less y x = false ↔
  q_Priority y < q_Priority x ∨
  (q_Priority x = q_Priority y ∧ q_QueuedAt x ≤ q_QueuedAt y).
Proof. unfold queued_less, TimeEqual, Before. repeat case_match; lia. Qed.

Lemma OrderQueued_perm l : OrderQueued l ≡ₚ l.
Proof. apply SliceStable_perm. Qed.

Lemma TenantGPUsUsed_app l w :
  TenantGPUsUsed (l ++ [w]) =
  <[r_Tenant w := default 0 (TenantGPUsUsed l !! r_Tenant w) [+] r_GPUCount w]> (TenantGPUsUsed l).
Proof. unfold TenantGPUsUsed. by rewrite foldl_app. Qed.

Lemma tenant_gpus_app t l k : tenant_gpus t (l ++ k) = tenant_gpus t l + tenant_gpus t k.
Proof. unfold tenant_gpus. by rewrite filter_app, Zsum_app. Qed.

#[export] Instance tenant_gpus_Proper t : Proper ((≡ₚ) ==> (=)) (tenant_gpus t).
Proof. intros l k H. unfold tenant_gpus. by rewrite H. Qed.

(** The map holds the tenants' sums, wrapped. *)
Lemma TenantGPUsUsed_lookup l t :
  default 0 (TenantGPUsUsed l !! t) = wrap64 (tenant_gpus t l).
Proof.
  induction l as [|w l IH] using rev_ind; [by vm_compute|].
  rewrite TenantGPUsUsed_app, tenant_gpus_app. unfold tenant_gpus at 2.
  rewrite filter_cons, filter_nil.
  destruct (decide (r_Tenant w = t)) as [<-|Ht].
  - rewrite lookup_insert_eq, IH; simpl. unfold int64_add.
    rewrite wrap64_add_l. f_equal. lia.
  - rewrite lookup_insert_ne, IH by done. f_equal. simpl. lia.
Qed.

Lemma tenant_gpus_range t l :
  Forall (λ r, 0 ≤ r_GPUCount r ≤ int32_max) l → Z.of_nat (length l) ≤ 2 ^ 31 →
  0 ≤ tenant_gpus t l ≤ 2 ^ 62.
Proof.
  intros Hl Hn. rewrite Forall_forall in Hl. unfold tenant_gpus. split.
  - apply Zsum_nonneg. intros r [_ Hr]%list_elem_of_filter. by apply Hl in Hr as [].
  - etransitivity; [apply (Zsum_bound _ int32_max)|].
    + intros r [_ Hr]%list_elem_of_filter. by apply Hl in Hr as [].
    + pose proof (length_filter (λ w, r_Tenant w = t) l). unfold int32_max. lia.
Qed.

(** Under the range conditions the cap test compares the real sums. *)
Lemma ExceedsTenantGPUCap_spec w l quotas :
  Forall (λ r, 0 ≤ r_GPUCount r ≤ int32_max) l → Z.of_nat (length l) ≤ 2 ^ 31 →
  0 < q_GPUCount w ≤ int32_max →
  ExceedsTenantGPUCap w (TenantGPUsUsed l) quotas = true ↔
  ∃ cap, tenant_cap quotas (q_Tenant w) = Some cap ∧
    cap < tenant_gpus (q_Tenant w) l + q_GPUCount w.
Proof.
  intros Hl Hn Hg. pose proof (tenant_gpus_range (q_Tenant w) l Hl Hn).
  unfold ExceedsTenantGPUCap, tenant_cap.
  rewrite TenantGPUsUsed_lookup. rewrite (wrap64_id (tenant_gpus _ _)) by int_lia.
  rewrite int64_add_id by int_lia.
  destruct (quotas !! _) as [q|]; [|naive_solver].
  destruct (t_MaxGPUs q =? 0); [naive_solver|].
  rewrite Z.ltb_lt. naive_solver.
Qed.

Lemma CompatibleProfileAndKind_None w fleet :
  CompatibleProfileAndKind w fleet = None ↔
  q_Kind w ∈ workloadKinds ∧ normalizeProfileName (q_Profile w) ≠ "" ∧
  is_Some (HardwareProfiles !! normalizeProfileName (q_Profile w)) ∧
  (f_ByProfile fleet ≠ None → is_Some (byProfile fleet !! normalizeProfileName (q_Profile w))).
Proof.
  unfold CompatibleProfileAndKind, byProfile. rewrite <- supportedKind_spec.
  destruct (supportedKind (q_Kind w)); simpl; [|naive_solver].
  generalize (normalizeProfileName (q_Profile w)) as p. intros p.
  generalize HardwareProfiles as hw. intros hw.
  case_decide; [naive_solver|]. unfold is_Some.
  destruct (f_ByProfile fleet) as [m|]; simpl.
  - destruct (m !! p) eqn:?; destruct (hw !! p) eqn:?; naive_solver.
  - destruct (hw !! p) eqn:?; naive_solver.
Qed.

Lemma FitsGPUCount_true w fleet :
  0 < q_GPUCount w → q_Profile w ≠ "" →
  FitsGPUCount w fleet = Ok true ↔
  ∃ cap, byProfile fleet !! q_Profile w = Some cap ∧ q_GPUCount w ≤ c_FreeDevices cap.
Proof.
  intros Hg Hp. unfold FitsGPUCount. destruct (q_GPUCount w <=? 0) eqn:?; [lia|].
  rewrite decide_False by done.
  destruct (_ !! _) as [cap|]; [|naive_solver].
  split; [intros [= ?]; exists cap; split; [done|lia]|].
  intros (? & [= <-] & ?). f_equal. lia.
Qed.

Lemma FitsPerDeviceMemory_true w fleet :
  0 < q_GPUMemoryMiB w → q_Profile w ≠ "" →
  FitsPerDeviceMemory w fleet = Ok true ↔
  ∃ cap, byProfile fleet !! q_Profile w = Some cap ∧
    q_GPUMemoryMiB w ≤ c_MemoryMiBPerDevice cap.
Proof.
  intros Hg Hp. unfold FitsPerDeviceMemory. destruct (q_GPUMemoryMiB w <=? 0) eqn:?; [lia|].
  rewrite decide_False by done.
  destruct (_ !! _) as [cap|]; [|naive_solver].
  destruct (c_MemoryMiBPerDevice cap <=? 0) eqn:?.
  - split; [done|]. intros (cap' & [= <-] & ?). lia.
  - split; [intros [= ?]; exists cap; split; [done|lia]|].
    intros (? & [= <-] & ?). f_equal. lia.
Qed.

(** Candidates of one priority and one time are one class of the order. *)
Lemma queued_equiv z y :
  equiv_less queued_less z y = true ↔ q_Priority y = q_Priority z ∧ q_QueuedAt y = q_QueuedAt z.
Proof.
  unfold equiv_less. rewrite andb_true_iff, !negb_true_iff, !queued_less_false. lia.
Qed.

Definition class_of (p : Z) (t : Time) : list QueuedWorkload → list QueuedWorkload :=
  filter (λ w, q_Priority w = p ∧ q_QueuedAt w = t).

Lemma queued_class z l :
  filter (λ y, equiv_less queued_less z y = true) l = class_of (q_Priority z) (q_QueuedAt z) l.
Proof. apply list_filter_iff, queued_equiv. Qed.

Definition at_class (p : Z) (t : Time) : QueuedWorkload :=
  {| q_WorkloadID := ""; q_Tenant := ""; q_Priority := p; q_QueuedAt := t; q_GPUCount := 0;
     q_GPUMemoryMiB := 0; q_Profile := ""; q_Tokens := 0; q_Kind := "" |}.

(** Highest priority first, then first come first served. *)
Definition preference_sorted : list QueuedWorkload → Prop :=
  StronglySorted (λ x y, q_Priority y < q_Priority x ∨
                         (q_Priority x = q_Priority y ∧ q_QueuedAt x ≤ q_QueuedAt y)).

(** [OrderQueued] returns the candidates sorted by priority (highest first), then by queueing
    time (earliest first), with ties in the order of the input; and that description determines the
    result: a list with these properties is the one returned. *)
Theorem OrderQueued_correct (l : list QueuedWorkload) :
  OrderQueued l ≡ₚ l ∧ preference_sorted (OrderQueued l) ∧
  (∀ p t, class_of p t (OrderQueued l) = class_of p t l) ∧
  (∀ k, preference_sorted k → (∀ p t, class_of p t k = class_of p t l) → k = OrderQueued l).
Proof.
  split_and!; [apply OrderQueued_perm| | |].
  - eapply StronglySorted_weaken; [|apply (SliceStable_sorted queued_less l)].
    intros x y. apply queued_less_false.
  - intros p t. rewrite <- !(queued_class (at_class p t)). apply SliceStable_stable, _.
  - intros k Hk Hc. apply SliceStable_unique; [apply _| |].
    + eapply StronglySorted_weaken; [|exact Hk]. intros x y. apply queued_less_false.
    + intros z. rewrite !queued_class. apply Hc.
Qed.

(** The tenant cap.  On counts in range, [ExceedsTenantGPUCap] with the usage
    [TenantGPUsUsed] collects is true exactly when the tenant has a non-zero cap and the GPUs of
    its workloads plus the requested ones exceed it; 64-bit wrap-around plays no part. *)
Theorem tenant_cap_exact (w : QueuedWorkload) (l : list RunningWorkload)
    (quotas : gmap string TenantQuota) :
  Forall (λ r, 0 ≤ r_GPUCount r ≤ int32_max) l → Z.of_nat (length l) ≤ 2 ^ 31 →
  0 < q_GPUCount w ≤ int32_max →
  ExceedsTenantGPUCap w (TenantGPUsUsed l) quotas = true ↔
  ∃ cap, tenant_cap quotas (q_Tenant w) = Some cap ∧
    cap < tenant_gpus (q_Tenant w) l + q_GPUCount w.
Proof. apply ExceedsTenantGPUCap_spec. Qed.

(** The fixtures of the witnesses. *)
Module AdmissionExample.
Definition running (id tenant : string) (prio started gpus : Z) : RunningWorkload :=
  {| r_WorkloadID := id; r_Tenant := tenant; r_Priority := prio; r_StartedAt := started;
     r_GPUCount := gpus; r_GPUMemoryMiB := 40000; r_Profile := "h100_sxm";
     r_Tokens := 1000; r_Kind := "inference" |}.
Definition queued (id tenant : string) (prio at_ gpus : Z) : QueuedWorkload :=
  {| q_WorkloadID := id; q_Tenant := tenant; q_Priority := prio; q_QueuedAt := at_;
     q_GPUCount := gpus; q_GPUMemoryMiB := 40000; q_Profile := "h100_sxm";
     q_Tokens := 1000; q_Kind := "inference" |}.
Definition quotas : gmap string TenantQuota :=
  {[ "a" := {| t_MaxGPUs := 6; t_MaxMemoryMiB := 0; t_Weight := 2 |};
     "b" := {| t_MaxGPUs := 0; t_MaxMemoryMiB := 0; t_Weight := 1 |} ]}.
Definition fleet (free : Z) : FleetFreeCapacity :=
  {| f_TotalFreeDevices := free; f_TotalFreeMemoryMiB := free * 81920;
     f_ByProfile := Some {[ "h100_sxm" :=
       {| c_FreeDevices := free; c_FreeMemoryMiB := free * 81920;
          c_MemoryMiBPerDevice := 81920 |} ]} |}.
End AdmissionExample.

Lemma tenant_cap_exact_witness :
  ExceedsTenantGPUCap (AdmissionExample.queued "w" "a" 0 1 3)
    (TenantGPUsUsed [AdmissionExample.running "r1" "a" 0 1 2; AdmissionExample.running "r2" "a" 0 1 2;
                     AdmissionExample.running "r3" "b" 0 1 2])
    AdmissionExample.quotas = true.
Proof.
  apply tenant_cap_exact.
  - repeat constructor; simpl; unfold int32_max; lia.
  - simpl. lia.
  - simpl. unfold int32_max. lia.
  - exists 6. split; by vm_compute.
Defined.
