(* ===== verification/Fairness.v ===== *)
(** * Weighted round robin (internal/scheduler/fairness_wrr.go)

    The fairness layer: the queues of the tenants, the rounds that take [weight] workloads of each
    tenant in turn, and the closed form of the result (round [r] takes the workloads
    [r * weight .. (r+1) * weight - 1] of every tenant). *)

From stdpp Require Import prelude gmap strings sorting pretty.
From S2P Require Import Prelude GoFloat SimModel SchedInputs Admission.

Local Open Scope Z_scope.
Local Open Scope go_scope.

Record tenantQueue := {
  tq_tenant : string;
  tq_items : list QueuedWorkload;
  tq_weight : Z;
}.

Definition tenant_weight (quotas : gmap string TenantQuota) (tenant : string) : Z :=
  match quotas !! tenant with
  | Some quota => if 0 <? t_Weight quota then t_Weight quota else 1
  | None => 1
  end.

(** One step of the loop that builds the queues: [byTenant] indexes [tenantsInOrder] by the
    tenant, so that the queue the map returns is the entry of the list with that tenant. *)
Fixpoint enqueue (quotas : gmap string TenantQuota) (tqs : list tenantQueue)
    (workload : QueuedWorkload) : list tenantQueue :=
  match tqs with
  | [] => [{| tq_tenant := q_Tenant workload; tq_items := [workload];
              tq_weight := tenant_weight quotas (q_Tenant workload) |}]
  | tq :: tqs' =>
      if decide (tq_tenant tq = q_Tenant workload)
      then {| tq_tenant := tq_tenant tq; tq_items := tq_items tq ++ [workload];
              tq_weight := tq_weight tq |} :: tqs'
      else tq :: enqueue quotas tqs' workload
  end.

Definition buildQueues (quotas : gmap string TenantQuota) (queued : list QueuedWorkload)
    : list tenantQueue :=
  foldl (enqueue quotas) [] queued.

(** The variables of the outer loop. *)
Record wrr_state := {
  ws_out : list QueuedWorkload;
  ws_remaining : Z;
  ws_progress : bool;
}.

(** The inner loop: one turn of every tenant. *)
Fixpoint wrr_round (st : wrr_state) (tqs : list tenantQueue) : wrr_state * list tenantQueue :=
  match tqs with
  | [] => (st, [])
  | tq :: tqs' =>
      if decide (length (tq_items tq) = 0%nat)
      then let '(st', rest) := wrr_round st tqs' in (st', tq :: rest)
      else
        let take1 := if tq_weight tq <=? 0 then 1 else tq_weight tq in
        let take2 := if Z.of_nat (length (tq_items tq)) <? take1
                     then Z.of_nat (length (tq_items tq)) else take1 in
        let st1 := {| ws_out := ws_out st ++ take (Z.to_nat take2) (tq_items tq);
                      ws_remaining := ws_remaining st - take2;
                      ws_progress := true |} in
        let tq' := {| tq_tenant := tq_tenant tq;
                      tq_items := drop (Z.to_nat take2) (tq_items tq);
                      tq_weight := tq_weight tq |} in
        let '(st', rest) := wrr_round st1 tqs' in (st', tq' :: rest)
  end.

(** The outer loop; [None] when [fuel] rounds are not enough. *)
Fixpoint wrr_loop (fuel : nat) (out : list QueuedWorkload) (remaining : Z)
    (tqs : list tenantQueue) : option (list QueuedWorkload) :=
  if 0 <? remaining then
    match fuel with
    | O => None
    | S fuel' =>
        let '(st, tqs') :=
          wrr_round {| ws_out := out; ws_remaining := remaining; ws_progress := false |} tqs in
        if negb (ws_progress st) then Some (ws_out st)
        else wrr_loop fuel' (ws_out st) (ws_remaining st) tqs'
    end
  else Some out.

(** Every round but the last takes a workload, so [len(queued)] rounds are enough
    ([wrr_loop_spec]). *)
Definition WeightedRoundRobinByTenant (queued : list QueuedWorkload)
    (quotas : gmap string TenantQuota) : list QueuedWorkload :=
  if decide (length queued = 0%nat) then []
  else default [] (wrr_loop (length queued) [] (Z.of_nat (length queued))
                            (buildQueues quotas queued)).

(** ** The closed form *)

(** The tenants in the order of their first workloads. *)
Fixpoint tenants_in_order (queued : list QueuedWorkload) : list string :=
  match queued with
  | [] => []
  | w :: queued' => q_Tenant w :: filter (λ t, t ≠ q_Tenant w) (tenants_in_order queued')
  end.

Definition of_tenant (t : string) (queued : list QueuedWorkload) : list QueuedWorkload :=
  filter (λ w, q_Tenant w = t) queued.

Definition turn (quotas : gmap string TenantQuota) (t : string) : nat :=
  Z.to_nat (tenant_weight quotas t).

(** What round [r] takes, and the first rounds together. *)
Definition round_of (quotas : gmap string TenantQuota) (queued : list QueuedWorkload) (r : nat)
    : list QueuedWorkload :=
  concat ((λ t, take (turn quotas t) (drop (r * turn quotas t) (of_tenant t queued)))
            <$> tenants_in_order queued).

Definition rounds_of (quotas : gmap string TenantQuota) (queued : list QueuedWorkload)
    (rs : list nat) : list QueuedWorkload :=
  concat (round_of quotas queued <$> rs).

(** ** The queues *)

Lemma tenant_weight_pos quotas t : 0 < tenant_weight quotas t.
Proof. unfold tenant_weight. repeat case_match; lia. Qed.

Lemma turn_pos quotas t : (0 < turn quotas t)%nat.
Proof. unfold turn. pose proof (tenant_weight_pos quotas t). lia. Qed.

#[export] Hint Resolve tenant_weight_pos turn_pos : go.

Lemma elem_of_tenants_in_order t q : t ∈ tenants_in_order q ↔ ∃ w, w ∈ q ∧ q_Tenant w = t.
Proof.
  induction q as [|w q IH]; simpl; [set_solver|].
  rewrite elem_of_cons, list_elem_of_filter, IH.
  destruct (decide (t = q_Tenant w)) as [->|]; set_solver.
Qed.

Lemma tenants_in_order_NoDup q : NoDup (tenants_in_order q).
Proof.
  induction q as [|w q IH]; simpl; constructor.
  - rewrite list_elem_of_filter. tauto.
  - by apply NoDup_filter.
Qed.

Lemma tenants_in_order_snoc q w :
  tenants_in_order (q ++ [w]) =
  tenants_in_order q ++ (if decide (q_Tenant w ∈ tenants_in_order q) then [] else [q_Tenant w]).
Proof.
  induction q as [|x q IH]; simpl; [done|].
  rewrite IH, filter_app. f_equal.
  destruct (decide (q_Tenant w = q_Tenant x)) as [He|He].
  - rewrite (decide_True (P := q_Tenant w ∈ _ :: _)) by (rewrite He; by left).
    case_decide; [done|]. by rewrite filter_cons_False by (intros Hn; by apply Hn).
  - assert (Hiff : q_Tenant w ∈ q_Tenant x :: filter (λ t, t ≠ q_Tenant x) (tenants_in_order q)
                   ↔ q_Tenant w ∈ tenants_in_order q).
    { rewrite elem_of_cons, list_elem_of_filter. tauto. }
    rewrite (decide_ext _ _ _ _ Hiff). case_decide; [done|].
    by rewrite filter_cons_True.
Qed.

(** The queue of a tenant after [r] rounds. *)
Definition queue_after (quotas : gmap string TenantQuota) (q : list QueuedWorkload) (r : nat)
    (t : string) : tenantQueue :=
  {| tq_tenant := t; tq_items := drop (r * turn quotas t) (of_tenant t q);
     tq_weight := tenant_weight quotas t |}.

Lemma of_tenant_snoc t q w :
  of_tenant t (q ++ [w]) = of_tenant t q ++ (if decide (q_Tenant w = t) then [w] else []).
Proof. unfold of_tenant. rewrite filter_app, filter_cons, filter_nil. by case_decide. Qed.

Lemma of_tenant_nil t q : t ∉ tenants_in_order q → of_tenant t q = [].
Proof.
  rewrite elem_of_tenants_in_order. intros H. apply filter_none. naive_solver.
Qed.

Lemma queue_after_snoc_ne quotas q w t :
  q_Tenant w ≠ t → queue_after quotas (q ++ [w]) 0 t = queue_after quotas q 0 t.
Proof.
  intros. unfold queue_after. by rewrite of_tenant_snoc, decide_False, app_nil_r.
Qed.

Lemma enqueue_queues quotas q w ts :
  NoDup ts → (q_Tenant w ∉ ts → of_tenant (q_Tenant w) q = []) →
  enqueue quotas (queue_after quotas q 0 <$> ts) w =
  queue_after quotas (q ++ [w]) 0 <$>
    (ts ++ if decide (q_Tenant w ∈ ts) then [] else [q_Tenant w]).
Proof.
  induction ts as [|t ts IH]; intros Hnd Hn.
  { rewrite decide_False by set_solver. simpl. unfold queue_after.
    rewrite of_tenant_snoc, Hn by set_solver. by rewrite decide_True. }
  apply NoDup_cons in Hnd as [Ht Hnd].
  rewrite <- app_comm_cons, !fmap_cons. cbn [enqueue]. change (tq_tenant _) with t.
  destruct (decide (t = q_Tenant w)) as [->|Hne].
  - rewrite (decide_True (P := _ ∈ _ :: _)) by (by left). rewrite app_nil_r. f_equal.
    + unfold queue_after; simpl. rewrite of_tenant_snoc, decide_True by done.
      by rewrite !drop_0.
    + apply list_fmap_ext. intros i x Hx. symmetry. apply queue_after_snoc_ne.
      intros He. apply Ht. rewrite He. by eapply list_elem_of_lookup_2.
  - rewrite IH by (done || intros; apply Hn; set_solver).
    rewrite queue_after_snoc_ne by done.
    assert (Hiff : q_Tenant w ∈ t :: ts ↔ q_Tenant w ∈ ts) by set_solver.
    by rewrite (decide_ext _ _ _ _ Hiff).
Qed.

(** The queues hold the workloads of each tenant, in the order of the tenants. *)
Lemma buildQueues_spec quotas q :
  buildQueues quotas q = queue_after quotas q 0 <$> tenants_in_order q.
Proof.
  unfold buildQueues. induction q as [|w q IH] using rev_ind; [done|].
  rewrite foldl_app, IH. simpl. rewrite enqueue_queues.
  - by rewrite tenants_in_order_snoc.
  - apply tenants_in_order_NoDup.
  - apply of_tenant_nil.
Qed.

(** ** The rounds *)

Definition tq_taken (tq : tenantQueue) : list QueuedWorkload :=
  take (Z.to_nat (tq_weight tq)) (tq_items tq).
Definition tq_left (tq : tenantQueue) : tenantQueue :=
  {| tq_tenant := tq_tenant tq; tq_items := drop (Z.to_nat (tq_weight tq)) (tq_items tq);
     tq_weight := tq_weight tq |}.
Definition pending (tqs : list tenantQueue) : nat := length (concat (tq_items <$> tqs)).

Lemma wrr_round_spec st tqs :
  Forall (λ tq, 0 < tq_weight tq) tqs →
  wrr_round st tqs =
  ({| ws_out := ws_out st ++ concat (tq_taken <$> tqs);
      ws_remaining := ws_remaining st - Z.of_nat (length (concat (tq_taken <$> tqs)));
      ws_progress := ws_progress st || negb (length (concat (tq_taken <$> tqs)) =? 0)%nat |},
   tq_left <$> tqs).
Proof.
  intros H; revert st. induction H as [|tq tqs Hw _ IH]; intros st.
  { simpl. destruct st as [o r p]; simpl. by rewrite app_nil_r, Z.sub_0_r, orb_false_r. }
  rewrite !fmap_cons. destruct tq as [t items weight]. cbn [wrr_round concat].
  change (tq_taken (Build_tenantQueue _ _ _)) with (take (Z.to_nat weight) items).
  change (tq_left (Build_tenantQueue _ _ _))
    with (Build_tenantQueue t (drop (Z.to_nat weight) items) weight).
  cbn [tq_tenant tq_items tq_weight] in *.
  case_decide as Hl.
  { apply nil_length_inv in Hl as ->. rewrite IH. by rewrite take_nil, drop_nil. }
  replace (weight <=? 0) with false by lia.
  set (k := if _ <? _ then _ else _).
  assert (Hk : Z.to_nat k = (Z.to_nat weight `min` length items)%nat)
    by (subst k; case_match; lia).
  assert (Hk0 : 0 < k) by (subst k; case_match; lia). clearbody k.
  rewrite Hk, IH; cbn [ws_out ws_remaining ws_progress]. rewrite length_app, length_take.
  assert (take (Z.to_nat weight `min` length items) items = take (Z.to_nat weight) items) as ->.
  { rewrite <- take_take, (firstn_all items). done. }
  assert (drop (Z.to_nat weight `min` length items) items = drop (Z.to_nat weight) items) as ->.
  { destruct (decide ((Z.to_nat weight ≤ length items)%nat)); [by rewrite Nat.min_l|].
    rewrite Nat.min_r, !drop_ge by lia. done. }
  rewrite <- app_assoc. f_equal. f_equal; [lia|].
  destruct (_ `min` _ + _ =? 0)%nat eqn:E; [|by rewrite orb_true_r].
  exfalso. apply Nat.eqb_eq in E. lia.
Qed.

Lemma rounds_of_cons quotas q r rs :
  rounds_of quotas q (r :: rs) = round_of quotas q r ++ rounds_of quotas q rs.
Proof. done. Qed.

Section rounds.
Context (quotas : gmap string TenantQuota) (q : list QueuedWorkload).
Let ts := tenants_in_order q.
Let after (r : nat) := queue_after quotas q r <$> ts.

Lemma after_weights r : Forall (λ tq, 0 < tq_weight tq) (after r).
Proof. apply Forall_fmap, Forall_true. intros t. apply tenant_weight_pos. Qed.

Lemma after_taken r : concat (tq_taken <$> after r) = round_of quotas q r.
Proof. unfold after, round_of. by rewrite <- list_fmap_compose. Qed.

Lemma after_left r : tq_left <$> after r = after (S r).
Proof.
  unfold after. rewrite <- list_fmap_compose. apply list_fmap_ext. intros i t _.
  unfold compose, tq_left, queue_after; simpl. f_equal. rewrite drop_drop. f_equal.
  unfold turn. lia.
Qed.

Lemma pending_split tqs :
  pending tqs = (length (concat (tq_taken <$> tqs)) + pending (tq_left <$> tqs))%nat.
Proof.
  unfold pending. induction tqs as [|tq tqs IH]; [done|].
  rewrite !fmap_cons; simpl. rewrite !length_app, IH.
  unfold tq_taken at 2. rewrite length_take, length_drop. lia.
Qed.

Lemma taken_nonempty tqs :
  Forall (λ tq, 0 < tq_weight tq) tqs → (0 < pending tqs)%nat →
  (0 < length (concat (tq_taken <$> tqs)))%nat.
Proof.
  unfold pending. induction 1 as [|tq tqs Hw _ IH]; [done|].
  rewrite !fmap_cons; simpl. rewrite !length_app. unfold tq_taken at 1.
  rewrite length_take. lia.
Qed.

(** Nothing is left after a round without workloads. *)
Lemma pending_done r n : pending (after r) = 0%nat → rounds_of quotas q (seq r n) = [].
Proof.
  revert r; induction n as [|n IH]; intros r Hp; [done|].
  pose proof (pending_split (after r)) as Hs. rewrite after_left, after_taken in Hs.
  cbn [seq]. rewrite rounds_of_cons, IH by lia. rewrite app_nil_r. apply nil_length_inv. lia.
Qed.

(** The loop terminates within one round per pending workload, and returns the rounds. *)
Lemma wrr_loop_spec fuel r out :
  (pending (after r) ≤ fuel)%nat →
  wrr_loop fuel out (Z.of_nat (pending (after r))) (after r) =
  Some (out ++ rounds_of quotas q (seq r fuel)).
Proof.
  revert r out; induction fuel as [|fuel IH]; intros r out Hp.
  { replace (pending (after r)) with 0%nat by lia. simpl. by rewrite app_nil_r. }
  cbn [wrr_loop]. destruct (0 <? _) eqn:E.
  2:{ rewrite pending_done by lia. by rewrite app_nil_r. }
  rewrite wrr_round_spec by apply after_weights; cbn [ws_out ws_remaining ws_progress].
  pose proof (taken_nonempty _ (after_weights r) ltac:(lia)) as Ht.
  pose proof (pending_split (after r)) as Hs. rewrite after_left, after_taken in *.
  destruct (_ =? 0)%nat eqn:E0; [exfalso; apply Nat.eqb_eq in E0; lia|]. simpl.
  replace (Z.of_nat (pending (after r)) - _) with (Z.of_nat (pending (after (S r)))) by lia.
  rewrite IH by lia. by rewrite <- app_assoc.
Qed.

Lemma pending_start : pending (after 0) = length q.
Proof.
  unfold pending, after. rewrite <- list_fmap_compose.
  assert (H : concat ((λ t, of_tenant t q) <$> ts) ≡ₚ q); [|by rewrite <- H at 2].
  apply concat_filter_key; [apply tenants_in_order_NoDup|].
  intros w Hw. apply elem_of_tenants_in_order. eauto.
Qed.

(** Termination and the closed form. *)
Lemma WeightedRoundRobin_loop :
  wrr_loop (length q) [] (Z.of_nat (length q)) (buildQueues quotas q) =
  Some (rounds_of quotas q (seq 0 (length q))).
Proof.
  rewrite buildQueues_spec. fold (after 0). rewrite <- pending_start at 2.
  apply wrr_loop_spec. by rewrite pending_start.
Qed.

Lemma WeightedRoundRobin_rounds :
  WeightedRoundRobinByTenant q quotas = rounds_of quotas q (seq 0 (length q)).
Proof.
  unfold WeightedRoundRobinByTenant. case_decide as Hl.
  - apply nil_length_inv in Hl as ->. done.
  - by rewrite WeightedRoundRobin_loop.
Qed.

End rounds.

(** ** Order within a tenant, permutation, fairness *)

Lemma turns_prefix {A} (w n : nat) (l : list A) :
  concat ((λ r, take w (drop (r * w) l)) <$> seq 0 n) = take (n * w) l.
Proof.
  induction n as [|n IH]; [done|].
  rewrite seq_S, fmap_app, concat_app, IH; simpl. rewrite app_nil_r, Nat.add_comm.
  by rewrite take_take_drop.
Qed.

Section fair.
Context (quotas : gmap string TenantQuota) (q : list QueuedWorkload).

Lemma of_tenant_elem t w : w ∈ of_tenant t q → q_Tenant w = t ∧ w ∈ q.
Proof. unfold of_tenant. by rewrite list_elem_of_filter. Qed.

(** A round takes its share of every tenant. *)
Lemma round_of_tenant t r :
  of_tenant t (round_of quotas q r) =
  take (turn quotas t) (drop (r * turn quotas t) (of_tenant t q)).
Proof.
  unfold round_of, of_tenant at 1.
  rewrite (filter_concat_key q_Tenant _
             (λ t, take (turn quotas t) (drop (r * turn quotas t) (of_tenant t q)))).
  - case_decide as Ht; [done|]. by rewrite of_tenant_nil, drop_nil, take_nil.
  - apply tenants_in_order_NoDup.
  - intros t' w Hw. apply (of_tenant_elem t' w).
    eapply elem_of_submseteq; [exact Hw|].
    etransitivity; apply sublist_submseteq; [apply sublist_take|apply sublist_drop].
Qed.

Lemma rounds_of_tenant t rs :
  of_tenant t (rounds_of quotas q rs) =
  concat ((λ r, take (turn quotas t) (drop (r * turn quotas t) (of_tenant t q))) <$> rs).
Proof.
  induction rs as [|r rs IH]; [done|]. rewrite rounds_of_cons, fmap_cons. cbn [concat].
  unfold of_tenant at 1. rewrite filter_app. f_equal; [apply round_of_tenant|exact IH].
Qed.

(** Every tenant's workloads come out complete and in their order. *)
Lemma WeightedRoundRobin_tenant t :
  of_tenant t (WeightedRoundRobinByTenant q quotas) = of_tenant t q.
Proof.
  rewrite WeightedRoundRobin_rounds, rounds_of_tenant, turns_prefix.
  apply take_ge. pose proof (turn_pos quotas t).
  pose proof (length_filter (λ w, q_Tenant w = t) q). unfold of_tenant. nia.
Qed.

Lemma WeightedRoundRobin_elem w : w ∈ WeightedRoundRobinByTenant q quotas → w ∈ q.
Proof.
  intros Hw. apply (of_tenant_elem (q_Tenant w)).
  rewrite <- WeightedRoundRobin_tenant. by apply list_elem_of_filter.
Qed.

Lemma WeightedRoundRobin_perm : WeightedRoundRobinByTenant q quotas ≡ₚ q.
Proof.
  assert (Hq : ∀ w, w ∈ q → q_Tenant w ∈ tenants_in_order q)
    by (intros; apply elem_of_tenants_in_order; eauto).
  rewrite <- (concat_filter_key q_Tenant (tenants_in_order q) q) at 2;
    [|apply tenants_in_order_NoDup|done].
  rewrite <- (concat_filter_key q_Tenant (tenants_in_order q)
                (WeightedRoundRobinByTenant q quotas)).
  - apply reflexive_eq. f_equal. apply list_fmap_ext. intros i t _.
    apply WeightedRoundRobin_tenant.
  - apply tenants_in_order_NoDup.
  - intros w Hw. by apply Hq, WeightedRoundRobin_elem.
Qed.

(** How many of the first workloads belong to a tenant. *)
Definition served (t : string) (l : list QueuedWorkload) : nat := length (of_tenant t l).

Lemma served_app t l k : served t (l ++ k) = (served t l + served t k)%nat.
Proof. unfold served, of_tenant. by rewrite filter_app, length_app. Qed.

Lemma served_round t r :
  served t (round_of quotas q r) =
  (turn quotas t `min` (served t q - r * turn quotas t))%nat.
Proof. unfold served. by rewrite round_of_tenant, length_take, length_drop. Qed.

Lemma served_take t l n : (served t (take n l) ≤ served t l)%nat.
Proof.
  rewrite <- (take_drop n l) at 2. rewrite served_app. lia.
Qed.

(** While tenant [t] still waits, tenant [u] gets at most one turn more than [t]'s turns. *)
Lemma served_rounds_bound t u r n k :
  (served t (take k (rounds_of quotas q (seq r n))) < served t q - r * turn quotas t)%nat →
  (served u (take k (rounds_of quotas q (seq r n))) * turn quotas t ≤
   turn quotas u * (served t (take k (rounds_of quotas q (seq r n))) + turn quotas t))%nat.
Proof.
  revert r k; induction n as [|n IH]; intros r k Ht.
  { unfold rounds_of; simpl. rewrite take_nil. unfold served; simpl. lia. }
  cbn [seq] in *. rewrite rounds_of_cons in *.
  assert (Hu : (served u (round_of quotas q r) ≤ turn quotas u)%nat)
    by (rewrite served_round; lia).
  destruct (decide (k ≤ length (round_of quotas q r))%nat) as [Hk|Hk].
  - rewrite take_app_le in * by done.
    pose proof (served_take u (round_of quotas q r) k). nia.
  - rewrite take_app_ge in * by lia. rewrite !served_app in *.
    specialize (IH (S r) (k - length (round_of quotas q r))%nat).
    rewrite (served_round t) in *. specialize (IH ltac:(lia)).
    rewrite Nat.min_l in * by lia. nia.
Qed.

End fair.

(** C40: Weighted round robin equals its closed form: with the tenants in the order of their first
    workloads, round [r] hands out the workloads [r*w .. (r+1)*w-1] of each tenant with turn [w],
    and the rounds follow one another; the loop reaches this result within [len(queued)]
    rounds. *)
Theorem WRR_closed_form (quotas : gmap string TenantQuota) (q : list QueuedWorkload) :
  wrr_loop (length q) [] (Z.of_nat (length q)) (buildQueues quotas q) =
    Some (rounds_of quotas q (seq 0 (length q))) ∧
  WeightedRoundRobinByTenant q quotas = rounds_of quotas q (seq 0 (length q)).
Proof. split; [apply WeightedRoundRobin_loop|apply WeightedRoundRobin_rounds]. Qed.

(** Weighted round robin neither drops, duplicates nor reorders within a tenant: the output is
    a permutation of the input, and each tenant's workloads appear in the order they came in. *)
Theorem WRR_permutation_fifo (quotas : gmap string TenantQuota) (q : list QueuedWorkload) :
  WeightedRoundRobinByTenant q quotas ≡ₚ q ∧
  ∀ t, of_tenant t (WeightedRoundRobinByTenant q quotas) = of_tenant t q.
Proof. split; [apply WeightedRoundRobin_perm|intros; apply WeightedRoundRobin_tenant]. Qed.

(** C12: Fairness at every prefix: as long as tenant [t] has workloads left, another tenant [u] has
    been served at most one turn beyond its weighted share,
    [served u * weight t <= weight u * (served t + weight t)]. *)
Theorem WRR_weighted_fair (quotas : gmap string TenantQuota) (q : list QueuedWorkload)
    (t u : string) (k : nat) :
  (served t (take k (WeightedRoundRobinByTenant q quotas)) < served t q)%nat →
  Z.of_nat (served u (take k (WeightedRoundRobinByTenant q quotas))) * tenant_weight quotas t ≤
  tenant_weight quotas u *
    (Z.of_nat (served t (take k (WeightedRoundRobinByTenant q quotas))) + tenant_weight quotas t).
Proof.
  rewrite WeightedRoundRobin_rounds. intros Ht.
  pose proof (served_rounds_bound quotas q t u 0 (length q) k ltac:(lia)).
  unfold turn in *. pose proof (tenant_weight_pos quotas t). pose proof (tenant_weight_pos quotas u).
  nia.
Qed.

(** The example of the source comment: weights a = 2 and b = 1. *)
Definition example_workload (id tenant : string) : QueuedWorkload :=
  {| q_WorkloadID := id; q_Tenant := tenant; q_Priority := 0; q_QueuedAt := 1; q_GPUCount := 1;
     q_GPUMemoryMiB := 1; q_Profile := "h100_sxm"; q_Tokens := 1; q_Kind := "training" |}.
Definition example_quotas : gmap string TenantQuota :=
  {[ "a" := {| t_MaxGPUs := 0; t_MaxMemoryMiB := 0; t_Weight := 2 |};
     "b" := {| t_MaxGPUs := 0; t_MaxMemoryMiB := 0; t_Weight := 1 |} ]}.
Definition example_queue : list QueuedWorkload :=
  [example_workload "a1" "a"; example_workload "a2" "a"; example_workload "a3" "a";
   example_workload "b1" "b"; example_workload "b2" "b"].

Example WRR_source_example :
  q_WorkloadID <$> WeightedRoundRobinByTenant example_queue example_quotas =
  ["a1"; "a2"; "b1"; "a3"; "b2"].
Proof. by vm_compute. Qed.

Lemma WRR_weighted_fair_witness :
  Z.of_nat (served "a" (take 2 (WeightedRoundRobinByTenant example_queue example_quotas)))
    * tenant_weight example_quotas "b" ≤
  tenant_weight example_quotas "a" *
    (Z.of_nat (served "b" (take 2 (WeightedRoundRobinByTenant example_queue example_quotas)))
     + tenant_weight example_quotas "b").
Proof. apply WRR_weighted_fair. vm_compute. lia. Defined.
