(* ===== verification/Preemption.v ===== *)
(** * Preemption (internal/scheduler/preemption.go)

    The shortfall of an incoming workload, the running workloads that may be preempted for it, and
    the two strategies that choose victims: lowest priority first, and the fewest victims within
    the lowest sufficient priority band. *)

From stdpp Require Import prelude gmap strings sorting pretty.
From S2P Require Import Prelude GoFloat SimModel SchedInputs Admission.

Local Open Scope Z_scope.
Local Open Scope go_scope.

Record preemptionContext := {
  pc_profile : string;
  pc_needToFree : Z;
  pc_candidates : list RunningWorkload;
}.

(** Lowest priority first; within a priority, most recently started first. *)
Definition victim_less (x y : RunningWorkload) : bool :=
  if negb (r_Priority x =? r_Priority y) then r_Priority x <? r_Priority y
  else After (r_StartedAt x) (r_StartedAt y).

(** The results [(ctx, false, nil)], [(nil, true, nil)] and [(nil, false, err)] are
    [Ok (Some ctx)], [Ok None] and [Err err]. *)
Definition buildPreemptionContext (incoming : QueuedWorkload) (running : list RunningWorkload)
    (fleet : FleetFreeCapacity) : Result (option preemptionContext) :=
  match CompatibleProfileAndKind incoming fleet with
  | Some e => Err e
  | None =>
  match FitsGPUCount incoming fleet with
  | Err e => Err e
  | Ok true => Ok None
  | Ok false =>
  match FitsPerDeviceMemory incoming fleet with
  | Err e => Err e
  | Ok false =>
      Err (Errorf ("incoming workload requires " +:+ pretty (q_GPUMemoryMiB incoming)
                   +:+ " MiB per device but profile " +:+ Quote (q_Profile incoming)
                   +:+ " capacity is lower"))
  | Ok true =>
      let free := match byProfile fleet !! q_Profile incoming with
                  | Some cap => c_FreeDevices cap
                  | None => 0
                  end in
      let need := q_GPUCount incoming [-] free in
      if need <=? 0 then Ok None
      else Ok (Some {| pc_profile := q_Profile incoming; pc_needToFree := need;
                       pc_candidates :=
                         SliceStable victim_less
                           (filter (λ r, r_Profile r = q_Profile incoming) running) |})
  end end end.

(** The loop both strategies share: victims in order until [need] is met ([inl]), or the GPUs
    freed when the list ends first ([inr]). *)
Fixpoint pickVictims (need : Z) (victims : list RunningWorkload) (freed : Z)
    (l : list RunningWorkload) : list RunningWorkload + Z :=
  match l with
  | [] => inr freed
  | r :: l' =>
      let victims' := victims ++ [r] in
      let freed' := freed [+] r_GPUCount r in
      if need <=? freed' then inl victims' else pickVictims need victims' freed' l'
  end.

Definition insufficient (profile : string) (need : Z) (rest : string) : error :=
  Errorf ("insufficient preemptable capacity for profile " +:+ Quote profile
          +:+ ": need to free " +:+ pretty need +:+ " GPUs but " +:+ rest).

Definition SelectPreemptionVictims (incoming : QueuedWorkload) (running : list RunningWorkload)
    (fleet : FleetFreeCapacity) : Result (list RunningWorkload) :=
  match buildPreemptionContext incoming running fleet with
  | Err e => Err e
  | Ok None => Ok []
  | Ok (Some ctx) =>
      match pickVictims (pc_needToFree ctx) [] 0 (pc_candidates ctx) with
      | inl victims => Ok victims
      | inr freed => Err (insufficient (pc_profile ctx) (pc_needToFree ctx)
                            ("only " +:+ pretty freed +:+ " GPUs are running on that profile"))
      end
  end.

(** Largest workload first; ties by the most recent start. *)
Definition greedy_less (x y : RunningWorkload) : bool :=
  if negb (r_GPUCount x =? r_GPUCount y) then r_GPUCount y <? r_GPUCount x
  else After (r_StartedAt x) (r_StartedAt y).

(** [None] is the nil slice. *)
Definition greedyPickVictimsByGPUCount (candidates : list RunningWorkload) (need : Z)
    : option (list RunningWorkload) :=
  if need <=? 0 then None
  else match pickVictims need [] 0 (SliceStable greedy_less candidates) with
       | inl victims => Some victims
       | inr _ => None
       end.

(** The inner loop: the candidates of priority [p] at the front of [l] join the pool. *)
Fixpoint takeBand (p : Z) (pool l : list RunningWorkload)
    : list RunningWorkload * list RunningWorkload :=
  match l with
  | [] => (pool, [])
  | r :: l' => if r_Priority r =? p then takeBand p (pool ++ [r]) l' else (pool, l)
  end.

(** The loop over the priority bands; [idx] is the boundary between [pool] and [l].  Each turn
    moves at least one candidate, so [length l] turns are enough ([bandLoop_None]). *)
Fixpoint bandLoop (fuel : nat) (need : Z) (pool l : list RunningWorkload)
    : option (list RunningWorkload) :=
  match fuel, l with
  | S fuel', r :: _ =>
      let '(pool', l') := takeBand (r_Priority r) pool l in
      match greedyPickVictimsByGPUCount pool' need with
      | Some victims => Some victims
      | None => bandLoop fuel' need pool' l'
      end
  | _, _ => None
  end.

Definition SelectPreemptionVictimsGreedyMinimal (incoming : QueuedWorkload)
    (running : list RunningWorkload) (fleet : FleetFreeCapacity)
    : Result (list RunningWorkload) :=
  match buildPreemptionContext incoming running fleet with
  | Err e => Err e
  | Ok None => Ok []
  | Ok (Some ctx) =>
      let need := pc_needToFree ctx in
      if decide (length (pc_candidates ctx) = 0%nat)
      then Err (insufficient (pc_profile ctx) need "no workloads are running on that profile")
      else
      match bandLoop (length (pc_candidates ctx)) need [] (pc_candidates ctx) with
      | Some victims => Ok victims
      | None =>
          let total := int64_sum r_GPUCount 0 (pc_candidates ctx) in
          Err (insufficient (pc_profile ctx) need
                 ("only " +:+ pretty total +:+ " GPUs are running on that profile"))
      end
  end.

(** ** Specification *)

(** The workloads whose devices would help [w]. *)
Definition same_profile (w : QueuedWorkload) (running : list RunningWorkload)
    : list RunningWorkload :=
  filter (λ r, r_Profile r = q_Profile w) running.

(** Those of them with a priority up to [p]. *)
Definition band (p : Z) (l : list RunningWorkload) : list RunningWorkload :=
  filter (λ r, r_Priority r ≤ p) l.

Definition gpus (l : list RunningWorkload) : Z := Zsum r_GPUCount l.

(** Counts of running workloads, as they come from the [int32] fields. *)
Definition counts_ok (l : list RunningWorkload) : Prop :=
  Forall (λ r, 0 < r_GPUCount r ≤ int32_max) l ∧ Z.of_nat (length l) ≤ 2 ^ 31.

(** [v] is the shortest prefix of [l] that frees [need]. *)
Definition shortest_prefix (need : Z) (l v : list RunningWorkload) : Prop :=
  ∃ n, v = take n l ∧ (n ≤ length l)%nat ∧ need ≤ gpus v ∧
    ∀ m, (m < n)%nat → gpus (take m l) < need.

(** ** The orders *)

#[export] Instance victim_less_swo : StrictWeakOrder victim_less.
Proof.
  split; unfold victim_less, After.
  - intros x. rewrite !Z.eqb_refl. simpl. lia.
  - intros x y z. repeat case_match; lia.
  - intros x y z. repeat case_match; lia.
Qed.

#[export] Instance greedy_less_swo : StrictWeakOrder greedy_less.
Proof.
  split; unfold greedy_less, After.
  - intros x. rewrite !Z.eqb_refl. simpl. lia.
  - intros x y z. repeat case_match; lia.
  - intros x y z. repeat case_match; lia.
Qed.

Lemma victims_by_priority l :
  StronglySorted (λ x y, r_Priority x ≤ r_Priority y) (SliceStable victim_less l).
Proof.
  eapply StronglySorted_weaken; [|apply (SliceStable_sorted victim_less l)].
  intros x y. unfold victim_less. case_match; lia.
Qed.

Lemma greedy_by_count l :
  StronglySorted (λ x y, r_GPUCount y ≤ r_GPUCount x) (SliceStable greedy_less l).
Proof.
  eapply StronglySorted_weaken; [|apply (SliceStable_sorted greedy_less l)].
  intros x y. unfold greedy_less. case_match; lia.
Qed.

(** ** Sums of counts *)

Lemma counts_ok_perm l k : l ≡ₚ k → counts_ok l → counts_ok k.
Proof. intros H [Hl Hn]. split; [by rewrite <- H|by rewrite <- H]. Qed.

Lemma counts_ok_sub l k : k ⊆+ l → counts_ok l → counts_ok k.
Proof.
  intros Hs [Hl Hn]. split.
  - rewrite Forall_forall in *. intros x Hx. apply Hl. by eapply elem_of_submseteq.
  - pose proof (submseteq_length _ _ Hs). lia.
Qed.

Lemma gpus_sub l k : counts_ok l → k ⊆+ l → gpus k ≤ gpus l.
Proof.
  intros [Hl _] Hs. apply Zsum_submseteq; [|done].
  intros x Hx. rewrite Forall_forall in Hl. specialize (Hl x Hx). lia.
Qed.

Lemma gpus_range l : counts_ok l → 0 ≤ gpus l ≤ 2 ^ 62.
Proof.
  intros [Hl Hn]. rewrite Forall_forall in Hl. split.
  - apply Zsum_nonneg. intros x Hx. specialize (Hl x Hx). lia.
  - etransitivity; [apply (Zsum_bound _ int32_max)|unfold int32_max; lia].
    intros x Hx. specialize (Hl x Hx). lia.
Qed.

Lemma gpus_app l k : gpus (l ++ k) = gpus l + gpus k.
Proof. apply Zsum_app. Qed.

#[export] Instance gpus_Proper : Proper ((≡ₚ) ==> (=)) gpus.
Proof. apply Zsum_Proper. Qed.

Lemma same_profile_sub w l : same_profile w l ⊆+ l.
Proof. apply sublist_submseteq, sublist_filter. Qed.

(** ** The loop *)

Lemma pickVictims_acc need pre l :
  counts_ok (pre ++ l) → (∀ m, (m ≤ length pre)%nat → gpus (take m pre) < need) →
  match pickVictims need pre (gpus pre) l with
  | inl v => shortest_prefix need (pre ++ l) v
  | inr freed => freed = gpus (pre ++ l) ∧ gpus (pre ++ l) < need
  end.
Proof.
  revert pre; induction l as [|r l IH]; intros pre Hc Hpre; cbn [pickVictims].
  { rewrite app_nil_r. split; [done|]. rewrite <- (firstn_all pre). by apply Hpre. }
  rewrite (cons_middle r pre l), app_assoc in *.
  assert (Hs : gpus pre [+] r_GPUCount r = gpus (pre ++ [r])).
  { rewrite gpus_app. unfold gpus at 3; simpl. rewrite Z.add_0_r. apply int64_add_id.
    assert (Hsub : pre ++ [r] ⊆+ (pre ++ [r]) ++ l) by apply submseteq_inserts_r, reflexivity.
    pose proof (gpus_range _ (counts_ok_sub _ _ Hsub Hc)) as Hg.
    rewrite gpus_app in Hg. unfold gpus at 2 4 in Hg; simpl in Hg. int_lia. }
  rewrite Hs. destruct (need <=? _) eqn:E.
  - exists (S (length pre)). split_and!.
    + rewrite take_app_le by (rewrite length_app; simpl; lia).
      rewrite take_ge; [done|]. rewrite length_app; simpl; lia.
    + rewrite !length_app; simpl; lia.
    + lia.
    + intros m Hm. rewrite <- app_assoc, take_app_le by lia. apply Hpre. lia.
  - apply IH; [done|]. intros m Hm. rewrite length_app in Hm; simpl in Hm.
    destruct (decide (m = S (length pre))) as [->|].
    + rewrite take_ge by (rewrite length_app; simpl; lia). lia.
    + rewrite take_app_le by lia. apply Hpre. lia.
Qed.

Lemma pickVictims_spec need l :
  counts_ok l → 0 < need →
  match pickVictims need [] 0 l with
  | inl v => shortest_prefix need l v
  | inr freed => freed = gpus l ∧ gpus l < need
  end.
Proof.
  intros Hc Hn. apply (pickVictims_acc need [] l Hc).
  intros m _. rewrite take_nil. done.
Qed.

(** The greedy choice fails only when the whole pool is too small, and no other choice from the
    pool has fewer victims. *)
Lemma greedy_spec need pool :
  counts_ok pool → 0 < need →
  match greedyPickVictimsByGPUCount pool need with
  | Some v => v ⊆+ pool ∧ need ≤ gpus v ∧
              (∀ k, k ⊆+ pool → need ≤ gpus k → (length v ≤ length k)%nat)
  | None => gpus pool < need
  end.
Proof.
  intros Hc Hn. unfold greedyPickVictimsByGPUCount. replace (need <=? 0) with false by lia.
  pose proof (SliceStable_perm greedy_less pool) as Hp.
  pose proof (pickVictims_spec need (SliceStable greedy_less pool)
    (counts_ok_perm _ _ (symmetry Hp) Hc) Hn) as H.
  destruct (pickVictims _ _ _ _) as [v|freed].
  - destruct H as (n & -> & Hl & Hv & Hmin). split_and!; [|done|].
    { etransitivity; [apply sublist_submseteq, sublist_take|by apply Permutation_submseteq]. }
    intros k Hk Hkn. rewrite length_take.
    destruct (decide (n ≤ length k)%nat); [lia|].
    assert (Hk' : k ⊆+ SliceStable greedy_less pool)
      by (etransitivity; [exact Hk|by apply Permutation_submseteq]).
    pose proof (Zsum_take_max r_GPUCount _ k (greedy_by_count pool) Hk').
    specialize (Hmin (length k) ltac:(lia)). unfold gpus in *. lia.
  - destruct H as [_ H]. by rewrite Hp in H.
Qed.

(** ** The bands *)

Lemma takeBand_spec p pool l :
  StronglySorted (λ x y, r_Priority x ≤ r_Priority y) l →
  Forall (λ r, p ≤ r_Priority r) l →
  ∃ b l', takeBand p pool l = (pool ++ b, l') ∧ l = b ++ l' ∧
    Forall (λ r, r_Priority r = p) b ∧ Forall (λ r, p < r_Priority r) l'.
Proof.
  intros Hs; revert pool. induction Hs as [|r l Hs IH Hr]; intros pool Hp; cbn [takeBand].
  { exists [], []. by rewrite app_nil_r. }
  apply Forall_cons in Hp as [Hpr Hp]. destruct (r_Priority r =? p) eqn:E.
  - destruct (IH (pool ++ [r]) Hp) as (b & l' & -> & -> & Hb & Hl').
    exists (r :: b), l'. rewrite <- app_assoc. split_and!; try done.
    constructor; [lia|done].
  - exists [], (r :: l). rewrite app_nil_r. split_and!; try done.
    constructor; [lia|]. eapply Forall_impl; [exact Hr|]. simpl. lia.
Qed.

Lemma band_split p pool l :
  Forall (λ r, r_Priority r ≤ p) pool → Forall (λ r, p < r_Priority r) l →
  band p (pool ++ l) = pool.
Proof.
  rewrite !Forall_forall. intros H1 H2. unfold band. rewrite filter_app.
  rewrite filter_all by done. rewrite filter_none, app_nil_r; [done|].
  intros x Hx. specialize (H2 x Hx). lia.
Qed.

Lemma band_sub p l : band p l ⊆+ l.
Proof. apply sublist_submseteq, sublist_filter. Qed.

(** The loop stops at the lowest band that can free enough, or finds that none can. *)
Lemma bandLoop_spec need fuel pool l :
  counts_ok (pool ++ l) → 0 < need → gpus pool < need →
  StronglySorted (λ x y, r_Priority x ≤ r_Priority y) l → (length l ≤ fuel)%nat →
  (∀ x y, x ∈ pool → y ∈ l → r_Priority x < r_Priority y) →
  match bandLoop fuel need pool l with
  | Some v => ∃ p, greedyPickVictimsByGPUCount (band p (pool ++ l)) need = Some v ∧
                   ∀ p', p' < p → gpus (band p' (pool ++ l)) < need
  | None => gpus (pool ++ l) < need
  end.
Proof.
  revert pool l; induction fuel as [|fuel IH]; intros pool l Hc Hn Hg Hs Hf Hlt.
  { destruct l; [|simpl in Hf; lia]. simpl. by rewrite app_nil_r. }
  destruct l as [|r l]; cbn [bandLoop]; [by rewrite app_nil_r|].
  pose proof (StronglySorted_inv Hs) as [Hs' Hr].
  destruct (takeBand_spec (r_Priority r) pool (r :: l) Hs) as (b & l' & -> & Hl & Hb & Hl').
  { constructor; [lia|done]. }
  rewrite Hl in *.
  assert (Hpool : Forall (λ x, r_Priority x < r_Priority r) pool).
  { apply Forall_forall. intros x Hx. apply Hlt; [done|]. rewrite <- Hl. by left. }
  assert (Hb0 : (0 < length b)%nat).
  { destruct b as [|x b]; simpl; [|lia]. simpl in Hl. rewrite <- Hl in Hl'.
    apply Forall_cons in Hl' as [? _]. lia. }
  assert (Hband : band (r_Priority r) ((pool ++ b) ++ l') = pool ++ b).
  { apply band_split; [|done]. apply Forall_app. split.
    - eapply Forall_impl; [exact Hpool|]. simpl; lia.
    - eapply Forall_impl; [exact Hb|]. simpl; lia. }
  rewrite app_assoc in *.
  assert (Hcb : counts_ok (pool ++ b))
    by (eapply counts_ok_sub; [|exact Hc]; by apply submseteq_inserts_r).
  pose proof (greedy_spec need (pool ++ b) Hcb Hn) as Hgreedy.
  destruct (greedyPickVictimsByGPUCount (pool ++ b) need) as [v|] eqn:Ev.
  - exists (r_Priority r). rewrite Hband. split; [done|]. intros p' Hp'.
    rewrite <- app_assoc. unfold band. rewrite filter_app.
    rewrite (filter_none _ (b ++ l')), app_nil_r.
    + eapply Z.le_lt_trans; [|exact Hg]. apply gpus_sub; [|apply band_sub].
      eapply counts_ok_sub; [|exact Hcb]. by apply submseteq_inserts_r.
    + intros x. rewrite elem_of_app. rewrite Forall_forall in Hb, Hl'.
      intros [Hx|Hx]; [specialize (Hb x Hx)|specialize (Hl' x Hx)]; lia.
  - apply IH; try done.
    + by eapply StronglySorted_app_1_r.
    + apply (f_equal length) in Hl. rewrite length_app in *; simpl in *. lia.
    + intros x y Hx Hy. rewrite Forall_forall in Hb, Hl', Hpool. specialize (Hl' y Hy).
      apply elem_of_app in Hx as [Hx|Hx]; [specialize (Hpool x Hx)|specialize (Hb x Hx)]; lia.
Qed.

(** ** The strategies *)

(** The incoming workload would fit a device of its profile, but not the free devices. *)
Record short (w : QueuedWorkload) (fleet : FleetFreeCapacity) (cap : ProfileFreeCapacity) : Prop := {
  sh_compatible : CompatibleProfileAndKind w fleet = None;
  sh_cap : byProfile fleet !! q_Profile w = Some cap;
  sh_memory : q_GPUMemoryMiB w ≤ c_MemoryMiBPerDevice cap;
  sh_short : c_FreeDevices cap < q_GPUCount w;
}.

Section strategies.
Context (w : QueuedWorkload) (running : list RunningWorkload) (fleet : FleetFreeCapacity).
Hypotheses (Hrun : counts_ok running) (Hgpus : 0 < q_GPUCount w ≤ int32_max)
  (Hmem : 0 < q_GPUMemoryMiB w) (Hprofile : q_Profile w ≠ "")
  (Hfree : ∀ cap, byProfile fleet !! q_Profile w = Some cap →
             0 ≤ c_FreeDevices cap ≤ int64_max).

Definition context_for (cap : ProfileFreeCapacity) : preemptionContext :=
  {| pc_profile := q_Profile w; pc_needToFree := q_GPUCount w - c_FreeDevices cap;
     pc_candidates := SliceStable victim_less (same_profile w running) |}.

Lemma buildPreemptionContext_short cap :
  short w fleet cap → buildPreemptionContext w running fleet = Ok (Some (context_for cap)).
Proof.
  intros [H1 H2 H3 H4]. unfold buildPreemptionContext. rewrite H1. pose proof (Hfree cap H2).
  unfold FitsGPUCount. replace (q_GPUCount w <=? 0) with false by lia.
  rewrite decide_False, H2 by done. replace (q_GPUCount w <=? c_FreeDevices cap) with false by lia.
  rewrite (proj2 (FitsPerDeviceMemory_true w fleet Hmem Hprofile)) by eauto.
  rewrite int64_sub_id by int_lia.
  destruct (q_GPUCount w - c_FreeDevices cap <=? 0) eqn:E; [lia|]. done.
Qed.

Lemma buildPreemptionContext_inv ctx :
  buildPreemptionContext w running fleet = Ok (Some ctx) →
  ∃ cap, short w fleet cap ∧ ctx = context_for cap.
Proof.
  intros H. pose proof H as H'. unfold buildPreemptionContext in H.
  destruct (CompatibleProfileAndKind w fleet) eqn:H1; [done|].
  destruct (FitsGPUCount w fleet) as [[]|] eqn:H2; try done.
  destruct (FitsPerDeviceMemory w fleet) as [[]|] eqn:H3; try done.
  apply (FitsPerDeviceMemory_true w fleet Hmem Hprofile) in H3 as (cap & Hc & Hm).
  assert (Hs : short w fleet cap).
  { constructor; try done. unfold FitsGPUCount in H2.
    destruct (q_GPUCount w <=? 0); [done|]. rewrite decide_False, Hc in H2 by done.
    simplify_eq. lia. }
  exists cap. split; [done|]. rewrite (buildPreemptionContext_short cap Hs) in H'. congruence.
Qed.

Lemma candidates_ok : counts_ok (SliceStable victim_less (same_profile w running)).
Proof.
  eapply counts_ok_perm; [symmetry; apply SliceStable_perm|].
  eapply counts_ok_sub; [apply same_profile_sub|done].
Qed.

Lemma band_candidates p :
  band p (SliceStable victim_less (same_profile w running)) ≡ₚ band p (same_profile w running).
Proof. unfold band. by rewrite SliceStable_perm. Qed.

(** What both strategies agree on: enough capacity to preempt, or an error. *)
Lemma greedy_minimal_short cap :
  short w fleet cap →
  if decide (q_GPUCount w ≤ c_FreeDevices cap + gpus (same_profile w running))
  then ∃ p v,
    SelectPreemptionVictimsGreedyMinimal w running fleet = Ok v ∧
    v ⊆+ band p (same_profile w running) ∧
    q_GPUCount w ≤ c_FreeDevices cap + gpus v ∧
    (∀ p', p' < p → c_FreeDevices cap + gpus (band p' (same_profile w running)) < q_GPUCount w) ∧
    (∀ k, k ⊆+ band p (same_profile w running) →
          q_GPUCount w ≤ c_FreeDevices cap + gpus k → (length v ≤ length k)%nat)
  else ∃ e, SelectPreemptionVictimsGreedyMinimal w running fleet = Err e.
Proof.
  intros Hs. unfold SelectPreemptionVictimsGreedyMinimal.
  rewrite (buildPreemptionContext_short cap Hs). destruct Hs as [_ Hc _ Hshort].
  pose proof (Hfree cap Hc). cbn [pc_needToFree pc_candidates context_for].
  pose proof (SliceStable_perm victim_less (same_profile w running)) as Hp.
  destruct (decide (length _ = 0%nat)) as [Hl|Hl].
  { apply nil_length_inv in Hl. rewrite Hl in Hp.
    apply Permutation_nil_l in Hp. rewrite <- Hp. rewrite decide_False by (unfold gpus; simpl; lia). eauto. }
  pose proof (bandLoop_spec (q_GPUCount w - c_FreeDevices cap) (length (SliceStable victim_less
    (same_profile w running))) [] (SliceStable victim_less (same_profile w running))) as H1.
  specialize (H1 candidates_ok ltac:(lia) ltac:(unfold gpus; simpl; lia)).
  specialize (H1 (victims_by_priority _) ltac:(lia) ltac:(intros ?? Hx; by apply elem_of_nil in Hx)).
  destruct (bandLoop _ _ _ _) as [v|].
  - destruct H1 as (p & Hv & Hp'). simpl in Hv, Hp'.
    assert (Hn : 0 < q_GPUCount w - c_FreeDevices cap) by lia.
    pose proof (greedy_spec _ _ (counts_ok_sub _ _ (band_sub p _) candidates_ok) Hn) as Hg.
    rewrite Hv, band_candidates in Hg. destruct Hg as (Hsub & Hneed & Hmin).
    assert (gpus v ≤ gpus (same_profile w running)).
    { apply gpus_sub; [|by etransitivity; [|apply band_sub]].
      eapply counts_ok_sub; [apply same_profile_sub|done]. }
    rewrite decide_True by lia. exists p, v. split_and!; try done; [lia| |].
    + intros p' Hlt. specialize (Hp' p' Hlt). rewrite band_candidates in Hp'. lia.
    + intros k Hk Hkn. apply Hmin; [|lia]. by rewrite band_candidates.
  - simpl in H1. rewrite Hp in H1. rewrite decide_False by lia. eauto.
Qed.

(** The simple strategy takes the shortest prefix of its order. *)
Lemma simple_short cap :
  short w fleet cap →
  if decide (q_GPUCount w ≤ c_FreeDevices cap + gpus (same_profile w running))
  then ∃ v, SelectPreemptionVictims w running fleet = Ok v ∧
    shortest_prefix (q_GPUCount w - c_FreeDevices cap)
      (SliceStable victim_less (same_profile w running)) v
  else ∃ e, SelectPreemptionVictims w running fleet = Err e.
Proof.
  intros Hs. unfold SelectPreemptionVictims.
  rewrite (buildPreemptionContext_short cap Hs). destruct Hs as [_ Hc _ Hshort].
  cbn [pc_needToFree pc_candidates context_for].
  pose proof (SliceStable_perm victim_less (same_profile w running)) as Hp.
  pose proof (pickVictims_spec (q_GPUCount w - c_FreeDevices cap) _ candidates_ok ltac:(lia)) as H1.
  destruct (pickVictims _ _ _ _) as [v|freed].
  - destruct H1 as (n & -> & ? & ? & ?). rewrite decide_True; [eexists; split; [done|by exists n]|].
    rewrite <- Hp. etransitivity; [|apply Z.add_le_mono_l, gpus_sub;
      [apply candidates_ok|apply sublist_submseteq, (sublist_take _ n)]]. lia.
  - destruct H1 as [_ H1]. rewrite Hp in H1. rewrite decide_False by lia. eauto.
Qed.

(** A non-empty answer means that preemption was needed. *)
Lemma greedy_nonempty_short v :
  SelectPreemptionVictimsGreedyMinimal w running fleet = Ok v → v ≠ [] →
  ∃ cap, short w fleet cap.
Proof.
  unfold SelectPreemptionVictimsGreedyMinimal. intros H Hv.
  destruct (buildPreemptionContext w running fleet) as [[ctx|]|] eqn:Hb; [|naive_solver|done].
  apply buildPreemptionContext_inv in Hb as (cap & Hs & _). eauto.
Qed.

(** Soundness of the greedy strategy, for its clients. *)
Lemma greedy_sound v :
  SelectPreemptionVictimsGreedyMinimal w running fleet = Ok v → v ≠ [] →
  ∃ cap p, short w fleet cap ∧ v ⊆+ band p (same_profile w running) ∧
    q_GPUCount w ≤ c_FreeDevices cap + gpus v ∧
    (∀ p', p' < p → c_FreeDevices cap + gpus (band p' (same_profile w running)) < q_GPUCount w) ∧
    (∀ k, k ⊆+ band p (same_profile w running) →
          q_GPUCount w ≤ c_FreeDevices cap + gpus k → (length v ≤ length k)%nat).
Proof.
  intros H Hv. destruct (greedy_nonempty_short v H Hv) as [cap Hs].
  pose proof (greedy_minimal_short cap Hs) as Hg. case_decide.
  - destruct Hg as (p & v' & Hv' & Hg). assert (v' = v) as -> by congruence. eauto.
  - destruct Hg as [e He]. congruence.
Qed.

End strategies.

(** C8: the victims [SelectPreemptionVictimsGreedyMinimal] returns run on the incoming workload's
    profile, free enough devices together with the free ones, come from the lowest priority band
    that can free enough (every lower band cannot), and no other choice from that band has fewer
    victims. *)
Theorem greedy_victims_minimal (w : QueuedWorkload) (running : list RunningWorkload)
    (fleet : FleetFreeCapacity) (v : list RunningWorkload) :
  counts_ok running → 0 < q_GPUCount w ≤ int32_max → 0 < q_GPUMemoryMiB w → q_Profile w ≠ "" →
  (∀ cap, byProfile fleet !! q_Profile w = Some cap → 0 ≤ c_FreeDevices cap ≤ int64_max) →
  SelectPreemptionVictimsGreedyMinimal w running fleet = Ok v → v ≠ [] →
  ∃ cap p, byProfile fleet !! q_Profile w = Some cap ∧
    v ⊆+ band p (same_profile w running) ∧
    q_GPUCount w ≤ c_FreeDevices cap + gpus v ∧
    (∀ p', p' < p → c_FreeDevices cap + gpus (band p' (same_profile w running)) < q_GPUCount w) ∧
    (∀ k, k ⊆+ band p (same_profile w running) →
          q_GPUCount w ≤ c_FreeDevices cap + gpus k → (length v ≤ length k)%nat).
Proof.
  intros. destruct (greedy_sound w running fleet ltac:(done) ltac:(done) ltac:(done) ltac:(done)
    ltac:(done) v ltac:(done) ltac:(done)) as (cap & p & [] & ?). eauto.
Qed.

(** On a workload that is short of devices but fits the devices' memory, the two preemption
    strategies fail in exactly the same case: when the free devices and all those held by running
    workloads of the profile together are too few. *)
Theorem preemption_error_exact (w : QueuedWorkload) (running : list RunningWorkload)
    (fleet : FleetFreeCapacity) (cap : ProfileFreeCapacity) :
  counts_ok running → 0 < q_GPUCount w ≤ int32_max → 0 < q_GPUMemoryMiB w → q_Profile w ≠ "" →
  0 ≤ c_FreeDevices cap ≤ int64_max → short w fleet cap →
  ((∃ e, SelectPreemptionVictimsGreedyMinimal w running fleet = Err e) ↔
     c_FreeDevices cap + gpus (same_profile w running) < q_GPUCount w) ∧
  ((∃ e, SelectPreemptionVictims w running fleet = Err e) ↔
     c_FreeDevices cap + gpus (same_profile w running) < q_GPUCount w).
Proof.
  intros Hrun Hg Hm Hp Hf Hs.
  assert (Hf' : ∀ cap, byProfile fleet !! q_Profile w = Some cap → 0 ≤ c_FreeDevices cap ≤ int64_max)
    by (intros cap' Hc; destruct Hs; by simplify_eq).
  pose proof (greedy_minimal_short w running fleet Hrun Hg Hm Hp Hf' cap Hs) as H1.
  pose proof (simple_short w running fleet Hrun Hg Hm Hp Hf' cap Hs) as H2.
  case_decide.
  - destruct H1 as (p & v & Hv & _), H2 as (v' & Hv' & _). rewrite Hv, Hv'.
    split; (split; [by intros [? ?]|lia]).
  - split; (split; [lia|done]).
Qed.

(** [SelectPreemptionVictims] returns the shortest prefix of the candidates in the order
    lowest priority first, most recent start first, that frees the shortfall. *)
Theorem simple_victims_shortest (w : QueuedWorkload) (running : list RunningWorkload)
    (fleet : FleetFreeCapacity) (cap : ProfileFreeCapacity) (v : list RunningWorkload) :
  counts_ok running → 0 < q_GPUCount w ≤ int32_max → 0 < q_GPUMemoryMiB w → q_Profile w ≠ "" →
  0 ≤ c_FreeDevices cap ≤ int64_max → short w fleet cap →
  SelectPreemptionVictims w running fleet = Ok v →
  ∃ cs, cs ≡ₚ same_profile w running ∧
    StronglySorted (λ x y, r_Priority x < r_Priority y ∨
                      (r_Priority x = r_Priority y ∧ r_StartedAt y ≤ r_StartedAt x)) cs ∧
    shortest_prefix (q_GPUCount w - c_FreeDevices cap) cs v.
Proof.
  intros Hrun Hg Hm Hp Hf Hs Hv.
  assert (Hf' : ∀ cap, byProfile fleet !! q_Profile w = Some cap → 0 ≤ c_FreeDevices cap ≤ int64_max)
    by (intros cap' Hc; destruct Hs; by simplify_eq).
  pose proof (simple_short w running fleet Hrun Hg Hm Hp Hf' cap Hs) as H2.
  case_decide; [|destruct H2; congruence]. destruct H2 as (v' & Hv' & Hpre).
  assert (v' = v) as -> by congruence.
  exists (SliceStable victim_less (same_profile w running)). split_and!; [| |done].
  - apply SliceStable_perm.
  - eapply StronglySorted_weaken; [|apply (SliceStable_sorted victim_less)].
    intros x y. unfold victim_less, After. case_match; lia.
Qed.

(** ** Witnesses and examples *)

Module PreemptionExample.
Import AdmissionExample.
(** Two low-priority workloads and one of high priority hold eight devices. *)
Definition cluster : list RunningWorkload :=
  [running "r1" "a" 1 10 2; running "r2" "a" 1 20 2; running "r3" "b" 9 5 4].
Definition incoming : QueuedWorkload := queued "w" "c" 5 100 3.
Definition cap0 : ProfileFreeCapacity :=
  {| c_FreeDevices := 0; c_FreeMemoryMiB := 0; c_MemoryMiBPerDevice := 81920 |}.
End PreemptionExample.

Ltac counts_solver :=
  split; [repeat constructor; simpl; unfold int32_max; lia|simpl; lia].

Lemma example_counts_ok : counts_ok PreemptionExample.cluster.
Proof. counts_solver. Qed.

Lemma example_free w cap :
  byProfile (AdmissionExample.fleet 0) !! w = Some cap → 0 ≤ c_FreeDevices cap ≤ int64_max.
Proof.
  unfold byProfile; simpl. intros [_ <-]%lookup_singleton_Some. simpl. unfold int64_max. lia.
Qed.

Lemma example_short :
  short PreemptionExample.incoming (AdmissionExample.fleet 0) PreemptionExample.cap0.
Proof. constructor; by vm_compute. Qed.

Lemma greedy_victims_minimal_witness :
  ∃ v cap p,
    v ⊆+ band p (same_profile PreemptionExample.incoming PreemptionExample.cluster) ∧
    q_GPUCount PreemptionExample.incoming ≤ c_FreeDevices cap + gpus v.
Proof.
  pose proof (greedy_victims_minimal PreemptionExample.incoming PreemptionExample.cluster
    (AdmissionExample.fleet 0)
    [AdmissionExample.running "r2" "a" 1 20 2; AdmissionExample.running "r1" "a" 1 10 2]
    example_counts_ok ltac:(simpl; unfold int32_max; lia) ltac:(simpl; lia) ltac:(done)
    (example_free _) ltac:(by vm_compute) ltac:(done)) as (cap & p & _ & Hv & Hg & _).
  eauto.
Defined.

Lemma preemption_error_exact_witness :
  ¬ ∃ e, SelectPreemptionVictims PreemptionExample.incoming PreemptionExample.cluster
           (AdmissionExample.fleet 0) = Err e.
Proof.
  rewrite (proj2 (preemption_error_exact PreemptionExample.incoming PreemptionExample.cluster
    (AdmissionExample.fleet 0) PreemptionExample.cap0 example_counts_ok
    ltac:(simpl; unfold int32_max; lia) ltac:(simpl; lia) ltac:(done)
    ltac:(simpl; unfold int64_max; lia) example_short)).
  by vm_compute.
Defined.

Lemma simple_victims_shortest_witness :
  ∃ cs, cs ≡ₚ same_profile PreemptionExample.incoming PreemptionExample.cluster ∧
    shortest_prefix 3 cs
      [AdmissionExample.running "r2" "a" 1 20 2; AdmissionExample.running "r1" "a" 1 10 2].
Proof.
  destruct (simple_victims_shortest PreemptionExample.incoming PreemptionExample.cluster
    (AdmissionExample.fleet 0) PreemptionExample.cap0
    [AdmissionExample.running "r2" "a" 1 20 2; AdmissionExample.running "r1" "a" 1 10 2]
    example_counts_ok ltac:(simpl; unfold int32_max; lia) ltac:(simpl; lia) ltac:(done)
    ltac:(simpl; unfold int64_max; lia) example_short ltac:(by vm_compute)) as (cs & ? & _ & ?).
  eauto.
Defined.

(** Preemption does not compare priorities: a workload of priority 0 evicts one of priority 9. *)
Example preemption_ignores_incoming_priority :
  let low := AdmissionExample.queued "low" "c" 0 100 4 in
  let high := AdmissionExample.running "high" "b" 9 5 4 in
  SelectPreemptionVictimsGreedyMinimal low [high] (AdmissionExample.fleet 0) = Ok [high] ∧
  q_Priority low < r_Priority high.
Proof. by vm_compute. Qed.

(** Ties in the GPU count are broken by the start only, not by the priority: with one victim of two
    GPUs to choose, the one of priority 5 goes before the one of priority 1. *)
Example greedy_tie_break_ignores_priority :
  let w := AdmissionExample.queued "w" "c" 7 100 5 in
  let r1 := AdmissionExample.running "r1" "a" 1 10 2 in
  let r2 := AdmissionExample.running "r2" "a" 5 20 2 in
  let r3 := AdmissionExample.running "r3" "a" 5 30 3 in
  SelectPreemptionVictimsGreedyMinimal w [r1; r2; r3] (AdmissionExample.fleet 0) = Ok [r3; r2].
Proof. by vm_compute. Qed.
