(* ===== verification/Selection.v ===== *)
(** * Selection (internal/scheduler/selection.go)

    One scheduling decision: the two passes over the fair order, the victims of the second one, and
    the reason reported when nothing is admitted. *)

From stdpp Require Import prelude gmap strings sorting pretty.
From S2P Require Import Prelude GoFloat SimModel SchedInputs Admission Fairness Preemption.

Local Open Scope Z_scope.
Local Open Scope go_scope.

Definition NoAdmissionReasonQuota : string := "quota".
Definition NoAdmissionReasonNoFit : string := "no_fit".
Definition NoAdmissionReasonEmpty : string := "".

(** The five results. *)
Record Selection := {
  s_selectedID : string;
  s_victims : list RunningWorkload;
  s_reason : string;
  s_message : string;
  s_noAdmissionReason : string;
}.

(** The first loop: the candidate it returns on, if any. *)
Fixpoint firstPass (usage : gmap string Z) (quotas : gmap string TenantQuota)
    (fleet : FleetFreeCapacity) (fair : list QueuedWorkload) : option QueuedWorkload :=
  match fair with
  | [] => None
  | candidate :: fair' =>
      if ExceedsTenantGPUCap candidate usage quotas then firstPass usage quotas fleet fair'
      else match CompatibleProfileAndKind candidate fleet with
      | Some _ => firstPass usage quotas fleet fair'
      | None =>
          match FitsGPUCount candidate fleet with
          | Err _ | Ok false => firstPass usage quotas fleet fair'
          | Ok true =>
              match FitsPerDeviceMemory candidate fleet with
              | Err _ | Ok false => firstPass usage quotas fleet fair'
              | Ok true => Some candidate
              end
          end
      end
  end.

(** The second loop: the candidate it returns on and its victims. *)
Fixpoint secondPass (usage : gmap string Z) (quotas : gmap string TenantQuota)
    (fleet : FleetFreeCapacity) (running : list RunningWorkload) (fair : list QueuedWorkload)
    : option (QueuedWorkload * list RunningWorkload) :=
  match fair with
  | [] => None
  | candidate :: fair' =>
      if ExceedsTenantGPUCap candidate usage quotas
      then secondPass usage quotas fleet running fair'
      else match CompatibleProfileAndKind candidate fleet with
      | Some _ => secondPass usage quotas fleet running fair'
      | None =>
          match SelectPreemptionVictimsGreedyMinimal candidate running fleet with
          | Ok victims =>
              if (0 <? length victims)%nat then Some (candidate, victims)
              else secondPass usage quotas fleet running fair'
          | Err _ => secondPass usage quotas fleet running fair'
          end
      end
  end.

Definition fairOrder (inp : SchedulingInputs) : list QueuedWorkload :=
  WeightedRoundRobinByTenant (OrderQueued (in_QueuedWorkloads inp)) (in_TenantQuotas inp).

Definition SelectOneForAdmission (inp : SchedulingInputs) : Selection :=
  let running := in_RunningWorkloads inp in
  let fleet := in_FleetFreeCapacity inp in
  let quotas := in_TenantQuotas inp in
  let fair := fairOrder inp in
  let usage := TenantGPUsUsed (in_ScheduledWorkloads inp ++ running) in
  let nothing why := {| s_selectedID := ""; s_victims := []; s_reason := ""; s_message := "";
                        s_noAdmissionReason := why |} in
  match firstPass usage quotas fleet fair with
  | Some candidate =>
      {| s_selectedID := q_WorkloadID candidate; s_victims := [];
         s_reason := "SelectedForAdmission";
         s_message := "Scheduler selected this workload for admission";
         s_noAdmissionReason := NoAdmissionReasonEmpty |}
  | None =>
  match secondPass usage quotas fleet running fair with
  | Some (candidate, victims) =>
      {| s_selectedID := q_WorkloadID candidate; s_victims := victims;
         s_reason := "AdmittedWithPreemption";
         s_message := "Scheduler selected this workload for admission with preemption";
         s_noAdmissionReason := NoAdmissionReasonEmpty |}
  | None =>
      if decide (length fair = 0%nat) then nothing NoAdmissionReasonEmpty
      else if forallb (λ candidate, ExceedsTenantGPUCap candidate usage quotas) fair
      then nothing NoAdmissionReasonQuota
      else nothing NoAdmissionReasonNoFit
  end end.

(** ** Specification *)

(** The GPUs the tenant holds, scheduled or running. *)
Definition committed (inp : SchedulingInputs) : list RunningWorkload :=
  in_ScheduledWorkloads inp ++ in_RunningWorkloads inp.

Definition over_cap (inp : SchedulingInputs) (w : QueuedWorkload) : Prop :=
  ∃ cap, tenant_cap (in_TenantQuotas inp) (q_Tenant w) = Some cap ∧
    cap < tenant_gpus (q_Tenant w) (committed inp) + q_GPUCount w.

(** The candidate can start on free devices. *)
Definition admissible (inp : SchedulingInputs) (w : QueuedWorkload) : Prop :=
  ¬ over_cap inp w ∧ CompatibleProfileAndKind w (in_FleetFreeCapacity inp) = None ∧
  fits w (in_FleetFreeCapacity inp).

(** The candidate can start once running workloads of its profile are stopped. *)
Definition admissible_by_preemption (inp : SchedulingInputs) (w : QueuedWorkload) : Prop :=
  ¬ over_cap inp w ∧ ∃ cap, short w (in_FleetFreeCapacity inp) cap ∧
    q_GPUCount w ≤ c_FreeDevices cap + gpus (same_profile w (in_RunningWorkloads inp)).

(** [w] is the first element of [l] with the property. *)
Definition first_with {A} (P : A → Prop) (l : list A) (x : A) : Prop :=
  ∃ pre post, l = pre ++ x :: post ∧ P x ∧ Forall (λ y, ¬ P y) pre.

Lemma first_with_elem {A} (P : A → Prop) l x : first_with P l x → x ∈ l ∧ P x.
Proof. intros (pre & post & -> & ? & ?). set_solver. Qed.

Lemma first_with_skip {A} (P : A → Prop) y l x :
  ¬ P y → first_with P l x → first_with P (y :: l) x.
Proof. intros Hy (pre & post & -> & Hx & Hpre). exists (y :: pre), post. by split_and!; [| |constructor]. Qed.

Lemma first_with_here {A} (P : A → Prop) l x : P x → first_with P (x :: l) x.
Proof. intros. by exists [], l. Qed.

Lemma fairOrder_perm inp : fairOrder inp ≡ₚ in_QueuedWorkloads inp.
Proof. unfold fairOrder. by rewrite WeightedRoundRobin_perm, OrderQueued_perm. Qed.

Section selection.
Context (inp : SchedulingInputs).
Hypotheses (HV : Valid inp) (HR : InRange inp).
Let fleet := in_FleetFreeCapacity inp.
Let usage := TenantGPUsUsed (committed inp).

Lemma running_counts_ok : counts_ok (in_RunningWorkloads inp).
Proof.
  pose proof (ir_committed _ HR) as Hc. pose proof (valid_rs _ HV) as Hrs.
  pose proof (ir_length _ HR) as Hl. split.
  - apply Forall_app in Hc as [_ Hc]. rewrite Forall_forall in *. intros r Hr.
    specialize (Hc r Hr). destruct (Hrs r Hr) as (_ & _ & _ & _ & ? & _). simpl in *. lia.
  - unfold all_ids in Hl. rewrite !length_app, !length_fmap in Hl. lia.
Qed.

Lemma committed_counts : Forall (λ r, 0 ≤ r_GPUCount r ≤ int32_max) (committed inp).
Proof.
  pose proof (ir_committed _ HR) as Hc. pose proof (valid_rs _ HV) as Hrs.
  pose proof (valid_ss _ HV) as Hss. rewrite Forall_forall in *. intros r Hr.
  specialize (Hc r Hr). unfold committed in Hr. apply elem_of_app in Hr as [Hr|Hr].
  - destruct (Hss r Hr) as (_ & _ & _ & ? & _). simpl in *. lia.
  - destruct (Hrs r Hr) as (_ & _ & _ & _ & ? & _). simpl in *. lia.
Qed.

Lemma committed_length : Z.of_nat (length (committed inp)) ≤ 2 ^ 31.
Proof.
  pose proof (ir_length _ HR) as Hl. unfold committed, all_ids in *.
  rewrite !length_app, !length_fmap in *. lia.
Qed.

Section candidate.
Context (w : QueuedWorkload) (Hw : w ∈ in_QueuedWorkloads inp).

Lemma queued_facts :
  0 < q_GPUCount w ≤ int32_max ∧ 0 < q_GPUMemoryMiB w ∧ q_Profile w ≠ "" ∧ q_WorkloadID w ≠ "".
Proof.
  pose proof (virtual_gpus inp w HV HR Hw). pose proof (valid_qs _ HV) as Hqs.
  pose proof (valid_ids_nonempty _ HV) as Hids. rewrite Forall_forall in Hqs. rewrite Forall_forall in Hids.
  destruct (Hqs w Hw) as (_ & _ & Hp & _ & _ & ? & _). split_and!; try done; try lia.
  - intros He. by rewrite He in Hp.
  - intros He. apply (Hids (q_WorkloadID w)); [|by rewrite He].
    unfold all_ids. apply elem_of_app; left. by apply list_elem_of_fmap_2.
Qed.

Lemma free_range cap :
  byProfile fleet !! q_Profile w = Some cap → 0 ≤ c_FreeDevices cap ≤ int64_max.
Proof. intros Hc. by destruct (virtual_cap inp w HV HR cap Hc) as (? & _). Qed.

Lemma exceeds_over_cap :
  ExceedsTenantGPUCap w usage (in_TenantQuotas inp) = true ↔ over_cap inp w.
Proof.
  apply ExceedsTenantGPUCap_spec;
    [apply committed_counts|apply committed_length|apply queued_facts].
Qed.

Lemma admissible_tests :
  admissible inp w ↔
  ExceedsTenantGPUCap w usage (in_TenantQuotas inp) = false ∧
  CompatibleProfileAndKind w fleet = None ∧
  FitsGPUCount w fleet = Ok true ∧ FitsPerDeviceMemory w fleet = Ok true.
Proof.
  destruct queued_facts as (? & ? & ? & _). unfold admissible, fits.
  rewrite <- exceeds_over_cap, not_true_iff_false, FitsGPUCount_true, FitsPerDeviceMemory_true
    by (done || lia).
  unfold fleet. split; [naive_solver|].
  intros (? & ? & (cap & ? & ?) & (cap' & ? & ?)). split_and!; try done. exists cap.
  split_and!; try done. by simplify_eq.
Qed.

Lemma preemption_tests v :
  v ≠ [] →
  SelectPreemptionVictimsGreedyMinimal w (in_RunningWorkloads inp) fleet = Ok v →
  ∃ cap, short w fleet cap ∧ v ⊆+ same_profile w (in_RunningWorkloads inp) ∧
    q_GPUCount w ≤ c_FreeDevices cap + gpus v ∧
    q_GPUCount w ≤ c_FreeDevices cap + gpus (same_profile w (in_RunningWorkloads inp)).
Proof.
  intros Hne Hv. destruct queued_facts as (? & ? & ? & _).
  destruct (greedy_sound w (in_RunningWorkloads inp) fleet running_counts_ok ltac:(done)
    ltac:(done) ltac:(done) free_range v Hv Hne) as (cap & p & Hs & Hsub & Hg & _).
  assert (Hsub' : v ⊆+ same_profile w (in_RunningWorkloads inp))
    by (etransitivity; [exact Hsub|apply band_sub]).
  exists cap. split_and!; try done. etransitivity; [exact Hg|].
  apply Z.add_le_mono_l, gpus_sub; [|done].
  eapply counts_ok_sub; [apply same_profile_sub|apply running_counts_ok].
Qed.

Lemma preemption_complete :
  admissible_by_preemption inp w →
  ∃ v, SelectPreemptionVictimsGreedyMinimal w (in_RunningWorkloads inp) fleet = Ok v ∧ v ≠ [].
Proof.
  intros (_ & cap & Hs & Hg). destruct queued_facts as (? & ? & ? & _).
  pose proof (greedy_minimal_short w (in_RunningWorkloads inp) fleet running_counts_ok ltac:(done)
    ltac:(done) ltac:(done) free_range cap Hs) as H'. rewrite decide_True in H' by done.
  destruct H' as (p & v & Hv & _ & Hneed & _). exists v. split; [done|]. intros ->.
  destruct Hs. unfold gpus in Hneed; simpl in Hneed. lia.
Qed.

End candidate.

Lemma admissible_by_preemption_tests w :
  w ∈ in_QueuedWorkloads inp →
  admissible_by_preemption inp w ↔
  ExceedsTenantGPUCap w usage (in_TenantQuotas inp) = false ∧
  CompatibleProfileAndKind w fleet = None ∧
  ∃ v, SelectPreemptionVictimsGreedyMinimal w (in_RunningWorkloads inp) fleet = Ok v ∧ v ≠ [].
Proof.
  intros Hw. rewrite <- not_true_iff_false, (exceeds_over_cap w Hw). split.
  - intros H. pose proof H as (? & cap & [] & ?). split_and!; try done.
    by apply preemption_complete.
  - intros (? & _ & v & Hv & Hne). split; [done|].
    destruct (preemption_tests w Hw v Hne Hv) as (cap & ? & _ & _ & ?). eauto.
Qed.

Lemma firstPass_spec l :
  (∀ w, w ∈ l → w ∈ in_QueuedWorkloads inp) →
  match firstPass usage (in_TenantQuotas inp) fleet l with
  | Some w => first_with (admissible inp) l w
  | None => Forall (λ w, ¬ admissible inp w) l
  end.
Proof.
  induction l as [|w l IH]; intros Hl; [by apply Forall_nil|].
  pose proof (admissible_tests w (Hl w ltac:(by left))) as Ht.
  specialize (IH (λ x Hx, Hl x (list_elem_of_further _ _ _ Hx))).
  assert (Hskip : ¬ admissible inp w →
    match firstPass usage (in_TenantQuotas inp) fleet l with
    | Some x => first_with (admissible inp) (w :: l) x
    | None => Forall (λ x, ¬ admissible inp x) (w :: l)
    end).
  { intros Hn. destruct (firstPass _ _ _ l); [by apply first_with_skip|by constructor]. }
  cbn [firstPass].
  destruct (ExceedsTenantGPUCap _ _ _) eqn:E1; [apply Hskip; naive_solver|].
  destruct (CompatibleProfileAndKind _ _) eqn:E2; [apply Hskip; naive_solver|].
  destruct (FitsGPUCount _ _) as [[]|] eqn:E3; [|apply Hskip; naive_solver..].
  destruct (FitsPerDeviceMemory _ _) as [[]|] eqn:E4; [|apply Hskip; naive_solver..].
  apply first_with_here. by apply Ht.
Qed.

Lemma secondPass_spec l :
  (∀ w, w ∈ l → w ∈ in_QueuedWorkloads inp) →
  match secondPass usage (in_TenantQuotas inp) fleet (in_RunningWorkloads inp) l with
  | Some (w, v) => first_with (admissible_by_preemption inp) l w ∧ v ≠ [] ∧
      SelectPreemptionVictimsGreedyMinimal w (in_RunningWorkloads inp) fleet = Ok v
  | None => Forall (λ w, ¬ admissible_by_preemption inp w) l
  end.
Proof.
  induction l as [|w l IH]; intros Hl; [by apply Forall_nil|].
  pose proof (admissible_by_preemption_tests w (Hl w ltac:(by left))) as Ht.
  specialize (IH (λ x Hx, Hl x (list_elem_of_further _ _ _ Hx))).
  assert (Hskip : ¬ admissible_by_preemption inp w →
    match secondPass usage (in_TenantQuotas inp) fleet (in_RunningWorkloads inp) l with
    | Some (x, v) => first_with (admissible_by_preemption inp) (w :: l) x ∧ v ≠ [] ∧
        SelectPreemptionVictimsGreedyMinimal x (in_RunningWorkloads inp) fleet = Ok v
    | None => Forall (λ x, ¬ admissible_by_preemption inp x) (w :: l)
    end).
  { intros Hn. destruct (secondPass _ _ _ _ l) as [[x v]|]; [|by constructor].
    destruct IH as (? & ? & ?). split_and!; try done. by apply first_with_skip. }
  cbn [secondPass].
  destruct (ExceedsTenantGPUCap _ _ _) eqn:E1; [apply Hskip; naive_solver|].
  destruct (CompatibleProfileAndKind _ _) eqn:E2; [apply Hskip; naive_solver|].
  destruct (SelectPreemptionVictimsGreedyMinimal _ _ _) as [v|e] eqn:E3;
    [|apply Hskip; naive_solver].
  destruct (0 <? length v)%nat eqn:E4.
  - assert (v ≠ []) by (by intros ->). split_and!; try done.
    apply first_with_here. apply Ht. eauto.
  - apply Hskip. destruct v; [naive_solver|done].
Qed.

Lemma fairOrder_elem w : w ∈ fairOrder inp → w ∈ in_QueuedWorkloads inp.
Proof. by rewrite fairOrder_perm. Qed.

Lemma Forall_fairOrder (P : QueuedWorkload → Prop) :
  Forall P (fairOrder inp) ↔ Forall P (in_QueuedWorkloads inp).
Proof. by rewrite fairOrder_perm. Qed.

(** The three outcomes of a decision. *)
Definition selects_free (d : Selection) : Prop :=
  ∃ w, first_with (admissible inp) (fairOrder inp) w ∧
    s_selectedID d = q_WorkloadID w ∧ s_victims d = [] ∧
    s_noAdmissionReason d = NoAdmissionReasonEmpty.

Definition selects_preempting (d : Selection) : Prop :=
  Forall (λ w, ¬ admissible inp w) (in_QueuedWorkloads inp) ∧
  ∃ w cap, first_with (admissible_by_preemption inp) (fairOrder inp) w ∧
    s_selectedID d = q_WorkloadID w ∧ s_victims d ≠ [] ∧
    byProfile (in_FleetFreeCapacity inp) !! q_Profile w = Some cap ∧
    c_FreeDevices cap < q_GPUCount w ≤ c_FreeDevices cap + gpus (s_victims d) ∧
    s_victims d ⊆+ same_profile w (in_RunningWorkloads inp) ∧
    s_noAdmissionReason d = NoAdmissionReasonEmpty.

Definition selects_nothing (d : Selection) : Prop :=
  Forall (λ w, ¬ admissible inp w ∧ ¬ admissible_by_preemption inp w) (in_QueuedWorkloads inp) ∧
  s_selectedID d = "" ∧ s_victims d = [].

Lemma SelectOneForAdmission_spec :
  let d := SelectOneForAdmission inp in
  selects_free d ∨ selects_preempting d ∨ selects_nothing d.
Proof.
  unfold SelectOneForAdmission. simpl.
  pose proof (firstPass_spec (fairOrder inp) fairOrder_elem) as H1.
  pose proof (secondPass_spec (fairOrder inp) fairOrder_elem) as H2.
  unfold usage, committed, fleet in *.
  destruct (firstPass _ _ _ _) as [w|]; [left; by exists w|right].
  rewrite Forall_fairOrder in H1.
  destruct (secondPass _ _ _ _ _) as [[w v]|].
  - left. split; [done|]. destruct H2 as (Hf & Hne & Hv).
    assert (Hw : w ∈ in_QueuedWorkloads inp)
      by (apply fairOrder_elem; by apply first_with_elem in Hf as []).
    destruct (preemption_tests w Hw v Hne Hv) as (cap & [] & ? & ? & _).
    exists w, cap. by split_and!.
  - right. rewrite Forall_fairOrder in H2. unfold selects_nothing. rewrite Forall_and.
    case_decide; [done|]. by destruct (forallb _ _).
Qed.

(** The id selected names a queued workload, the one the decision is about. *)
Lemma selected_by_id w :
  w ∈ in_QueuedWorkloads inp → QueuedWorkloadByID inp (q_WorkloadID w) = Some w.
Proof.
  pose proof (valid_ids _ HV) as Hnd. unfold all_ids in Hnd.
  apply NoDup_app in Hnd as (Hnd & _ & _). unfold QueuedWorkloadByID.
  induction (in_QueuedWorkloads inp) as [|x l IH]; [by intros ?%elem_of_nil|].
  rewrite fmap_cons, NoDup_cons in Hnd. destruct Hnd as [Hx Hnd].
  rewrite filter_cons. intros [->|Hw]%elem_of_cons; [by rewrite decide_True|].
  rewrite decide_False; [by apply IH|]. intros He. apply Hx. rewrite He.
  by apply list_elem_of_fmap_2.
Qed.

Lemma selected_nonempty d : selects_free d ∨ selects_preempting d → s_selectedID d ≠ "".
Proof.
  assert (H : ∀ P w, first_with P (fairOrder inp) w → q_WorkloadID w ≠ "").
  { intros P w [Hw _]%first_with_elem. by apply fairOrder_elem, queued_facts in Hw as (_&_&_&?). }
  intros [(w & Hf & -> & _)|(_ & w & cap & Hf & -> & _)]; by apply H in Hf.
Qed.

(** Why nothing was admitted. *)
Lemma no_admission_reason :
  let d := SelectOneForAdmission inp in
  s_selectedID d = "" →
  (s_noAdmissionReason d = NoAdmissionReasonEmpty ↔ in_QueuedWorkloads inp = []) ∧
  (s_noAdmissionReason d = NoAdmissionReasonQuota ↔
     in_QueuedWorkloads inp ≠ [] ∧ Forall (over_cap inp) (in_QueuedWorkloads inp)).
Proof.
  pose proof (firstPass_spec (fairOrder inp) fairOrder_elem) as H1.
  pose proof (secondPass_spec (fairOrder inp) fairOrder_elem) as H2.
  assert (Hq : forallb (λ c, ExceedsTenantGPUCap c usage (in_TenantQuotas inp)) (fairOrder inp) = true
               ↔ Forall (over_cap inp) (in_QueuedWorkloads inp)).
  { rewrite <- Forall_fairOrder, forallb_forall, Forall_forall.
    setoid_rewrite <- list_elem_of_In.
    split; intros H w Hw; specialize (H w Hw); by apply (exceeds_over_cap w (fairOrder_elem w Hw)). }
  assert (Hl : length (fairOrder inp) = 0%nat ↔ in_QueuedWorkloads inp = [])
    by (rewrite fairOrder_perm; apply length_zero_iff_nil).
  unfold SelectOneForAdmission. simpl. unfold usage, committed, fleet in *.
  destruct (firstPass _ _ _ _) as [w|]; simpl.
  { intros He. apply first_with_elem in H1 as [Hw _]. by apply fairOrder_elem, queued_facts in Hw as (_ & _ & _ & ?). }
  destruct (secondPass _ _ _ _ _) as [[w v]|]; simpl.
  { intros He. destruct H2 as [[Hw _]%first_with_elem _]. by apply fairOrder_elem, queued_facts in Hw as (_ & _ & _ & ?). }
  intros _. case_decide as Hd; simpl; [naive_solver|].
  destruct (forallb _ _); simpl; naive_solver.
Qed.

End selection.

(** C4: a decision on a valid input has one of three forms, and the inputs determine which.  Either
    the first workload of the fair order that is under its tenant's cap and fits the free devices
    is selected, with no victims; or no queued workload could do so, and the first one that can be
    admitted by preemption is selected, with running victims of its profile that free enough
    devices; or neither kind of workload exists and nothing is selected. *)
Theorem selection_two_pass (inp : SchedulingInputs) :
  Valid inp → InRange inp →
  let d := SelectOneForAdmission inp in
  selects_free inp d ∨ selects_preempting inp d ∨ selects_nothing inp d.
Proof. apply SelectOneForAdmission_spec. Qed.

(** When nothing is selected, the reason is empty exactly for an empty queue, ["quota"] exactly
    when every queued workload would exceed its tenant's cap, and ["no_fit"] otherwise. *)
Theorem selection_reason (inp : SchedulingInputs) :
  Valid inp → InRange inp →
  let d := SelectOneForAdmission inp in
  s_selectedID d = "" →
  (s_noAdmissionReason d = NoAdmissionReasonEmpty ↔ in_QueuedWorkloads inp = []) ∧
  (s_noAdmissionReason d = NoAdmissionReasonQuota ↔
     in_QueuedWorkloads inp ≠ [] ∧ Forall (over_cap inp) (in_QueuedWorkloads inp)).
Proof. apply no_admission_reason. Qed.

(** ** Witnesses *)

Module SelectionExample.
Import AdmissionExample.
Definition inputs (q : list QueuedWorkload) (r : list RunningWorkload) (free : Z)
    : SchedulingInputs :=
  {| in_QueuedWorkloads := q; in_ScheduledWorkloads := []; in_RunningWorkloads := r;
     in_FleetFreeCapacity := fleet free; in_TenantQuotas := quotas |}.

(** Tenant a (cap 6) holds 4 GPUs and asks for 4 more; tenant b asks for 8, then for 2. *)
Definition mixed : SchedulingInputs :=
  inputs [queued "ns/a1" "a" 9 1 4; queued "ns/b1" "b" 5 1 8; queued "ns/b2" "b" 1 1 2]
         [running "ns/r1" "a" 0 1 4] 4.
(** Only tenant a's workload is queued. *)
Definition capped : SchedulingInputs :=
  inputs [queued "ns/a1" "a" 9 1 4] [running "ns/r1" "a" 0 1 4] 4.
End SelectionExample.

(** Validity by running [Validate]; the ranges by computation. *)
Ltac solve_valid :=
  apply (Validate_None (H := map_iter_canonical)); by vm_compute.
Ltac solve_in_range :=
  constructor;
  [ repeat constructor; by vm_compute | repeat constructor; by vm_compute
  | apply map_Forall_singleton; by vm_compute | by vm_compute | by vm_compute | by vm_compute ].

Lemma mixed_valid : Valid SelectionExample.mixed.
Proof. solve_valid. Qed.
Lemma mixed_in_range : InRange SelectionExample.mixed.
Proof. solve_in_range. Qed.

Lemma selection_two_pass_witness :
  s_selectedID (SelectOneForAdmission SelectionExample.mixed) = "ns/b2" ∧
  (selects_free SelectionExample.mixed (SelectOneForAdmission SelectionExample.mixed) ∨
   selects_preempting SelectionExample.mixed (SelectOneForAdmission SelectionExample.mixed) ∨
   selects_nothing SelectionExample.mixed (SelectOneForAdmission SelectionExample.mixed)).
Proof.
  split; [by vm_compute|].
  exact (selection_two_pass SelectionExample.mixed mixed_valid mixed_in_range).
Defined.

Lemma capped_valid : Valid SelectionExample.capped.
Proof. solve_valid. Qed.
Lemma capped_in_range : InRange SelectionExample.capped.
Proof. solve_in_range. Qed.

Lemma selection_reason_witness :
  s_noAdmissionReason (SelectOneForAdmission SelectionExample.capped) = NoAdmissionReasonQuota ∧
  Forall (over_cap SelectionExample.capped) (in_QueuedWorkloads SelectionExample.capped).
Proof.
  assert (H : s_noAdmissionReason (SelectOneForAdmission SelectionExample.capped)
              = NoAdmissionReasonQuota) by by vm_compute.
  split; [done|].
  by apply (selection_reason SelectionExample.capped capped_valid capped_in_range).
Defined.
