(* ===== verification/Placement.v ===== *)
(** * Placement (internal/sim/contract.go, lines 164-296)

    Which devices an allocation gets: the eligible devices of every node, and the four placement
    policies with their same-node and maximum-node constraints. *)

From stdpp Require Import prelude gmap strings sorting pretty.
From S2P Require Import Prelude GoFloat SimModel.

Local Open Scope Z_scope.

Record nodeDevices := { nd_nodeID : string; nd_deviceIDs : list string }.

(** The four [continue] tests on a device. *)
Definition deviceEligible (used : gset string) (memMiB : Z) (preferredType preferredProfile : string)
    (d : Device) : bool :=
  if decide (d_ID d ∈ used) then false
  else if d_MemoryMiB d <? memMiB then false
  else if bool_decide (preferredType ≠ "") && bool_decide (d_DeviceType d ≠ preferredType) then false
  else if bool_decide (preferredProfile ≠ "") && bool_decide (d_Profile d ≠ preferredProfile)
       then false
  else true.

Definition computeEligibleDevicesPerNode (nodes : list Node) (used : gset string) (memMiB : Z)
    (preferredType preferredProfile : string) : list nodeDevices :=
  (λ node, {| nd_nodeID := n_ID node;
              nd_deviceIDs :=
                d_ID <$> filter (λ d, deviceEligible used memMiB preferredType preferredProfile d
                                      = true) (n_Devices node) |}) <$> nodes.

(** The innermost loops of the selections: append ids until there are [need] of them; the flag
    tells that the enclosing function returned. *)
Fixpoint appendUntil (need : Z) (out ids : list string) : list string * bool :=
  match ids with
  | [] => (out, false)
  | id :: ids' =>
      let out' := out ++ [id] in
      if Z.of_nat (length out') =? need then (out', true) else appendUntil need out' ids'
  end.

Fixpoint firstFitLoop (need maxNodes usedNodes : Z) (out : list string) (perNode : list nodeDevices)
    : list string :=
  match perNode with
  | [] => out
  | n :: perNode' =>
      if decide (length (nd_deviceIDs n) = 0%nat)
      then firstFitLoop need maxNodes usedNodes out perNode'
      else if (0 <? maxNodes) && (maxNodes <=? usedNodes) then out
      else let '(out', returned) := appendUntil need out (nd_deviceIDs n) in
           if returned : bool then out'
           else firstFitLoop need maxNodes (usedNodes + 1) out' perNode'
  end.

(** The code first makes a slice with room for [need] ids, which panics for a count no memory can hold;
    the model has no such limit. *)
Definition selectFirstFit (perNode : list nodeDevices) (need maxNodes : Z) : list string :=
  firstFitLoop need maxNodes 0 [] perNode.

Definition pack_less (x y : nodeDevices) : bool :=
  (length (nd_deviceIDs y) <? length (nd_deviceIDs x))%nat.

Definition selectPack (perNode : list nodeDevices) (need maxNodes : Z) : list string :=
  selectFirstFit (SliceStable pack_less perNode) need maxNodes.

(** One turn of the outer loop of [selectSpread] over the nodes and their positions [idx]. *)
Record spread_state := {
  ss_out : list string;
  ss_progress : bool;
  ss_returned : bool;
}.

Fixpoint spreadRound (need : Z) (st : spread_state) (nodes : list (nodeDevices * nat))
    : spread_state * list (nodeDevices * nat) :=
  match nodes with
  | [] => (st, [])
  | (n, idx) :: nodes' =>
      match nd_deviceIDs n !! idx with
      | None => let '(st', rest) := spreadRound need st nodes' in (st', (n, idx) :: rest)
      | Some id =>
          let out' := ss_out st ++ [id] in
          if Z.of_nat (length out') =? need
          then ({| ss_out := out'; ss_progress := true; ss_returned := true |},
                (n, S idx) :: nodes')
          else let '(st', rest) :=
                 spreadRound need {| ss_out := out'; ss_progress := true; ss_returned := false |}
                   nodes' in
               (st', (n, S idx) :: rest)
      end
  end.

(** The outer loop; [None] when [fuel] turns are not enough. *)
Fixpoint spreadLoop (fuel : nat) (need : Z) (out : list string) (nodes : list (nodeDevices * nat))
    : option (list string) :=
  if Z.of_nat (length out) <? need then
    match fuel with
    | O => None
    | S fuel' =>
        let '(st, nodes') :=
          spreadRound need {| ss_out := out; ss_progress := false; ss_returned := false |} nodes in
        if ss_returned st then Some (ss_out st)
        else if negb (ss_progress st) then Some (ss_out st)
        else spreadLoop fuel' need (ss_out st) nodes'
    end
  else Some out.

(** Every turn but the last takes a device: one turn per device and one to notice the end
    ([selectSpread_spec]). *)
Definition selectSpread (perNode : list nodeDevices) (need maxNodes : Z) : list string :=
  let nodes0 := filter (λ n, length (nd_deviceIDs n) ≠ 0%nat) perNode in
  let nodes := if (0 <? maxNodes) && (maxNodes <? Z.of_nat (length nodes0))
               then take (Z.to_nat maxNodes) nodes0 else nodes0 in
  default [] (spreadLoop (S (length (nodes ≫= nd_deviceIDs))) need []
                         ((λ n, (n, 0%nat)) <$> nodes)).

(** The loop of [requireSameNode]: the first of the largest nodes with enough devices. *)
Fixpoint bestNode (need : Z) (best : option nodeDevices) (perNode : list nodeDevices)
    : option nodeDevices :=
  match perNode with
  | [] => best
  | n :: perNode' =>
      if Z.of_nat (length (nd_deviceIDs n)) <? need then bestNode need best perNode'
      else match best with
           | None => bestNode need (Some n) perNode'
           | Some b => bestNode need (if (length (nd_deviceIDs b) <? length (nd_deviceIDs n))%nat
                                      then Some n else best) perNode'
           end
  end.

Definition pickDevices (perNode : list nodeDevices) (need : Z) (policy : string)
    (requireSameNode : bool) (maxNodes : Z) : Result (list string) :=
  if requireSameNode then
    match bestNode need None perNode with
    | None => Err (Errorf ("requireSameNode=true but no node has " +:+ pretty need
                           +:+ " eligible devices"))
    | Some n => Ok (take (Z.to_nat need) (nd_deviceIDs n))
    end
  else if decide (policy = PlacementPolicyFirstFit) then Ok (selectFirstFit perNode need maxNodes)
  else if decide (policy = PlacementPolicyPack) then Ok (selectPack perNode need maxNodes)
  else if decide (policy = PlacementPolicySpread) then Ok (selectSpread perNode need maxNodes)
  else if decide (policy = PlacementPolicyLocalityAware) then
    match head (filter (λ n, need ≤ Z.of_nat (length (nd_deviceIDs n))) perNode) with
    | Some n => Ok (take (Z.to_nat need) (nd_deviceIDs n))
    | None => Ok (selectPack perNode need maxNodes)
    end
  else Err (Errorf ("unknown placementPolicy " +:+ Quote policy)).

(** ** Closed forms *)

(** All ids of some nodes, and how many there are. *)
Definition ids_of (nodes : list nodeDevices) : list string := nodes ≫= nd_deviceIDs.
Definition nonempty_nodes (nodes : list nodeDevices) : list nodeDevices :=
  filter (λ n, length (nd_deviceIDs n) ≠ 0%nat) nodes.
Definition limit {A} (maxNodes : Z) (l : list A) : list A :=
  if 0 <? maxNodes then take (Z.to_nat maxNodes) l else l.
(** The devices at position [r] of the nodes that have one. *)
Definition column (nodes : list nodeDevices) (r : nat) : list string :=
  omap (λ n, nd_deviceIDs n !! r) nodes.
Definition columns (nodes : list nodeDevices) (rs : list nat) : list string :=
  rs ≫= column nodes.

(** ** First fit *)

Lemma appendUntil_spec need out ids :
  Z.of_nat (length out) < need →
  appendUntil need out ids =
  (take (Z.to_nat need) (out ++ ids), need <=? Z.of_nat (length (out ++ ids))).
Proof.
  revert out; induction ids as [|id ids IH]; intros out Hn; cbn [appendUntil].
  { rewrite app_nil_r, take_ge by lia. f_equal. lia. }
  destruct (_ =? need) eqn:E.
  - change (id :: ids) with ([id] ++ ids). rewrite (app_assoc out), take_app_le, take_ge by lia.
    f_equal. symmetry. rewrite Z.leb_le. rewrite (length_app (out ++ [id])). lia.
  - rewrite IH; [by rewrite <- app_assoc|].
    rewrite length_app in *. cbn [length] in *. test_lia.
Qed.

Lemma ids_of_nonempty nodes : ids_of (nonempty_nodes nodes) = ids_of nodes.
Proof.
  unfold ids_of, nonempty_nodes. induction nodes as [|n nodes IH]; [done|].
  rewrite filter_cons. case_decide as Hn; csimpl; [by rewrite IH|].
  destruct (nd_deviceIDs n); [done|]. simpl in Hn. lia.
Qed.

Lemma ids_of_app l k : ids_of (l ++ k) = ids_of l ++ ids_of k.
Proof. apply bind_app. Qed.

(** The nodes still allowed when [used] of them have been taken. *)
Definition limit_left {A} (maxNodes used : Z) (l : list A) : list A :=
  if 0 <? maxNodes then take (Z.to_nat (maxNodes - used)) l else l.

Lemma firstFitLoop_spec need maxNodes used out nodes :
  0 ≤ used → Z.of_nat (length out) < need →
  firstFitLoop need maxNodes used out nodes =
  take (Z.to_nat need) (out ++ ids_of (limit_left maxNodes used (nonempty_nodes nodes))).
Proof.
  revert used out; induction nodes as [|n nodes IH]; intros used out Hu Hn; cbn [firstFitLoop].
  { unfold limit_left, nonempty_nodes. rewrite filter_nil, take_nil.
    case_match; simpl; by rewrite app_nil_r, take_ge by lia. }
  unfold nonempty_nodes. rewrite filter_cons. fold (nonempty_nodes nodes).
  destruct (decide (length _ = 0%nat)) as [Hl|Hl].
  { rewrite decide_False by tauto. by apply IH. }
  rewrite decide_True by done. unfold limit_left.
  destruct ((0 <? maxNodes) && (maxNodes <=? used)) eqn:E.
  { replace (0 <? maxNodes) with true by lia. replace (Z.to_nat (maxNodes - used)) with 0%nat by lia.
    simpl. by rewrite app_nil_r, take_ge by lia. }
  rewrite appendUntil_spec by done.
  assert (Hsplit : ids_of (if 0 <? maxNodes
                     then take (Z.to_nat (maxNodes - used)) (n :: nonempty_nodes nodes)
                     else n :: nonempty_nodes nodes) =
                   nd_deviceIDs n ++ ids_of (limit_left maxNodes (used + 1) (nonempty_nodes nodes))).
  { unfold limit_left. destruct (0 <? maxNodes) eqn:E0; [|done].
    replace (Z.to_nat (maxNodes - used)) with (S (Z.to_nat (maxNodes - (used + 1)))) by lia. done. }
  rewrite Hsplit, app_assoc. destruct (need <=? _) eqn:E1.
  - rewrite (take_app_le (out ++ nd_deviceIDs n)) by lia. done.
  - rewrite (take_ge (out ++ _)) by lia. apply IH; lia.
Qed.

Lemma selectFirstFit_spec nodes need maxNodes :
  0 < need →
  selectFirstFit nodes need maxNodes =
  take (Z.to_nat need) (ids_of (limit maxNodes (nonempty_nodes nodes))).
Proof.
  intros Hn. unfold selectFirstFit. rewrite firstFitLoop_spec by (simpl; lia).
  unfold limit, limit_left. by rewrite Z.sub_0_r.
Qed.

(** ** Spread *)

Definition positions (r : nat) (nodes : list nodeDevices) : list (nodeDevices * nat) :=
  (λ n, (n, r `min` length (nd_deviceIDs n))%nat) <$> nodes.

Lemma lookup_min {A} (l : list A) r : l !! (r `min` length l)%nat = l !! r.
Proof.
  destruct (decide (r ≤ length l)%nat); [by rewrite Nat.min_l|].
  rewrite Nat.min_r by lia. rewrite !lookup_ge_None_2 by lia. done.
Qed.

Lemma column_cons n nodes r :
  column (n :: nodes) r = option_list (nd_deviceIDs n !! r) ++ column nodes r.
Proof. unfold column. csimpl. by destruct (_ !! r). Qed.

Lemma spreadRound_spec need out progress nodes r :
  Z.of_nat (length out) < need →
  ∃ nodes',
    spreadRound need {| ss_out := out; ss_progress := progress; ss_returned := false |}
      (positions r nodes) =
    ({| ss_out := take (Z.to_nat need) (out ++ column nodes r);
        ss_progress := progress || negb (length (column nodes r) =? 0)%nat;
        ss_returned := need <=? Z.of_nat (length (out ++ column nodes r)) |}, nodes') ∧
    (Z.of_nat (length (out ++ column nodes r)) < need → nodes' = positions (S r) nodes).
Proof.
  revert out progress; induction nodes as [|n nodes IH]; intros out progress Hn.
  { exists []. simpl. rewrite app_nil_r, orb_false_r, take_ge by lia. split; [|done].
    repeat f_equal. lia. }
  unfold positions. rewrite fmap_cons. fold (positions r nodes). cbn [spreadRound].
  rewrite lookup_min, column_cons.
  destruct (nd_deviceIDs n !! r) as [id|] eqn:Hid; simpl option_list.
  - apply lookup_lt_Some in Hid as Hlt.
    change ([id] ++ column nodes r) with ([id] ++ column nodes r).
    cbn [ss_out]. destruct (_ =? need) eqn:E.
    + eexists. split.
      * rewrite app_assoc, take_app_le, take_ge by test_lia.
        rewrite orb_true_r. repeat f_equal. symmetry. rewrite Z.leb_le, length_app. test_lia.
      * rewrite app_assoc, length_app. test_lia.
    + destruct (IH (out ++ [id]) true) as (nodes' & -> & Hnodes').
      { rewrite length_app in *. cbn [length] in *. test_lia. }
      eexists. rewrite <- app_assoc in *. split; [by rewrite orb_true_r|].
      intros Hlen. rewrite Hnodes' by done. unfold positions. rewrite fmap_cons. do 2 f_equal. lia.
  - apply lookup_ge_None in Hid as Hge.
    destruct (IH out progress Hn) as (nodes' & -> & Hnodes').
    eexists. split; [done|]. intros Hlen. rewrite Hnodes' by done.
    unfold positions. rewrite fmap_cons. do 2 f_equal. lia.
Qed.

(** The devices at position [r] or later. *)
Definition left_at (r : nat) (nodes : list nodeDevices) : nat :=
  sum_list_with (λ n, length (nd_deviceIDs n) - r)%nat nodes.

Lemma left_at_column r nodes : left_at r nodes = (length (column nodes r) + left_at (S r) nodes)%nat.
Proof.
  unfold left_at. induction nodes as [|n nodes IH]; [done|]. cbn [sum_list_with].
  rewrite column_cons, length_app, IH.
  destruct (nd_deviceIDs n !! r) eqn:E; simpl option_list; cbn [length].
  - apply lookup_lt_Some in E. lia.
  - apply lookup_ge_None in E. lia.
Qed.

Lemma columns_done r k nodes : left_at r nodes = 0%nat → columns nodes (seq r k) = [].
Proof.
  revert r; induction k as [|k IH]; intros r Hl; [done|]. rewrite left_at_column in Hl.
  unfold columns in *. csimpl. rewrite IH by lia. rewrite app_nil_r.
  apply nil_length_inv. lia.
Qed.

Lemma columns_S r k nodes : columns nodes (seq r (S k)) = column nodes r ++ columns nodes (seq (S r) k).
Proof. done. Qed.

Lemma column_empty r nodes : length (column nodes r) = 0%nat → left_at r nodes = 0%nat.
Proof.
  unfold left_at. induction nodes as [|n nodes IH]; [done|]. cbn [sum_list_with].
  rewrite column_cons, length_app.
  destruct (nd_deviceIDs n !! r) eqn:E; simpl option_list; cbn [length]; [lia|].
  apply lookup_ge_None in E. intros. rewrite IH by lia. lia.
Qed.

Lemma spreadLoop_spec fuel need out nodes r :
  Z.of_nat (length out) < need → (left_at r nodes < fuel)%nat →
  spreadLoop fuel need out (positions r nodes) =
  Some (take (Z.to_nat need) (out ++ columns nodes (seq r fuel))).
Proof.
  revert out r; induction fuel as [|fuel IH]; intros out r Hn Hl; [lia|].
  cbn [spreadLoop]. replace (Z.of_nat (length out) <? need) with true by lia.
  destruct (spreadRound_spec need out false nodes r Hn) as (nodes' & -> & Hnodes').
  cbn [ss_returned ss_progress ss_out]. rewrite columns_S, app_assoc.
  destruct (need <=? _) eqn:E.
  { rewrite (take_app_le (out ++ column nodes r)) by test_lia. done. }
  rewrite (take_ge (out ++ column nodes r)) by test_lia. simpl orb. rewrite negb_involutive.
  destruct (length (column nodes r) =? 0)%nat eqn:E0.
  - apply Nat.eqb_eq in E0. pose proof (column_empty r nodes E0). rewrite left_at_column in *.
    rewrite columns_done, app_nil_r by lia. rewrite take_ge by test_lia. done.
  - rewrite Hnodes' by test_lia. apply IH; [test_lia|].
    rewrite left_at_column in Hl. test_lia.
Qed.

Lemma left_at_total nodes : left_at 0 nodes = length (ids_of nodes).
Proof.
  unfold left_at, ids_of. induction nodes as [|n nodes IH]; csimpl; [done|].
  rewrite length_app, IH. lia.
Qed.

Lemma limit_over {A} maxNodes (l : list A) :
  (if (0 <? maxNodes) && (maxNodes <? Z.of_nat (length l)) then take (Z.to_nat maxNodes) l else l)
  = limit maxNodes l.
Proof.
  unfold limit. destruct (0 <? maxNodes) eqn:E; [|done]. simpl.
  destruct (maxNodes <? Z.of_nat (length l)) eqn:E'; [done|]. by rewrite take_ge by lia.
Qed.

Lemma selectSpread_spec nodes need maxNodes :
  0 < need →
  selectSpread nodes need maxNodes =
  let ns := limit maxNodes (nonempty_nodes nodes) in
  take (Z.to_nat need) (columns ns (seq 0 (S (length (ids_of ns))))).
Proof.
  intros Hn. unfold selectSpread. rewrite limit_over. fold (nonempty_nodes nodes).
  set (ns := limit maxNodes (nonempty_nodes nodes)). fold (ids_of ns).
  change ((λ n, (n, 0%nat)) <$> ns) with (positions 0 ns).
  rewrite spreadLoop_spec; [done|simpl; lia|]. rewrite left_at_total. lia.
Qed.

(** All columns together are all devices. *)
Lemma bind_app_perm {A B} (f g : A → list B) l :
  (l ≫= λ x, f x ++ g x) ≡ₚ (l ≫= f) ++ (l ≫= g).
Proof. induction l as [|x l IH]; csimpl; [done|]. rewrite IH. solve_Permutation. Qed.

Lemma bind_lookup_seq {A} (l : list A) r k :
  (length l ≤ r + k)%nat → (seq r k ≫= λ i, option_list (l !! i)) = drop r l.
Proof.
  revert r; induction k as [|k IH]; intros r Hl; csimpl.
  { by rewrite drop_ge by lia. }
  rewrite IH by lia. destruct (l !! r) as [x|] eqn:E; simpl.
  - by rewrite (drop_S l x r E).
  - apply lookup_ge_None in E. by rewrite !drop_ge by lia.
Qed.

Lemma columns_perm nodes k :
  (length (ids_of nodes) ≤ k)%nat → columns nodes (seq 0 k) ≡ₚ ids_of nodes.
Proof.
  induction nodes as [|n nodes IH]; intros Hk.
  { unfold columns, ids_of. clear. csimpl. generalize 0%nat. induction k; intros; csimpl; done. }
  assert (Hc : columns (n :: nodes) (seq 0 k) =
               seq 0 k ≫= λ r, option_list (nd_deviceIDs n !! r) ++ column nodes r).
  { unfold columns. apply list_bind_ext; [|done]. intros r. apply column_cons. }
  unfold ids_of in *. csimpl in *. rewrite length_app in Hk.
  rewrite Hc, bind_app_perm, bind_lookup_seq, drop_0 by lia. f_equiv. apply IH. lia.
Qed.

(** ** The policies *)

Definition knownPolicy (p : string) : Prop :=
  p ∈ [PlacementPolicyFirstFit; PlacementPolicyPack; PlacementPolicySpread;
       PlacementPolicyLocalityAware].

Lemma limit_sublist {A} maxNodes (l : list A) : limit maxNodes l `sublist_of` l.
Proof. unfold limit. case_match; [apply sublist_take|done]. Qed.

Lemma limit_length {A} maxNodes (l : list A) :
  0 < maxNodes → Z.of_nat (length (limit maxNodes l)) ≤ maxNodes.
Proof. intros. unfold limit. replace (0 <? maxNodes) with true by lia. rewrite length_take. lia. Qed.

Lemma ids_of_submseteq l k : l ⊆+ k → ids_of l ⊆+ ids_of k.
Proof.
  intros [r Hr]%submseteq_Permutation. unfold ids_of. rewrite Hr, bind_app.
  by apply submseteq_inserts_r.
Qed.

#[export] Instance ids_of_Proper : Proper ((≡ₚ) ==> (≡ₚ)) ids_of.
Proof. intros l k H. unfold ids_of. by rewrite H. Qed.

(** A choice of devices within a node limit: at most [need] of them, from some of the nodes. *)
Definition placed (nodes : list nodeDevices) (need maxNodes : Z) (ids : list string) : Prop :=
  Z.of_nat (length ids) ≤ need ∧
  ∃ sub, sub ⊆+ nodes ∧ ids ⊆+ ids_of sub ∧ (0 < maxNodes → Z.of_nat (length sub) ≤ maxNodes).

Lemma placed_perm nodes k need maxNodes ids :
  nodes ≡ₚ k → placed nodes need maxNodes ids → placed k need maxNodes ids.
Proof.
  intros Hp (? & sub & ? & ? & ?). split; [done|]. exists sub. split_and!; try done.
  by rewrite <- Hp.
Qed.

Lemma placed_take nodes need maxNodes l :
  0 < need → l ≡ₚ ids_of (limit maxNodes (nonempty_nodes nodes)) →
  placed nodes need maxNodes (take (Z.to_nat need) l).
Proof.
  intros Hn Hl. split; [rewrite length_take; lia|].
  exists (limit maxNodes (nonempty_nodes nodes)). split_and!.
  - etransitivity; apply sublist_submseteq; [apply limit_sublist|apply sublist_filter].
  - rewrite <- Hl. apply sublist_submseteq, sublist_take.
  - intros. by apply limit_length.
Qed.

Lemma spread_columns nodes :
  columns nodes (seq 0 (S (length (ids_of nodes)))) ≡ₚ ids_of nodes.
Proof. apply columns_perm. lia. Qed.

Lemma firstFit_placed nodes need maxNodes :
  0 < need → placed nodes need maxNodes (selectFirstFit nodes need maxNodes).
Proof. intros. rewrite selectFirstFit_spec by done. by apply placed_take. Qed.

Lemma pack_placed nodes need maxNodes :
  0 < need → placed nodes need maxNodes (selectPack nodes need maxNodes).
Proof.
  intros. eapply placed_perm; [apply (SliceStable_perm pack_less)|]. by apply firstFit_placed.
Qed.

Lemma spread_placed nodes need maxNodes :
  0 < need → placed nodes need maxNodes (selectSpread nodes need maxNodes).
Proof. intros. rewrite selectSpread_spec by done. apply placed_take; [done|apply spread_columns]. Qed.

Lemma single_placed nodes n need maxNodes :
  0 < need → n ∈ nodes → placed nodes need maxNodes (take (Z.to_nat need) (nd_deviceIDs n)).
Proof.
  intros Hn Hin. split; [rewrite length_take; lia|]. exists [n]. split_and!.
  - by apply singleton_submseteq_l.
  - unfold ids_of; csimpl. rewrite app_nil_r. apply sublist_submseteq, sublist_take.
  - simpl. lia.
Qed.

(** [bestNode] finds a largest node with enough devices, if any node has enough. *)
Lemma bestNode_spec need best nodes :
  (∀ b, best = Some b → need ≤ Z.of_nat (length (nd_deviceIDs b))) →
  match bestNode need best nodes with
  | Some n => (best = Some n ∨ n ∈ nodes) ∧ need ≤ Z.of_nat (length (nd_deviceIDs n)) ∧
      (∀ m, m ∈ nodes → (length (nd_deviceIDs m) ≤ length (nd_deviceIDs n))%nat) ∧
      (∀ b, best = Some b → (length (nd_deviceIDs b) ≤ length (nd_deviceIDs n))%nat)
  | None => best = None ∧ ∀ m, m ∈ nodes → Z.of_nat (length (nd_deviceIDs m)) < need
  end.
Proof.
  revert best; induction nodes as [|x nodes IH]; intros best Hb; cbn [bestNode].
  { destruct best as [b|]; [|split; [done|by intros ? ?%elem_of_nil]].
    split_and!; [by left|by apply Hb|by intros ? ?%elem_of_nil|by intros ? [= ->]]. }
  destruct (_ <? need) eqn:E.
  { specialize (IH best Hb). destruct (bestNode _ _ _) as [n|].
    - destruct IH as (H1 & H2 & H3 & H4). split_and!; [set_solver|done| |done].
      intros m [->|Hm]%elem_of_cons; [lia|by apply H3].
    - destruct IH as [-> H]. split; [done|]. intros m [->|Hm]%elem_of_cons; [lia|by apply H]. }
  set (best' := match best with None => Some x | Some b =>
    if (length (nd_deviceIDs b) <? length (nd_deviceIDs x))%nat then Some x else best end).
  assert (Hstep : match best with None => bestNode need (Some x) nodes | Some b =>
    bestNode need (if (length (nd_deviceIDs b) <? length (nd_deviceIDs x))%nat then Some x else best)
      nodes end = bestNode need best' nodes) by (by subst best'; destruct best).
  rewrite Hstep. assert (Hb' : ∃ b', best' = Some b' ∧ (best = Some b' ∨ b' = x) ∧
    (length (nd_deviceIDs x) ≤ length (nd_deviceIDs b'))%nat ∧
    ∀ b, best = Some b → (length (nd_deviceIDs b) ≤ length (nd_deviceIDs b'))%nat).
  { subst best'. destruct best as [b|]; [|exists x; split_and!; auto; done].
    destruct (_ <? _)%nat eqn:E'.
    - exists x. split_and!; auto. intros ? [= <-]. test_lia.
    - exists b. split_and!; auto; [test_lia|]. by intros ? [= <-]. }
  destruct Hb' as (b' & Hb1 & Hb2 & Hb3 & Hb4). specialize (IH best').
  rewrite Hb1 in IH |- *. specialize (IH ltac:(intros ? [= <-]; destruct Hb2 as [H| ->]; [auto|lia])).
  destruct (bestNode _ _ _) as [n|]; [|by destruct IH].
  destruct IH as (H1 & H2 & H3 & H4). specialize (H4 b' eq_refl). split_and!.
  - destruct H1 as [[= <-]|H1]; [destruct Hb2 as [?| ->]; set_solver|set_solver].
  - done.
  - intros m [->|Hm]%elem_of_cons; [lia|by apply H3].
  - intros b Hbb. specialize (Hb4 b Hbb). lia.
Qed.

Lemma locality_head nodes need n :
  head (filter (λ n, need ≤ Z.of_nat (length (nd_deviceIDs n))) nodes) = Some n →
  n ∈ nodes ∧ need ≤ Z.of_nat (length (nd_deviceIDs n)).
Proof.
  intros H%head_Some_elem_of. apply list_elem_of_filter in H. tauto.
Qed.

Lemma pickDevices_placed nodes need policy same maxNodes ids :
  0 < need → pickDevices nodes need policy same maxNodes = Ok ids → placed nodes need maxNodes ids.
Proof.
  intros Hn. unfold pickDevices. destruct same.
  { pose proof (bestNode_spec need None nodes ltac:(done)) as Hb.
    destruct (bestNode _ _ _) as [n|]; [|done]. intros [= <-].
    destruct Hb as ([?|?] & _); [done|]. by apply single_placed. }
  case_decide; [intros [= <-]; by apply firstFit_placed|].
  case_decide; [intros [= <-]; by apply pack_placed|].
  case_decide; [intros [= <-]; by apply spread_placed|].
  case_decide; [|done].
  destruct (head _) as [n|] eqn:E; intros [= <-].
  - apply locality_head in E as [? _]. by apply single_placed.
  - by apply pack_placed.
Qed.

Lemma ids_of_node n nodes : n ∈ nodes → (length (nd_deviceIDs n) ≤ length (ids_of nodes))%nat.
Proof.
  intros (l1 & l2 & ->)%list_elem_of_split. rewrite ids_of_app.
  unfold ids_of at 2; csimpl. rewrite !length_app. lia.
Qed.

(** Without constraints every policy finds as many devices as there are, up to [need]. *)
Lemma pickDevices_total nodes need policy :
  0 < need → knownPolicy policy →
  ∃ ids, pickDevices nodes need policy false 0 = Ok ids ∧
    length ids = (Z.to_nat need `min` length (ids_of nodes))%nat.
Proof.
  intros Hn Hp. unfold pickDevices.
  assert (Hff : ∀ ns, length (selectFirstFit ns need 0)
                      = (Z.to_nat need `min` length (ids_of ns))%nat).
  { intros ns. rewrite selectFirstFit_spec by done. unfold limit; simpl.
    by rewrite length_take, ids_of_nonempty. }
  assert (Hpk : length (selectPack nodes need 0) = (Z.to_nat need `min` length (ids_of nodes))%nat).
  { unfold selectPack. by rewrite Hff, (SliceStable_perm pack_less). }
  case_decide; [eauto|]. case_decide; [eauto|].
  case_decide.
  { eexists; split; [done|]. rewrite selectSpread_spec by done. unfold limit.
    change (0 <? 0) with false. cbv beta iota zeta.
    rewrite length_take, spread_columns. by rewrite ids_of_nonempty. }
  case_decide; [|unfold knownPolicy in Hp; set_solver].
  destruct (head _) as [n|] eqn:E; [|eauto]. apply locality_head in E as [Hin Hl].
  eexists; split; [done|]. rewrite length_take.
  pose proof (ids_of_node n nodes Hin). lia.
Qed.

(** ** Pack *)

#[export] Instance pack_less_swo : StrictWeakOrder pack_less.
Proof. split; unfold pack_less; intros; test_lia. Qed.

Lemma StronglySorted_filter {A} (R : A → A → Prop) (P : A → Prop) `{∀ x, Decision (P x)} l :
  StronglySorted R l → StronglySorted R (filter P l).
Proof.
  induction 1 as [|x l Hs IH Hx]; [constructor|]. rewrite filter_cons. case_decide; [|done].
  constructor; [done|]. rewrite Forall_forall in *. intros y [_ Hy]%list_elem_of_filter. by apply Hx.
Qed.

Definition devices_in (n : nodeDevices) : Z := Z.of_nat (length (nd_deviceIDs n)).

Lemma ids_of_sum nodes : Z.of_nat (length (ids_of nodes)) = Zsum devices_in nodes.
Proof.
  unfold ids_of. induction nodes as [|n nodes IH]; csimpl; [done|].
  rewrite length_app, Nat2Z.inj_add, IH. done.
Qed.

(** The [m] largest nodes hold at least as many devices as any [m] nodes. *)
Lemma pack_largest nodes sub maxNodes :
  0 < maxNodes → sub ⊆+ nodes → Z.of_nat (length sub) ≤ maxNodes →
  (length (ids_of sub) ≤
   length (ids_of (limit maxNodes (nonempty_nodes (SliceStable pack_less nodes)))))%nat.
Proof.
  intros Hm Hsub Hl. apply Nat2Z.inj_le. rewrite <- (ids_of_nonempty sub), !ids_of_sum.
  set (sorted := nonempty_nodes (SliceStable pack_less nodes)).
  assert (Hsorted : StronglySorted (λ x y, devices_in y ≤ devices_in x) sorted).
  { apply StronglySorted_filter. eapply StronglySorted_weaken; [|apply (SliceStable_sorted pack_less)].
    unfold pack_less, devices_in. intros x y. test_lia. }
  assert (Hin : nonempty_nodes sub ⊆+ sorted).
  { unfold sorted, nonempty_nodes. rewrite (SliceStable_perm pack_less). 
    destruct (submseteq_Permutation _ _ Hsub) as [r Hr]. rewrite Hr, filter_app.
    by apply submseteq_inserts_r. }
  pose proof (Zsum_take_max devices_in sorted _ Hsorted Hin).
  pose proof (length_filter (λ n, length (nd_deviceIDs n) ≠ 0%nat) sub) as Hf.
  fold (nonempty_nodes sub) in Hf.
  etransitivity; [done|]. apply Zsum_submseteq; [intros; unfold devices_in; lia|].
  unfold limit. replace (0 <? maxNodes) with true by lia.
  replace (take (length (nonempty_nodes sub)) sorted)
    with (take (length (nonempty_nodes sub)) (take (Z.to_nat maxNodes) sorted))
    by (rewrite take_take; f_equal; lia).
  apply sublist_submseteq, sublist_take.
Qed.

(** A prefix of the columns ends inside one column. *)
Lemma take_columns ns k r0 m :
  ∃ r, (∀ n i id, n ∈ ns → (r0 ≤ i)%nat → (i < r)%nat → (i < r0 + m)%nat →
          nd_deviceIDs n !! i = Some id → id ∈ take k (columns ns (seq r0 m))) ∧
       (∀ id, id ∈ take k (columns ns (seq r0 m)) →
          ∃ n i, n ∈ ns ∧ (i ≤ r)%nat ∧ nd_deviceIDs n !! i = Some id).
Proof.
  revert k r0; induction m as [|m IH]; intros k r0.
  { exists r0. unfold columns; csimpl. rewrite take_nil.
    split; [lia|]. by intros id ?%elem_of_nil. }
  rewrite columns_S.
  assert (Hcol : ∀ id, id ∈ column ns r0 ↔ ∃ n, n ∈ ns ∧ nd_deviceIDs n !! r0 = Some id)
    by (intros; unfold column; by rewrite list_elem_of_omap).
  destruct (decide (k ≤ length (column ns r0))%nat) as [Hk|Hk].
  - exists r0. rewrite take_app_le by done. split; [lia|].
    intros id Hid. apply elem_of_take in Hid as (j & Hj & _).
    apply list_elem_of_lookup_2, Hcol in Hj as (n & ? & ?). eauto.
  - rewrite take_app_ge by lia.
    destruct (IH (k - length (column ns r0))%nat (S r0)) as (r & Hlow & Hhigh).
    exists (r `max` r0)%nat. split.
    + intros n i id Hn Hi Hir Him Hid. apply elem_of_app.
      destruct (decide (i = r0)) as [->|]; [left; apply Hcol; eauto|right].
      apply Hlow with n i; try done; lia.
    + intros id [Hid|Hid]%elem_of_app.
      * apply Hcol in Hid as (n & ? & ?). exists n, r0. split_and!; [done|lia|done].
      * destruct (Hhigh id Hid) as (n & i & ? & ? & ?). exists n, i. split_and!; [done|lia|done].
Qed.

(** ** Properties *)

(** Placement within its limits.  Whatever the policy, [pickDevices] returns at most the devices
    asked for, none twice and none that was not offered (a sub-multiset of the eligible devices),
    and with [maxNodes > 0] they come from at most [maxNodes] nodes; without constraints every
    known policy returns exactly [min(need, eligible)] devices. *)
Theorem placement_limits (nodes : list nodeDevices) (need maxNodes : Z) (policy : string) :
  0 < need →
  (∀ same ids, pickDevices nodes need policy same maxNodes = Ok ids →
     placed nodes need maxNodes ids) ∧
  (knownPolicy policy →
   ∃ ids, pickDevices nodes need policy false 0 = Ok ids ∧
     length ids = (Z.to_nat need `min` length (ids_of nodes))%nat).
Proof.
  intros Hn. split.
  - intros same ids. by apply pickDevices_placed.
  - by apply pickDevices_total.
Qed.

(** The pack policy is complete: with [maxNodes > 0] it finds [need] devices exactly when some
    choice of at most [maxNodes] nodes holds that many. *)
Theorem pack_complete (nodes : list nodeDevices) (need maxNodes : Z) :
  0 < need → 0 < maxNodes →
  (Z.of_nat (length (selectPack nodes need maxNodes)) = need ↔
   ∃ sub, sub ⊆+ nodes ∧ Z.of_nat (length sub) ≤ maxNodes ∧
     need ≤ Z.of_nat (length (ids_of sub))).
Proof.
  intros Hn Hm. split.
  - intros He. destruct (pack_placed nodes need maxNodes Hn) as (_ & sub & ? & Hs & ?).
    exists sub. split_and!; [done|auto|]. apply submseteq_length in Hs. lia.
  - intros (sub & Hs & Hl & Hneed). unfold selectPack. rewrite selectFirstFit_spec by done.
    pose proof (pack_largest nodes sub maxNodes Hm Hs Hl). rewrite length_take. lia.
Qed.

(** The spread policy is balanced: there is a level [r] such that every node used has given all
    its devices at positions below [r], and nobody has given one beyond position [r]. *)
Theorem spread_balanced (nodes : list nodeDevices) (need maxNodes : Z) :
  0 < need →
  let ns := limit maxNodes (nonempty_nodes nodes) in
  let out := selectSpread nodes need maxNodes in
  ∃ r, (∀ n i id, n ∈ ns → (i < r)%nat → nd_deviceIDs n !! i = Some id → id ∈ out) ∧
       (∀ id, id ∈ out → ∃ n i, n ∈ ns ∧ (i ≤ r)%nat ∧ nd_deviceIDs n !! i = Some id).
Proof.
  intros Hn ns out. subst out. rewrite selectSpread_spec by done. cbv zeta. fold ns.
  destruct (take_columns ns (Z.to_nat need) 0 (S (length (ids_of ns)))) as (r & Hlow & Hhigh).
  exists r. split; [|done]. intros n i id Hin Hi Hid. apply Hlow with n i; try done; [lia|].
  apply lookup_lt_Some in Hid. pose proof (ids_of_node n ns Hin). lia.
Qed.

(** With [requireSameNode] all devices come from one node, a largest one that has enough; the
    call fails exactly when no node has enough eligible devices. *)
Theorem same_node_placement (nodes : list nodeDevices) (need maxNodes : Z) (policy : string) :
  0 < need →
  match pickDevices nodes need policy true maxNodes with
  | Ok ids => ∃ n, n ∈ nodes ∧ ids = take (Z.to_nat need) (nd_deviceIDs n) ∧
      Z.of_nat (length ids) = need ∧
      ∀ m, m ∈ nodes → (length (nd_deviceIDs m) ≤ length (nd_deviceIDs n))%nat
  | Err _ => ∀ m, m ∈ nodes → Z.of_nat (length (nd_deviceIDs m)) < need
  end.
Proof.
  intros Hn. unfold pickDevices.
  pose proof (bestNode_spec need None nodes ltac:(done)) as Hb.
  destruct (bestNode _ _ _) as [n|]; [|by destruct Hb].
  destruct Hb as ([?|?] & ? & ? & _); [done|]. exists n. split_and!; try done.
  rewrite length_take. lia.
Qed.

(** ** Witnesses *)

Module PlacementExample.
Definition nodes : list nodeDevices :=
  [ {| nd_nodeID := "node-0"; nd_deviceIDs := ["a"] |};
    {| nd_nodeID := "node-1"; nd_deviceIDs := [] |};
    {| nd_nodeID := "node-2"; nd_deviceIDs := ["b"; "c"; "d"] |};
    {| nd_nodeID := "node-3"; nd_deviceIDs := ["e"; "f"] |} ].
End PlacementExample.

Example policies_differ :
  selectFirstFit PlacementExample.nodes 3 0 = ["a"; "b"; "c"] ∧
  selectPack PlacementExample.nodes 3 0 = ["b"; "c"; "d"] ∧
  selectSpread PlacementExample.nodes 3 0 = ["a"; "b"; "e"] ∧
  selectSpread PlacementExample.nodes 5 0 = ["a"; "b"; "e"; "c"; "f"].
Proof. by vm_compute. Qed.

Lemma placement_limits_witness :
  placed PlacementExample.nodes 4 2 (selectPack PlacementExample.nodes 4 2).
Proof.
  by apply (proj1 (placement_limits PlacementExample.nodes 4 2 PlacementPolicyPack
                     ltac:(lia)) false).
Defined.

Lemma pack_complete_witness :
  ∃ sub, sub ⊆+ PlacementExample.nodes ∧ Z.of_nat (length sub) ≤ 2 ∧
    5 ≤ Z.of_nat (length (ids_of sub)).
Proof. by apply (pack_complete PlacementExample.nodes 5 2). Defined.

Lemma spread_balanced_witness :
  ∃ r : nat, ∀ id, id ∈ selectSpread PlacementExample.nodes 5 0 →
    ∃ n i, n ∈ limit 0 (nonempty_nodes PlacementExample.nodes) ∧ (i ≤ r)%nat ∧
           nd_deviceIDs n !! i = Some id.
Proof.
  destruct (spread_balanced PlacementExample.nodes 5 0) as (r & _ & H); [lia|]. by exists r.
Defined.

Lemma same_node_placement_witness :
  ∃ n, n ∈ PlacementExample.nodes ∧ ["b"; "c"] = take 2 (nd_deviceIDs n).
Proof.
  pose proof (same_node_placement PlacementExample.nodes 2 0 "" ltac:(lia)) as H.
  destruct H as (n & Hn & Hid & _). exists n. split; [exact Hn|]. exact Hid.
Defined.
