(* ===== verification/Runtime.v ===== *)
(** * Runtime estimation (internal/sim/contract.go, lines 617-1412)

    The duration of a run from its tokens, its hardware profile and the knobs of its kind: the
    batch-efficiency and overhead multipliers, the hardware factor, the jitter, and the conversion
    to nanoseconds.  Constants such as [0.35] are the quotient of two integers rounded once, as the
    compiler rounds the literal. *)

From stdpp Require Import prelude gmap strings pretty.
From S2P Require Import Prelude GoFloat SimModel.

Local Open Scope Z_scope.
Local Open Scope go_scope.

(** What the estimator takes from the run-time system: the first [Float64] of a random source
    seeded with a number, the formatting [%v] of a float, and the nanoseconds of the clock used as a
    seed. *)
Class RunEnv := {
  first_float64 : Z → float64;
  format_float : float64 → string;
  clock_seed : Z;
}.

(** [time.Duration] in nanoseconds. *)
Definition Second : Z := 1000000000.

(** [int64(x)]: truncation toward zero; a value that is not representable becomes the smallest
    [int64], which is what the conversion instruction of amd64 returns. *)
Definition int64_of_float (x : float64) : Z :=
  match x with
  | SpecFloat.S754_zero _ => 0
  | SpecFloat.S754_finite s m e =>
      let t := if (0 <=? e) then Zpos m * 2 ^ e else Zpos m / 2 ^ (- e) in
      let v := if s : bool then - t else t in
      if (int64_min <=? v) && (v <=? int64_max) then v else int64_min
  | _ => int64_min
  end.

Definition maxInt (v fallback : Z) : Z := if 0 <? v then v else fallback.

(** The tests [if x < lo { x = lo }] and [if x > hi { x = hi }]. *)
Definition at_least (lo x : float64) : float64 := if (x <? lo)%F then lo else x.
Definition at_most (hi x : float64) : float64 := if (x >? hi)%F then hi else x.

(** The [if factor < lo { return lo }; if factor > hi { return hi }; return factor] at the end of
    the multipliers. *)
Definition clamp (lo hi x : float64) : float64 :=
  if (x <? lo)%F then lo else if (x >? hi)%F then hi else x.

(** ** Batch efficiency *)

(** The common body of the three batch-efficiency multipliers; the batch size is that of the
    kind's settings, if positive. *)
Definition batchEfficiency (gainSlope maxGain : float64) (batchSize : Z) : float64 :=
  if batchSize <=? 1 then fone
  else
    let gain := (fone + gainSlope * flog2 (of_int batchSize))%F in
    if (gain >? maxGain)%F then maxGain else gain.

Definition inferenceBatchEfficiencyMultiplier (input : RuntimeInput) : float64 :=
  if decide (ri_Kind input ≠ WorkloadKindInference) then fone
  else
    let batchSize := match ri_Inference input with
                     | Some r => if 0 <? inf_BatchSize r then inf_BatchSize r else 1
                     | None => 1
                     end in
    batchEfficiency (lit 35 100) (lit 25 10) batchSize.

Definition evalBatchEfficiencyMultiplier (input : RuntimeInput) : float64 :=
  if decide (ri_Kind input ≠ WorkloadKindEval) then fone
  else
    let batchSize := match ri_Eval input with
                     | Some r => if 0 <? ev_BatchSize r then ev_BatchSize r else 1
                     | None => 1
                     end in
    batchEfficiency (lit 25 100) (of_int 2) batchSize.

Definition embeddingBatchEfficiencyMultiplier (input : RuntimeInput) : float64 :=
  if decide (ri_Kind input ≠ WorkloadKindEmbedding) then fone
  else
    let batchSize := match ri_Embedding input with
                     | Some r => if 0 <? em_BatchSize r then em_BatchSize r else 1
                     | None => 1
                     end in
    batchEfficiency (lit 22 100) (lit 21 10) batchSize.

(** ** Seconds multipliers *)

Record batchThroughputGainConfig := {
  bt_parallelSlope : float64;
  bt_parallelMax : float64;
  bt_microSlope : float64;
  bt_microMax : float64;
  bt_combinedThroughputMax : float64;
}.

Definition batchThroughputGain (globalBatch microBatch gradAccum : Z)
    (cfg : batchThroughputGainConfig) : float64 :=
  let parallelismRatio :=
    at_least fone (of_int globalBatch / of_int (microBatch [*] gradAccum))%F in
  let parallelGain :=
    at_most (bt_parallelMax cfg) (fone + bt_parallelSlope cfg * flog2 parallelismRatio)%F in
  let microGain :=
    at_most (bt_microMax cfg) (fone + bt_microSlope cfg * flog2 (of_int microBatch))%F in
  at_most (bt_combinedThroughputMax cfg) (at_least fone (parallelGain * microGain)%F).

Definition trainingRuntimeSecondsMultiplier (input : RuntimeInput) : float64 :=
  if decide (ri_Kind input ≠ WorkloadKindTraining) then fone
  else match ri_Training input with
  | None => fone
  | Some t =>
      let globalBatch := maxInt (tr_GlobalBatchSize t) 1 in
      let microBatch := maxInt (tr_MicroBatchSize t) 1 in
      let gradAccum := maxInt (tr_GradAccumSteps t) 1 in
      let seqLen := maxInt (tr_SequenceLength t) 2048 in
      let throughputGain :=
        batchThroughputGain globalBatch microBatch gradAccum
          {| bt_parallelSlope := lit 20 100; bt_parallelMax := lit 18 10;
             bt_microSlope := lit 12 100; bt_microMax := lit 15 10;
             bt_combinedThroughputMax := lit 25 10 |} in
      let seqPenalty :=
        at_most (lit 25 10) (at_least (lit 75 100) (fsqrt (of_int seqLen / of_int 2048)%F)) in
      let gradPenalty :=
        at_most (lit 15 10) (fone + lit 3 100 * of_int (gradAccum [-] 1))%F in
      clamp (lit 35 100) (of_int 3) ((seqPenalty * gradPenalty) / throughputGain)%F
  end.

Definition evalRuntimeSecondsMultiplier (input : RuntimeInput) : float64 :=
  if decide (ri_Kind input ≠ WorkloadKindEval) then fone
  else match ri_Eval input with
  | None => fone
  | Some e =>
      let metric := at_least fzero (ev_MetricOverheadPct e) in
      let validation := at_least fzero (ev_ValidationOverheadPct e) in
      clamp fone (of_int 3) (fone + metric + validation)%F
  end.

Definition fineTuneRuntimeSecondsMultiplier (input : RuntimeInput) : float64 :=
  if decide (ri_Kind input ≠ WorkloadKindFineTune) then fone
  else match ri_FineTune input with
  | None => fone
  | Some f =>
      let globalBatch := maxInt (ft_GlobalBatchSize f) 1 in
      let microBatch := maxInt (ft_MicroBatchSize f) 1 in
      let gradAccum := maxInt (ft_GradAccumSteps f) 1 in
      let throughputGain :=
        batchThroughputGain globalBatch microBatch gradAccum
          {| bt_parallelSlope := lit 18 100; bt_parallelMax := lit 17 10;
             bt_microSlope := lit 10 100; bt_microMax := lit 14 10;
             bt_combinedThroughputMax := lit 22 10 |} in
      let gradPenalty :=
        at_most (lit 14 10) (fone + lit 25 1000 * of_int (gradAccum [-] 1))%F in
      let warmPct := at_least fzero (ft_WarmStartOverheadPct f) in
      let ckptPct := at_least fzero (ft_CheckpointLoadOverheadPct f) in
      let warmPenalty := at_most (lit 25 10) (fone + warmPct + ckptPct)%F in
      clamp (lit 4 10) (of_int 3) ((gradPenalty * warmPenalty) / throughputGain)%F
  end.

Definition rlhfRuntimeSecondsMultiplier (input : RuntimeInput) : float64 :=
  if decide (ri_Kind input ≠ WorkloadKindRLHF) then fone
  else match ri_RLHF input with
  | None => fone
  | Some r =>
      let rolloutBatch := maxInt (rl_RolloutBatchSize r) 1 in
      let rewardBatch := maxInt (rl_RewardBatchSize r) 1 in
      let updateBatch := maxInt (rl_UpdateBatchSize r) 1 in
      let policySteps := maxInt (rl_PolicyUpdateSteps r) 1 in
      let rolloutPenalty := (fone + lit 20 100 / fsqrt (of_int rolloutBatch)
                             + lit 15 1000 * fsqrt (of_int rolloutBatch))%F in
      let rewardPenalty := (fone + lit 22 100 / fsqrt (of_int rewardBatch))%F in
      let updatePenalty := ((fone + lit 18 100 / fsqrt (of_int updateBatch))
                            * (fone + lit 6 100 * of_int (policySteps [-] 1)))%F in
      clamp (lit 8 10) (of_int 4)
        (lit 40 100 * rolloutPenalty + lit 25 100 * rewardPenalty + lit 35 100 * updatePenalty)%F
  end.

Definition embeddingRuntimeSecondsMultiplier (input : RuntimeInput) : float64 :=
  if decide (ri_Kind input ≠ WorkloadKindEmbedding) then fone
  else match ri_Embedding input with
  | None => fone
  | Some e =>
      let vectorDim := maxInt (em_VectorDimension e) 1024 in
      let tokenLen := maxInt (em_AvgTokenLength e) 512 in
      let vectorPenalty :=
        at_most (lit 25 10) (at_least (lit 7 10) (fsqrt (of_int vectorDim / of_int 1024)%F)) in
      let tokenPenalty :=
        at_most (lit 25 10) (at_least (lit 7 10) (fsqrt (of_int tokenLen / of_int 512)%F)) in
      clamp (lit 6 10) (lit 35 10) (vectorPenalty * tokenPenalty)%F
  end.

Definition dataPreprocessRuntimeSecondsMultiplier (input : RuntimeInput) : float64 :=
  if decide (ri_Kind input ≠ WorkloadKindDataPreprocess) then fone
  else match ri_DataPreprocess input with
  | None => fone
  | Some d =>
      let inputBytes1 := if dp_InputBytes d <=? 0 then ri_Tokens input [*] 4 else dp_InputBytes d in
      let inputBytes := if inputBytes1 <=? 0 then 4000000 else inputBytes1 in
      let bytesPenalty :=
        at_most (of_int 4) (at_least (lit 6 10) (fsqrt (of_int inputBytes / of_int 4000000)%F)) in
      let tokenization := at_least fzero (dp_TokenizationOverheadPct d) in
      let augmentation := at_least fzero (dp_AugmentationOverheadPct d) in
      let overheadPenalty := (fone + tokenization + augmentation)%F in
      clamp (lit 6 10) (of_int 6) (bytesPenalty * overheadPenalty)%F
  end.

Definition distillationRuntimeSecondsMultiplier (input : RuntimeInput) : float64 :=
  if decide (ri_Kind input ≠ WorkloadKindDistillation) then fone
  else match ri_Distillation input with
  | None => fone
  | Some d =>
      let batchSize := maxInt (di_BatchSize d) 1 in
      let batchGain := at_most (of_int 2) (fone + lit 20 100 * flog2 (of_int batchSize))%F in
      let teacherPenalty := (fone + di_TeacherForwardOverheadPct d)%F in
      let profilePenalty :=
        match profileTokensPerSecond !! ToLower (TrimSpace (ri_Profile input)),
              profileTokensPerSecond !! ToLower (TrimSpace (di_TeacherProfile d)) with
        | Some studentTPS, Some teacherTPS =>
            if (teacherTPS >? fzero)%F
            then at_most (lit 15 10) (at_least (lit 75 100) (fsqrt (studentTPS / teacherTPS)%F))
            else fone
        | _, _ => fone
        end in
      clamp (lit 6 10) (lit 35 10) ((teacherPenalty * profilePenalty) / batchGain)%F
  end.

(** ** The hardware factor *)

Definition hardwareProfileRuntimeRefs `{MapIter} : hardwareRuntimeReferences :=
  deriveHardwareRuntimeReferences hardwareProfiles.

(** A ratio to the median, at least 0.1, damped by the square root. *)
Definition damped (x ref : float64) : float64 := fsqrt (at_least (lit 1 10) (x / ref)%F).

Definition hardwareThroughputFactor `{MapIter} (profile : HardwareProfile) (deviceCount : Z)
    : float64 :=
  let refs := hardwareProfileRuntimeRefs in
  let weighted1 := (fzero + lit 60 100 * damped (hp_MemBandwidthGBps profile)
                                                (ref_memBandwidthGBps refs))%F in
  let weights1 := (fzero + lit 60 100)%F in
  let '(weighted2, weights2) :=
    match hp_PeakTFLOPSBF16 profile with
    | Some peak =>
        if (peak >? fzero)%F
        then ((weighted1 + lit 25 100 * damped peak (ref_peakTFLOPSBF16 refs))%F,
              (weights1 + lit 25 100)%F)
        else (weighted1, weights1)
    | None => (weighted1, weights1)
    end in
  let '(weighted3, weights3) :=
    match hp_InterconnectGBps profile with
    | Some ic =>
        if (1 <? deviceCount) && (ic >? fzero)%F
        then ((weighted2 + lit 15 100 * damped ic (ref_interconnectGBps refs))%F,
              (weights2 + lit 15 100)%F)
        else (weighted2, weights2)
    | None => (weighted2, weights2)
    end in
  if (weights3 <=? fzero)%F then fone
  else clamp (lit 75 100) (lit 125 100) (weighted3 / weights3)%F.

(** ** Jitter and duration *)

Definition jitterPctInvalid (pct : float64) : bool := (pct <=? fzero)%F || (pct >? fone)%F.

Definition jitterPctError `{RunEnv} (pct : float64) : error :=
  Errorf ("jitter.pct must be in (0,1], got " +:+ format_float pct).

Definition applyRuntimeJitter `{RunEnv} (seconds : float64) (jitter : option JitterConfig)
    : Result float64 :=
  match jitter with
  | None => Ok seconds
  | Some j =>
      if negb (j_Enabled j) then Ok seconds
      else if jitterPctInvalid (j_Pct j) then Err (jitterPctError (j_Pct j))
      else
        let r := if decide (j_Seed j ≠ 0) then first_float64 (j_Seed j)
                 else first_float64 clock_seed in
        let delta := ((r * of_int 2 - fone) * j_Pct j)%F in
        Ok (at_least fone (seconds * (fone + delta))%F)
  end.

(** The seconds before jitter, for a base throughput and its hardware profile. *)
Definition baseSeconds `{MapIter} (input : RuntimeInput) (deviceCount : Z) (baseTPS : float64)
    (profile : HardwareProfile) : float64 :=
  let hardwareFactor := hardwareThroughputFactor profile deviceCount in
  let effectiveTPS := (baseTPS * hardwareFactor * of_int deviceCount
                       * inferenceBatchEfficiencyMultiplier input
                       * evalBatchEfficiencyMultiplier input
                       * embeddingBatchEfficiencyMultiplier input)%F in
  let seconds := (of_int (ri_Tokens input) / effectiveTPS
                  * trainingRuntimeSecondsMultiplier input
                  * evalRuntimeSecondsMultiplier input
                  * fineTuneRuntimeSecondsMultiplier input
                  * rlhfRuntimeSecondsMultiplier input
                  * embeddingRuntimeSecondsMultiplier input
                  * dataPreprocessRuntimeSecondsMultiplier input
                  * distillationRuntimeSecondsMultiplier input)%F in
  at_least fone seconds.

Definition estimateDuration `{MapIter, RunEnv} (input : RuntimeInput) (deviceCount : Z) : Result Z :=
  if ri_Tokens input <=? 0
  then Err (Errorf ("tokens must be positive, got " +:+ pretty (ri_Tokens input)))
  else if deviceCount <=? 0
  then Err (Errorf ("deviceCount must be positive, got " +:+ pretty deviceCount))
  else match profileTokensPerSecond !! ToLower (ri_Profile input) with
  | None => Err (Errorf ("unknown profile " +:+ Quote (ri_Profile input)
                         +:+ " for runtime estimation"))
  | Some baseTPS =>
  match hardwareProfiles !! ToLower (ri_Profile input) with
  | None => Err (Errorf ("unknown profile " +:+ Quote (ri_Profile input)
                         +:+ " for hardware metadata"))
  | Some profile =>
      let seconds := baseSeconds input deviceCount baseTPS profile in
      let jittered :=
        match ri_Jitter input with
        | Some j => if j_Enabled j then applyRuntimeJitter seconds (Some j) else Ok seconds
        | None => Ok seconds
        end in
      match jittered with
      | Err e => Err e
      | Ok s => Ok (int64_of_float (fceil s * of_int Second)%F)
      end
  end end.

(** ** Properties *)

(** The references do not depend on the order in which the profiles are ranged over: all orders of
    the four profiles give the same medians. *)
Definition references_of (l : list (string * HardwareProfile)) : hardwareRuntimeReferences :=
  let ps := l.*2 in
  let positive (o : option float64) : list float64 :=
    match o with Some x => if (x >? fzero)%F then [x] else [] | None => [] end in
  {| ref_memBandwidthGBps :=
       medianFloat64 (ps ≫= λ p, positive (Some (hp_MemBandwidthGBps p))) fone;
     ref_peakTFLOPSBF16 := medianFloat64 (ps ≫= λ p, positive (hp_PeakTFLOPSBF16 p)) fone;
     ref_interconnectGBps := medianFloat64 (ps ≫= λ p, positive (hp_InterconnectGBps p)) fone |}.

#[export] Instance hardwareRuntimeReferences_eq_dec : EqDecision hardwareRuntimeReferences.
Proof. solve_decision. Defined.

Definition profile_list : list (string * HardwareProfile) :=
  Eval vm_compute in map_to_list hardwareProfiles.

Lemma references_all_orders :
  Forall (λ l, references_of l = references_of profile_list) (permutations profile_list).
Proof.
  assert (H : forallb (λ l, bool_decide (references_of l = references_of profile_list))
                (permutations profile_list) = true) by by vm_compute.
  apply Forall_forall. intros l Hl%list_elem_of_In. rewrite forallb_forall in H.
  by apply (bool_decide_eq_true_1 _ (H l Hl)).
Qed.

Lemma refs_order_independent (I : MapIter) :
  @hardwareProfileRuntimeRefs I = references_of profile_list.
Proof.
  pose proof references_all_orders as H. rewrite Forall_forall in H.
  apply (H (map_iter hardwareProfiles)). apply permutations_Permutation. symmetry.
  apply (map_iter_perm hardwareProfiles).
Qed.

Lemma estimateDuration_order (I1 I2 : MapIter) (R : RunEnv) input n :
  @estimateDuration I1 R input n = @estimateDuration I2 R input n.
Proof.
  assert (Hf : ∀ p k, @hardwareThroughputFactor I1 p k = @hardwareThroughputFactor I2 p k).
  { intros p k. unfold hardwareThroughputFactor. by rewrite !refs_order_independent. }
  assert (Hb : ∀ t p, @baseSeconds I1 input n t p = @baseSeconds I2 input n t p).
  { intros t p. unfold baseSeconds. by rewrite Hf. }
  unfold estimateDuration.
  destruct (ri_Tokens input <=? 0); [done|]. destruct (n <=? 0); [done|].
  destruct (profileTokensPerSecond !! _); [|done].
  destruct (hardwareProfiles !! _); [|done]. by rewrite Hb.
Qed.

(** When a duration is returned, and that only an unseeded jitter looks at the clock. *)
Definition estimable (input : RuntimeInput) (deviceCount : Z) : Prop :=
  0 < ri_Tokens input ∧ 0 < deviceCount ∧
  is_Some (hardwareProfiles !! ToLower (ri_Profile input)) ∧
  ∀ j, ri_Jitter input = Some j → j_Enabled j = true → jitterPctInvalid (j_Pct j) = false.

Lemma applyRuntimeJitter_ok `{RunEnv} s j :
  (∃ x, applyRuntimeJitter s (Some j) = Ok x) ↔
  (j_Enabled j = true → jitterPctInvalid (j_Pct j) = false).
Proof.
  unfold applyRuntimeJitter. destruct (j_Enabled j); simpl; [|naive_solver].
  destruct (jitterPctInvalid (j_Pct j)); naive_solver.
Qed.

Lemma estimateDuration_ok `{MapIter, RunEnv} input n :
  (∃ d, estimateDuration input n = Ok d) ↔ estimable input n.
Proof.
  unfold estimateDuration, estimable.
  pose proof (profile_tables_agree (ToLower (ri_Profile input))) as Hagree.
  revert Hagree. generalize (profileTokensPerSecond !! ToLower (ri_Profile input)) as o1,
    (hardwareProfiles !! ToLower (ri_Profile input)) as o2. intros o1 o2 Hagree.
  destruct (ri_Tokens input <=? 0) eqn:?; [split; [by intros []|lia]|].
  destruct (n <=? 0) eqn:?; [split; [by intros []|lia]|].
  destruct o1 as [tps|].
  2:{ split; [by intros []|]. intros (_ & _ & Hs & _). by apply Hagree in Hs as []. }
  destruct o2 as [p|]; [|by destruct (proj1 Hagree (mk_is_Some _ _ eq_refl))].
  set (s := baseSeconds _ _ _ _). clearbody s.
  destruct (ri_Jitter input) as [j|]; [|split; [|naive_solver]; intros _; split_and!; done || lia].
  pose proof (applyRuntimeJitter_ok s j) as Hj. destruct (j_Enabled j) eqn:Ej.
  - split.
    + intros [d Hd]. destruct (applyRuntimeJitter s (Some j)); [|done].
      split_and!; try (done || lia). intros j' [= <-] _. apply Hj; [by eexists|done].
    + intros (_ & _ & _ & Hx). destruct (proj2 Hj) as [x ->]; [naive_solver|by eexists].
  - split; [|by eexists]. intros _. split_and!; try (done || lia). intros j' [= <-]. congruence.
Qed.

Lemma estimateDuration_clock (I : MapIter) (R1 R2 : RunEnv) input n :
  (∀ seed, @first_float64 R1 seed = @first_float64 R2 seed) →
  (∀ x, @format_float R1 x = @format_float R2 x) →
  (∀ j, ri_Jitter input = Some j → j_Enabled j = true → j_Seed j ≠ 0) →
  @estimateDuration I R1 input n = @estimateDuration I R2 input n.
Proof.
  intros Hr Hfmt Hs. unfold estimateDuration.
  destruct (ri_Tokens input <=? 0); [done|]. destruct (n <=? 0); [done|].
  destruct (profileTokensPerSecond !! _); [|done].
  destruct (hardwareProfiles !! _); [|done].
  destruct (ri_Jitter input) as [j|]; [|done].
  destruct (j_Enabled j) eqn:Ej; [|done]. unfold applyRuntimeJitter, jitterPctError.
  rewrite !(decide_True (P := j_Seed j ≠ 0)) by (by apply Hs). by rewrite Hr, Hfmt.
Qed.

(** ** Bounds of the multipliers *)

Definition within (lo hi x : float64) : Prop := (x <? lo)%F = false ∧ (x >? hi)%F = false.

Lemma clamp_within lo hi x :
  (lo >? hi)%F = false → (lo <? lo)%F = false → (hi <? lo)%F = false → (hi >? hi)%F = false →
  within lo hi (clamp lo hi x).
Proof.
  intros. unfold within, clamp.
  destruct (x <? lo)%F eqn:?; [done|]. by destruct (x >? hi)%F eqn:?.
Qed.

Lemma at_most_bound hi x : (hi >? hi)%F = false → (at_most hi x >? hi)%F = false.
Proof. intros. unfold at_most. by destruct (x >? hi)%F eqn:?. Qed.

(** Every multiplier of the estimator stays in the band its comment states, for any input and
    any knob values: training [0.35, 3], eval [1, 3], fine-tune [0.4, 3], RLHF [0.8, 4], embedding
    [0.6, 3.5], preprocessing [0.6, 6], distillation [0.6, 3.5] and the hardware factor
    [0.75, 1.25]. *)
Theorem multipliers_bounded `{MapIter} (input : RuntimeInput) (p : HardwareProfile) (n : Z) :
  within (lit 35 100) (of_int 3) (trainingRuntimeSecondsMultiplier input) ∧
  within fone (of_int 3) (evalRuntimeSecondsMultiplier input) ∧
  within (lit 4 10) (of_int 3) (fineTuneRuntimeSecondsMultiplier input) ∧
  within (lit 8 10) (of_int 4) (rlhfRuntimeSecondsMultiplier input) ∧
  within (lit 6 10) (lit 35 10) (embeddingRuntimeSecondsMultiplier input) ∧
  within (lit 6 10) (of_int 6) (dataPreprocessRuntimeSecondsMultiplier input) ∧
  within (lit 6 10) (lit 35 10) (distillationRuntimeSecondsMultiplier input) ∧
  within (lit 75 100) (lit 125 100) (hardwareThroughputFactor p n).
Proof.
  split_and!.
  - unfold trainingRuntimeSecondsMultiplier. case_decide; [by vm_compute|].
    destruct (ri_Training input); [|by vm_compute]. by apply clamp_within.
  - unfold evalRuntimeSecondsMultiplier. case_decide; [by vm_compute|].
    destruct (ri_Eval input); [|by vm_compute]. by apply clamp_within.
  - unfold fineTuneRuntimeSecondsMultiplier. case_decide; [by vm_compute|].
    destruct (ri_FineTune input); [|by vm_compute]. by apply clamp_within.
  - unfold rlhfRuntimeSecondsMultiplier. case_decide; [by vm_compute|].
    destruct (ri_RLHF input); [|by vm_compute]. by apply clamp_within.
  - unfold embeddingRuntimeSecondsMultiplier. case_decide; [by vm_compute|].
    destruct (ri_Embedding input); [|by vm_compute]. by apply clamp_within.
  - unfold dataPreprocessRuntimeSecondsMultiplier. case_decide; [by vm_compute|].
    destruct (ri_DataPreprocess input); [|by vm_compute]. by apply clamp_within.
  - unfold distillationRuntimeSecondsMultiplier. case_decide; [by vm_compute|].
    destruct (ri_Distillation input); [|by vm_compute]. by apply clamp_within.
  - unfold hardwareThroughputFactor. generalize hardwareProfileRuntimeRefs as refs. intros refs.
    cbv zeta. destruct (match hp_PeakTFLOPSBF16 p with Some _ => _ | None => _ end) as [w2 k2].
    destruct (match hp_InterconnectGBps p with Some _ => _ | None => _ end) as [w3 k3].
    destruct (k3 <=? fzero)%F; [by vm_compute|]. by apply clamp_within.
Qed.

(** [estimateDuration] returns a duration exactly for positive tokens and devices, a profile
    known to the tables (in any letter case) and, with jitter enabled, a fraction in (0, 1]; the
    result does not depend on the order of map iteration, and not on the clock unless an unseeded
    jitter is enabled. *)
Theorem estimate_total_deterministic (I1 I2 : MapIter) (R1 R2 : RunEnv) (input : RuntimeInput)
    (n : Z) :
  ((∃ d, @estimateDuration I1 R1 input n = Ok d) ↔ estimable input n) ∧
  ((∀ seed, @first_float64 R1 seed = @first_float64 R2 seed) →
   (∀ x, @format_float R1 x = @format_float R2 x) →
   (∀ j, ri_Jitter input = Some j → j_Enabled j = true → j_Seed j ≠ 0) →
   @estimateDuration I1 R1 input n = @estimateDuration I2 R2 input n).
Proof.
  split; [apply estimateDuration_ok|]. intros.
  rewrite (estimateDuration_order I1 I2). by apply estimateDuration_clock.
Qed.


(** ** Examples and witnesses *)

Module RuntimeExample.
(** A generator that always returns 0.5 (no shift), a formatter that prints nothing. *)
Definition env (now : Z) : RunEnv :=
  {| first_float64 := λ _, lit 1 2; format_float := λ _, ""; clock_seed := now |}.
Definition input (kind profile : string) (tokens : Z) : RuntimeInput :=
  {| ri_WorkloadID := "ns/w"; ri_Tokens := tokens; ri_Profile := profile; ri_Kind := kind;
     ri_Training := None; ri_Inference := None; ri_Eval := None; ri_FineTune := None;
     ri_RLHF := None; ri_Embedding := None; ri_DataPreprocess := None; ri_Distillation := None;
     ri_Jitter := None |}.
Definition duration (kind profile : string) (tokens devices : Z) : Result Z :=
  @estimateDuration map_iter_canonical (env 0) (input kind profile tokens) devices.
End RuntimeExample.

Example duration_h100 : RuntimeExample.duration "training" "h100_sxm" 1000000 1 = Ok (73 * Second).
Proof. by vm_compute. Qed.

Example duration_two_devices :
  RuntimeExample.duration "training" "A100_80gb" 1000000 2 = Ok (88 * Second).
Proof. by vm_compute. Qed.

(** The conversion to nanoseconds overflows for large token counts: 10^15 tokens, a valid value of
    the field, give a negative duration, so that the run ends before it starts. *)
Example duration_overflow :
  RuntimeExample.duration "training" "h100_sxm" 1000000000000000 1 = Ok int64_min.
Proof. by vm_compute. Qed.

Lemma estimate_total_deterministic_witness :
  (∃ d, @estimateDuration map_iter_canonical (RuntimeExample.env 1)
          (RuntimeExample.input "training" "H100_SXM" 5000) 4 = Ok d) ∧
  @estimateDuration map_iter_canonical (RuntimeExample.env 1)
    (RuntimeExample.input "training" "H100_SXM" 5000) 4 =
  @estimateDuration map_iter_canonical (RuntimeExample.env 2)
    (RuntimeExample.input "training" "H100_SXM" 5000) 4.
Proof.
  destruct (estimate_total_deterministic map_iter_canonical map_iter_canonical
    (RuntimeExample.env 1) (RuntimeExample.env 2)
    (RuntimeExample.input "training" "H100_SXM" 5000) 4) as [Hok Hdet].
  split; [|by apply Hdet].
  apply Hok. unfold estimable. split_and!; [by vm_compute|by vm_compute| |done].
  assert (H : bool_decide (is_Some (hardwareProfiles !! "h100_sxm")) = true) by by vm_compute.
  by apply bool_decide_eq_true_1 in H.
Defined.
