(* ===== verification/Simulator.v ===== *)
(** * The simulator (internal/sim/contract.go lines 19-615, internal/sim/state.go)

    The state of the simulator and its operations: fleet registration, allocation, the life cycle
    of a run, preemption and release, and the usage snapshots.  An operation takes the simulator and
    returns it with the result; the reads of [time.Now] are arguments.  The receiver is not nil.
    A nil map reads as an empty one, and the operations that write first make the maps, so that nil
    and empty maps are the same here. *)

From stdpp Require Import prelude gmap strings sorting pretty.
From S2P Require Import Prelude GoFloat SimModel Placement Runtime.

Local Open Scope Z_scope.
Local Open Scope go_scope.

Record runRecord := {
  run_RunID : string;
  run_WorkloadID : string;
  run_Profile : string;
  run_Tokens : Z;
  run_Runtime : RuntimeInput;
  run_StartedAt : Time;
  run_EndsAt : Time;
  run_Status : RunStatus;
}.

Record Simulator := {
  sim_pools : gmap string (list Node);
  sim_allocations : gmap string Allocation;
  sim_runs : gmap string runRecord;
  sim_nextRunID : Z;
}.

Record FleetUsageSnapshot := {
  fu_TotalDevices : Z;
  fu_AllocatedDevices : Z;
  fu_AvailableDevices : Z;
  fu_Utilization : float64;
}.

Definition NewSimulator : Simulator :=
  {| sim_pools := ∅; sim_allocations := ∅; sim_runs := ∅; sim_nextRunID := 0 |}.

Definition with_pools (s : Simulator) (p : gmap string (list Node)) : Simulator :=
  {| sim_pools := p; sim_allocations := sim_allocations s; sim_runs := sim_runs s;
     sim_nextRunID := sim_nextRunID s |}.
Definition with_allocations (s : Simulator) (a : gmap string Allocation) : Simulator :=
  {| sim_pools := sim_pools s; sim_allocations := a; sim_runs := sim_runs s;
     sim_nextRunID := sim_nextRunID s |}.
Definition with_runs (s : Simulator) (r : gmap string runRecord) : Simulator :=
  {| sim_pools := sim_pools s; sim_allocations := sim_allocations s; sim_runs := r;
     sim_nextRunID := sim_nextRunID s |}.
Definition with_status (r : runRecord) (st : RunStatus) : runRecord :=
  {| run_RunID := run_RunID r; run_WorkloadID := run_WorkloadID r; run_Profile := run_Profile r;
     run_Tokens := run_Tokens r; run_Runtime := run_Runtime r; run_StartedAt := run_StartedAt r;
     run_EndsAt := run_EndsAt r; run_Status := st |}.

(** ** Fleet *)

Definition DefaultPoolKey : string := "_default".

Definition poolPrefix (poolKey : string) : string :=
  if decide (poolKey ≠ "" ∧ poolKey ≠ DefaultPoolKey) then poolKey +:+ "/" else "".

Definition node_id (poolKey : string) (i : nat) : string :=
  poolPrefix poolKey +:+ "node-" +:+ pretty i.
Definition device_id (poolKey : string) (i j : nat) : string :=
  node_id poolKey i +:+ "/gpu-" +:+ pretty j.

Definition buildNodesWithPoolKey (spec : GPUNodePoolSpec) (poolKey : string) : Result (list Node) :=
  if sp_NodeCount spec <=? 0
  then Err (Errorf ("NodeCount must be positive, got " +:+ pretty (sp_NodeCount spec)))
  else if sp_DevicesPerNode spec <=? 0
  then Err (Errorf ("DevicesPerNode must be positive, got " +:+ pretty (sp_DevicesPerNode spec)))
  else if sp_MemoryMiBPerDevice spec <=? 0
  then Err (Errorf ("MemoryMiBPerDevice must be positive, got "
                    +:+ pretty (sp_MemoryMiBPerDevice spec)))
  else Ok ((λ i, {| n_ID := node_id poolKey i;
                    n_Devices :=
                      (λ j, {| d_ID := device_id poolKey i j;
                               d_MemoryMiB := sp_MemoryMiBPerDevice spec;
                               d_DeviceType := sp_DeviceType spec;
                               d_Profile := sp_Profile spec |})
                        <$> seq 0 (Z.to_nat (sp_DevicesPerNode spec)) |})
             <$> seq 0 (Z.to_nat (sp_NodeCount spec))).

Definition RegisterFleet (s : Simulator) (poolKey : string) (spec : GPUNodePoolSpec)
    : Simulator * option error :=
  let poolKey := if decide (poolKey = "") then DefaultPoolKey else poolKey in
  match buildNodesWithPoolKey spec poolKey with
  | Err e => (s, Some e)
  | Ok nodes => (with_pools s (<[poolKey := nodes]> (sim_pools s)), None)
  end.

Definition DeleteFleet (s : Simulator) (poolKey : string) : Simulator :=
  if decide (poolKey = "") then s else with_pools s (delete poolKey (sim_pools s)).

Definition allNodes `{MapIter} (s : Simulator) : list Node := concat (map_iter (sim_pools s)).*2.

(** ** Allocation *)

(** The set [usedDevices]. *)
Definition usedDevices `{MapIter} (s : Simulator) : gset string :=
  list_to_set ((map_iter (sim_allocations s)).*2 ≫= a_DeviceIDs).

Definition AllocateWithOptions `{MapIter} (s : Simulator) (workloadID : string)
    (gpuCount memMiB : Z) (opts : AllocationOptions) : Simulator * Result Allocation :=
  if decide (workloadID = "") then (s, Err (Errorf "workloadID is required"))
  else if gpuCount <=? 0
  then (s, Err (Errorf ("gpuCount must be positive, got " +:+ pretty gpuCount)))
  else if memMiB <=? 0
  then (s, Err (Errorf ("memMiB must be positive, got " +:+ pretty memMiB)))
  else if decide (is_Some (sim_allocations s !! workloadID))
  then (s, Err (Errorf ("workload " +:+ Quote workloadID +:+ " already has an allocation")))
  else if decide (size (sim_pools s) = 0%nat) then (s, Err (Errorf "fleet is not registered"))
  else if o_MaxNodes opts <? 0
  then (s, Err (Errorf ("maxNodes must be >= 0, got " +:+ pretty (o_MaxNodes opts))))
  else
  let nodes := allNodes s in
  let perNode := computeEligibleDevicesPerNode nodes (usedDevices s) memMiB
                   (o_PreferredDeviceType opts) (o_PreferredProfile opts) in
  let policy := if decide (o_PlacementPolicy opts = "") then PlacementPolicyFirstFit
                else o_PlacementPolicy opts in
  match pickDevices perNode gpuCount policy (o_RequireSameNode opts) (o_MaxNodes opts) with
  | Err e => (s, Err (Wrapf ("placement failed for workload " +:+ Quote workloadID) e))
  | Ok deviceIDs =>
      if Z.of_nat (length deviceIDs) <? gpuCount
      then (s, Err (Errorf ("insufficient free devices for workload " +:+ Quote workloadID
                            +:+ ": need " +:+ pretty gpuCount +:+ " devices with >="
                            +:+ pretty memMiB +:+ " MiB each, found "
                            +:+ pretty (length deviceIDs))))
      else
        let allocation := {| a_WorkloadID := workloadID; a_DeviceIDs := deviceIDs |} in
        (with_allocations s (<[workloadID := allocation]> (sim_allocations s)), Ok allocation)
  end.

Definition firstFitOptions : AllocationOptions :=
  {| o_PlacementPolicy := PlacementPolicyFirstFit; o_RequireSameNode := false; o_MaxNodes := 0;
     o_PreferredDeviceType := ""; o_PreferredProfile := "" |}.

Definition Allocate `{MapIter} (s : Simulator) (workloadID : string) (gpuCount memMiB : Z)
    : Simulator * Result Allocation :=
  AllocateWithOptions s workloadID gpuCount memMiB firstFitOptions.

Definition Release (s : Simulator) (workloadID : string) : Simulator * option error :=
  if decide (workloadID = "") then (s, Some (Errorf "workloadID is required"))
  else (with_allocations s (delete workloadID (sim_allocations s)), None).

(** ** Runs *)

Definition positive_or (v d : Z) : Z := if v <=? 0 then d else v.

(** The [switch] that fills in the per-kind defaults. *)
Definition applyKindDefaults (input : RuntimeInput) : RuntimeInput :=
  let set_ i e m d r t :=
    {| ri_WorkloadID := ri_WorkloadID input; ri_Tokens := ri_Tokens input;
       ri_Profile := ri_Profile input; ri_Kind := ri_Kind input;
       ri_Training := ri_Training input; ri_Inference := i; ri_Eval := e;
       ri_FineTune := ri_FineTune input; ri_RLHF := r; ri_Embedding := m;
       ri_DataPreprocess := d; ri_Distillation := t; ri_Jitter := ri_Jitter input |} in
  let i := ri_Inference input in let e := ri_Eval input in let m := ri_Embedding input in
  let d := ri_DataPreprocess input in let r := ri_RLHF input in let t := ri_Distillation input in
  if decide (ri_Kind input = WorkloadKindInference) then
    let v := default {| inf_BatchSize := 0 |} i in
    set_ (Some {| inf_BatchSize := positive_or (inf_BatchSize v) 1 |}) e m d r t
  else if decide (ri_Kind input = WorkloadKindEval) then
    let v := default {| ev_BatchSize := 0; ev_MetricOverheadPct := fzero;
                        ev_ValidationOverheadPct := fzero |} e in
    set_ i (Some {| ev_BatchSize := positive_or (ev_BatchSize v) 1;
                    ev_MetricOverheadPct := ev_MetricOverheadPct v;
                    ev_ValidationOverheadPct := ev_ValidationOverheadPct v |}) m d r t
  else if decide (ri_Kind input = WorkloadKindEmbedding) then
    let v := default {| em_BatchSize := 0; em_VectorDimension := 0; em_AvgTokenLength := 0 |} m in
    set_ i e (Some {| em_BatchSize := positive_or (em_BatchSize v) 1;
                      em_VectorDimension := positive_or (em_VectorDimension v) 1024;
                      em_AvgTokenLength := positive_or (em_AvgTokenLength v) 512 |}) d r t
  else if decide (ri_Kind input = WorkloadKindDataPreprocess) then
    let v := default {| dp_InputBytes := 0; dp_TokenizationOverheadPct := fzero;
                        dp_AugmentationOverheadPct := fzero |} d in
    set_ i e m (Some {| dp_InputBytes := positive_or (dp_InputBytes v) (ri_Tokens input [*] 4);
                        dp_TokenizationOverheadPct := dp_TokenizationOverheadPct v;
                        dp_AugmentationOverheadPct := dp_AugmentationOverheadPct v |}) r t
  else if decide (ri_Kind input = WorkloadKindRLHF) then
    let v := default {| rl_RolloutBatchSize := 0; rl_RewardBatchSize := 0;
                        rl_UpdateBatchSize := 0; rl_PolicyUpdateSteps := 0 |} r in
    let rollout := positive_or (rl_RolloutBatchSize v) 1 in
    set_ i e m d (Some {| rl_RolloutBatchSize := rollout;
                          rl_RewardBatchSize := positive_or (rl_RewardBatchSize v) rollout;
                          rl_UpdateBatchSize := positive_or (rl_UpdateBatchSize v) 1;
                          rl_PolicyUpdateSteps := positive_or (rl_PolicyUpdateSteps v) 1 |}) t
  else if decide (ri_Kind input = WorkloadKindDistillation) then
    let v := default {| di_TeacherProfile := ""; di_BatchSize := 0;
                        di_TeacherForwardOverheadPct := fzero |} t in
    set_ i e m d r (Some {| di_TeacherProfile :=
                              if decide (TrimSpace (di_TeacherProfile v) = "")
                              then ri_Profile input else di_TeacherProfile v;
                            di_BatchSize := positive_or (di_BatchSize v) 1;
                            di_TeacherForwardOverheadPct := di_TeacherForwardOverheadPct v |})
  else input.

(** The checks on the knobs after the defaults. *)
Definition pctCheck `{RunEnv} (field : string) (pct : float64) : option error :=
  if ((pct <? fzero)%F || (pct >? fone)%F)
  then Some (Errorf (field +:+ " must be in [0,1], got " +:+ format_float pct)) else None.

Definition firstError (l : list (option error)) : option error := head (omap id l).

Definition checkRuntimeInput `{RunEnv} (input : RuntimeInput) : option error :=
  let of_kind {A} (kind : string) (o : option A) (f : A → list (option error))
      : list (option error) :=
    if decide (ri_Kind input = kind) then match o with Some v => f v | None => [] end else [] in
  firstError
    (match ri_Jitter input with
     | Some j => if j_Enabled j && jitterPctInvalid (j_Pct j) then [Some (jitterPctError (j_Pct j))]
                 else []
     | None => []
     end
     ++ of_kind WorkloadKindEval (ri_Eval input)
          (λ e, [pctCheck "eval.metricOverheadPct" (ev_MetricOverheadPct e);
                 pctCheck "eval.validationOverheadPct" (ev_ValidationOverheadPct e)])
     ++ of_kind WorkloadKindFineTune (ri_FineTune input)
          (λ f, [pctCheck "fineTune.warmStartOverheadPct" (ft_WarmStartOverheadPct f);
                 pctCheck "fineTune.checkpointLoadOverheadPct" (ft_CheckpointLoadOverheadPct f)])
     ++ of_kind WorkloadKindDataPreprocess (ri_DataPreprocess input)
          (λ d, [pctCheck "dataPreprocess.tokenizationOverheadPct" (dp_TokenizationOverheadPct d);
                 pctCheck "dataPreprocess.augmentationOverheadPct" (dp_AugmentationOverheadPct d)])
     ++ of_kind WorkloadKindDistillation (ri_Distillation input)
          (λ d, [pctCheck "distillation.teacherForwardOverheadPct" (di_TeacherForwardOverheadPct d);
                 if decide (is_Some (hardwareProfiles !! ToLower (TrimSpace (di_TeacherProfile d))))
                 then None
                 else Some (Errorf ("unknown teacher profile " +:+ Quote (di_TeacherProfile d)
                                    +:+ " for distillation"))])).

(** [input.Kind = WorkloadKindTraining] when empty. *)
Definition with_kind (input : RuntimeInput) (kind : string) : RuntimeInput :=
  {| ri_WorkloadID := ri_WorkloadID input; ri_Tokens := ri_Tokens input;
     ri_Profile := ri_Profile input; ri_Kind := kind; ri_Training := ri_Training input;
     ri_Inference := ri_Inference input; ri_Eval := ri_Eval input; ri_FineTune := ri_FineTune input;
     ri_RLHF := ri_RLHF input; ri_Embedding := ri_Embedding input;
     ri_DataPreprocess := ri_DataPreprocess input; ri_Distillation := ri_Distillation input;
     ri_Jitter := ri_Jitter input |}.

(** The part of [StartWithRuntimeInput] before the lock: the input with its defaults, or an
    error. *)
Definition prepareInput `{RunEnv} (input : RuntimeInput) : Result RuntimeInput :=
  if decide (ri_WorkloadID input = "") then Err (Errorf "workloadID is required")
  else if ri_Tokens input <=? 0
  then Err (Errorf ("tokens must be positive, got " +:+ pretty (ri_Tokens input)))
  else if decide (ri_Profile input = "") then Err (Errorf "profile is required")
  else
  let input1 := if decide (ri_Kind input = "") then with_kind input WorkloadKindTraining
                else input in
  if negb (supportedKind (ri_Kind input1))
  then Err (Errorf ("unsupported workload kind " +:+ Quote (ri_Kind input1)))
  else
  let input2 := applyKindDefaults input1 in
  match checkRuntimeInput input2 with
  | Some e => Err e
  | None => Ok input2
  end.

Definition is_running (workloadID : string) (r : runRecord) : bool :=
  bool_decide (run_WorkloadID r = workloadID) && bool_decide (run_Status r = RunStatusRunning).

Definition run_id (n : Z) : string := "run-" +:+ pretty n.

Definition StartWithRuntimeInput `{MapIter, RunEnv} (s : Simulator) (now : Time)
    (input0 : RuntimeInput) : Simulator * Result string :=
  match prepareInput input0 with
  | Err e => (s, Err e)
  | Ok input =>
  match sim_allocations s !! ri_WorkloadID input with
  | None => (s, Err (Errorf ("workload " +:+ Quote (ri_WorkloadID input)
                             +:+ " has no allocation; call Allocate first")))
  | Some allocation =>
  if decide (length (a_DeviceIDs allocation) = 0%nat)
  then (s, Err (Errorf ("workload " +:+ Quote (ri_WorkloadID input)
                        +:+ " allocation has no devices")))
  else
  match head (filter (λ r, is_running (ri_WorkloadID input) r = true) (map_iter (sim_runs s)).*2) with
  | Some r => (s, Err (Errorf ("workload " +:+ Quote (ri_WorkloadID input)
                               +:+ " already has a running run (" +:+ run_RunID r +:+ ")")))
  | None =>
  match estimateDuration input (Z.of_nat (length (a_DeviceIDs allocation))) with
  | Err e => (s, Err e)
  | Ok duration =>
      let next := sim_nextRunID s [+] 1 in
      let runID := run_id next in
      let record := {| run_RunID := runID; run_WorkloadID := ri_WorkloadID input;
                       run_Profile := ri_Profile input; run_Tokens := ri_Tokens input;
                       run_Runtime := input; run_StartedAt := now; run_EndsAt := now + duration;
                       run_Status := RunStatusRunning |} in
      ({| sim_pools := sim_pools s; sim_allocations := sim_allocations s;
          sim_runs := <[runID := record]> (sim_runs s); sim_nextRunID := next |}, Ok runID)
  end end end end.

Definition Start `{MapIter, RunEnv} (s : Simulator) (now : Time) (workloadID : string) (tokens : Z)
    (profile : string) : Simulator * Result string :=
  StartWithRuntimeInput s now
    {| ri_WorkloadID := workloadID; ri_Tokens := tokens; ri_Profile := profile;
       ri_Kind := WorkloadKindTraining; ri_Training := None; ri_Inference := None; ri_Eval := None;
       ri_FineTune := None; ri_RLHF := None; ri_Embedding := None; ri_DataPreprocess := None;
       ri_Distillation := None; ri_Jitter := None |}.

(** The lazy completion both status reads apply to the record they found under [key]. *)
Definition refreshRun (s : Simulator) (now : Time) (key : string) (run : runRecord)
    : Simulator * RunStatus :=
  if bool_decide (run_Status run = RunStatusRunning) && negb (Before now (run_EndsAt run))
  then (with_runs s (<[key := with_status run RunStatusSucceeded]> (sim_runs s)),
        RunStatusSucceeded)
  else (s, run_Status run).

Definition GetStatus (s : Simulator) (now : Time) (runID : string) : Simulator * Result RunStatus :=
  if decide (runID = "") then (s, Err (Errorf "runID is required"))
  else match sim_runs s !! runID with
  | None => (s, Err (Errorf ("run " +:+ Quote runID +:+ " not found")))
  | Some run => let '(s', st) := refreshRun s now runID run in (s', Ok st)
  end.

(** The loop that keeps the record with the latest start; the first of equal ones stays. *)
Definition later (workloadID : string) (latest : option (string * runRecord))
    (e : string * runRecord) : option (string * runRecord) :=
  if decide (run_WorkloadID e.2 ≠ workloadID) then latest
  else match latest with
       | None => Some e
       | Some l => if After (run_StartedAt e.2) (run_StartedAt l.2) then Some e else latest
       end.

Definition GetLatestRunStatusForWorkload `{MapIter} (s : Simulator) (now : Time)
    (workloadID : string) : Simulator * Result RunStatus :=
  if decide (workloadID = "") then (s, Err (Errorf "workloadID is required"))
  else match foldl (later workloadID) None (map_iter (sim_runs s)) with
  | None => (s, Err (Errorf ("run for workload " +:+ Quote workloadID +:+ " not found")))
  | Some (key, run) => let '(s', st) := refreshRun s now key run in (s', Ok st)
  end.

Definition Preempt `{MapIter} (s : Simulator) (workloadID : string) : Simulator * option error :=
  if decide (workloadID = "") then (s, Some (Errorf "workloadID is required"))
  else match head (filter (λ e, is_running workloadID e.2 = true) (map_iter (sim_runs s))) with
  | None => (s, None)
  | Some (key, run) =>
      (with_runs s (<[key := with_status run RunStatusPreempted]> (sim_runs s)), None)
  end.

(** ** Usage *)

Definition usageOf (total allocated : Z) : FleetUsageSnapshot :=
  {| fu_TotalDevices := total; fu_AllocatedDevices := allocated;
     fu_AvailableDevices := total - allocated;
     fu_Utilization := if 0 <? total then (of_int allocated / of_int total)%F else fzero |}.

Definition deviceCount (nodes : list Node) : Z :=
  Zsum (λ n, Z.of_nat (length (n_Devices n))) nodes.

Definition FleetUsage `{MapIter} (s : Simulator) : FleetUsageSnapshot :=
  usageOf (deviceCount (allNodes s))
          (Zsum (λ a, Z.of_nat (length (a_DeviceIDs a))) (map_iter (sim_allocations s)).*2).

(** [strings.Count(id, "/")] *)
Definition slashes (id : string) : nat :=
  length (filter (λ c, c = Ascii.ascii_of_nat 47) (bytes id)).

Definition inPool (poolKey id : string) : bool :=
  if decide (poolKey = DefaultPoolKey) then (slashes id =? 1)%nat
  else HasPrefix id (poolKey +:+ "/").

Definition zeroUsage : FleetUsageSnapshot :=
  {| fu_TotalDevices := 0; fu_AllocatedDevices := 0; fu_AvailableDevices := 0;
     fu_Utilization := fzero |}.

Definition FleetUsageForPool `{MapIter} (s : Simulator) (poolKey : string)
    : FleetUsageSnapshot * bool :=
  match sim_pools s !! poolKey with
  | None => (zeroUsage, false)
  | Some nodes =>
      if decide (length nodes = 0%nat) then (zeroUsage, true)
      else
        let allocated :=
          Zsum (λ a, Z.of_nat (length (filter (λ id, inPool poolKey id = true) (a_DeviceIDs a))))
               (map_iter (sim_allocations s)).*2 in
        (usageOf (deviceCount nodes) allocated, true)
  end.

(** ** Device ids *)

Lemma no_slash_app s t : slash ∉ bytes s → slash ∉ bytes t → slash ∉ bytes (s +:+ t).
Proof. rewrite bytes_app, elem_of_app. tauto. Qed.

Lemma gpu_no_slash j : slash ∉ bytes ("gpu-" +:+ pretty (j : nat)).
Proof. apply no_slash_app; [by vm_compute; set_solver|apply pretty_nat_no_slash]. Qed.

Lemma node_no_slash i : slash ∉ bytes ("node-" +:+ pretty (i : nat)).
Proof. apply no_slash_app; [by vm_compute; set_solver|apply pretty_nat_no_slash]. Qed.

Lemma node_id_inj k1 k2 i1 i2 :
  k1 ≠ "" → k2 ≠ "" → node_id k1 i1 = node_id k2 i2 → k1 = k2 ∧ i1 = i2.
Proof.
  intros Hk1 Hk2. unfold node_id, poolPrefix.
  destruct (decide (k1 ≠ "" ∧ _)) as [Hd1|Hd1], (decide (k2 ≠ "" ∧ _)) as [Hd2|Hd2].
  - rewrite !append_assoc. intros He.
    apply last_slash_inj in He as [-> He]; [|apply node_no_slash..].
    by apply append_inj, (inj pretty) in He as ->.
  - intros He. destruct (node_no_slash i2). change ("" +:+ ?x) with x in He. rewrite <- He.
    rewrite !bytes_app. set_solver.
  - intros He. destruct (node_no_slash i1). change ("" +:+ ?x) with x in He. rewrite He.
    rewrite !bytes_app. set_solver.
  - intros He. apply append_inj, append_inj, (inj pretty) in He as ->. split; [|done].
    destruct (decide (k1 = DefaultPoolKey)) as [->|]; [|tauto].
    by destruct (decide (k2 = DefaultPoolKey)) as [->|]; [|tauto].
Qed.

(** Device ids are unique over all pools, nodes and positions. *)
Lemma device_id_inj k1 k2 i1 i2 j1 j2 :
  k1 ≠ "" → k2 ≠ "" → device_id k1 i1 j1 = device_id k2 i2 j2 → k1 = k2 ∧ i1 = i2 ∧ j1 = j2.
Proof.
  intros Hk1 Hk2. unfold device_id. intros He.
  change ("/gpu-" +:+ pretty j1) with ("/" +:+ "gpu-" +:+ pretty j1) in He.
  change ("/gpu-" +:+ pretty j2) with ("/" +:+ "gpu-" +:+ pretty j2) in He.
  apply last_slash_inj in He as [He Hj]; [|apply gpu_no_slash..].
  apply node_id_inj in He as [-> ->]; [|done..].
  by apply append_inj, (inj pretty) in Hj as ->.
Qed.

(** ** The invariant *)

(** All device ids of some nodes, and all ids held by allocations. *)
Definition node_ids (nodes : list Node) : list string := nodes ≫= λ n, d_ID <$> n_Devices n.
Definition allocated_ids (s : Simulator) : list string :=
  (map_to_list (sim_allocations s)).*2 ≫= a_DeviceIDs.

Definition wf_pool (key : string) (nodes : list Node) : Prop :=
  key ≠ "" ∧ ∃ spec, buildNodesWithPoolKey spec key = Ok nodes.
Definition wf_alloc (w : string) (a : Allocation) : Prop :=
  w ≠ "" ∧ a_WorkloadID a = w ∧ a_DeviceIDs a ≠ [].
Definition live_status (st : RunStatus) : Prop :=
  st ∈ [RunStatusRunning; RunStatusSucceeded; RunStatusPreempted].
Definition wf_run (next : Z) (id : string) (r : runRecord) : Prop :=
  run_RunID r = id ∧ (∃ k, 1 ≤ k ≤ next ∧ id = run_id k) ∧ live_status (run_Status r).

Record sim_wf (s : Simulator) : Prop := {
  wf_pools : map_Forall wf_pool (sim_pools s);
  wf_allocs : map_Forall wf_alloc (sim_allocations s);
  wf_disjoint : NoDup (allocated_ids s);
  wf_runs : map_Forall (wf_run (sim_nextRunID s)) (sim_runs s);
  wf_unique : ∀ id1 id2 r1 r2,
    sim_runs s !! id1 = Some r1 → sim_runs s !! id2 = Some r2 →
    run_WorkloadID r1 = run_WorkloadID r2 →
    run_Status r1 = RunStatusRunning → run_Status r2 = RunStatusRunning → id1 = id2;
  wf_next : 0 ≤ sim_nextRunID s;
}.

(** *** Ids of the registered nodes *)

Lemma build_ids spec key nodes :
  buildNodesWithPoolKey spec key = Ok nodes →
  node_ids nodes =
    seq 0 (Z.to_nat (sp_NodeCount spec)) ≫=
      λ i, device_id key i <$> seq 0 (Z.to_nat (sp_DevicesPerNode spec)).
Proof.
  unfold buildNodesWithPoolKey. do 3 (case_match; [done|]). intros [= <-].
  unfold node_ids. rewrite list_bind_fmap. apply list_bind_ext; [|done]. intros i.
  simpl. by rewrite <- list_fmap_compose.
Qed.

Lemma build_ids_elem spec key nodes id :
  buildNodesWithPoolKey spec key = Ok nodes → id ∈ node_ids nodes →
  ∃ i j, id = device_id key i j.
Proof.
  intros ->%build_ids (i & (j & -> & _)%list_elem_of_fmap & _)%list_elem_of_bind. eauto.
Qed.

Lemma build_ids_NoDup spec key nodes :
  key ≠ "" → buildNodesWithPoolKey spec key = Ok nodes → NoDup (node_ids nodes).
Proof.
  intros Hk ->%build_ids. apply NoDup_bind.
  - intros i1 i2 id _ _ (j1 & -> & _)%list_elem_of_fmap (j2 & He & _)%list_elem_of_fmap.
    by apply device_id_inj in He as (_ & -> & _).
  - intros i _. apply NoDup_fmap_2; [|apply NoDup_seq].
    intros j1 j2 He. by apply device_id_inj in He as (_ & _ & ->).
  - apply NoDup_seq.
Qed.

Lemma node_ids_concat (l : list (string * list Node)) :
  node_ids (concat l.*2) = l ≫= λ e, node_ids e.2.
Proof.
  unfold node_ids. induction l as [|[k ns] l IH]; [done|].
  rewrite fmap_cons. csimpl. by rewrite bind_app, IH.
Qed.

Lemma allNodes_NoDup `{MapIter} s : sim_wf s → NoDup (node_ids (allNodes s)).
Proof.
  intros [Hp _ _ _ _ _]. unfold allNodes. rewrite node_ids_concat, map_iter_perm.
  apply NoDup_bind.
  - intros [k1 n1] [k2 n2] id H1%elem_of_map_to_list H2%elem_of_map_to_list; simpl.
    destruct (Hp k1 n1 H1) as (Hk1 & spec1 & Hb1), (Hp k2 n2 H2) as (Hk2 & spec2 & Hb2).
    intros (i1 & j1 & ->)%(build_ids_elem _ _ _ _ Hb1) (i2 & j2 & He)%(build_ids_elem _ _ _ _ Hb2).
    apply device_id_inj in He as (-> & _ & _); [|done..]. by simplify_eq.
  - intros [k ns] Hk%elem_of_map_to_list; simpl. destruct (Hp k ns Hk) as (? & spec & ?).
    by eapply build_ids_NoDup.
  - apply NoDup_map_to_list.
Qed.

(** *** What an allocation gets *)

Lemma eligible_sublist nodes used mem ty prof :
  ids_of (computeEligibleDevicesPerNode nodes used mem ty prof) `sublist_of` node_ids nodes.
Proof.
  unfold ids_of, node_ids, computeEligibleDevicesPerNode. rewrite list_bind_fmap.
  induction nodes as [|n nodes IH]; csimpl; [done|]. apply sublist_app; [|done].
  simpl. apply (sublist_fmap d_ID), sublist_filter.
Qed.

(** A device that may be given to a request. *)
Definition eligible (used : gset string) (mem : Z) (ty prof : string) (d : Device) : Prop :=
  d_ID d ∉ used ∧ mem ≤ d_MemoryMiB d ∧ (ty ≠ "" → d_DeviceType d = ty) ∧
  (prof ≠ "" → d_Profile d = prof).

Lemma deviceEligible_spec used mem ty prof d :
  deviceEligible used mem ty prof d = true ↔ eligible used mem ty prof d.
Proof.
  unfold deviceEligible, eligible.
  case_decide; [naive_solver|]. destruct (d_MemoryMiB d <? mem) eqn:?; [split; [done|lia]|].
  destruct (bool_decide (ty ≠ "") && bool_decide (d_DeviceType d ≠ ty)) eqn:E1.
  { apply andb_true_iff in E1 as [?%bool_decide_eq_true_1 ?%bool_decide_eq_true_1]. naive_solver. }
  destruct (bool_decide (prof ≠ "") && bool_decide (d_Profile d ≠ prof)) eqn:E2.
  { apply andb_true_iff in E2 as [?%bool_decide_eq_true_1 ?%bool_decide_eq_true_1]. naive_solver. }
  split; [|done]. intros _. rewrite andb_false_iff, !bool_decide_eq_false in E1, E2.
  split_and!; [done|lia| |]; intros ?; apply dec_stable; tauto.
Qed.

Lemma eligible_elem nodes used mem ty prof id :
  id ∈ ids_of (computeEligibleDevicesPerNode nodes used mem ty prof) ↔
  ∃ n d, n ∈ nodes ∧ d ∈ n_Devices n ∧ d_ID d = id ∧ eligible used mem ty prof d.
Proof.
  unfold ids_of, computeEligibleDevicesPerNode. rewrite list_bind_fmap, list_elem_of_bind.
  simpl. setoid_rewrite list_elem_of_fmap. setoid_rewrite list_elem_of_filter.
  setoid_rewrite deviceEligible_spec. naive_solver.
Qed.

(** The devices free for a request. *)
Definition free_for `{MapIter} (s : Simulator) (mem : Z) (opts : AllocationOptions) : list string :=
  ids_of (computeEligibleDevicesPerNode (allNodes s) (usedDevices s) mem
            (o_PreferredDeviceType opts) (o_PreferredProfile opts)).

Lemma free_for_NoDup `{MapIter} s mem opts : sim_wf s → NoDup (free_for s mem opts).
Proof. intros Hwf. eapply sublist_NoDup; [by apply allNodes_NoDup|apply eligible_sublist]. Qed.

Lemma usedDevices_elem `{MapIter} s id : id ∈ usedDevices s ↔ id ∈ allocated_ids s.
Proof. unfold usedDevices, allocated_ids. by rewrite elem_of_list_to_set, map_iter_perm. Qed.

Lemma free_for_not_used `{MapIter} s mem opts id :
  id ∈ free_for s mem opts → id ∉ allocated_ids s.
Proof.
  unfold free_for. rewrite eligible_elem. intros (n & d & _ & _ & <- & [Hu _]).
  by rewrite usedDevices_elem in Hu.
Qed.

Lemma allocated_insert s w a :
  sim_allocations s !! w = None →
  allocated_ids (with_allocations s (<[w := a]> (sim_allocations s))) ≡ₚ
  a_DeviceIDs a ++ allocated_ids s.
Proof. intros Hw. unfold allocated_ids; simpl. by rewrite map_to_list_insert. Qed.

Definition policy_of (opts : AllocationOptions) : string :=
  if decide (o_PlacementPolicy opts = "") then PlacementPolicyFirstFit else o_PlacementPolicy opts.

(** The two outcomes of an allocation. *)
Lemma AllocateWithOptions_inv `{MapIter} s w g m opts s' r :
  AllocateWithOptions s w g m opts = (s', r) →
  match r with
  | Err _ => s' = s
  | Ok a => w ≠ "" ∧ 0 < g ∧ 0 < m ∧ sim_allocations s !! w = None ∧ a_WorkloadID a = w ∧
      s' = with_allocations s (<[w := a]> (sim_allocations s)) ∧
      Z.of_nat (length (a_DeviceIDs a)) = g ∧ a_DeviceIDs a ⊆+ free_for s m opts
  end.
Proof.
  unfold AllocateWithOptions.
  case_decide; [by intros [= <- <-]|]. destruct (g <=? 0) eqn:Hg; [by intros [= <- <-]|].
  destruct (m <=? 0) eqn:Hm; [by intros [= <- <-]|]. case_decide as Hw; [by intros [= <- <-]|].
  case_decide; [by intros [= <- <-]|]. case_match; [by intros [= <- <-]|].
  destruct (pickDevices _ _ _ _ _) as [ids|e] eqn:Hp; [|by intros [= <- <-]].
  destruct (_ <? g) eqn:Hl; [by intros [= <- <-]|]. intros [= <- <-].
  apply pickDevices_placed in Hp as (Hle & sub & Hsub & Hids & _); [|lia].
  split_and!; try done; [lia|lia|by apply eq_None_not_Some|simpl; lia|].
  simpl. etransitivity; [exact Hids|]. by apply ids_of_submseteq.
Qed.

Lemma Allocate_preserves `{MapIter} s w g m opts s' r :
  sim_wf s → AllocateWithOptions s w g m opts = (s', r) → sim_wf s'.
Proof.
  intros Hwf Ha%AllocateWithOptions_inv. destruct r as [a|e]; [|by subst].
  destruct Ha as (Hw & Hg & _ & Hnone & Haw & -> & Hlen & Hsub).
  pose proof (free_for_NoDup s m opts Hwf) as Hnd. pose proof Hwf as [].
  constructor; try done; simpl.
  - apply map_Forall_insert_2; [|done]. split_and!; try done.
    intros He. rewrite He in Hlen. simpl in Hlen. lia.
  - rewrite allocated_insert by done. apply NoDup_app. split_and!; [| |done].
    + by eapply submseteq_NoDup.
    + intros id Hid. eapply free_for_not_used, elem_of_submseteq; done.
Qed.

Lemma Release_inv s w s' r :
  Release s w = (s', r) →
  s' = s ∨ s' = with_allocations s (delete w (sim_allocations s)).
Proof. unfold Release. case_decide; intros [= <- <-]; auto. Qed.

Lemma allocated_delete s w :
  allocated_ids (with_allocations s (delete w (sim_allocations s))) ⊆+ allocated_ids s.
Proof.
  unfold allocated_ids; simpl. destruct (sim_allocations s !! w) as [a|] eqn:Hw.
  - rewrite <- (map_to_list_delete (sim_allocations s) w a Hw). csimpl.
    by apply submseteq_inserts_l.
  - by rewrite delete_id.
Qed.

Lemma Release_preserves s w s' r : sim_wf s → Release s w = (s', r) → sim_wf s'.
Proof.
  intros Hwf [->| ->]%Release_inv; [done|]. destruct Hwf. constructor; try done; simpl.
  - by apply map_Forall_delete.
  - eapply submseteq_NoDup; [apply allocated_delete|done].
Qed.

Lemma RegisterFleet_preserves s k spec s' r : sim_wf s → RegisterFleet s k spec = (s', r) → sim_wf s'.
Proof.
  unfold RegisterFleet. intros Hwf.
  destruct (buildNodesWithPoolKey _ _) as [nodes|e] eqn:Hb; intros [= <- <-]; [|done].
  destruct Hwf. constructor; try done; simpl. apply map_Forall_insert_2; [|done].
  split; [|by exists spec]. by case_decide.
Qed.

Lemma DeleteFleet_preserves s k : sim_wf s → sim_wf (DeleteFleet s k).
Proof.
  unfold DeleteFleet. intros Hwf. case_decide; [done|]. destruct Hwf.
  constructor; try done; simpl. by apply map_Forall_delete.
Qed.

(** *** Runs *)

(** Replacing the status of a record by a final one. *)
Lemma set_status_preserves s key r st :
  sim_wf s → sim_runs s !! key = Some r → live_status st → st ≠ RunStatusRunning →
  sim_wf (with_runs s (<[key := with_status r st]> (sim_runs s))).
Proof.
  intros Hwf Hk Hst Hne. destruct Hwf as [? ? ? Hr Hu ?]. constructor; try done; simpl.
  - apply map_Forall_insert_2; [|done]. destruct (Hr key r Hk) as (? & ? & _). done.
  - intros id1 id2 r1 r2. rewrite !lookup_insert_Some.
    intros [[<- <-]|[? ?]] [[<- <-]|[? ?]]; simpl; try done. by eapply Hu.
Qed.

Lemma refreshRun_preserves s now key r s' st :
  sim_wf s → sim_runs s !! key = Some r → refreshRun s now key r = (s', st) → sim_wf s'.
Proof.
  unfold refreshRun. intros Hwf Hk. case_match; intros [= <- <-]; [|done].
  apply set_status_preserves; try done. unfold live_status. set_solver.
Qed.

Lemma GetStatus_preserves s now id s' r : sim_wf s → GetStatus s now id = (s', r) → sim_wf s'.
Proof.
  unfold GetStatus. intros Hwf. case_decide; [by intros [= <- <-]|].
  destruct (sim_runs s !! id) as [run|] eqn:Hr; [|by intros [= <- <-]].
  destruct (refreshRun _ _ _ _) as [s1 st] eqn:Hf. intros [= <- <-]. by eapply refreshRun_preserves.
Qed.

(** The record found by [GetLatestRunStatusForWorkload] is one of the workload, and none of the
    workload started later. *)
Lemma later_spec w (l : list (string * runRecord)) acc :
  (∀ e, acc = Some e → run_WorkloadID e.2 = w) →
  match foldl (later w) acc l with
  | None => acc = None ∧ ∀ e, e ∈ l → run_WorkloadID e.2 ≠ w
  | Some e => (acc = Some e ∨ e ∈ l) ∧ run_WorkloadID e.2 = w ∧
      (∀ e', acc = Some e' → run_StartedAt e'.2 ≤ run_StartedAt e.2) ∧
      (∀ e', e' ∈ l → run_WorkloadID e'.2 = w → run_StartedAt e'.2 ≤ run_StartedAt e.2)
  end.
Proof.
  revert acc; induction l as [|x l IH]; intros acc Hacc; simpl.
  { destruct acc as [e|]; [|split; [done|by intros ? ?%elem_of_nil]].
    split_and!; [by left|by apply Hacc|by intros ? [= <-]|by intros ? ?%elem_of_nil]. }
  assert (Hx : ∀ e, later w acc x = Some e → run_WorkloadID e.2 = w).
  { unfold later. intros e. case_decide as Hd; [apply Hacc|].
    destruct acc as [a|]; [|by intros [= <-]]. case_match; [by intros [= <-]|apply Hacc]. }
  specialize (IH (later w acc x) Hx).
  destruct (foldl _ _ l) as [e|].
  - destruct IH as (H1 & H2 & H3 & H4). split_and!; [|done| |].
    + unfold later, After in H1. repeat case_match; simplify_eq; set_solver.
    + intros e' ->. unfold later, After in *. repeat case_match; simplify_eq;
        try (specialize (H3 _ eq_refl)); test_lia.
    + intros e' [->|He']%elem_of_cons Hw; [|by apply H4].
      unfold later, After in *. repeat case_match; simplify_eq;
        try (specialize (H3 _ eq_refl)); try done; test_lia.
  - destruct IH as [H1 H2]. unfold later in H1. 
    destruct acc; [repeat case_match; done|]. split; [done|].
    intros e [->|He]%elem_of_cons; [|by apply H2]. by case_decide.
Qed.

Lemma map_iter_lookup `{MapIter} {V} (m : gmap string V) k v :
  (k, v) ∈ map_iter m ↔ m !! k = Some v.
Proof. by rewrite map_iter_perm, elem_of_map_to_list. Qed.

Lemma GetLatest_record `{MapIter} s w key r :
  foldl (later w) None (map_iter (sim_runs s)) = Some (key, r) →
  sim_runs s !! key = Some r ∧ run_WorkloadID r = w ∧
  ∀ k' r', sim_runs s !! k' = Some r' → run_WorkloadID r' = w → run_StartedAt r' ≤ run_StartedAt r.
Proof.
  intros Hf. pose proof (later_spec w (map_iter (sim_runs s)) None ltac:(done)) as Hs.
  rewrite Hf in Hs. destruct Hs as ([?|Hin] & ? & _ & Hmax); [done|].
  split_and!; [by apply map_iter_lookup|done|].
  intros k' r' Hk'%map_iter_lookup Hw. by apply (Hmax (k', r')).
Qed.

Lemma GetLatest_preserves `{MapIter} s now w s' r :
  sim_wf s → GetLatestRunStatusForWorkload s now w = (s', r) → sim_wf s'.
Proof.
  unfold GetLatestRunStatusForWorkload. intros Hwf. case_decide; [by intros [= <- <-]|].
  destruct (foldl _ _ _) as [[key run]|] eqn:Hf; [|by intros [= <- <-]].
  destruct (refreshRun _ _ _ _) as [s1 st] eqn:Hr. intros [= <- <-].
  apply GetLatest_record in Hf as (? & _). by eapply refreshRun_preserves.
Qed.

Lemma is_running_spec w r :
  is_running w r = true ↔ run_WorkloadID r = w ∧ run_Status r = RunStatusRunning.
Proof. unfold is_running. by rewrite andb_true_iff, !bool_decide_eq_true. Qed.

(** The record [Preempt] stops, if any. *)
Lemma Preempt_record `{MapIter} s w :
  match head (filter (λ e, is_running w e.2 = true) (map_iter (sim_runs s))) with
  | Some (key, r) => sim_runs s !! key = Some r ∧ run_WorkloadID r = w ∧
                     run_Status r = RunStatusRunning
  | None => ∀ key r, sim_runs s !! key = Some r → run_WorkloadID r = w →
                     run_Status r ≠ RunStatusRunning
  end.
Proof.
  destruct (head _) as [[key r]|] eqn:Hh.
  - apply head_Some_elem_of, list_elem_of_filter in Hh as [Hr Hin]; simpl in Hr.
    apply is_running_spec in Hr as []. by rewrite map_iter_lookup in Hin.
  - intros key r Hk Hw Hst. apply head_None in Hh.
    assert (Hin : (key, r) ∈ filter (λ e, is_running w e.2 = true) (map_iter (sim_runs s))).
    { apply list_elem_of_filter. split; [by apply is_running_spec|by apply map_iter_lookup]. }
    rewrite Hh in Hin. by apply elem_of_nil in Hin.
Qed.

Lemma Preempt_preserves `{MapIter} s w s' r : sim_wf s → Preempt s w = (s', r) → sim_wf s'.
Proof.
  unfold Preempt. intros Hwf. case_decide; [by intros [= <- <-]|].
  pose proof (Preempt_record s w) as Hp. destruct (head _) as [[key run]|]; intros [= <- <-]; [|done].
  destruct Hp as (? & _ & _). apply set_status_preserves; try done. unfold live_status. set_solver.
Qed.

(** *** Start *)

Lemma run_id_inj n m : run_id n = run_id m → n = m.
Proof. unfold run_id. intros He%append_inj. by apply (inj pretty) in He. Qed.

Lemma run_id_fresh s : sim_wf s → sim_runs s !! run_id (sim_nextRunID s + 1) = None.
Proof.
  intros []. apply eq_None_not_Some. intros [r Hr].
  destruct (wf_runs0 _ _ Hr) as (_ & (k & Hk & He%run_id_inj) & _). lia.
Qed.

(** A started run: new id, Running, ending after the estimated duration. *)
Lemma StartWithRuntimeInput_inv `{MapIter, RunEnv} s now input s' r :
  StartWithRuntimeInput s now input = (s', r) →
  match r with
  | Err _ => s' = s
  | Ok id => ∃ input' a d,
      prepareInput input = Ok input' ∧ sim_allocations s !! ri_WorkloadID input' = Some a ∧
      a_DeviceIDs a ≠ [] ∧ estimateDuration input' (Z.of_nat (length (a_DeviceIDs a))) = Ok d ∧
      (∀ k r, sim_runs s !! k = Some r → run_WorkloadID r = ri_WorkloadID input' →
              run_Status r ≠ RunStatusRunning) ∧
      id = run_id (sim_nextRunID s [+] 1) ∧
      s' = {| sim_pools := sim_pools s; sim_allocations := sim_allocations s;
              sim_runs := <[id := {| run_RunID := id; run_WorkloadID := ri_WorkloadID input';
                                     run_Profile := ri_Profile input'; run_Tokens := ri_Tokens input';
                                     run_Runtime := input'; run_StartedAt := now;
                                     run_EndsAt := now + d; run_Status := RunStatusRunning |}]>
                            (sim_runs s);
              sim_nextRunID := sim_nextRunID s [+] 1 |}
  end.
Proof.
  unfold StartWithRuntimeInput.
  destruct (prepareInput input) as [input'|] eqn:Hp; [|by intros [= <- <-]].
  destruct (sim_allocations s !! _) as [a|] eqn:Ha; [|by intros [= <- <-]].
  case_decide as Hl; [by intros [= <- <-]|].
  destruct (head _) eqn:Hh; [by intros [= <- <-]|].
  destruct (estimateDuration _ _) as [d|] eqn:Hd; intros [= <- <-]; [|done].
  exists input', a, d. split_and!; try done; [by intros He; rewrite He in Hl|].
  intros k r0 Hk Hw Hst. apply head_None in Hh.
  assert (Hin : r0 ∈ filter (λ r, is_running (ri_WorkloadID input') r = true) (map_iter (sim_runs s)).*2).
  { apply list_elem_of_filter. split; [by apply is_running_spec|].
    apply list_elem_of_fmap. exists (k, r0). split; [done|by apply map_iter_lookup]. }
  rewrite Hh in Hin. by apply elem_of_nil in Hin.
Qed.

Lemma Start_preserves `{MapIter, RunEnv} s now input s' r :
  sim_nextRunID s < int64_max → sim_wf s →
  StartWithRuntimeInput s now input = (s', r) → sim_wf s'.
Proof.
  intros Hmax Hwf HS%StartWithRuntimeInput_inv. destruct r as [id|e]; [|by subst].
  destruct HS as (input' & a & d & _ & _ & _ & _ & Hno & -> & ->). pose proof Hwf as [].
  rewrite int64_add_id by int_lia. constructor; try done; simpl; [| |lia].
  - apply map_Forall_insert_2.
    + split_and!; [done| |unfold live_status; set_solver].
      exists (sim_nextRunID s + 1). split; [lia|done].
    + intros k r Hk. destruct (wf_runs0 k r Hk) as (? & (n & ? & ?) & ?).
      split_and!; try done. exists n. split; [lia|done].
  - intros id1 id2 r1 r2. rewrite !lookup_insert_Some.
    intros [[<- <-]|[_ Hr1]] [[<- <-]|[_ Hr2]]; simpl; intros Hw Hs1 Hs2; try done.
    + by destruct (Hno _ _ Hr2).
    + by destruct (Hno _ _ Hr1).
    + by eapply wf_unique0.
Qed.

(** What an allocation and a start leave: a run in progress, and one allocation more. *)
Lemma started_run `{MapIter, RunEnv} s s1 s2 id g m opts a now input runID r :
  sim_wf s → 0 ≤ sim_nextRunID s < int64_max →
  AllocateWithOptions s id g m opts = (s1, Ok a) →
  StartWithRuntimeInput s1 now input = (s2, Ok runID) → sim_runs s2 !! runID = Some r →
  ∃ q, runID = run_id q ∧ 0 ≤ q ∧ sim_wf s2 ∧ run_Status r = RunStatusRunning ∧
    sim_allocations s !! id = None ∧ delete id (sim_allocations s2) = sim_allocations s.
Proof.
  intros Hwf Hnext HA HS Hr. pose proof (Allocate_preserves _ _ _ _ _ _ _ Hwf HA) as Hwf1.
  apply AllocateWithOptions_inv in HA as (_ & _ & _ & Hn & _ & -> & _).
  assert (sim_wf s2) as Hwf2 by (eapply Start_preserves; [|exact Hwf1|exact HS]; simpl; lia).
  apply StartWithRuntimeInput_inv in HS as (input' & b & e & _ & _ & _ & _ & _ & -> & ->).
  exists (sim_nextRunID s [+] 1). simpl in Hr. rewrite lookup_insert_eq in Hr. injection Hr as <-.
  split_and!; [done| |done|done|done|].
  - rewrite int64_add_id; [lia|]. unfold in_int64, int64_min. lia.
  - simpl. by apply delete_insert_id.
Qed.

(** ** Steps *)

(** The calls a client can make, with the clock readings and the choices of the run-time system. *)
Inductive sim_step : Simulator → Simulator → Prop :=
| step_register s k spec s' r : RegisterFleet s k spec = (s', r) → sim_step s s'
| step_delete s k : sim_step s (DeleteFleet s k)
| step_allocate (I : MapIter) s w g m opts s' r :
    AllocateWithOptions s w g m opts = (s', r) → sim_step s s'
| step_start (I : MapIter) (R : RunEnv) s now input s' r :
    StartWithRuntimeInput s now input = (s', r) → sim_step s s'
| step_status s now id s' r : GetStatus s now id = (s', r) → sim_step s s'
| step_latest (I : MapIter) s now w s' r :
    GetLatestRunStatusForWorkload s now w = (s', r) → sim_step s s'
| step_preempt (I : MapIter) s w s' r : Preempt s w = (s', r) → sim_step s s'
| step_release s w s' r : Release s w = (s', r) → sim_step s s'.

(** The states reachable in [n] steps; no more than [2^63 - 1] of them are considered, so that the
    counter of runs does not wrap. *)
Inductive sim_reach : nat → Simulator → Prop :=
| reach_new : sim_reach 0 NewSimulator
| reach_step n s s' : sim_reach n s → sim_step s s' → Z.of_nat n < int64_max → sim_reach (S n) s'.

Lemma sim_step_next s s' :
  sim_step s s' → 0 ≤ sim_nextRunID s → sim_nextRunID s < int64_max →
  sim_nextRunID s ≤ sim_nextRunID s' ≤ sim_nextRunID s + 1.
Proof.
  destruct 1; intros H0 Hm.
  - unfold RegisterFleet in *. case_match; simplify_eq; simpl; lia.
  - unfold DeleteFleet. case_decide; simpl; lia.
  - apply AllocateWithOptions_inv in H. destruct r; [|subst; lia].
    destruct H as (_ & _ & _ & _ & _ & -> & _). simpl. lia.
  - apply StartWithRuntimeInput_inv in H. destruct r; [|subst; lia].
    destruct H as (? & ? & ? & _ & _ & _ & _ & _ & _ & ->). simpl.
    rewrite int64_add_id by int_lia. lia.
  - unfold GetStatus, refreshRun in *. repeat case_match; simplify_eq; simpl; lia.
  - unfold GetLatestRunStatusForWorkload, refreshRun in *. repeat case_match; simplify_eq; simpl; lia.
  - unfold Preempt in *. repeat case_match; simplify_eq; simpl; lia.
  - apply Release_inv in H as [->| ->]; simpl; lia.
Qed.

Lemma sim_step_preserves s s' :
  sim_nextRunID s < int64_max → sim_wf s → sim_step s s' → sim_wf s'.
Proof.
  intros Hm Hwf. destruct 1.
  - by eapply RegisterFleet_preserves.
  - by apply DeleteFleet_preserves.
  - by eapply Allocate_preserves.
  - by eapply Start_preserves.
  - by eapply GetStatus_preserves.
  - by eapply GetLatest_preserves.
  - by eapply Preempt_preserves.
  - by eapply Release_preserves.
Qed.

Lemma NewSimulator_wf : sim_wf NewSimulator.
Proof. constructor; try done; unfold allocated_ids; simpl; try apply map_Forall_empty. constructor. Qed.

Lemma sim_reach_wf n s : sim_reach n s → sim_wf s ∧ sim_nextRunID s ≤ Z.of_nat n.
Proof.
  induction 1 as [|n s s' _ [Hwf Hn] Hs Hmax]; [split; [apply NewSimulator_wf|simpl; lia]|].
  pose proof (wf_next s Hwf). pose proof (sim_step_next s s' Hs ltac:(lia) ltac:(lia)).
  split; [|lia]. eapply sim_step_preserves; [|done|done]. lia.
Qed.

(** ** Life cycle of a run *)

(** A record changes only its status, and only from Running to Succeeded or Preempted. *)
Definition run_evolves (r r' : runRecord) : Prop :=
  r' = r ∨ (run_Status r = RunStatusRunning ∧
            (r' = with_status r RunStatusSucceeded ∨ r' = with_status r RunStatusPreempted)).

Lemma refreshRun_evolves s now key run s' st id r :
  sim_runs s !! key = Some run → refreshRun s now key run = (s', st) →
  sim_runs s !! id = Some r → ∃ r', sim_runs s' !! id = Some r' ∧ run_evolves r r'.
Proof.
  unfold refreshRun. intros Hk. destruct (_ && _) eqn:E; intros [= <- <-] Hid.
  2:{ exists r. split; [done|by left]. }
  apply andb_true_iff in E as [E%bool_decide_eq_true_1 _]. simpl.
  destruct (decide (key = id)) as [->|Hne].
  - rewrite lookup_insert_eq. eexists; split; [done|]. right. simplify_eq. auto.
  - rewrite lookup_insert_ne by done. exists r. split; [done|by left].
Qed.

Lemma sim_step_runs s s' id r :
  sim_wf s → sim_nextRunID s < int64_max → sim_step s s' → sim_runs s !! id = Some r →
  ∃ r', sim_runs s' !! id = Some r' ∧ run_evolves r r'.
Proof.
  intros Hwf Hm Hs Hid.
  assert (Hsame : sim_runs s' = sim_runs s → ∃ r', sim_runs s' !! id = Some r' ∧ run_evolves r r').
  { intros ->. exists r. split; [done|by left]. }
  destruct Hs as [s k spec s' e Hop|s k|I s w g m opts s' e Hop|I R s now input s' e Hop
    |s now i s' e Hop|I s now w s' e Hop|I s w s' e Hop|s w s' e Hop].
  - apply Hsame. unfold RegisterFleet in Hop. by case_match; simplify_eq.
  - apply Hsame. unfold DeleteFleet. by case_decide.
  - apply Hsame. apply AllocateWithOptions_inv in Hop. destruct e; [|by subst].
    by destruct Hop as (_ & _ & _ & _ & _ & -> & _).
  - apply StartWithRuntimeInput_inv in Hop. destruct e as [nid|]; [|apply Hsame; by subst].
    destruct Hop as (input' & a & d & _ & _ & _ & _ & _ & -> & ->). simpl.
    exists r. split; [|by left]. rewrite lookup_insert_ne; [done|]. intros He.
    pose proof (wf_next s Hwf). rewrite int64_add_id in He by int_lia.
    rewrite <- He in Hid. by rewrite (run_id_fresh s Hwf) in Hid.
  - unfold GetStatus in Hop. case_decide; [simplify_eq; auto|].
    destruct (sim_runs s !! i) as [run|] eqn:Hi; [|simplify_eq; auto].
    destruct (refreshRun _ _ _ _) as [s1 st] eqn:Hf. simplify_eq.
    exact (refreshRun_evolves _ _ _ _ _ _ _ _ Hi Hf Hid).
  - unfold GetLatestRunStatusForWorkload in Hop. case_decide; [simplify_eq; auto|].
    destruct (foldl _ _ _) as [[key run]|] eqn:Hl; [|simplify_eq; auto].
    destruct (refreshRun _ _ _ _) as [s1 st] eqn:Hf. simplify_eq.
    apply GetLatest_record in Hl as [Hl _].
    exact (refreshRun_evolves _ _ _ _ _ _ _ _ Hl Hf Hid).
  - unfold Preempt in Hop. case_decide; [simplify_eq; auto|].
    pose proof (Preempt_record s w) as Hp. destruct (head _) as [[key run]|]; [|simplify_eq; auto].
    destruct Hp as (Hk & _ & Hst). simplify_eq; simpl. destruct (decide (key = id)) as [->|Hne].
    + rewrite lookup_insert_eq. eexists; split; [done|]. right. simplify_eq. auto.
    + rewrite lookup_insert_ne by done. exists r. split; [done|by left].
  - apply Hsame. by apply Release_inv in Hop as [->| ->].
Qed.

(** ** Properties *)

(** In a well-formed simulator the devices of one allocation are distinct and no two workloads share
    one. *)
Lemma allocations_disjoint s :
  sim_wf s →
  (∀ w a, sim_allocations s !! w = Some a → NoDup (a_DeviceIDs a)) ∧
  (∀ w1 w2 a1 a2 id, sim_allocations s !! w1 = Some a1 → sim_allocations s !! w2 = Some a2 →
     id ∈ a_DeviceIDs a1 → id ∈ a_DeviceIDs a2 → w1 = w2).
Proof.
  intros Hwf. pose proof (wf_disjoint s Hwf) as Hnd.
  assert (Hsplit : ∀ w a, sim_allocations s !! w = Some a →
    allocated_ids s ≡ₚ a_DeviceIDs a ++
      ((map_to_list (delete w (sim_allocations s))).*2 ≫= a_DeviceIDs)).
  { intros w a Hw. unfold allocated_ids. by rewrite <- (map_to_list_delete _ w a Hw). }
  split.
  - intros w a Hw. rewrite (Hsplit w a Hw), NoDup_app in Hnd. tauto.
  - intros w1 w2 a1 a2 id H1 H2 Hi1 Hi2. destruct (decide (w1 = w2)) as [|Hne]; [done|exfalso].
    rewrite (Hsplit w1 a1 H1), NoDup_app in Hnd. destruct Hnd as (_ & Hd & _).
    apply (Hd id Hi1). apply list_elem_of_bind. exists a2. split; [done|].
    apply list_elem_of_fmap. exists (w2, a2). split; [done|].
    apply elem_of_map_to_list. by rewrite lookup_delete_ne.
Qed.

(** C1: no device is ever allocated twice: in every reachable state the devices of one allocation
    are distinct, and two workloads never share one, whatever fleets are registered, resized or
    deleted in between. *)
Theorem no_double_allocation (n : nat) (s : Simulator) :
  sim_reach n s →
  (∀ w a, sim_allocations s !! w = Some a → NoDup (a_DeviceIDs a)) ∧
  (∀ w1 w2 a1 a2 id, sim_allocations s !! w1 = Some a1 → sim_allocations s !! w2 = Some a2 →
     id ∈ a_DeviceIDs a1 → id ∈ a_DeviceIDs a2 → w1 = w2).
Proof. intros [Hwf _]%sim_reach_wf. by apply allocations_disjoint. Qed.

(** *** What an allocation may hand out *)

(** The devices of all registered pools. *)
Definition all_devices (s : Simulator) : list Device :=
  (map_to_list (sim_pools s)).*2 ≫= λ nodes, nodes ≫= n_Devices.

(** A device that nobody holds, large enough, and of the type and the profile asked for, if any. *)
Definition fits_request (s : Simulator) (m : Z) (opts : AllocationOptions) (d : Device) : Prop :=
  d_ID d ∉ allocated_ids s ∧ m ≤ d_MemoryMiB d ∧
  (o_PreferredDeviceType opts = "" ∨ d_DeviceType d = o_PreferredDeviceType opts) ∧
  (o_PreferredProfile opts = "" ∨ d_Profile d = o_PreferredProfile opts).

#[export] Instance fits_request_dec s m opts d : Decision (fits_request s m opts d).
Proof. unfold fits_request. apply _. Defined.

Lemma eligible_fits `{MapIter} s m opts d :
  eligible (usedDevices s) m (o_PreferredDeviceType opts) (o_PreferredProfile opts) d ↔
  fits_request s m opts d.
Proof.
  unfold eligible, fits_request. rewrite usedDevices_elem.
  destruct (decide (o_PreferredDeviceType opts = "")), (decide (o_PreferredProfile opts = ""));
    naive_solver.
Qed.

Lemma eligible_filter `{MapIter} s m opts (l : list Device) :
  filter (λ d, deviceEligible (usedDevices s) m (o_PreferredDeviceType opts) (o_PreferredProfile opts) d
               = true) l = filter (fits_request s m opts) l.
Proof.
  apply list_filter_iff. intros d. rewrite deviceEligible_spec. apply eligible_fits.
Qed.

Lemma all_devices_perm `{MapIter} s : allNodes s ≫= n_Devices ≡ₚ all_devices s.
Proof.
  unfold allNodes, all_devices. rewrite <- (map_iter_perm (sim_pools s)).
  generalize (map_iter (sim_pools s)).*2 as l. induction l as [|ns l IH]; csimpl; [done|].
  by rewrite bind_app, IH.
Qed.

Lemma free_for_fits `{MapIter} s m opts :
  free_for s m opts ≡ₚ d_ID <$> filter (fits_request s m opts) (all_devices s).
Proof.
  rewrite <- (all_devices_perm s). unfold free_for, ids_of, computeEligibleDevicesPerNode.
  rewrite list_bind_fmap. induction (allNodes s) as [|n l IH]; csimpl; [done|].
  by rewrite filter_app, fmap_app, <- IH, eligible_filter.
Qed.

(** The devices a request can be served from: those of one node, or all of them. *)
Definition enough (s : Simulator) (g m : Z) (opts : AllocationOptions) : Prop :=
  if o_RequireSameNode opts
  then ∃ k nodes node, sim_pools s !! k = Some nodes ∧ node ∈ nodes ∧
         g ≤ Z.of_nat (length (filter (fits_request s m opts) (n_Devices node)))
  else knownPolicy (policy_of opts) ∧
       g ≤ Z.of_nat (length (filter (fits_request s m opts) (all_devices s))).

Lemma allNodes_elem `{MapIter} s node :
  node ∈ allNodes s ↔ ∃ k nodes, sim_pools s !! k = Some nodes ∧ node ∈ nodes.
Proof.
  unfold allNodes. rewrite list_elem_of_In, in_concat. setoid_rewrite <- list_elem_of_In.
  setoid_rewrite list_elem_of_fmap. setoid_rewrite map_iter_perm. split.
  - intros (l & ([k ns] & -> & Hk%elem_of_map_to_list) & Hn). eauto.
  - intros (k & ns & Hk%elem_of_map_to_list & Hn). exists ns. split; [by exists (k, ns)|done].
Qed.

(** Whether the placement finds [g] devices. *)
Lemma placement_enough `{MapIter} s g m opts :
  0 < g → 0 ≤ o_MaxNodes opts → (o_RequireSameNode opts = false → o_MaxNodes opts = 0) →
  (∃ ids, pickDevices (computeEligibleDevicesPerNode (allNodes s) (usedDevices s) m
     (o_PreferredDeviceType opts) (o_PreferredProfile opts)) g (policy_of opts)
     (o_RequireSameNode opts) (o_MaxNodes opts) = Ok ids ∧ g ≤ Z.of_nat (length ids)) ↔
  enough s g m opts.
Proof.
  intros Hg Hmax Hz. set (per := computeEligibleDevicesPerNode _ _ _ _ _). unfold enough.
  destruct (o_RequireSameNode opts) eqn:Hs.
  - assert (Hper : ∀ n, n ∈ per ↔ ∃ node, node ∈ allNodes s ∧ n = {| nd_nodeID := n_ID node;
      nd_deviceIDs := d_ID <$> filter (fits_request s m opts) (n_Devices node) |}).
    { intros n. unfold per, computeEligibleDevicesPerNode. rewrite list_elem_of_fmap.
      setoid_rewrite eligible_filter. naive_solver. }
    unfold pickDevices. pose proof (bestNode_spec g None per ltac:(done)) as Hb.
    destruct (bestNode g None per) as [n|]; split.
    + intros _. destruct Hb as ([?|Hn] & Hl & _); [done|]. apply Hper in Hn as (node & Hn & ->).
      apply allNodes_elem in Hn as (k & ns & ? & ?). simpl in Hl. rewrite length_fmap in Hl. eauto 6.
    + intros _. destruct Hb as (_ & Hl & _). eexists. split; [done|]. rewrite length_take. lia.
    + by intros (? & ? & _).
    + intros (k & ns & node & Hk & Hn & Hl). destruct Hb as [_ Hb]. exfalso.
      specialize (Hb _ (proj2 (Hper _) (ex_intro _ node (conj (proj2 (allNodes_elem s node)
        (ex_intro _ k (ex_intro _ ns (conj Hk Hn)))) eq_refl)))). simpl in Hb.
      rewrite length_fmap in Hb. lia.
  - rewrite (Hz eq_refl).
    assert (Hlen : length (ids_of per) = length (filter (fits_request s m opts) (all_devices s))).
    { pose proof (Permutation_length (free_for_fits s m opts)) as E. rewrite length_fmap in E. exact E. }
    split.
    + intros (ids & Hp & Hl). assert (Hk : knownPolicy (policy_of opts)).
      { revert Hp. unfold pickDevices, knownPolicy. repeat case_decide; set_solver. }
      split; [done|]. destruct (pickDevices_total per g (policy_of opts) Hg Hk) as (ids' & Hp' & Hl').
      rewrite Hp in Hp'. simplify_eq. lia.
    + intros [Hk Hl]. destruct (pickDevices_total per g (policy_of opts) Hg Hk) as (ids & -> & Hl').
      exists ids. split; [done|]. lia.
Qed.

Lemma allocation_succeeds `{MapIter} s w g m opts s' r :
  (o_RequireSameNode opts = false → o_MaxNodes opts ≤ 0) →
  AllocateWithOptions s w g m opts = (s', r) →
  (∃ a, r = Ok a) ↔
    w ≠ "" ∧ 0 < g ∧ 0 < m ∧ sim_allocations s !! w = None ∧ sim_pools s ≠ ∅ ∧
    0 ≤ o_MaxNodes opts ∧ enough s g m opts.
Proof.
  intros Hz. unfold AllocateWithOptions.
  destruct (decide (w = "")); [by intros [= <- <-]; split; [intros []|naive_solver]|].
  destruct (g <=? 0) eqn:?; [by intros [= <- <-]; split; [intros []|lia]|].
  destruct (m <=? 0) eqn:?; [by intros [= <- <-]; split; [intros []|lia]|].
  destruct (decide (is_Some (sim_allocations s !! w))) as [[a Ha]|Ha];
    [by intros [= <- <-]; split; [intros []|rewrite Ha; naive_solver]|].
  rewrite <- eq_None_not_Some in Ha. destruct (decide (size (sim_pools s) = 0%nat)) as [Hp|Hp];
    rewrite map_size_empty_iff in Hp; [by intros [= <- <-]; split; [intros []|naive_solver]|].
  destruct (o_MaxNodes opts <? 0) eqn:?; [by intros [= <- <-]; split; [intros []|lia]|].
  rewrite <- (placement_enough s g m opts) by (lia || (intros E; specialize (Hz E); lia)).
  fold (policy_of opts). destruct (pickDevices _ _ _ _ _) as [ids|e].
  2:{ intros [= <- <-]. split; [by intros []|]. by intros (_ & _ & _ & _ & _ & _ & ? & ? & _). }
  destruct (Z.of_nat (length ids) <? g) eqn:?; intros [= <- <-].
  - split; [by intros []|]. intros (_ & _ & _ & _ & _ & _ & ? & [= <-] & ?). lia.
  - split; [|by eauto]. intros _. split_and!; try done; try lia. exists ids. split; [done|lia].
Qed.

(** C18: when an allocation succeeds.  For requests that either ask for a single node or set no limit
    on the number of nodes, [AllocateWithOptions] succeeds exactly when the workload is named and holds
    nothing, the count and the memory are positive, a fleet is registered, the limit is not negative
    and enough devices fit, where a device fits when nobody holds it, it has the memory, and it is of
    the type and the profile asked for if any: with [RequireSameNode] one node must have them, without
    it the policy must be one of the four known ones and the whole fleet must have them.  A success
    hands out exactly the count asked for, distinct fitting devices, to this workload alone; a failure
    changes nothing.  (Limits on the number of nodes without [RequireSameNode] are not covered.) *)
Theorem allocation_exact `{MapIter} (n : nat) (s : Simulator) (w : string) (g m : Z)
    (opts : AllocationOptions) :
  sim_reach n s → (o_RequireSameNode opts = false → o_MaxNodes opts ≤ 0) →
  let '(s', r) := AllocateWithOptions s w g m opts in
  ((∃ a, r = Ok a) ↔
     w ≠ "" ∧ 0 < g ∧ 0 < m ∧ sim_allocations s !! w = None ∧ sim_pools s ≠ ∅ ∧
     0 ≤ o_MaxNodes opts ∧ enough s g m opts) ∧
  (∀ a, r = Ok a →
     s' = with_allocations s (<[w := a]> (sim_allocations s)) ∧ a_WorkloadID a = w ∧
     Z.of_nat (length (a_DeviceIDs a)) = g ∧ NoDup (a_DeviceIDs a) ∧
     ∀ id, id ∈ a_DeviceIDs a →
       ∃ d, d ∈ all_devices s ∧ d_ID d = id ∧ fits_request s m opts d) ∧
  (∀ e, r = Err e → s' = s).
Proof.
  intros [Hwf _]%sim_reach_wf Hz. destruct (AllocateWithOptions _ _ _ _ _) as [s' r] eqn:Ha.
  pose proof (AllocateWithOptions_inv _ _ _ _ _ _ _ Ha) as Hi. split_and!.
  - by eapply allocation_succeeds.
  - intros a ->. destruct Hi as (? & ? & ? & ? & ? & ? & ? & Hsub). split_and!; try done.
    + eapply submseteq_NoDup; [exact Hsub|by apply free_for_NoDup].
    + intros id Hid. eapply elem_of_submseteq in Hid; [|exact Hsub].
      rewrite free_for_fits in Hid. apply list_elem_of_fmap in Hid as (d & -> & Hd).
      apply list_elem_of_filter in Hd as [? ?]. by exists d.
  - by intros e ->.
Qed.

(** C19: the life cycle of a run.  Along any call of a reachable simulator a run keeps its record
    (workload, times, input), its status changes only from Running to Succeeded or Preempted and
    never leaves these; no run is Failed; a workload has at most one Running run. *)
Theorem run_lifecycle (n : nat) (s s' : Simulator) :
  sim_reach n s → Z.of_nat n < int64_max → sim_step s s' →
  (∀ id r, sim_runs s !! id = Some r → ∃ r', sim_runs s' !! id = Some r' ∧ run_evolves r r') ∧
  (∀ id r, sim_runs s' !! id = Some r → live_status (run_Status r)) ∧
  (∀ id1 id2 r1 r2, sim_runs s' !! id1 = Some r1 → sim_runs s' !! id2 = Some r2 →
     run_WorkloadID r1 = run_WorkloadID r2 → run_Status r1 = RunStatusRunning →
     run_Status r2 = RunStatusRunning → id1 = id2).
Proof.
  intros [Hwf Hn]%sim_reach_wf Hmax Hs.
  assert (Hwf' : sim_wf s') by (eapply sim_step_preserves; [|done|done]; lia).
  split_and!.
  - intros id r. apply sim_step_runs; [done|lia|done].
  - intros id r Hr. by destruct (wf_runs s' Hwf' id r Hr) as (_ & _ & ?).
  - apply (wf_unique s' Hwf').
Qed.

(** When a run ends.  A Running run is reported Running exactly while the clock is before its
    end, and Succeeded from then on; the answer is recorded, so that later reads agree even if the
    clock steps back. *)
Theorem run_completes_on_time (s : Simulator) (id : string) (r : runRecord) (now : Time) :
  id ≠ "" → sim_runs s !! id = Some r → run_Status r = RunStatusRunning →
  let '(s', st) := GetStatus s now id in
  (st = Ok RunStatusRunning ↔ now < run_EndsAt r) ∧
  (run_EndsAt r ≤ now → st = Ok RunStatusSucceeded ∧
     ∀ now', GetStatus s' now' id = (s', Ok RunStatusSucceeded)).
Proof.
  intros Hid Hr Hst. unfold GetStatus. rewrite decide_False, Hr by done. unfold refreshRun, Before.
  rewrite bool_decide_eq_true_2 by done. simpl. destruct (now <? run_EndsAt r) eqn:E; simpl.
  - rewrite Hst. split; [split; [lia|done]|lia].
  - split; [split; [done|lia]|]. intros _. split; [done|]. intros now'.
    by rewrite decide_False, lookup_insert_eq by done.
Qed.

(** Allocate/release round trip: releasing the workload right after a successful allocation
    gives back exactly the state before it. *)
Theorem allocate_release_roundtrip `{MapIter} (s s' : Simulator) (w : string) (g m : Z)
    (opts : AllocationOptions) (a : Allocation) :
  AllocateWithOptions s w g m opts = (s', Ok a) → Release s' w = (s, None).
Proof.
  intros (Hw & _ & _ & Hnone & _ & -> & _)%AllocateWithOptions_inv. unfold Release.
  rewrite decide_False by done. f_equal. destruct s as [p al rs nx]. unfold with_allocations; simpl in *.
  f_equal. by rewrite delete_insert_id.
Qed.

(** Preempting and releasing a victim stops its run and frees its devices: afterwards no run of
    the workload is Running, it has no allocation, none of its devices is held by anybody, and the
    runs and allocations of other workloads are untouched. *)
Theorem preempt_release_frees `{MapIter} (n : nat) (s s1 s2 : Simulator) (w : string)
    (e1 e2 : option error) :
  sim_reach n s → w ≠ "" → Preempt s w = (s1, e1) → Release s1 w = (s2, e2) →
  e1 = None ∧ e2 = None ∧ sim_allocations s2 !! w = None ∧
  (∀ id r, sim_runs s2 !! id = Some r → run_WorkloadID r = w → run_Status r ≠ RunStatusRunning) ∧
  (∀ a id, sim_allocations s !! w = Some a → id ∈ a_DeviceIDs a → id ∉ allocated_ids s2) ∧
  (∀ w', w' ≠ w → sim_allocations s2 !! w' = sim_allocations s !! w') ∧
  (∀ id r, sim_runs s !! id = Some r → run_WorkloadID r ≠ w → sim_runs s2 !! id = Some r).
Proof.
  intros [Hwf _]%sim_reach_wf Hw HP HR. unfold Release in HR. rewrite decide_False in HR by done.
  simplify_eq. simpl. unfold Preempt in HP. rewrite decide_False in HP by done.
  pose proof (Preempt_record s w) as Hrec.
  assert (Hal : sim_allocations s1 = sim_allocations s) by (by repeat case_match; simplify_eq).
  rewrite Hal. split_and!; try done.
  - by repeat case_match; simplify_eq.
  - apply lookup_delete_eq.
  - intros id r. destruct (head _) as [[key run]|]; simplify_eq; simpl; [|by apply Hrec].
    destruct Hrec as (Hk & Hkw & Hks). rewrite lookup_insert_Some.
    intros [[<- <-]|[Hne Hr]] Hrw; [done|]. intros Hrs. apply Hne.
    eapply (wf_unique s Hwf); try done. congruence.
  - intros a id Ha Hid Hin. pose proof (wf_disjoint s Hwf) as Hnd. revert Hnd.
    unfold allocated_ids in *; simpl in *. rewrite <- (map_to_list_delete _ w a Ha); csimpl.
    rewrite NoDup_app. intros (_ & Hd & _). by apply (Hd id Hid).
  - intros w' Hne. by rewrite lookup_delete_ne.
  - intros id r Hr Hne. destruct (head _) as [[key run]|]; simplify_eq; simpl; [|done].
    destruct Hrec as (Hk & Hkw & Hks). rewrite lookup_insert_ne; [done|]. intros ->. by simplify_eq.
Qed.

(** ** Usage *)

Lemma slashes_app s t : slashes (s +:+ t) = (slashes s + slashes t)%nat.
Proof. unfold slashes. by rewrite bytes_app, filter_app, length_app. Qed.

Lemma slashes_zero s : slash ∉ bytes s → slashes s = 0%nat.
Proof.
  intros H. unfold slashes. rewrite filter_none; [done|]. intros c Hc ->. by apply H.
Qed.

Lemma HasPrefix_spec s pre : HasPrefix s pre = true ↔ ∃ t, s = pre +:+ t.
Proof.
  revert s; induction pre as [|c pre IH]; intros s.
  { split; [by exists s|by destruct s]. }
  destruct s as [|d s]; cbn [HasPrefix]; [by split; [|intros []]|].
  rewrite andb_true_iff, Ascii.eqb_eq, IH. split.
  - intros (-> & t & ->). by exists t.
  - intros (t & [= -> ->]). eauto.
Qed.

(** The keys the operator uses: namespace/name of a pool resource. *)
Definition namespaced (key : string) : Prop := slashes key = 1%nat.

Lemma one_slash_split l :
  length (filter (λ c, c = slash) l) = 1%nat →
  ∃ a b, l = a ++ slash :: b ∧ slash ∉ a ∧ slash ∉ b.
Proof.
  induction l as [|c l IH]; [done|]. rewrite filter_cons. case_decide as Hc.
  - intros [= Hl]. subst c. exists [], l. split_and!; [done|set_solver|].
    intros Hin. assert (H : slash ∈ filter (λ c, c = slash) l) by by apply list_elem_of_filter.
    apply nil_length_inv in Hl. rewrite Hl in H. by apply elem_of_nil in H.
  - intros Hl. destruct (IH Hl) as (a & b & -> & Ha & Hb). exists (c :: a), b.
    split_and!; [done| |done]. set_solver.
Qed.

Lemma namespaced_prefix k1 k2 t1 t2 :
  namespaced k1 → namespaced k2 → k1 +:+ "/" +:+ t1 = k2 +:+ "/" +:+ t2 → k1 = k2.
Proof.
  intros (a1 & b1 & E1 & Ha1 & Hb1)%one_slash_split (a2 & b2 & E2 & Ha2 & Hb2)%one_slash_split He.
  apply (f_equal bytes) in He. rewrite !bytes_app, E1, E2, <- !app_assoc in He.
  apply app_first_inj in He as [-> He]; [|done..].
  change (bytes "/" ++ ?x) with (slash :: x) in He.
  apply app_first_inj in He as [-> _]; [|done..]. apply bytes_inj. by rewrite E1, E2.
Qed.

Lemma device_id_tail k i j :
  device_id k i j = poolPrefix k +:+ "node-" +:+ pretty i +:+ "/" +:+ "gpu-" +:+ pretty j.
Proof. unfold device_id, node_id. rewrite !append_assoc. done. Qed.

Lemma slashes_device k i j : slashes (device_id k i j) = S (slashes (poolPrefix k)).
Proof.
  rewrite device_id_tail, !slashes_app.
  rewrite (slashes_zero (pretty i)), (slashes_zero (pretty j)) by apply pretty_nat_no_slash.
  change (slashes "node-") with 0%nat. change (slashes "/") with 1%nat.
  change (slashes "gpu-") with 0%nat. lia.
Qed.

Lemma inPool_spec key k i j :
  (namespaced key ∨ key = DefaultPoolKey) → (namespaced k ∨ k = DefaultPoolKey) →
  inPool key (device_id k i j) = true ↔ k = key.
Proof.
  assert (Hns : ∀ x, namespaced x → x ≠ DefaultPoolKey ∧ poolPrefix x = x +:+ "/").
  { intros x Hx. assert (x ≠ DefaultPoolKey) by (intros ->; vm_compute in Hx; discriminate).
    split; [done|]. unfold poolPrefix. rewrite decide_True; [done|]. split; [|done].
    intros ->. vm_compute in Hx. discriminate. }
  assert (Hdef : poolPrefix DefaultPoolKey = "").
  { unfold poolPrefix. rewrite decide_False; [done|]. by intros [_ ?]. }
  intros Hkey Hk. unfold inPool. case_decide as Hd.
  - subst key. rewrite slashes_device, Nat.eqb_eq. destruct Hk as [Hk| ->].
    + destruct (Hns k Hk) as [? ->]. rewrite slashes_app. split; [|done].
      change (slashes "/") with 1%nat. lia.
    + rewrite Hdef. done.
  - destruct Hkey as [Hkey| ->]; [|done]. rewrite HasPrefix_spec. split.
    + intros [t Ht]. destruct Hk as [Hk| ->].
      * destruct (Hns k Hk) as [_ Hp]. rewrite device_id_tail, Hp, !append_assoc in Ht.
        by eapply namespaced_prefix.
      * apply (f_equal slashes) in Ht. rewrite slashes_device, Hdef, !slashes_app in Ht.
        rewrite Hkey in Ht. change (slashes "/") with 1%nat in Ht.
        change (slashes "") with 0%nat in Ht. lia.
    + intros ->. destruct (Hns key Hkey) as [_ Hp]. rewrite device_id_tail, Hp.
      by eexists.
Qed.

Lemma Zsum_length_bind {A B} (f : A → list B) l :
  Zsum (λ x, Z.of_nat (length (f x))) l = Z.of_nat (length (l ≫= f)).
Proof.
  induction l as [|x l IH]; csimpl; [done|]. rewrite length_app, Nat2Z.inj_add, <- IH. done.
Qed.

Lemma filter_bind {A B} (f : A → list B) (P : B → Prop) `{∀ x, Decision (P x)} l :
  filter P (l ≫= f) = l ≫= λ x, filter P (f x).
Proof. induction l as [|x l IH]; csimpl; [done|]. by rewrite filter_app, IH. Qed.

Lemma deviceCount_ids nodes : deviceCount nodes = Z.of_nat (length (node_ids nodes)).
Proof.
  unfold deviceCount, node_ids. rewrite <- Zsum_length_bind. apply Zsum_ext.
  intros n _. by rewrite length_fmap.
Qed.

(** Every device held by an allocation is one of a registered pool. *)
Definition backed (s : Simulator) : Prop :=
  ∀ id, id ∈ allocated_ids s → ∃ key nodes, sim_pools s !! key = Some nodes ∧ id ∈ node_ids nodes.

(** Both by evaluation, for one pool. *)
Lemma pool_backs s key :
  forallb (λ id, bool_decide (id ∈ default [] (node_ids <$> sim_pools s !! key)))
    (allocated_ids s) = true → backed s.
Proof.
  rewrite forallb_forall. intros Ha id Hid%list_elem_of_In%Ha%bool_decide_eq_true_1. exists key.
  destruct (sim_pools s !! key) as [nodes|]; [by exists nodes|by apply elem_of_nil in Hid].
Qed.

Lemma only_key {A} (m : gmap string A) key :
  forallb (λ e, bool_decide (e.1 = key)) (map_to_list m) = true → ∀ k x, m !! k = Some x → k = key.
Proof.
  rewrite forallb_forall. intros Ha k x Hk%elem_of_map_to_list.
  by apply list_elem_of_In, Ha, bool_decide_eq_true_1 in Hk.
Qed.

Lemma backed_nodes `{MapIter} s id :
  backed s → id ∈ allocated_ids s → id ∈ node_ids (allNodes s).
Proof.
  intros Hb (key & nodes & Hk & Hin)%Hb. unfold allNodes. rewrite node_ids_concat.
  apply list_elem_of_bind. exists (key, nodes). split; [done|by apply map_iter_lookup].
Qed.

(** The usage snapshot is exact: as long as no registered pool under an allocation was shrunk
    or deleted, [AvailableDevices] is the number of devices no allocation holds (so it is not
    negative), and allocated plus available is the total. *)
Theorem fleet_usage_exact `{MapIter} (n : nat) (s : Simulator) :
  sim_reach n s → backed s →
  fu_TotalDevices (FleetUsage s) = Z.of_nat (length (node_ids (allNodes s))) ∧
  fu_AllocatedDevices (FleetUsage s) = Z.of_nat (length (allocated_ids s)) ∧
  fu_AvailableDevices (FleetUsage s) =
    Z.of_nat (length (filter (λ id, id ∉ allocated_ids s) (node_ids (allNodes s)))).
Proof.
  intros [Hwf _]%sim_reach_wf Hb. unfold FleetUsage, usageOf; simpl.
  rewrite deviceCount_ids, Zsum_length_bind, map_iter_perm. fold (allocated_ids s).
  split_and!; [done|done|]. pose proof (allNodes_NoDup s Hwf) as Hnd.
  assert (Hsub : allocated_ids s ⊆+ node_ids (allNodes s)).
  { apply NoDup_submseteq; [by apply wf_disjoint|]. intros id. by apply backed_nodes. }
  apply submseteq_Permutation in Hsub as [rest Hrest]. rewrite Hrest in Hnd |- *.
  apply NoDup_app in Hnd as (_ & Hdis & _).
  rewrite filter_app, filter_none, filter_all, !length_app by set_solver. simpl. lia.
Qed.

(** The usage of a pool: the size of the pool and the allocated ids that look like its own. *)
Lemma pool_usage_counted `{MapIter} (s : Simulator) (key : string) (nodes : list Node) :
  sim_wf s → sim_pools s !! key = Some nodes →
  FleetUsageForPool s key =
  (usageOf (Z.of_nat (length (node_ids nodes)))
           (Z.of_nat (length (filter (λ id, inPool key id = true) (allocated_ids s)))), true).
Proof.
  intros Hwf Hkey. unfold FleetUsageForPool. rewrite Hkey.
  destruct (wf_pools s Hwf key nodes Hkey) as (Hk0 & spec & Hbuild).
  rewrite decide_False.
  2:{ intros ->%nil_length_inv. unfold buildNodesWithPoolKey in Hbuild.
      do 3 (case_match; [done|]). injection Hbuild as Hbuild.
      destruct (Z.to_nat (sp_NodeCount spec)) eqn:E; [lia|done]. }
  rewrite deviceCount_ids. do 2 f_equal. by rewrite Zsum_length_bind, <- filter_bind, map_iter_perm.
Qed.

Lemma pool_usage `{MapIter} (s : Simulator) (key : string) (nodes : list Node) :
  sim_wf s → backed s → sim_pools s !! key = Some nodes →
  (∀ k ns, sim_pools s !! k = Some ns → namespaced k ∨ k = DefaultPoolKey) →
  filter (λ id, inPool key id = true) (allocated_ids s) =
  filter (λ id, id ∈ node_ids nodes) (allocated_ids s).
Proof.
  intros Hwf Hb Hkey Hns. apply list_filter_iff_strong.
  destruct (wf_pools s Hwf key nodes Hkey) as (Hk0 & spec & Hbuild).
  intros id Hid. destruct (Hb id Hid) as (k & ns & Hk & Hin).
  destruct (wf_pools s Hwf k ns Hk) as (Hkne & spec' & Hbuild').
  destruct (build_ids_elem _ _ _ _ Hbuild' Hin) as (i & j & ->).
  rewrite inPool_spec by eauto. split.
  - intros ->. by simplify_eq.
  - intros Hin2. destruct (build_ids_elem _ _ _ _ Hbuild Hin2) as (i' & j' & He).
    by apply device_id_inj in He as (-> & _ & _).
Qed.

(** The devices of a pool that are not allocated. *)
Lemma pool_free s key nodes :
  sim_wf s → sim_pools s !! key = Some nodes →
  Z.of_nat (length (node_ids nodes))
    - Z.of_nat (length (filter (λ id, id ∈ node_ids nodes) (allocated_ids s))) =
  Z.of_nat (length (filter (λ id, id ∉ allocated_ids s) (node_ids nodes))).
Proof.
  intros Hwf Hkey. destruct (wf_pools s Hwf key nodes Hkey) as (Hk & spec & Hbuild).
  assert (Hnd : NoDup (node_ids nodes)) by (by eapply build_ids_NoDup).
  assert (Hp : filter (λ id, id ∈ node_ids nodes) (allocated_ids s) ≡ₚ
               filter (λ id, id ∈ allocated_ids s) (node_ids nodes)).
  { apply NoDup_Permutation; [apply NoDup_filter, wf_disjoint, Hwf|by apply NoDup_filter|].
    intros id. rewrite !list_elem_of_filter. tauto. }
  rewrite Hp. pose proof (filter_app_complement (λ id, id ∈ allocated_ids s) (node_ids nodes)) as Hc.
  apply Permutation_length in Hc. rewrite length_app in Hc. lia.
Qed.

(** Per-pool usage is exact for the keys the operator registers (namespace/name, or the default
    pool): the devices counted for a pool by comparing id prefixes are exactly the allocated ids that
    are devices of that pool. *)
Theorem pool_usage_exact `{MapIter} (n : nat) (s : Simulator) (key : string) (nodes : list Node) :
  sim_reach n s → backed s → sim_pools s !! key = Some nodes →
  (∀ k ns, sim_pools s !! k = Some ns → namespaced k ∨ k = DefaultPoolKey) →
  FleetUsageForPool s key =
  (usageOf (Z.of_nat (length (node_ids nodes)))
           (Z.of_nat (length (filter (λ id, id ∈ node_ids nodes) (allocated_ids s)))), true).
Proof.
  intros [Hwf _]%sim_reach_wf Hb Hkey Hns.
  rewrite (pool_usage_counted s key nodes), (pool_usage s key nodes); done.
Qed.

(** ** Witnesses *)

Module SimExample.
Definition I : MapIter := map_iter_canonical.
#[export] Existing Instance I.
#[export] Instance R : RunEnv := RuntimeExample.env 0.
Definition spec : GPUNodePoolSpec :=
  {| sp_NodeCount := 2; sp_DevicesPerNode := 2; sp_MemoryMiBPerDevice := 81920;
     sp_DeviceType := "gpu"; sp_Profile := "h100_sxm" |}.
Definition input : RuntimeInput := RuntimeExample.input "training" "h100_sxm" 1000000.
(** A pool of four devices; a workload with three of them; its run, started at time 100. *)
Definition s1 : Simulator := (RegisterFleet NewSimulator "ns/pool" spec).1.
Definition s2 : Simulator := (AllocateWithOptions s1 "ns/w" 3 40000 firstFitOptions).1.
Definition s3 : Simulator := (StartWithRuntimeInput s2 100 input).1.

Lemma reach1 : sim_reach 1 s1.
Proof.
  eapply reach_step; [apply reach_new| |by vm_compute].
  apply (step_register _ "ns/pool" spec _ (RegisterFleet NewSimulator "ns/pool" spec).2), surjective_pairing.
Qed.

Lemma reach2 : sim_reach 2 s2.
Proof.
  eapply reach_step; [apply reach1| |by vm_compute].
  apply (step_allocate I _ "ns/w" 3 40000 firstFitOptions _ (AllocateWithOptions s1 "ns/w" 3 40000 firstFitOptions).2).
  apply surjective_pairing.
Qed.

Lemma reach3 : sim_reach 3 s3.
Proof.
  eapply reach_step; [apply reach2| |by vm_compute].
  apply (step_start I R _ 100 input _ (StartWithRuntimeInput s2 100 input).2), surjective_pairing.
Qed.

Lemma started : StartWithRuntimeInput s2 100 input = (s3, Ok "run-1").
Proof.
  rewrite (surjective_pairing (StartWithRuntimeInput s2 100 input)).
  apply (f_equal (pair s3)). by vm_compute.
Qed.

Lemma s2_allocs : sim_allocations s2 !! "ns/w" =
  Some {| a_WorkloadID := "ns/w";
          a_DeviceIDs := ["ns/pool/node-0/gpu-0"; "ns/pool/node-0/gpu-1"; "ns/pool/node-1/gpu-0"] |}.
Proof. by vm_compute. Qed.
End SimExample.

Import SimExample.

Lemma no_double_allocation_witness :
  NoDup ["ns/pool/node-0/gpu-0"; "ns/pool/node-0/gpu-1"; "ns/pool/node-1/gpu-0"].
Proof. exact (proj1 (no_double_allocation 2 s2 reach2) "ns/w" _ s2_allocs). Defined.

Lemma allocation_exact_witness :
  ∃ a, (AllocateWithOptions s1 "ns/w" 3 40000 firstFitOptions).2 = Ok a ∧
       Z.of_nat (length (a_DeviceIDs a)) = 3.
Proof.
  pose proof (allocation_exact 1 s1 "ns/w" 3 40000 firstFitOptions reach1
    ltac:(intros _; apply Z.le_refl)) as H.
  destruct (AllocateWithOptions s1 "ns/w" 3 40000 firstFitOptions) as [s' r] eqn:E.
  destruct H as (_ & Hok & _).
  assert (Hr : r = (AllocateWithOptions s1 "ns/w" 3 40000 firstFitOptions).2) by by rewrite E.
  simpl. destruct r as [a|e]; [|by vm_compute in Hr]. exists a. split; [done|].
  by destruct (Hok a eq_refl) as (_ & _ & ? & _).
Defined.

Lemma run_lifecycle_witness :
  ∃ r r', sim_runs s3 !! "run-1" = Some r ∧ sim_runs (Preempt s3 "ns/w").1 !! "run-1" = Some r' ∧
          run_evolves r r'.
Proof.
  destruct (sim_runs s3 !! "run-1") as [r|] eqn:Hr; [|by vm_compute in Hr].
  destruct (proj1 (run_lifecycle 3 s3 (Preempt s3 "ns/w").1 reach3 ltac:(by vm_compute)
    (step_preempt I s3 "ns/w" _ _ (surjective_pairing _))) "run-1" r Hr) as (r' & Hr' & He).
  exists r, r'. exact (conj eq_refl (conj Hr' He)).
Defined.

Lemma run_completes_on_time_witness :
  ∃ r, sim_runs s3 !! "run-1" = Some r ∧
       let '(s', st) := GetStatus s3 200 "run-1" in run_EndsAt r ≤ 200 → st = Ok RunStatusSucceeded.
Proof.
  destruct (sim_runs s3 !! "run-1") as [r|] eqn:Hr; [|by vm_compute in Hr].
  assert (Hst : run_Status <$> sim_runs s3 !! "run-1" = Some RunStatusRunning) by by vm_compute.
  rewrite Hr in Hst. simpl in Hst. exists r. split; [done|].
  pose proof (run_completes_on_time s3 "run-1" r 200 ltac:(done) Hr ltac:(congruence)) as H.
  destruct (GetStatus s3 200 "run-1"). intros Hle. exact (proj1 (proj2 H Hle)).
Defined.

Lemma allocate_release_roundtrip_witness : Release s2 "ns/w" = (s1, None).
Proof.
  destruct (AllocateWithOptions s1 "ns/w" 3 40000 firstFitOptions) as [s' [a|e]] eqn:E.
  - assert (Hs : s2 = s') by (unfold s2; by rewrite E). rewrite Hs.
    exact (allocate_release_roundtrip s1 s' "ns/w" 3 40000 firstFitOptions a E).
  - assert (H : (AllocateWithOptions s1 "ns/w" 3 40000 firstFitOptions).2 = Err e) by by rewrite E. by vm_compute in H.
Defined.

Lemma s3_allocs : sim_allocations s3 !! "ns/w" =
  Some {| a_WorkloadID := "ns/w";
          a_DeviceIDs := ["ns/pool/node-0/gpu-0"; "ns/pool/node-0/gpu-1"; "ns/pool/node-1/gpu-0"] |}.
Proof. by vm_compute. Qed.

Lemma preempt_release_frees_witness :
  Forall (λ id, id ∉ allocated_ids (Release (Preempt s3 "ns/w").1 "ns/w").1)
         ["ns/pool/node-0/gpu-0"; "ns/pool/node-0/gpu-1"; "ns/pool/node-1/gpu-0"].
Proof.
  pose proof (preempt_release_frees 3 s3 (Preempt s3 "ns/w").1
    (Release (Preempt s3 "ns/w").1 "ns/w").1 "ns/w" _ _ reach3 ltac:(done)
    (surjective_pairing _) (surjective_pairing _)) as (_ & _ & _ & _ & H & _).
  apply Forall_forall. intros id Hid. exact (H _ id s3_allocs Hid).
Defined.

Lemma s2_backed : backed s2.
Proof. apply (pool_backs s2 "ns/pool"). by vm_compute. Qed.

Lemma s2_pools k ns : sim_pools s2 !! k = Some ns → k = "ns/pool".
Proof. apply only_key. by vm_compute. Qed.

Lemma fleet_usage_exact_witness :
  fu_AvailableDevices (FleetUsage s2) =
    Z.of_nat (length (filter (λ id, id ∉ allocated_ids s2) (node_ids (allNodes s2)))).
Proof. apply (fleet_usage_exact 2 s2 reach2 s2_backed). Defined.

Lemma pool_usage_exact_witness :
  ∃ nodes, sim_pools s2 !! "ns/pool" = Some nodes ∧
    FleetUsageForPool s2 "ns/pool" =
    (usageOf (Z.of_nat (length (node_ids nodes)))
       (Z.of_nat (length (filter (λ id, id ∈ node_ids nodes) (allocated_ids s2)))), true).
Proof.
  destruct (sim_pools s2 !! "ns/pool") as [nodes|] eqn:Hp; [|by vm_compute in Hp].
  exists nodes. split; [done|].
  apply (pool_usage_exact 2 s2 "ns/pool" nodes reach2 s2_backed Hp).
  intros k ns Hk. left. by rewrite (s2_pools k ns Hk).
Defined.

(** Pool keys with more slashes can overlap: the devices of pool "a/b" also count for pool "a". *)
Example nested_pool_usage :
  let s1 := (RegisterFleet NewSimulator "a" spec).1 in
  let s2 := (RegisterFleet s1 "a/b" spec).1 in
  let s3 := (AllocateWithOptions (DeleteFleet s2 "a") "ns/w" 3 40000 firstFitOptions).1 in
  let s4 := (RegisterFleet s3 "a" spec).1 in
  fu_AllocatedDevices (FleetUsageForPool s4 "a").1 = 3.
Proof. by vm_compute. Qed.
