(* ===== verification/SimErrors.v ===== *)
(** * The error texts of the simulator

    The HTTP server and the workload reconciler tell the errors of the simulator apart by their text
    ([strings.Contains] on the lower-cased message).  The texts of an allocation are shown here to be
    told apart correctly, for workload ids without spaces: an automaton that looks for the start of
    the phrases runs over the text, and every part of every text is harmless to it. *)

From stdpp Require Import prelude gmap strings pretty.
From S2P Require Import Prelude GoFloat SimModel Placement Runtime Simulator.

Local Open Scope Z_scope.

Definition space : Ascii.ascii := Ascii.ascii_of_nat 32.
Definition no_space (s : string) : Prop := space ∉ bytes s.

(** ** Substrings *)

Lemma HasPrefix_bytes s pre : HasPrefix s pre = true ↔ ∃ q, bytes s = bytes pre ++ q.
Proof.
  revert s. induction pre as [|c pre IH]; intros s; simpl.
  { by destruct s; split; eauto. }
  destruct s as [|d s]; simpl; [split; [done|by intros []]|].
  rewrite andb_true_iff, Ascii.eqb_eq, IH. split.
  - intros [-> [q ->]]. by exists q.
  - intros [q [= -> ?]]. eauto.
Qed.

Lemma Contains_bytes s sub : Contains s sub = true ↔ ∃ p q, bytes s = p ++ bytes sub ++ q.
Proof.
  induction s as [|c s IH]; cbn [Contains]; rewrite orb_true_iff, HasPrefix_bytes.
  - split; [|intros ([|] & q & E); [left; by exists q|done]].
    intros [[q E]|]; [|done]. by exists [], q.
  - rewrite IH. split.
    + intros [[q E]|(p & q & E)]; [by exists [], q|]. exists (c :: p), q. simpl. by rewrite E.
    + intros ([|d p] & q & E); [left; by exists q|]. right. exists p, q. by injection E.
Qed.

Lemma Contains_app_r s t sub : Contains t sub = true → Contains (s +:+ t) sub = true.
Proof.
  rewrite !Contains_bytes, bytes_app. intros (p & q & ->). exists (bytes s ++ p), q.
  by rewrite <- (assoc_L (++)).
Qed.

(** ** The automaton *)

(** The last bytes read: a final "y", the same with a space, the same with "e" after it; a final "t",
    the same with a space, the same with "f" after it; or that a phrase may have started. *)
Inductive scanState := Calm | Y | YSpace | YSpaceE | T | TSpace | TSpaceF | Alarm.

Definition char (n : nat) : Ascii.ascii := Ascii.ascii_of_nat n.
Definition fresh (c : Ascii.ascii) : scanState :=
  if decide (c = char 121) then Y else if decide (c = char 116) then T else Calm.

(** [ye] says whether "y h" and "y ex" count ("already has", "already exists") besides "t fo"
    ("not found"). *)
Definition scanStep (ye : bool) (st : scanState) (c : Ascii.ascii) : scanState :=
  match st with
  | Alarm => Alarm
  | Calm => fresh c
  | Y => if decide (c = space) then YSpace else fresh c
  | YSpace => if ye && bool_decide (c = char 104) then Alarm
              else if decide (c = char 101) then YSpaceE else fresh c
  | YSpaceE => if ye && bool_decide (c = char 120) then Alarm else fresh c
  | T => if decide (c = space) then TSpace else fresh c
  | TSpace => if decide (c = char 102) then TSpaceF else fresh c
  | TSpaceF => if decide (c = char 111) then Alarm else fresh c
  end.

Definition scan (ye : bool) (st : scanState) (l : list Ascii.ascii) : scanState :=
  foldl (scanStep ye) st l.

Lemma scan_app ye st l k : scan ye st (l ++ k) = scan ye (scan ye st l) k.
Proof. apply foldl_app. Qed.

Lemma scan_alarm ye l : scan ye Alarm l = Alarm.
Proof. by induction l. Qed.

(** Whatever came before, a phrase that is there sets off the alarm. *)
Lemma phrase_alarms ye st phrase l p q :
  (∀ st, scan ye st phrase = Alarm) → l = p ++ phrase ++ q → scan ye st l = Alarm.
Proof. intros Hp ->. by rewrite !scan_app, Hp, scan_alarm. Qed.

(** ** Harmless text *)

Definition harmless (ye : bool) (s : string) : Prop :=
  ∀ st, st ≠ Alarm → scan ye st (bytes (ToLower s)) ≠ Alarm.

Lemma harmless_app ye s t : harmless ye s → harmless ye t → harmless ye (s +:+ t).
Proof.
  intros Hs Ht st Hst. rewrite ToLower_bytes, bytes_app, fmap_app, scan_app, <- !ToLower_bytes.
  by apply Ht, Hs.
Qed.

Lemma harmless_absent ye s phrase :
  harmless ye s → (∀ st, scan ye st (bytes phrase) = Alarm) → Contains (ToLower s) phrase = false.
Proof.
  intros Hs Hp. apply not_true_iff_false. rewrite Contains_bytes. intros (p & q & E).
  apply (Hs Calm); [done|]. by eapply phrase_alarms.
Qed.

(** Numbers and quoted strings without spaces are harmless. *)
Lemma scanStep_quiet ye st c :
  st ∈ [Calm; Y; T] → c ≠ space → scanStep ye st c ∈ [Calm; Y; T].
Proof.
  assert (∀ c, fresh c ∈ [Calm; Y; T]) as Hf
    by (intros d; unfold fresh; repeat case_decide; set_solver).
  intros Hst Hc. rewrite !elem_of_cons in Hst. destruct Hst as [->|[->|[->|?%elem_of_nil]]]; simpl;
    try rewrite decide_False by done; done || apply Hf.
Qed.

Lemma scan_quiet ye st l :
  st ∈ [Calm; Y; T] → space ∉ l → scan ye st l ∈ [Calm; Y; T].
Proof.
  revert st. induction l as [|c l IH]; intros st Hst Hl; simpl; [done|].
  apply not_elem_of_cons in Hl as [Hc Hl]. apply IH; [|done]. by apply scanStep_quiet.
Qed.

Lemma quote_byte_no_space c : c ≠ space → Forall (λ d, d ≠ space) (ascii_lower <$> bytes (quote_byte c)).
Proof.
  intros Hc. apply (bool_decide_unpack _).
  by destruct c as [[] [] [] [] [] [] [] []]; try (vm_compute; reflexivity).
Qed.

Lemma quote_body_no_space l :
  space ∉ l →
  space ∉ ascii_lower <$> bytes (foldr (λ c acc, quote_byte c +:+ acc) EmptyString l).
Proof.
  induction l as [|c l IH]; simpl; [set_solver|]. intros [Hc Hl]%not_elem_of_cons.
  rewrite bytes_app, fmap_app, elem_of_app. intros [Hin|Hin]; [|by apply IH].
  pose proof (quote_byte_no_space c (not_eq_sym Hc)) as HF. rewrite Forall_forall in HF.
  by apply (HF space Hin).
Qed.

Lemma harmless_Quote ye s : no_space s → harmless ye (Quote s).
Proof.
  intros Hs st Hst. unfold Quote, dquote.
  rewrite ToLower_bytes, !bytes_app, !fmap_app, !scan_app.
  set (body := foldr _ _ _). pose proof (quote_body_no_space (bytes s) Hs) as Hb. fold body in Hb.
  assert (scan ye st (ascii_lower <$> bytes (of_bytes [Ascii.ascii_of_nat 34])) = Calm) as ->
    by (by destruct st, ye).
  apply (scan_quiet ye Calm) in Hb; [|set_solver].
  rewrite !elem_of_cons in Hb. by destruct Hb as [->|[->|[->|?%elem_of_nil]]].
Qed.

Lemma harmless_digits ye l st :
  Forall (λ c, ∃ d, (d < 10)%N ∧ c = pretty_N_char d) l → st ≠ Alarm →
  scan ye st (ascii_lower <$> l) ≠ Alarm.
Proof.
  intros Hl. revert st. induction Hl as [|c l (d & Hd & ->) _ IH]; intros st Hst; simpl; [done|].
  apply IH. assert (∃ n, d = N.of_nat n ∧ (n < 10)%nat) as (n & -> & Hn)
    by (exists (N.to_nat d); lia).
  do 10 (destruct n as [|n]; [by destruct st, ye|]). lia.
Qed.

Lemma harmless_N ye (n : N) : harmless ye (pretty n).
Proof.
  intros st Hst. rewrite ToLower_bytes. apply harmless_digits; [|done].
  apply Forall_forall. intros c. apply pretty_N_bytes.
Qed.

Lemma harmless_nat ye (n : nat) : harmless ye (pretty n).
Proof. apply harmless_N. Qed.

Lemma harmless_Z ye (z : Z) : harmless ye (pretty z).
Proof.
  destruct z as [|p|p]; [apply (harmless_N ye 0)|apply (harmless_N ye (N.pos p))|].
  apply (harmless_app ye "-"); [intros []; by destruct ye|apply (harmless_N ye (N.pos p))].
Qed.

Lemma ToLower_app s t : ToLower (s +:+ t) = ToLower s +:+ ToLower t.
Proof. apply bytes_inj. by rewrite bytes_app, !ToLower_bytes, bytes_app, fmap_app. Qed.

(** ** The texts of an allocation *)

Ltac harmless :=
  cbn [Error];
  repeat match goal with
  | |- harmless _ (String.append _ _) => apply harmless_app
  | |- harmless _ (Quote _) => apply harmless_Quote; assumption
  | |- harmless _ (@pretty Z _ _) => apply harmless_Z
  | |- harmless _ (@pretty nat _ _) => apply harmless_nat
  | |- harmless ?ye (String _ _) =>
      let st := fresh in let H := fresh in
      intros st H; destruct st; try destruct ye; vm_compute; congruence
  end.

Lemma pickDevices_text ye perNode need policy same maxNodes e :
  no_space policy → pickDevices perNode need policy same maxNodes = Err e → harmless ye (Error e).
Proof.
  intros Hp. unfold pickDevices. destruct same.
  - destruct (bestNode _ _ _); [done|]. intros [= <-]. harmless.
  - repeat case_decide; try done; [by destruct (head _)|]. intros [= <-]. harmless.
Qed.

(** The guards that come before the test for an allocation. *)
Definition request_ok (id : string) (gpuCount memMiB : Z) : Prop :=
  id ≠ "" ∧ 0 < gpuCount ∧ 0 < memMiB.

(** An allocation that fails either finds the workload with one, and says so, or has a text that none
    of the phrases occurs in. *)
Lemma allocate_error_text `{MapIter} s id g m opts s' e :
  no_space id → no_space (policy_of opts) →
  AllocateWithOptions s id g m opts = (s', Err e) →
  (request_ok id g m ∧ is_Some (sim_allocations s !! id) ∧
   e = Errorf ("workload " +:+ Quote id +:+ " already has an allocation")) ∨
  (¬ (request_ok id g m ∧ is_Some (sim_allocations s !! id)) ∧ ∀ ye, harmless ye (Error e)).
Proof.
  intros Hid Hpol. unfold AllocateWithOptions, request_ok.
  destruct (decide (id = "")) as [->|Hne].
  { intros [= _ <-]. right. split; [tauto|]. intros ye. harmless. }
  destruct (Z.leb_spec g 0) as [Hg|Hg].
  { intros [= _ <-]. right. split; [lia|]. intros ye. harmless. }
  destruct (Z.leb_spec m 0) as [Hm|Hm].
  { intros [= _ <-]. right. split; [lia|]. intros ye. harmless. }
  case_decide as Ha; [intros [= _ <-]; by left|].
  intros HA. right. split; [tauto|]. intros ye. revert HA.
  case_decide; [intros [= _ <-]; harmless|].
  destruct (o_MaxNodes opts <? 0); [intros [= _ <-]; harmless|]. cbv zeta.
  destruct (pickDevices _ _ _ _ _) as [ids|e'] eqn:Hpick.
  - destruct (_ <? _); [|done]. intros [= _ <-]. harmless.
  - intros [= _ <-]. eapply pickDevices_text in Hpick; [|exact Hpol]. 
    cbn [Error]. apply harmless_app; [harmless|]. apply harmless_app; [harmless|exact Hpick].
Qed.

Definition already_allocated : string := "already has an allocation".

Lemma allocate_error_phrases `{MapIter} s id g m opts s' e :
  no_space id → no_space (policy_of opts) →
  AllocateWithOptions s id g m opts = (s', Err e) →
  (Contains (ToLower (Error e)) already_allocated = true ↔
     request_ok id g m ∧ is_Some (sim_allocations s !! id)) ∧
  Contains (ToLower (Error e)) "not found" = false ∧
  (¬ (request_ok id g m ∧ is_Some (sim_allocations s !! id)) →
     Contains (ToLower (Error e)) "already has a running run" = false ∧
     Contains (ToLower (Error e)) "already exists" = false).
Proof.
  intros Hid Hpol HA. destruct (allocate_error_text _ _ _ _ _ _ _ Hid Hpol HA)
    as [(Hr & Ha & ->)|[Hn Hh]].
  - split_and!; [|apply harmless_absent with false; [harmless|by intros []]|tauto].
    split; [done|]. intros _. unfold Error. rewrite ToLower_app, ToLower_app.
    apply Contains_app_r, Contains_app_r. by vm_compute.
  - split_and!; [|by apply harmless_absent with true; [|intros []]|intros _; split].
    + split; [|tauto]. intros Hc.
      by rewrite (harmless_absent true) in Hc; [|apply Hh|intros []].
    + by apply harmless_absent with true; [|intros []].
    + by apply harmless_absent with true; [|intros []].
Qed.
