(* ===== verification/SimConcurrency.v ===== *)
(** * Concurrent callers of the simulator

    The simulator is shared by the handlers of the HTTP server and by the controllers, each in its
    own goroutine.  Every operation of [contract.go] that reads or writes the shared maps takes
    [s.mu] first, so that it is one step of [Simulator.sim_step]; with one exception:
    [AllocateWithOptions] reads [s.allocations] and [s.pools] in its guards before it locks.  Here an
    allocation is two steps, its guards and its locked body, and any number of callers interleave.
    What holds in every interleaving is proved first; then that the interleaved program refines the
    atomic one of [Simulator] as long as no two allocations of one workload overlap; last, what
    overlapping ones do. *)

From stdpp Require Import prelude gmap strings pretty.
From S2P Require Import Prelude GoFloat SimModel Placement Runtime Simulator.

Local Open Scope Z_scope.
Local Open Scope go_scope.

(** The arguments of a call. *)
Record allocateCall := {
  ac_workloadID : string;
  ac_gpuCount : Z;
  ac_memMiB : Z;
  ac_opts : AllocationOptions;
}.

(** ** The two halves of AllocateWithOptions *)

(** Up to [s.mu.Lock()]: the guards, read without the lock.  The reads of the two maps are taken at one
    moment, where other goroutines may run between them. *)
Definition allocateGuards (s : Simulator) (c : allocateCall) : option error :=
  let workloadID := ac_workloadID c in
  if decide (workloadID = "") then Some (Errorf "workloadID is required")
  else if ac_gpuCount c <=? 0
  then Some (Errorf ("gpuCount must be positive, got " +:+ pretty (ac_gpuCount c)))
  else if ac_memMiB c <=? 0
  then Some (Errorf ("memMiB must be positive, got " +:+ pretty (ac_memMiB c)))
  else if decide (is_Some (sim_allocations s !! workloadID))
  then Some (Errorf ("workload " +:+ Quote workloadID +:+ " already has an allocation"))
  else if decide (size (sim_pools s) = 0%nat) then Some (Errorf "fleet is not registered")
  else if o_MaxNodes (ac_opts c) <? 0
  then Some (Errorf ("maxNodes must be >= 0, got " +:+ pretty (o_MaxNodes (ac_opts c))))
  else None.

(** From [s.mu.Lock()] on. *)
Definition allocateLocked `{MapIter} (s : Simulator) (c : allocateCall)
    : Simulator * Result Allocation :=
  let workloadID := ac_workloadID c in
  let gpuCount := ac_gpuCount c in
  let opts := ac_opts c in
  let nodes := allNodes s in
  let perNode := computeEligibleDevicesPerNode nodes (usedDevices s) (ac_memMiB c)
                   (o_PreferredDeviceType opts) (o_PreferredProfile opts) in
  let policy := if decide (o_PlacementPolicy opts = "") then PlacementPolicyFirstFit
                else o_PlacementPolicy opts in
  match pickDevices perNode gpuCount policy (o_RequireSameNode opts) (o_MaxNodes opts) with
  | Err e => (s, Err (Wrapf ("placement failed for workload " +:+ Quote workloadID) e))
  | Ok deviceIDs =>
      if Z.of_nat (length deviceIDs) <? gpuCount
      then (s, Err (Errorf ("insufficient free devices for workload " +:+ Quote workloadID
                            +:+ ": need " +:+ pretty gpuCount +:+ " devices with >="
                            +:+ pretty (ac_memMiB c) +:+ " MiB each, found "
                            +:+ pretty (length deviceIDs))))
      else
        let allocation := {| a_WorkloadID := workloadID; a_DeviceIDs := deviceIDs |} in
        (with_allocations s (<[workloadID := allocation]> (sim_allocations s)), Ok allocation)
  end.

(** The call when nothing happens between its halves. *)
Definition allocateAtomic `{MapIter} (s : Simulator) (c : allocateCall)
    : Simulator * Result Allocation :=
  AllocateWithOptions s (ac_workloadID c) (ac_gpuCount c) (ac_memMiB c) (ac_opts c).

(** ** Interleaving *)

(** The operations that do all their work under the lock. *)
Inductive lock_step : Simulator → Simulator → Prop :=
| lock_register s k spec s' r : RegisterFleet s k spec = (s', r) → lock_step s s'
| lock_delete s k : lock_step s (DeleteFleet s k)
| lock_start (I : MapIter) (R : RunEnv) s now input s' r :
    StartWithRuntimeInput s now input = (s', r) → lock_step s s'
| lock_status s now id s' r : GetStatus s now id = (s', r) → lock_step s s'
| lock_latest (I : MapIter) s now w s' r :
    GetLatestRunStatusForWorkload s now w = (s', r) → lock_step s s'
| lock_preempt (I : MapIter) s w s' r : Preempt s w = (s', r) → lock_step s s'
| lock_release s w s' r : Release s w = (s', r) → lock_step s s'.

(** A caller that has passed the guards and waits for the lock, or has its answer. *)
Inductive callState :=
| Checked (c : allocateCall)
| Returned (c : allocateCall) (r : Result Allocation).

Record conc := { cs_sim : Simulator; cs_calls : gmap nat callState }.

Definition conc_init : conc := {| cs_sim := NewSimulator; cs_calls := ∅ |}.

Definition set_call (x : conc) (t : nat) (s : Simulator) (k : callState) : conc :=
  {| cs_sim := s; cs_calls := <[t := k]> (cs_calls x) |}.

Inductive conc_step : conc → conc → Prop :=
| conc_refused x t c e :
    cs_calls x !! t = None → allocateGuards (cs_sim x) c = Some e →
    conc_step x (set_call x t (cs_sim x) (Returned c (Err e)))
| conc_checked x t c :
    cs_calls x !! t = None → allocateGuards (cs_sim x) c = None →
    conc_step x (set_call x t (cs_sim x) (Checked c))
| conc_locked (I : MapIter) x t c s' r :
    cs_calls x !! t = Some (Checked c) → allocateLocked (cs_sim x) c = (s', r) →
    conc_step x (set_call x t s' (Returned c r))
| conc_other x s' :
    lock_step (cs_sim x) s' → conc_step x {| cs_sim := s'; cs_calls := cs_calls x |}.

(** As in [sim_reach], the number of steps keeps the counter of runs from wrapping. *)
Inductive conc_reach (P : conc → Prop) : nat → conc → Prop :=
| conc_start : conc_reach P 0 conc_init
| conc_next n x x' :
    conc_reach P n x → conc_step x x' → P x' → Z.of_nat n < int64_max → conc_reach P (S n) x'.

(** No two allocations of one workload are under way. *)
Definition serial (x : conc) : Prop :=
  ∀ t1 t2 c1 c2, cs_calls x !! t1 = Some (Checked c1) → cs_calls x !! t2 = Some (Checked c2) →
    ac_workloadID c1 = ac_workloadID c2 → t1 = t2.

Definition interleaved : nat → conc → Prop := conc_reach (λ _, True).
Definition serialised : nat → conc → Prop := conc_reach serial.

(** ** The program without interleaving *)

(** The specification: a call is one step, from its arguments to its answer. *)
Record spec := { sp_sim : Simulator; sp_calls : gmap nat (allocateCall * Result Allocation) }.

Definition spec_init : spec := {| sp_sim := NewSimulator; sp_calls := ∅ |}.

Inductive spec_step : spec → spec → Prop :=
| spec_call (I : MapIter) a t c s' r :
    sp_calls a !! t = None → allocateAtomic (sp_sim a) c = (s', r) →
    spec_step a {| sp_sim := s'; sp_calls := <[t := (c, r)]> (sp_calls a) |}
| spec_other a s' :
    lock_step (sp_sim a) s' → spec_step a {| sp_sim := s'; sp_calls := sp_calls a |}.

(** Two answers a caller cannot tell apart but for the wording of an error. *)
Definition same_answer (r r' : Result Allocation) : Prop :=
  match r, r' with Ok a, Ok a' => a = a' | Err _, Err _ => True | _, _ => False end.

(** The same simulator, and every caller that has an answer has it in both. *)
Definition represents (x : conc) (a : spec) : Prop :=
  cs_sim x = sp_sim a ∧
  ∀ t, match cs_calls x !! t with
       | Some (Returned c r) => ∃ r', sp_calls a !! t = Some (c, r') ∧ same_answer r r'
       | _ => sp_calls a !! t = None
       end.

(** ** The halves *)

Lemma AllocateWithOptions_split `{MapIter} s c :
  allocateAtomic s c =
  match allocateGuards s c with Some e => (s, Err e) | None => allocateLocked s c end.
Proof.
  unfold allocateAtomic, AllocateWithOptions, allocateGuards, allocateLocked. cbv zeta.
  repeat (first [case_decide|case_match]; try done).
Qed.

(** What the guards leave established: all but the two facts read from the shared state are of the
    call alone. *)
Definition well_formed (c : allocateCall) : Prop :=
  ac_workloadID c ≠ "" ∧ 0 < ac_gpuCount c ∧ 0 < ac_memMiB c ∧ 0 ≤ o_MaxNodes (ac_opts c).

Lemma allocateGuards_None s c :
  allocateGuards s c = None ↔
  well_formed c ∧ sim_allocations s !! ac_workloadID c = None ∧ sim_pools s ≠ ∅.
Proof.
  unfold allocateGuards, well_formed. cbv zeta. split.
  - case_decide; [done|]. destruct (ac_gpuCount c <=? 0) eqn:?; [done|].
    destruct (ac_memMiB c <=? 0) eqn:?; [done|]. case_decide; [done|]. case_decide; [done|]. destruct (_ <? 0) eqn:?; [done|]. intros _.
    rewrite eq_None_not_Some, <- map_size_non_empty_iff. split_and!; try done; lia.
  - intros ((Hw & Hg & Hm & Hn) & Ha & Hp).
    rewrite decide_False by done. rewrite (proj2 (Z.leb_gt _ _)) by lia.
    rewrite (proj2 (Z.leb_gt _ _)) by lia. rewrite decide_False by (by rewrite Ha; intros []).
    rewrite decide_False by (by rewrite map_size_empty_iff). by rewrite (proj2 (Z.ltb_ge _ _)) by lia.
Qed.

(** The locked body: a failure changes nothing; a success hands out devices that are free at that
    moment and records them, over whatever the workload held. *)
Lemma allocateLocked_inv `{MapIter} s c s' r :
  0 < ac_gpuCount c → allocateLocked s c = (s', r) →
  match r with
  | Err _ => s' = s
  | Ok a => a_WorkloadID a = ac_workloadID c ∧
      s' = with_allocations s (<[ac_workloadID c := a]> (sim_allocations s)) ∧
      Z.of_nat (length (a_DeviceIDs a)) = ac_gpuCount c ∧
      a_DeviceIDs a ⊆+ free_for s (ac_memMiB c) (ac_opts c)
  end.
Proof.
  intros Hg. unfold allocateLocked. cbv zeta.
  destruct (pickDevices _ _ _ _ _) as [ids|e] eqn:Hp; [|by intros [= <- <-]].
  destruct (_ <? _) eqn:Hl; [by intros [= <- <-]|]. intros [= <- <-].
  apply pickDevices_placed in Hp as (Hle & sub & Hsub & Hids & _); [|lia].
  split_and!; [done|done|simpl; lia|]. simpl. etransitivity; [exact Hids|].
  by apply ids_of_submseteq.
Qed.

(** Recording an allocation over the one the workload had, if any. *)
Lemma allocated_replace s w a :
  allocated_ids (with_allocations s (<[w := a]> (sim_allocations s))) ≡ₚ
  a_DeviceIDs a ++ allocated_ids (with_allocations s (delete w (sim_allocations s))).
Proof.
  unfold allocated_ids; simpl. rewrite <- insert_delete_eq.
  by rewrite map_to_list_insert by apply lookup_delete_eq.
Qed.

Lemma allocateLocked_preserves `{MapIter} s c s' r :
  well_formed c → sim_wf s → allocateLocked s c = (s', r) → sim_wf s'.
Proof.
  intros (Hw & Hg & _) Hwf Ha%allocateLocked_inv; [|done]. destruct r as [a|e]; [|by subst].
  destruct Ha as (Haw & -> & Hlen & Hsub).
  pose proof (free_for_NoDup s (ac_memMiB c) (ac_opts c) Hwf) as Hnd. pose proof Hwf as [].
  constructor; try done; simpl.
  - apply map_Forall_insert_2; [|done]. split_and!; try done.
    intros He. rewrite He in Hlen. simpl in Hlen. lia.
  - rewrite allocated_replace. apply NoDup_app. split_and!.
    + by eapply submseteq_NoDup.
    + intros id Hid Hd. apply (free_for_not_used s (ac_memMiB c) (ac_opts c) id);
        [exact (elem_of_submseteq _ _ _ Hid Hsub)|].
      eapply elem_of_submseteq; [exact Hd|apply allocated_delete].
    + eapply submseteq_NoDup; [apply allocated_delete|done].
Qed.

(** With no fleet left, the locked body fails too. *)
Lemma allocateLocked_no_fleet `{MapIter} s c s' r :
  0 < ac_gpuCount c → sim_pools s = ∅ → allocateLocked s c = (s', r) → s' = s ∧ ∃ e, r = Err e.
Proof.
  intros Hg Hp Ha. pose proof (allocateLocked_inv s c s' r Hg Ha) as Hi.
  destruct r as [a|e]; [exfalso|eauto]. destruct Hi as (_ & _ & Hlen & Hsub).
  assert (free_for s (ac_memMiB c) (ac_opts c) = []) as Hf.
  { unfold free_for, allNodes. rewrite Hp. pose proof (map_iter_perm (∅ : gmap string (list Node))) as Hi.
    rewrite map_to_list_empty in Hi. by apply Permutation_nil_r in Hi as ->. }
  rewrite Hf in Hsub. apply submseteq_nil_r in Hsub. rewrite Hsub in Hlen. simpl in Hlen. lia.
Qed.

(** ** Steps under the lock *)

Lemma lock_step_sim s s' : lock_step s s' → sim_step s s'.
Proof.
  destruct 1; [eapply step_register|apply step_delete|eapply step_start|eapply step_status
    |eapply step_latest|eapply step_preempt|eapply step_release]; done.
Qed.

Lemma refreshRun_allocations s now key r : sim_allocations (refreshRun s now key r).1 = sim_allocations s.
Proof. unfold refreshRun. by case_match. Qed.

(** None of them gives a workload an allocation. *)
Lemma lock_step_allocations s s' :
  lock_step s s' → sim_allocations s' ⊆ sim_allocations s.
Proof.
  destruct 1 as [s k spec s' r Hop|s k|I R s now input s' r Hop|s now id s' r Hop
    |I s now w s' r Hop|I s w s' r Hop|s w s' r Hop].
  - unfold RegisterFleet in Hop. by case_match; simplify_eq.
  - unfold DeleteFleet. by case_decide.
  - apply StartWithRuntimeInput_inv in Hop. destruct r; [|by subst].
    by destruct Hop as (? & ? & ? & _ & _ & _ & _ & _ & _ & ->).
  - unfold GetStatus in Hop. case_decide; [by simplify_eq|].
    destruct (sim_runs s !! id) as [run|]; [|by simplify_eq].
    pose proof (refreshRun_allocations s now id run) as Hr.
    destruct (refreshRun _ _ _ _). simplify_eq. simpl in Hr. by rewrite Hr.
  - unfold GetLatestRunStatusForWorkload in Hop. case_decide; [by simplify_eq|].
    destruct (foldl _ _ _) as [[key run]|]; [|by simplify_eq].
    pose proof (refreshRun_allocations s now key run) as Hr.
    destruct (refreshRun _ _ _ _). simplify_eq. simpl in Hr. by rewrite Hr.
  - unfold Preempt in Hop. case_decide; [by simplify_eq|].
    destruct (head _) as [[key run]|]; by simplify_eq.
  - apply Release_inv in Hop as [->| ->]; [done|]. apply delete_subseteq.
Qed.

Lemma allocateLocked_next `{MapIter} s c s' r :
  allocateLocked s c = (s', r) → sim_nextRunID s' = sim_nextRunID s.
Proof. unfold allocateLocked. intros. repeat case_match; by simplify_eq. Qed.

(** ** Every interleaving *)

(** What the answer to a call is: the devices it asked for, each once, in its name. *)
Definition answers (c : allocateCall) (a : Allocation) : Prop :=
  a_WorkloadID a = ac_workloadID c ∧ Z.of_nat (length (a_DeviceIDs a)) = ac_gpuCount c ∧
  NoDup (a_DeviceIDs a).

Record conc_inv (n : nat) (x : conc) : Prop := {
  ci_wf : sim_wf (cs_sim x);
  ci_next : sim_nextRunID (cs_sim x) ≤ Z.of_nat n;
  ci_checked : ∀ t c, cs_calls x !! t = Some (Checked c) → well_formed c;
  ci_returned : ∀ t c a, cs_calls x !! t = Some (Returned c (Ok a)) → answers c a;
}.

Lemma lookup_set_call x t s k t' :
  cs_calls (set_call x t s k) !! t' = if decide (t = t') then Some k else cs_calls x !! t'.
Proof. unfold set_call; simpl. by rewrite lookup_insert. Qed.

Lemma allocateLocked_answers `{MapIter} s c s' a :
  sim_wf s → well_formed c → allocateLocked s c = (s', Ok a) → answers c a.
Proof.
  intros Hwf (_ & Hg & _) (? & _ & ? & Hsub)%allocateLocked_inv; [|done]. split_and!; try done.
  eapply submseteq_NoDup; [exact Hsub|by apply free_for_NoDup].
Qed.

Lemma conc_inv_step n x x' :
  Z.of_nat n < int64_max → conc_inv n x → conc_step x x' → conc_inv (S n) x'.
Proof.
  intros Hn [Hwf Hnx Hc Hr] Hs.
  destruct Hs as [x t c e Ht He|x t c Ht He|I x t c s' r Ht Hl|x s' Ho].
  - constructor; [done|simpl; lia|..]; intros t'; rewrite lookup_set_call; case_decide; eauto; done.
  - constructor; [done|simpl; lia|..]; intros t'; rewrite lookup_set_call; case_decide; eauto; [|done].
    intros c' [= <-]. by apply allocateGuards_None in He as [? _].
  - pose proof (Hc t c Ht) as Hw. pose proof (allocateLocked_next _ _ _ _ Hl).
    constructor; simpl; [by eapply allocateLocked_preserves|lia|..]; intros t';
      rewrite lookup_insert; case_decide; eauto; [done|].
    intros c' a [= <- ->]. by eapply allocateLocked_answers.
  - pose proof (lock_step_sim _ _ Ho) as Hs. pose proof (wf_next _ Hwf).
    pose proof (sim_step_next _ _ Hs ltac:(lia) ltac:(lia)).
    constructor; simpl; eauto; [|lia]. eapply sim_step_preserves; [|done|done]. lia.
Qed.

Lemma conc_reach_inv P n x : conc_reach P n x → conc_inv n x.
Proof.
  induction 1 as [|n x x' _ IH Hs _ Hn]; [|by eapply conc_inv_step].
  constructor; simpl; [apply NewSimulator_wf|lia|done|done].
Qed.

(** ** Serialised callers *)

(** A call that waits for the lock has found its workload without an allocation, and nobody else
    gives it one. *)
Lemma serialised_pending n x t c :
  serialised n x → cs_calls x !! t = Some (Checked c) →
  sim_allocations (cs_sim x) !! ac_workloadID c = None.
Proof.
  intros Hx. revert t c. induction Hx as [|n x x' Hx IH Hs Hser Hn]; [done|].
  assert (Hpre : serial x) by (inversion Hx; subst; [intros ??????|]; done).
  pose proof (conc_reach_inv _ _ _ Hx) as Hinv. intros t' c'.
  destruct Hs as [x t c e Ht He|x t c Ht He|I x t c s' r Ht Hl|x s' Ho].
  - rewrite lookup_set_call; case_decide; [done|]. apply IH.
  - rewrite lookup_set_call; case_decide; [|apply IH]. intros [= <-].
    by apply allocateGuards_None in He as (_ & ? & _).
  - rewrite lookup_set_call; case_decide as Hne; [done|]. intros Hc'.
    destruct (ci_checked _ _ Hinv t c Ht) as (_ & Hg & _).
    apply allocateLocked_inv in Hl; [|done]. destruct r as [a|e]; [|subst; by eapply IH].
    destruct Hl as (_ & -> & _). simpl. rewrite lookup_insert_ne; [by eapply IH|].
    intros Hw. apply Hne. by eapply Hpre.
  - intros Hc'. eapply lookup_weaken_None; [exact (IH _ _ Hc')|by apply lock_step_allocations].
Qed.

(** Then the locked body does what the whole call would do at that moment. *)
Lemma locked_as_atomic `{MapIter} s c s' r :
  well_formed c → sim_allocations s !! ac_workloadID c = None → allocateLocked s c = (s', r) →
  ∃ r', allocateAtomic s c = (s', r') ∧ same_answer r r'.
Proof.
  intros Hw Ha Hl. rewrite AllocateWithOptions_split.
  destruct (allocateGuards s c) as [e|] eqn:He.
  - destruct (decide (sim_pools s = ∅)) as [Hp|Hp].
    + apply allocateLocked_no_fleet in Hl as (-> & e' & ->); [by exists (Err e)|by apply Hw|done].
    + by rewrite (proj2 (allocateGuards_None s c)) in He.
  - exists r. split; [done|]. by destruct r.
Qed.

Lemma represents_step n x x' a :
  serialised n x → conc_step x x' → represents x a →
  ∃ a', (a' = a ∨ spec_step a a') ∧ represents x' a'.
Proof.
  intros Hx Hs [Hsim Hr]. pose proof (conc_reach_inv _ _ _ Hx) as Hinv.
  assert (Hset : ∀ t s c r r', same_answer r r' → represents (set_call x t s (Returned c r))
    {| sp_sim := s; sp_calls := <[t := (c, r')]> (sp_calls a) |}).
  { intros t s c r r' Hans. split; [done|]. intros t'. rewrite lookup_set_call. simpl.
    rewrite lookup_insert. case_decide; [by exists r'|apply Hr]. }
  destruct Hs as [x t c e Ht He|x t c Ht He|I x t c s' r Ht Hl|x s' Ho].
  - eexists. split; [right|by apply (Hset t (cs_sim x) c (Err e) (Err e))].
    apply (spec_call map_iter_canonical); [pose proof (Hr t) as Hrt; by rewrite Ht in Hrt|].
    rewrite AllocateWithOptions_split, <- Hsim. by rewrite He.
  - exists a. split; [by left|]. split; [done|]. intros t'. rewrite lookup_set_call.
    case_decide as Heq; [|apply Hr]. subst t'. pose proof (Hr t) as Hrt. by rewrite Ht in Hrt.
  - destruct (locked_as_atomic (cs_sim x) c s' r (ci_checked _ _ Hinv t c Ht)
      (serialised_pending n x t c Hx Ht) Hl) as (r' & Hat & Hans).
    eexists. split; [right|by apply Hset].
    apply (spec_call I); [pose proof (Hr t) as Hrt; by rewrite Ht in Hrt|by rewrite <- Hsim].
  - exists {| sp_sim := s'; sp_calls := sp_calls a |}. split; [|by split].
    right. apply spec_other. by rewrite <- Hsim.
Qed.

Lemma spec_step_sim a a' : spec_step a a' → sim_step (sp_sim a) (sp_sim a').
Proof. destruct 1; simpl; [by eapply step_allocate|by apply lock_step_sim]. Qed.

(** ** Properties *)

(** C6: whatever calls interleave, overlapping allocations of one workload included, every caller
    that is given devices is given as many as it asked for, each once; and the allocations the
    simulator records never share a device: the devices in use are collected under the lock. *)
Theorem interleaved_allocations_disjoint (n : nat) (x : conc) :
  interleaved n x →
  (∀ t c a, cs_calls x !! t = Some (Returned c (Ok a)) → answers c a) ∧
  (∀ w a, sim_allocations (cs_sim x) !! w = Some a → NoDup (a_DeviceIDs a)) ∧
  (∀ w1 w2 a1 a2 id, sim_allocations (cs_sim x) !! w1 = Some a1 →
     sim_allocations (cs_sim x) !! w2 = Some a2 →
     id ∈ a_DeviceIDs a1 → id ∈ a_DeviceIDs a2 → w1 = w2).
Proof.
  intros Hx%conc_reach_inv. split; [exact (ci_returned _ _ Hx)|].
  exact (allocations_disjoint _ (ci_wf _ _ Hx)).
Qed.

(** C13: as long as no two allocations of one workload overlap, the guards read outside the lock do no
    harm: every interleaved execution is one of the program in which each call is a single atomic
    step, with the same state of the simulator and the same answer (or an error, possibly worded
    differently) to every caller; its states are those of [sim_reach]. *)
Theorem serialised_refines_atomic (n : nat) (x : conc) :
  serialised n x →
  ∃ m a, (m ≤ n)%nat ∧ nsteps spec_step m spec_init a ∧ sim_reach m (cs_sim x) ∧ represents x a.
Proof.
  intros Hx. induction Hx as [|n x x' Hx (m & a & Hm & Ha & Hr & Hrep) Hs Hser Hn].
  - exists 0%nat, spec_init. split_and!; [lia|constructor|constructor|]. by split.
  - destruct (represents_step n x x' a Hx Hs Hrep) as (a' & Hstep & Hrep').
    pose proof (proj1 Hrep) as He. pose proof (proj1 Hrep') as He'.
    destruct Hstep as [->|Hstep].
    + exists m, a. split_and!; [lia|done| |done]. by rewrite He', <- He.
    + exists (S m), a'. split_and!; [lia|by eapply nsteps_r| |done].
      rewrite He'. eapply reach_step; [exact Hr| |lia]. rewrite He. by apply spec_step_sim.
Qed.

(** ** Overlapping allocations of one workload *)

Module RaceExample.
Import SimExample.
(** Four devices; two requests of two devices for one workload, and one for another. *)
Definition same (n : Z) : allocateCall :=
  {| ac_workloadID := "ns/w"; ac_gpuCount := n; ac_memMiB := 40000; ac_opts := firstFitOptions |}.
Definition later : allocateCall :=
  {| ac_workloadID := "ns/v"; ac_gpuCount := 2; ac_memMiB := 40000; ac_opts := firstFitOptions |}.

Definition x0 : conc := {| cs_sim := s1; cs_calls := ∅ |}.
Definition guard (t : nat) (c : allocateCall) (x : conc) : conc := set_call x t (cs_sim x) (Checked c).
Definition lock (t : nat) (c : allocateCall) (x : conc) : conc :=
  set_call x t (allocateLocked (cs_sim x) c).1 (Returned c (allocateLocked (cs_sim x) c).2).

(** Both requests pass the guards before either takes the lock. *)
Definition x1 : conc := lock 1 (same 2) (lock 0 (same 2) (guard 1 (same 2) (guard 0 (same 2) x0))).
Definition x2 : conc := lock 2 later (guard 2 later x1).

Lemma guard_step t c x :
  cs_calls x !! t = None → allocateGuards (cs_sim x) c = None → conc_step x (guard t c x).
Proof. apply conc_checked. Qed.

Lemma lock_locked t c x : cs_calls x !! t = Some (Checked c) → conc_step x (lock t c x).
Proof. intros Ht. apply (conc_locked I); [done|apply surjective_pairing]. Qed.

Lemma x0_reach P : P x0 → conc_reach P 1 x0.
Proof.
  intros HP. eapply conc_next; [apply conc_start| |done|by vm_compute].
  apply (conc_other conc_init s1), (lock_register _ "ns/pool" spec _ None). by vm_compute.
Qed.

Lemma x2_reach : interleaved 7 x2.
Proof.
  assert (Hn : ∀ n : nat, (n < 8)%nat → Z.of_nat n < int64_max) by int_lia.
  repeat (eapply conc_next; [|first [apply guard_step; by vm_compute|apply lock_locked; by vm_compute]
    |done|apply Hn; lia]). by apply x0_reach.
Qed.

Lemma serial_reach : serialised 3 (lock 0 (same 2) (guard 0 (same 2) x0)).
Proof.
  assert (Hn : ∀ n : nat, (n < 8)%nat → Z.of_nat n < int64_max) by int_lia.
  assert (Hs : ∀ k t1 c1, (<[0%nat := k]> (∅ : gmap nat callState)) !! t1 = Some (Checked c1) → t1 = 0%nat).
  { intros k t1 c1 H%lookup_insert_Some. destruct H as [[-> _]|[_ H]]; [done|].
    by rewrite lookup_empty in H. }
  repeat (eapply conc_next; [|first [apply guard_step; by vm_compute|apply lock_locked; by vm_compute]
    | |apply Hn; lia]).
  - apply x0_reach. by intros ??????.
  - intros t1 t2 c1 c2 H1%Hs H2%Hs _. congruence.
  - intros t1 t2 c1 c2 H1 H2 _. simpl in H1, H2. rewrite insert_insert_eq in H1, H2.
    apply Hs in H1, H2. congruence.
Qed.
End RaceExample.

Import SimExample RaceExample.

(** Two overlapping allocations of one workload both succeed, though the second finds the workload
    with an allocation: the first caller's devices are forgotten, and the next workload is given
    them while the first caller still holds its answer. *)
Example overlapping_allocations_lose_devices :
  interleaved 7 x2 ∧
  ∃ a0 a1 a2, cs_calls x2 !! 0%nat = Some (Returned (same 2) (Ok a0)) ∧
    cs_calls x2 !! 1%nat = Some (Returned (same 2) (Ok a1)) ∧
    cs_calls x2 !! 2%nat = Some (Returned later (Ok a2)) ∧
    sim_allocations (cs_sim x2) !! "ns/w" = Some a1 ∧ a_DeviceIDs a0 = a_DeviceIDs a2.
Proof.
  split; [exact x2_reach|]. do 3 eexists. split_and!; vm_compute; reflexivity.
Qed.

Lemma interleaved_allocations_disjoint_witness :
  ∃ a, cs_calls x2 !! 0%nat = Some (Returned (same 2) (Ok a)) ∧ answers (same 2) a.
Proof.
  pose proof (proj1 (interleaved_allocations_disjoint 7 x2 x2_reach) 0%nat (same 2)) as H.
  destruct (cs_calls x2 !! 0%nat) as [[c|c [a|e]]|] eqn:E; vm_compute in E; try discriminate E.
  injection E as <- <-. eexists. split; [reflexivity|]. apply H. reflexivity.
Defined.

Lemma serialised_refines_atomic_witness :
  ∃ m a, (m ≤ 3)%nat ∧ nsteps spec_step m spec_init a ∧
    represents (lock 0 (same 2) (guard 0 (same 2) x0)) a.
Proof.
  destruct (serialised_refines_atomic 3 _ serial_reach) as (m & a & Hm & Ha & _ & Hr).
  exists m, a. exact (conj Hm (conj Ha Hr)).
Defined.
