(* ===== verification/Resources.v ===== *)
(** * Resources (api/v1alpha1, internal/controller/conversion.go, buildRuntimeInput)

    The custom resources with the fields the program uses, and their conversions into the types of
    the scheduler and of the simulator. *)

From stdpp Require Import prelude gmap strings pretty.
From S2P Require Import Prelude GoFloat SimModel SchedInputs.

Local Open Scope Z_scope.
Local Open Scope go_scope.

(** ** Object metadata *)

Record NamespacedName := { nn_Namespace : string; nn_Name : string }.

#[export] Instance NamespacedName_eq_dec : EqDecision NamespacedName.
Proof. solve_decision. Defined.

(** The part of [metav1.ObjectMeta] the program reads or writes; [om_ResourceVersion] is the opaque
    version of the API server. *)
Record ObjectMeta := {
  om_Namespace : string;
  om_Name : string;
  om_Generation : Z;
  om_ResourceVersion : string;
  om_CreationTimestamp : Time;
  om_DeletionTimestamp : option Time;
  om_Annotations : option (gmap string string);
  om_Finalizers : list string;
}.

Definition key_of (m : ObjectMeta) : NamespacedName :=
  {| nn_Namespace := om_Namespace m; nn_Name := om_Name m |}.

(** [NamespacedName.String()] and the ids [namespace/name] of the program. *)
Definition nn_String (k : NamespacedName) : string := nn_Namespace k +:+ "/" +:+ nn_Name k.

Record Condition := {
  cd_Type : string;
  cd_Status : string;
  cd_ObservedGeneration : Z;
  cd_LastTransitionTime : Time;
  cd_Reason : string;
  cd_Message : string;
}.

(** ** GPUWorkload *)

(** The phases, with [PhaseNone] for the empty string of a new object; the validation of the
    resource admits no others. *)
Inductive GPUWorkloadPhase :=
| PhaseNone
| GPUWorkloadPhaseQueued
| GPUWorkloadPhaseScheduled
| GPUWorkloadPhaseRunning
| GPUWorkloadPhaseSucceeded
| GPUWorkloadPhaseFailed
| GPUWorkloadPhasePreempted.

#[export] Instance GPUWorkloadPhase_eq_dec : EqDecision GPUWorkloadPhase.
Proof. solve_decision. Defined.

Record TrainingRuntimeSpec := {
  trs_GlobalBatchSize : Z;
  trs_MicroBatchSize : Z;
  trs_GradAccumSteps : Z;
  trs_SequenceLength : Z;
}.

Record InferenceRuntimeSpec := { infs_BatchSize : Z }.

Record EvalRuntimeSpec := {
  evs_BatchSize : Z;
  evs_MetricOverheadPct : float64;
  evs_ValidationOverheadPct : float64;
}.

Record FineTuneRuntimeSpec := {
  fts_GlobalBatchSize : Z;
  fts_MicroBatchSize : Z;
  fts_GradAccumSteps : Z;
  fts_WarmStartOverheadPct : float64;
  fts_CheckpointLoadOverheadPct : float64;
}.

Record RLHFRuntimeSpec := {
  rls_RolloutBatchSize : Z;
  rls_RewardBatchSize : Z;
  rls_UpdateBatchSize : Z;
  rls_PolicyUpdateSteps : Z;
}.

Record EmbeddingRuntimeSpec := {
  ems_BatchSize : Z;
  ems_VectorDimension : Z;
  ems_AvgTokenLength : Z;
}.

Record DataPreprocessRuntimeSpec := {
  dps_InputBytes : Z;
  dps_TokenizationOverheadPct : float64;
  dps_AugmentationOverheadPct : float64;
}.

Record DistillationRuntimeSpec := {
  dis_TeacherProfile : string;
  dis_BatchSize : Z;
  dis_TeacherForwardOverheadPct : float64;
}.

Record JitterConfigSpec := { js_Enabled : bool; js_Pct : float64; js_Seed : option Z }.

Record GPUWorkloadSpec := {
  ws_Tenant : string;
  ws_Priority : Z;
  ws_GPUCount : Z;
  ws_GPUMemoryMiB : Z;
  ws_Tokens : Z;
  ws_Profile : string;
  ws_MaxRuntimeSeconds : option Z;
  ws_Kind : string;
  ws_Training : option TrainingRuntimeSpec;
  ws_Inference : option InferenceRuntimeSpec;
  ws_Eval : option EvalRuntimeSpec;
  ws_FineTune : option FineTuneRuntimeSpec;
  ws_RLHF : option RLHFRuntimeSpec;
  ws_Embedding : option EmbeddingRuntimeSpec;
  ws_DataPreprocess : option DataPreprocessRuntimeSpec;
  ws_Distillation : option DistillationRuntimeSpec;
  ws_Jitter : option JitterConfigSpec;
}.

Record GPUWorkloadStatus := {
  wst_Phase : GPUWorkloadPhase;
  wst_QueuedAt : option Time;
  wst_Conditions : list Condition;
}.

Record GPUWorkload := {
  w_Meta : ObjectMeta;
  w_Spec : GPUWorkloadSpec;
  w_Status : GPUWorkloadStatus;
}.

(** Equality of workloads is decidable. *)
#[export] Instance ObjectMeta_eq_dec : EqDecision ObjectMeta.
Proof. solve_decision. Defined.
#[export] Instance Condition_eq_dec : EqDecision Condition.
Proof. solve_decision. Defined.
#[export] Instance TrainingRuntimeSpec_eq_dec : EqDecision TrainingRuntimeSpec.
Proof. solve_decision. Defined.
#[export] Instance InferenceRuntimeSpec_eq_dec : EqDecision InferenceRuntimeSpec.
Proof. solve_decision. Defined.
#[export] Instance EvalRuntimeSpec_eq_dec : EqDecision EvalRuntimeSpec.
Proof. solve_decision. Defined.
#[export] Instance FineTuneRuntimeSpec_eq_dec : EqDecision FineTuneRuntimeSpec.
Proof. solve_decision. Defined.
#[export] Instance RLHFRuntimeSpec_eq_dec : EqDecision RLHFRuntimeSpec.
Proof. solve_decision. Defined.
#[export] Instance EmbeddingRuntimeSpec_eq_dec : EqDecision EmbeddingRuntimeSpec.
Proof. solve_decision. Defined.
#[export] Instance DataPreprocessRuntimeSpec_eq_dec : EqDecision DataPreprocessRuntimeSpec.
Proof. solve_decision. Defined.
#[export] Instance DistillationRuntimeSpec_eq_dec : EqDecision DistillationRuntimeSpec.
Proof. solve_decision. Defined.
#[export] Instance JitterConfigSpec_eq_dec : EqDecision JitterConfigSpec.
Proof. solve_decision. Defined.
#[export] Instance GPUWorkloadSpec_eq_dec : EqDecision GPUWorkloadSpec.
Proof. solve_decision. Defined.
#[export] Instance GPUWorkloadStatus_eq_dec : EqDecision GPUWorkloadStatus.
Proof. solve_decision. Defined.
#[export] Instance GPUWorkload_eq_dec : EqDecision GPUWorkload.
Proof. solve_decision. Defined.

Definition phase_of (w : GPUWorkload) : GPUWorkloadPhase := wst_Phase (w_Status w).

Definition with_phase (w : GPUWorkload) (p : GPUWorkloadPhase) : GPUWorkload :=
  {| w_Meta := w_Meta w; w_Spec := w_Spec w;
     w_Status := {| wst_Phase := p; wst_QueuedAt := wst_QueuedAt (w_Status w);
                    wst_Conditions := wst_Conditions (w_Status w) |} |}.

Definition with_meta (w : GPUWorkload) (m : ObjectMeta) : GPUWorkload :=
  {| w_Meta := m; w_Spec := w_Spec w; w_Status := w_Status w |}.

(** [fmt.Sprintf("%s/%s", workload.Namespace, workload.Name)] *)
Definition workload_id (w : GPUWorkload) : string := nn_String (key_of (w_Meta w)).

(** ** GPUNodePool and TenantQuota *)

Record PoolSpec := {
  ps_NodeCount : Z;
  ps_DevicesPerNode : Z;
  ps_MemoryMiBPerDevice : Z;
  ps_Profile : string;
  ps_DeviceType : option string;
}.

Record GPUNodePoolStatus := {
  pst_TotalDevices : Z;
  pst_AllocatedDevices : Z;
  pst_AvailableDevices : Z;
  pst_UtilizationPct : Z;
}.

Record GPUNodePool := {
  p_Meta : ObjectMeta;
  p_Spec : PoolSpec;
  p_Status : GPUNodePoolStatus;
}.

Record TenantQuotaSpec := {
  tqs_Tenant : string;
  tqs_MaxGPUs : Z;
  tqs_MaxMemoryMiB : Z;
  tqs_Weight : Z;
}.

Record TenantQuotaResource := { tq_Meta : ObjectMeta; tq_Spec : TenantQuotaSpec }.

(** ** conversion.go *)

(** The eight kinds map to the scheduler's constants of the same value, any other to itself. *)
Definition MapWorkloadKind (kind : string) : string :=
  if decide (kind = "training") then WorkloadKindTraining
  else if decide (kind = "inference") then WorkloadKindInference
  else if decide (kind = "eval") then WorkloadKindEval
  else if decide (kind = "fine_tune") then WorkloadKindFineTune
  else if decide (kind = "rlhf") then WorkloadKindRLHF
  else if decide (kind = "embedding") then WorkloadKindEmbedding
  else if decide (kind = "data_preprocess") then WorkloadKindDataPreprocess
  else if decide (kind = "distillation") then WorkloadKindDistillation
  else kind.

Definition GPUWorkloadToQueuedWorkload (w : GPUWorkload) (workloadID : string) (queuedAt : Time)
    : QueuedWorkload :=
  {| q_WorkloadID := workloadID; q_Tenant := ws_Tenant (w_Spec w);
     q_Priority := ws_Priority (w_Spec w); q_QueuedAt := queuedAt;
     q_GPUCount := ws_GPUCount (w_Spec w); q_GPUMemoryMiB := ws_GPUMemoryMiB (w_Spec w);
     q_Profile := ToLower (TrimSpace (ws_Profile (w_Spec w))); q_Tokens := ws_Tokens (w_Spec w);
     q_Kind := MapWorkloadKind (ws_Kind (w_Spec w)) |}.

Definition GPUWorkloadToRunningWorkload (w : GPUWorkload) (workloadID : string) (startedAt : Time)
    : RunningWorkload :=
  {| r_WorkloadID := workloadID; r_Tenant := ws_Tenant (w_Spec w);
     r_Priority := ws_Priority (w_Spec w); r_StartedAt := startedAt;
     r_GPUCount := ws_GPUCount (w_Spec w); r_GPUMemoryMiB := ws_GPUMemoryMiB (w_Spec w);
     r_Profile := ToLower (TrimSpace (ws_Profile (w_Spec w))); r_Tokens := ws_Tokens (w_Spec w);
     r_Kind := MapWorkloadKind (ws_Kind (w_Spec w)) |}.

(** ** buildRuntimeInput (gpuworkload_controller.go) *)

Definition buildRuntimeInput (workloadID : string) (workload : GPUWorkload) : RuntimeInput :=
  let spec := w_Spec workload in
  {| ri_WorkloadID := workloadID;
     ri_Tokens := ws_Tokens spec;
     ri_Profile := ToLower (TrimSpace (ws_Profile spec));
     ri_Kind := MapWorkloadKind (ws_Kind spec);
     ri_Training :=
       (λ t, {| tr_GlobalBatchSize := trs_GlobalBatchSize t;
                tr_MicroBatchSize := trs_MicroBatchSize t;
                tr_GradAccumSteps := trs_GradAccumSteps t;
                tr_SequenceLength := trs_SequenceLength t |}) <$> ws_Training spec;
     ri_Inference := (λ i, {| inf_BatchSize := infs_BatchSize i |}) <$> ws_Inference spec;
     ri_Eval :=
       (λ e, {| ev_BatchSize := evs_BatchSize e; ev_MetricOverheadPct := evs_MetricOverheadPct e;
                ev_ValidationOverheadPct := evs_ValidationOverheadPct e |}) <$> ws_Eval spec;
     ri_FineTune :=
       (λ f, {| ft_GlobalBatchSize := fts_GlobalBatchSize f;
                ft_MicroBatchSize := fts_MicroBatchSize f;
                ft_GradAccumSteps := fts_GradAccumSteps f;
                ft_WarmStartOverheadPct := fts_WarmStartOverheadPct f;
                ft_CheckpointLoadOverheadPct := fts_CheckpointLoadOverheadPct f |})
         <$> ws_FineTune spec;
     ri_RLHF :=
       (λ r, {| rl_RolloutBatchSize := rls_RolloutBatchSize r;
                rl_RewardBatchSize := rls_RewardBatchSize r;
                rl_UpdateBatchSize := rls_UpdateBatchSize r;
                rl_PolicyUpdateSteps := rls_PolicyUpdateSteps r |}) <$> ws_RLHF spec;
     ri_Embedding :=
       (λ e, {| em_BatchSize := ems_BatchSize e; em_VectorDimension := ems_VectorDimension e;
                em_AvgTokenLength := ems_AvgTokenLength e |}) <$> ws_Embedding spec;
     ri_DataPreprocess :=
       (λ d, {| dp_InputBytes := dps_InputBytes d;
                dp_TokenizationOverheadPct := dps_TokenizationOverheadPct d;
                dp_AugmentationOverheadPct := dps_AugmentationOverheadPct d |})
         <$> ws_DataPreprocess spec;
     ri_Distillation :=
       (λ d, {| di_TeacherProfile := ToLower (TrimSpace (dis_TeacherProfile d));
                di_BatchSize := dis_BatchSize d;
                di_TeacherForwardOverheadPct := dis_TeacherForwardOverheadPct d |})
         <$> ws_Distillation spec;
     ri_Jitter :=
       (λ j, {| j_Enabled := js_Enabled j; j_Pct := js_Pct j; j_Seed := default 0 (js_Seed j) |})
         <$> ws_Jitter spec |}.

(** The kinds of the API are those of the simulator. *)
Lemma MapWorkloadKind_id k : MapWorkloadKind k = k.
Proof. unfold MapWorkloadKind. repeat (case_decide; [by subst|]). done. Qed.

(** ** aggregateFleetFromPools (scheduler_loop.go) *)

Definition zeroCapacity : ProfileFreeCapacity :=
  {| c_FreeDevices := 0; c_FreeMemoryMiB := 0; c_MemoryMiBPerDevice := 0 |}.

Record fleet_acc := {
  fa_devices : Z;
  fa_memory : Z;
  fa_profiles : gmap string ProfileFreeCapacity;
}.

Definition addPool (out : fleet_acc) (p : GPUNodePool) : fleet_acc :=
  let profileKey := ToLower (TrimSpace (ps_Profile (p_Spec p))) in
  if decide (profileKey = "") then out
  else
    let avail := pst_AvailableDevices (p_Status p) in
    let memPerDevice := ps_MemoryMiBPerDevice (p_Spec p) in
    let existing := default zeroCapacity (fa_profiles out !! profileKey) in
    {| fa_devices := fa_devices out [+] avail;
       fa_memory := fa_memory out [+] (avail [*] memPerDevice);
       fa_profiles :=
         <[profileKey :=
             {| c_FreeDevices := c_FreeDevices existing [+] avail;
                c_FreeMemoryMiB := c_FreeMemoryMiB existing [+] (avail [*] memPerDevice);
                c_MemoryMiBPerDevice := if c_MemoryMiBPerDevice existing =? 0 then memPerDevice
                                        else c_MemoryMiBPerDevice existing |}]>
           (fa_profiles out) |}.

Definition aggregateFleetFromPools (pools : list GPUNodePool) : FleetFreeCapacity :=
  let out := foldl addPool {| fa_devices := 0; fa_memory := 0; fa_profiles := ∅ |} pools in
  {| f_TotalFreeDevices := fa_devices out; f_TotalFreeMemoryMiB := fa_memory out;
     f_ByProfile := Some (fa_profiles out) |}.

(** ** The aggregated fleet *)

Definition pool_key (p : GPUNodePool) : string := ToLower (TrimSpace (ps_Profile (p_Spec p))).
Definition pool_avail (p : GPUNodePool) : Z := pst_AvailableDevices (p_Status p).
Definition pool_memory (p : GPUNodePool) : Z := pool_avail p * ps_MemoryMiBPerDevice (p_Spec p).
Definition named_pools (pools : list GPUNodePool) : list GPUNodePool :=
  filter (λ p, pool_key p ≠ "") pools.
(** The pools of one profile. *)
Definition pools_of (k : string) (pools : list GPUNodePool) : list GPUNodePool :=
  filter (λ p, pool_key p = k) (named_pools pools).

(** What the fields of a pool hold: non-negative free devices, positive memory. *)
Definition pool_ok (p : GPUNodePool) : Prop :=
  0 ≤ pool_avail p ≤ int32_max ∧ 0 < ps_MemoryMiBPerDevice (p_Spec p) ≤ int32_max.

Record fleet_ok (pools : list GPUNodePool) (out : fleet_acc) : Prop := {
  fo_devices : fa_devices out = Zsum pool_avail (named_pools pools);
  fo_memory : fa_memory out = Zsum pool_memory (named_pools pools);
  fo_sum_devices : Zsum (λ e, c_FreeDevices e.2) (map_to_list (fa_profiles out)) = fa_devices out;
  fo_sum_memory : Zsum (λ e, c_FreeMemoryMiB e.2) (map_to_list (fa_profiles out)) = fa_memory out;
  fo_profile : ∀ k cap, fa_profiles out !! k = Some cap →
    TrimSpace k ≠ "" ∧ c_FreeDevices cap = Zsum pool_avail (pools_of k pools) ∧
    c_FreeMemoryMiB cap = Zsum pool_memory (pools_of k pools) ∧
    0 < c_MemoryMiBPerDevice cap ≤ int32_max;
  fo_dom : ∀ k, fa_profiles out !! k = None → pools_of k pools = [];
}.

Lemma Zsum_map_default (f : ProfileFreeCapacity → Z) (m : gmap string ProfileFreeCapacity) k v :
  f zeroCapacity = 0 →
  Zsum (λ e, f e.2) (map_to_list (<[k := v]> m)) =
  Zsum (λ e, f e.2) (map_to_list m) - f (default zeroCapacity (m !! k)) + f v.
Proof.
  intros H0. destruct (m !! k) as [old|] eqn:Hk; simpl.
  - exact (Zsum_map_insert (λ e, f e.2) m k v old Hk).
  - rewrite map_to_list_insert, Zsum_cons by done. simpl. lia.
Qed.

Lemma pools_of_snoc k l p :
  pools_of k (l ++ [p]) =
  pools_of k l ++ (if decide (pool_key p ≠ "" ∧ pool_key p = k) then [p] else []).
Proof.
  unfold pools_of, named_pools. rewrite !filter_app. f_equal.
  rewrite filter_cons, filter_nil. repeat case_decide; rewrite ?filter_cons, ?filter_nil;
    repeat case_decide; tauto.
Qed.

Lemma pool_sums_bound pools k :
  Forall pool_ok pools →
  0 ≤ Zsum pool_avail (pools_of k pools) ≤ Zsum pool_avail (named_pools pools) ∧
  0 ≤ Zsum pool_memory (pools_of k pools) ≤ Zsum pool_memory (named_pools pools).
Proof.
  rewrite Forall_forall. intros Hok.
  assert (Hnn : ∀ p, p ∈ named_pools pools → 0 ≤ pool_avail p ∧ 0 ≤ pool_memory p).
  { intros p [_ Hp]%list_elem_of_filter. destruct (Hok p Hp). unfold pool_memory. split; [lia|nia]. }
  assert (Hsub : pools_of k pools ⊆+ named_pools pools)
    by apply sublist_submseteq, sublist_filter.
  split; (split; [apply Zsum_nonneg|apply Zsum_submseteq; [|done]]);
    intros p Hp; try (eapply elem_of_submseteq in Hp; [|exact Hsub]); apply Hnn; done.
Qed.

Lemma aggregate_ok pools :
  Forall pool_ok pools →
  Zsum pool_avail (named_pools pools) ≤ int64_max →
  Zsum pool_memory (named_pools pools) ≤ int64_max →
  fleet_ok pools (foldl addPool {| fa_devices := 0; fa_memory := 0; fa_profiles := ∅ |} pools).
Proof.
  induction pools as [|p l IH] using rev_ind; intros Hok Hd Hm.
  { constructor; try done; intros k cap; by rewrite lookup_empty. }
  apply Forall_app in Hok as [Hok Hp]. apply Forall_cons in Hp as [[Hpa Hpm] _].
  assert (Hpmem : 0 ≤ pool_memory p ≤ 2 ^ 62)
    by (unfold pool_memory, int32_max in *; nia).
  unfold named_pools in Hd, Hm. rewrite filter_app, filter_cons, filter_nil in Hd, Hm.
  fold (named_pools l) in Hd, Hm. rewrite foldl_app. simpl.
  unfold addPool. fold (pool_key p) (pool_avail p).
  destruct (decide (pool_key p = "")) as [Hk|Hk].
  { rewrite decide_False, app_nil_r in Hd, Hm by tauto. destruct (IH Hok Hd Hm).
    assert (Hn : named_pools (l ++ [p]) = named_pools l).
    { unfold named_pools. rewrite filter_app, filter_cons, filter_nil, decide_False by tauto.
      by rewrite app_nil_r. }
    constructor; rewrite ?Hn; try done; unfold pools_of; rewrite Hn; done. }
  rewrite decide_True in Hd, Hm by done. rewrite Zsum_app in Hd, Hm. simpl in Hd, Hm.
  destruct (pool_sums_bound l (pool_key p) Hok) as [Hb1 Hb2].
  pose proof (IH Hok ltac:(lia) ltac:(lia)) as [].
  set (out := foldl _ _ l) in *.
  assert (Hn : named_pools (l ++ [p]) = named_pools l ++ [p]).
  { unfold named_pools. by rewrite filter_app, filter_cons, filter_nil, decide_True. }
  assert (Hex : c_FreeDevices (default zeroCapacity (fa_profiles out !! pool_key p))
                = Zsum pool_avail (pools_of (pool_key p) l) ∧
                c_FreeMemoryMiB (default zeroCapacity (fa_profiles out !! pool_key p))
                = Zsum pool_memory (pools_of (pool_key p) l) ∧
                0 ≤ c_MemoryMiBPerDevice (default zeroCapacity (fa_profiles out !! pool_key p))
                  ≤ int32_max).
  { destruct (fa_profiles out !! pool_key p) as [cap|] eqn:Hc; simpl.
    - destruct (fo_profile0 _ _ Hc) as (_ & ? & ? & ?). split_and!; done || lia.
    - rewrite (fo_dom0 _ Hc). simpl. unfold int32_max. split_and!; done || lia. }
  destruct Hex as (Hex1 & Hex2 & Hex3).
  rewrite (int64_mul_id (pool_avail p)) by (fold (pool_memory p); int_lia).
  fold (pool_memory p). rewrite Hex1, Hex2, fo_devices0, fo_memory0.
  rewrite !int64_add_id by int_lia.
  constructor; simpl.
  - rewrite Hn, Zsum_app. simpl. lia.
  - rewrite Hn, Zsum_app. simpl. lia.
  - rewrite (Zsum_map_default c_FreeDevices), Hex1 by done. simpl. lia.
  - rewrite (Zsum_map_default c_FreeMemoryMiB), Hex2 by done. simpl. lia.
  - intros k cap. rewrite pools_of_snoc. intros [[<- <-]|[Hne Hc]]%lookup_insert_Some; simpl.
    + rewrite decide_True, !Zsum_app by done. simpl. split_and!; try lia.
      * unfold pool_key. by rewrite normalized_blank.
      * case_match; lia.
      * case_match; lia.
    + rewrite decide_False, app_nil_r by naive_solver. by apply fo_profile0.
  - intros k. rewrite lookup_insert_None. intros [Hc Hne]. rewrite pools_of_snoc.
    rewrite decide_False, app_nil_r by naive_solver. by apply fo_dom0.
Qed.

(** The part of [Valid] about the fleet. *)
Definition fleet_valid (fleet : FleetFreeCapacity) : Prop :=
  map_Forall valid_profile (byProfile fleet) ∧
  wrap64 (free_devices fleet) = f_TotalFreeDevices fleet ∧
  wrap64 (free_memory fleet) = f_TotalFreeMemoryMiB fleet ∧
  0 ≤ f_TotalFreeDevices fleet ∧ 0 ≤ f_TotalFreeMemoryMiB fleet.

(** The parts of it that do not depend on what the pools say: profiles have names, and the totals agree
    with the profiles, whatever wraps. *)
Definition fleet_shaped (fleet : FleetFreeCapacity) : Prop :=
  map_Forall (λ k _, TrimSpace k ≠ "") (byProfile fleet) ∧
  wrap64 (free_devices fleet) = f_TotalFreeDevices fleet ∧
  wrap64 (free_memory fleet) = f_TotalFreeMemoryMiB fleet.

(** And the parts that do: nothing is negative, and free devices have memory. *)
Definition fleet_sound (fleet : FleetFreeCapacity) : Prop :=
  map_Forall (λ _ cap, 0 ≤ c_FreeDevices cap ∧ 0 ≤ c_FreeMemoryMiB cap ∧
                       (0 < c_FreeDevices cap → 0 < c_MemoryMiBPerDevice cap)) (byProfile fleet) ∧
  0 ≤ f_TotalFreeDevices fleet ∧ 0 ≤ f_TotalFreeMemoryMiB fleet.

Lemma fleet_valid_split fleet : fleet_valid fleet ↔ fleet_shaped fleet ∧ fleet_sound fleet.
Proof.
  split.
  - intros (Hp & ? & ? & ? & ?). split; split_and!; try done; (eapply map_Forall_impl; [exact Hp|]);
      by intros k cap (? & ?).
  - intros [(Hk & ? & ?) (Hs & ? & ?)]. split_and!; try done. intros k cap Hc.
    split; [by apply (Hk k cap)|by apply (Hs k cap)].
Qed.

Lemma aggregate_shaped pools : fleet_shaped (aggregateFleetFromPools pools).
Proof.
  unfold fleet_shaped, aggregateFleetFromPools, free_devices, free_memory, byProfile. simpl.
  induction pools as [|p l IH] using rev_ind; [by split_and!; [apply map_Forall_empty|..]|].
  rewrite foldl_app. simpl. set (out := foldl _ _ l) in *. destruct IH as (Hk & Hd & Hm).
  unfold addPool. case_decide as Hkey; [done|]. simpl.
  assert (∀ sum e x, wrap64 (sum - e + wrap64 (e + x)) = wrap64 (wrap64 sum + x)) as Hw.
  { intros sum e x. rewrite (Z.add_comm (sum - e)), !wrap64_add_l. f_equal. lia. }
  split_and!.
  - apply map_Forall_insert_2; [|done]. by rewrite normalized_blank.
  - rewrite (Zsum_map_default c_FreeDevices) by done. simpl. unfold int64_add. by rewrite Hw, Hd.
  - rewrite (Zsum_map_default c_FreeMemoryMiB) by done. simpl. unfold int64_add. by rewrite Hw, Hm.
Qed.

(** What the pools of one namespace satisfy: their fields are in range and so are the totals. *)
Definition pools_ok (pools : list GPUNodePool) : Prop :=
  Forall pool_ok pools ∧
  Zsum pool_avail (named_pools pools) ≤ int64_max ∧
  Zsum pool_memory (named_pools pools) ≤ int64_max.

Lemma aggregate_fleet_valid pools : pools_ok pools → fleet_valid (aggregateFleetFromPools pools).
Proof.
  intros (Hok & Hd & Hm). pose proof (aggregate_ok pools Hok Hd Hm) as [].
  pose proof (pool_sums_bound pools "" Hok) as [? ?].
  unfold fleet_valid, aggregateFleetFromPools, free_devices, free_memory, byProfile. simpl.
  rewrite fo_sum_devices0, fo_sum_memory0, fo_devices0, fo_memory0.
  rewrite !wrap64_id by int_lia. split_and!; try done; try lia.
  intros k cap Hc. destruct (fo_profile0 k cap Hc) as (? & Hcd & Hcm & ?).
  pose proof (pool_sums_bound pools k Hok) as [? ?].
  split_and!; [done|lia|lia|lia].
Qed.

(** The fleet view built from the pool resources is exact and never invalid: for pools with
    non-negative free devices, positive memory and totals within 64 bits, the totals are the sums
    over the profiles, every profile's capacity is the sum over its pools (names compared without
    case and surrounding space), blank profiles are left out, and the fleet part of [Valid] holds. *)
Theorem aggregate_exact (pools : list GPUNodePool) :
  pools_ok pools →
  let fleet := aggregateFleetFromPools pools in
  f_TotalFreeDevices fleet = Zsum pool_avail (named_pools pools) ∧
  f_TotalFreeMemoryMiB fleet = Zsum pool_memory (named_pools pools) ∧
  (∀ k cap, byProfile fleet !! k = Some cap →
     c_FreeDevices cap = Zsum pool_avail (pools_of k pools) ∧
     c_FreeMemoryMiB cap = Zsum pool_memory (pools_of k pools)) ∧
  fleet_valid fleet.
Proof.
  intros (Hok & Hd & Hm). pose proof (aggregate_ok pools Hok Hd Hm) as [].
  simpl. split_and!; try done.
  - intros k cap Hc. by destruct (fo_profile0 k cap Hc) as (_ & ? & ? & _).
  - by apply aggregate_fleet_valid.
Qed.

(** ** Witness *)

Module ResourceExample.
Definition meta (ns name : string) : ObjectMeta :=
  {| om_Namespace := ns; om_Name := name; om_Generation := 1; om_ResourceVersion := "1";
     om_CreationTimestamp := 1; om_DeletionTimestamp := None; om_Annotations := None;
     om_Finalizers := [] |}.
Definition pool (name profile : string) (avail : Z) : GPUNodePool :=
  {| p_Meta := meta "ns" name;
     p_Spec := {| ps_NodeCount := 2; ps_DevicesPerNode := 4; ps_MemoryMiBPerDevice := 81920;
                  ps_Profile := profile; ps_DeviceType := None |};
     p_Status := {| pst_TotalDevices := 8; pst_AllocatedDevices := 8 - avail;
                    pst_AvailableDevices := avail; pst_UtilizationPct := 0 |} |}.
Definition workload (name tenant : string) (gpus mem : Z) (phase : GPUWorkloadPhase) : GPUWorkload :=
  {| w_Meta := meta "ns" name;
     w_Spec := {| ws_Tenant := tenant; ws_Priority := 0; ws_GPUCount := gpus; ws_GPUMemoryMiB := mem;
                  ws_Tokens := 1000; ws_Profile := "h100_sxm"; ws_MaxRuntimeSeconds := None;
                  ws_Kind := "training"; ws_Training := None; ws_Inference := None; ws_Eval := None;
                  ws_FineTune := None; ws_RLHF := None; ws_Embedding := None;
                  ws_DataPreprocess := None; ws_Distillation := None; ws_Jitter := None |};
     w_Status := {| wst_Phase := phase; wst_QueuedAt := Some 5; wst_Conditions := [] |} |}.
Definition pools : list GPUNodePool :=
  [pool "p1" "h100_sxm" 3; pool "p2" " H100_SXM" 4; pool "p3" "  " 2].
End ResourceExample.

Lemma example_pools_ok : pools_ok ResourceExample.pools.
Proof.
  split; [|by split; vm_compute]. unfold ResourceExample.pools.
  repeat (apply Forall_cons; split; [unfold pool_ok, pool_avail, int32_max; simpl; lia|]).
  apply Forall_nil_2.
Qed.

Lemma aggregate_exact_witness :
  f_TotalFreeDevices (aggregateFleetFromPools ResourceExample.pools) = 7.
Proof.
  rewrite (proj1 (aggregate_exact ResourceExample.pools example_pools_ok)). by vm_compute.
Defined.
