(* ===== verification/Memory.v ===== *)
(** * Go memory: pointers, slices and copies

    Elsewhere an object is a value.  In Go it is a graph of cells behind pointers and slices, and two
    objects can share cells.  This file has the heap, the operations that [DeepCopyInto] and [DeepCopy]
    are made of, and two readings of one description of an object: what can be read from a heap, sharing
    allowed, and what owns exactly the cells of a heap, no cell twice. *)

From stdpp Require Import prelude fin_maps gmap infinite.
From S2P Require Import Prelude.

Notation loc := nat (only parsing).

(** ** The heap *)

Section memory.
Context {cell : Type}.

Notation heap := (gmap loc cell).

(** [None] is a panic: a cell that is not there or holds something else. *)
Definition Heap (A : Type) : Type := heap → option (A * heap).
#[global] Instance heap_ret : MRet Heap := λ A a h, Some (a, h).
#[global] Instance heap_bind : MBind Heap := λ A B k m h, '(a, h) ← m h; k a h.

(** The types that a cell can hold, with their zero values. *)
Class Cell (A : Type) := {
  inj_cell : A → cell;
  proj_cell : cell → option A;
  zero : A;
  proj_inj : ∀ a, proj_cell (inj_cell a) = Some a;
}.

(** [new(T)], [make([]T, n)], [*p] and [*p = v] *)
Definition new {A} `{Cell A} (a : A) : Heap loc := λ h,
  let l := fresh (dom h) in Some (l, <[l := inj_cell a]> h).
Definition load {A} `{Cell A} (l : loc) : Heap A := λ h, a ← h !! l ≫= proj_cell; Some (a, h).
Definition store {A} `{Cell A} (l : loc) (a : A) : Heap () := λ h,
  match h !! l with Some _ => Some ((), <[l := inj_cell a]> h) | None => None end.

(** ** Copies *)

(** [if in == nil { return nil }; out := new(T); in.DeepCopyInto(out); return out] *)
Definition copyPtr {A} `{Cell A} (DeepCopyInto : A → Heap A) (p : option loc) : Heap (option loc) :=
  match p with
  | None => mret None
  | Some l =>
      out ← new (zero : A);
      a' ← (a ← load l; DeepCopyInto a);
      _ ← store out a';
      mret (Some out)
  end.

Fixpoint copyItems {A} (DeepCopyInto : A → Heap A) (items : list A) : Heap (list A) :=
  match items with
  | [] => mret []
  | a :: items => a' ← DeepCopyInto a; items' ← copyItems DeepCopyInto items; mret (a' :: items')
  end.

(** [if in != nil { out = make([]T, len(in)); for i := range in { in[i].DeepCopyInto(&out[i]) } }]: a
    slice is its array, a cell that holds the items. *)
Definition copySlice {A} `{Cell (list A)} (z : A) (DeepCopyInto : A → Heap A) (s : option loc)
    : Heap (option loc) :=
  match s with
  | None => mret None
  | Some l =>
      items ← load l;
      out ← new (replicate (length items) z);
      items' ← copyItems DeepCopyInto items;
      _ ← store out items';
      mret (Some out)
  end.

(** A struct without pointers. *)
Definition copyPlain {A} (a : A) : Heap A := mret a.

(** ** Two readings *)

Record reading := {
  rd_and : (heap → Prop) → (heap → Prop) → heap → Prop;
  rd_points : loc → cell → heap → Prop;
  rd_nothing : heap → Prop;
}.

(** What can be read: cells may be shared, and the heap may hold more. *)
Definition shared : reading :=
  {| rd_and P Q h := P h ∧ Q h; rd_points l c h := h !! l = Some c; rd_nothing h := True |}.

(** What is owned: every cell of the heap exactly once. *)
Definition owned : reading :=
  {| rd_and P Q h := ∃ h1 h2, h = h1 ∪ h2 ∧ h1 ##ₘ h2 ∧ P h1 ∧ Q h2;
     rd_points l c h := h = {[l := c]}; rd_nothing h := h = ∅ |}.

(** How an [A] with pointers stands for a value [V]. *)
Definition stands A V : Type := reading → A → V → heap → Prop.

Definition plain {A} : stands A A := λ R a v h, v = a ∧ rd_nothing R h.

Definition pointer {A V} `{Cell A} (T : stands A V) : stands (option loc) (option V) := λ R p v h,
  match p, v with
  | None, None => rd_nothing R h
  | Some l, Some v => ∃ a, rd_and R (rd_points R l (inj_cell a)) (T R a v) h
  | _, _ => False
  end.

Fixpoint items {A V} (T : stands A V) (R : reading) (l : list A) (vs : list V) (h : heap) : Prop :=
  match l, vs with
  | [], [] => rd_nothing R h
  | a :: l, v :: vs => rd_and R (T R a v) (items T R l vs) h
  | _, _ => False
  end.

Definition slice {A V} `{Cell (list A)} (T : stands A V) : stands (option loc) (option (list V)) :=
  λ R p v h,
  match p, v with
  | None, None => rd_nothing R h
  | Some l, Some vs => ∃ xs, rd_and R (rd_points R l (inj_cell xs)) (items T R xs vs) h
  | _, _ => False
  end.

Definition both {A V B W} (T : stands A V) (U : stands B W) : stands (A * B) (V * W) := λ R p v h,
  rd_and R (T R p.1 v.1) (U R p.2 v.2) h.

(** A struct: a relation on the fields without pointers, and the fields with pointers. *)
Definition struct {A V A' V'} (scalars : A → V → Prop) (f : A → A') (g : V → V') (T : stands A' V')
    : stands A V := λ R p v h, scalars p v ∧ T R (f p) (g v) h.

(** What is read stays readable when the heap grows, and what is owned can be read. *)
Class Stable {A V} (T : stands A V) : Prop := {
  stable_grows : ∀ a v h h', T shared a v h → h ⊆ h' → T shared a v h';
  stable_owned : ∀ a v h h', T owned a v h → h ⊆ h' → T shared a v h';
}.

(** [m] runs without a panic, keeps the heap as it is and allocates a part that satisfies [Q]. *)
Definition yields {A} (M : heap) (m : Heap A) (Q : A → heap → Prop) : Prop :=
  ∃ a h, m M = Some (a, M ∪ h) ∧ M ##ₘ h ∧ Q a h.

(** A copy owns what it allocates and stands for the same value. *)
Class Copies {A V} (m : A → Heap A) (T : stands A V) : Prop :=
  copies : ∀ a v M, T shared a v M → yields M (m a) (λ a' h, T owned a' v h).

(** ** Rules *)

Lemma yields_ret {A} M (a : A) (Q : A → heap → Prop) : Q a ∅ → yields M (mret a) Q.
Proof.
  intros HQ. exists a, ∅. split_and!; [|apply map_disjoint_empty_r|done].
  by rewrite (right_id_L ∅ (∪)).
Qed.

Lemma yields_bind {A B} M (m : Heap A) (k : A → Heap B) P (Q : B → heap → Prop) :
  yields M m P →
  (∀ a h1, M ##ₘ h1 → P a h1 →
     yields (M ∪ h1) (k a) (λ b h2, h1 ##ₘ h2 → Q b (h1 ∪ h2))) →
  yields M (m ≫= k) Q.
Proof.
  intros (a & h1 & Hm & Hd & HP) Hk. destruct (Hk a h1 Hd HP) as (b & h2 & Hb & Hd2 & HQ).
  apply map_disjoint_union_l in Hd2 as [HdM Hd12]. exists b, (h1 ∪ h2). split_and!.
  - unfold mbind, heap_bind. rewrite Hm. cbn [mbind option_bind]. rewrite Hb.
    by rewrite (assoc_L (∪)).
  - apply map_disjoint_union_r. done.
  - by apply HQ.
Qed.

Lemma yields_load {A} `{Cell A} M l (a : A) (Q : A → heap → Prop) :
  M !! l = Some (inj_cell a) → Q a ∅ → yields M (load l) Q.
Proof.
  intros Hl HQ. exists a, ∅. split_and!; [|apply map_disjoint_empty_r|done].
  unfold load. rewrite Hl. cbn [mbind option_bind]. rewrite proj_inj. cbn [mbind option_bind].
  by rewrite (right_id_L ∅ (∪)).
Qed.

(** A new cell that is filled with what [m] makes while it exists. *)
Lemma yields_filled {A} `{Cell A} M (z : A) (m : Heap A) P (Q : option loc → heap → Prop) :
  (∀ M', M ⊆ M' → yields M' m P) →
  (∀ l a h, {[l := inj_cell a]} ##ₘ h → P a h → Q (Some l) ({[l := inj_cell a]} ∪ h)) →
  yields M (out ← new z; a ← m; _ ← store out a; mret (Some out)) Q.
Proof.
  intros Hm HQ. set (l := fresh (dom M)). set (M1 := <[l := inj_cell z]> M).
  assert (M !! l = None) as Hl by apply not_elem_of_dom, is_fresh.
  assert (M ⊆ M1) as Hsub by (by apply insert_subseteq).
  destruct (Hm M1 Hsub) as (a & h & Ha & Hd & HP).
  assert (M ##ₘ h) as HdM by (by eapply map_disjoint_weaken_l).
  assert (h !! l = None) as Hhl.
  { eapply map_disjoint_Some_l; [exact Hd|]. apply lookup_insert_eq. }
  exists (Some l), ({[l := inj_cell a]} ∪ h). split_and!.
  - unfold mbind at 1, heap_bind at 1, new. fold l. cbn [mbind option_bind]. fold M1.
    unfold mbind at 1, heap_bind at 1. rewrite Ha. cbn [mbind option_bind].
    unfold mbind, heap_bind, store.
    rewrite (lookup_union_Some_l M1 h l (inj_cell z)) by apply lookup_insert_eq.
    cbn [mbind option_bind]. unfold mret, heap_ret. do 2 f_equal.
    rewrite insert_union_l. unfold M1. rewrite insert_insert_eq.
    rewrite insert_union_singleton_l, !(assoc_L (∪)).
    by rewrite (map_union_comm {[l := inj_cell a]} M) by (by apply map_disjoint_singleton_l).
  - apply map_disjoint_union_r. split; [|done]. by apply map_disjoint_singleton_r.
  - apply HQ; [|done]. by apply map_disjoint_singleton_l.
Qed.

(** ** What is made of pointers and slices *)

Lemma owned_and (P Q : heap → Prop) h1 h2 : h1 ##ₘ h2 → P h1 → Q h2 → rd_and owned P Q (h1 ∪ h2).
Proof. intros. by exists h1, h2. Qed.

(** An owned conjunction is inside any heap its heap is inside. *)
Lemma owned_split (P Q : heap → Prop) h h' :
  rd_and owned P Q h → h ⊆ h' → ∃ h1 h2, P h1 ∧ Q h2 ∧ h1 ⊆ h' ∧ h2 ⊆ h'.
Proof.
  intros (h1 & h2 & -> & Hd & HP & HQ) Hs. exists h1, h2. split_and!; [done|done|..];
    (etransitivity; [|exact Hs]); [apply map_union_subseteq_l|by apply map_union_subseteq_r].
Qed.

#[global] Instance plain_stable {A} : Stable (plain : stands A A).
Proof. split; intros a v h h' [-> _] _; by split. Qed.

#[global] Instance both_stable {A V B W} (T : stands A V) (U : stands B W) :
  Stable T → Stable U → Stable (both T U).
Proof.
  intros HT HU. split; intros [a b] [v w] h h'.
  - intros [Ha Hb] Hs. split; by eapply stable_grows.
  - intros Ho Hs. destruct (owned_split _ _ _ _ Ho Hs) as (h1 & h2 & Ha & Hb & Hs1 & Hs2).
    split; by eapply stable_owned.
Qed.

#[global] Instance struct_stable {A V A' V'} scalars (f : A → A') (g : V → V') (T : stands A' V') :
  Stable T → Stable (struct scalars f g T).
Proof.
  intros HT. split; intros a v h h' [Hc Hp] Hs; (split; [done|]);
    [by eapply stable_grows|by eapply stable_owned].
Qed.

Lemma points_owned l c (h h' : heap) : rd_points owned l c h → h ⊆ h' → rd_points shared l c h'.
Proof. intros -> Hs. by eapply lookup_weaken; [apply lookup_singleton_eq|]. Qed.

#[global] Instance pointer_stable {A V} `{Cell A} (T : stands A V) : Stable T → Stable (pointer T).
Proof.
  intros HT. split; intros [l|] [v|] h h'; cbn; try done.
  - intros [a [Hl Ha]] Hs. exists a. split; [by eapply lookup_weaken|by eapply stable_grows].
  - intros [a Ha] Hs. destruct (owned_split _ _ _ _ Ha Hs) as (h1 & h2 & Hl & Hv & Hs1 & Hs2).
    exists a. split; [exact (points_owned _ _ _ _ Hl Hs1)|by eapply stable_owned].
Qed.

Lemma items_grows {A V} (T : stands A V) xs vs h h' :
  Stable T → items T shared xs vs h → h ⊆ h' → items T shared xs vs h'.
Proof.
  intros HT. revert vs. induction xs as [|x xs IH]; intros [|v vs]; try done.
  intros [Hx Hxs] Hs. split; [by eapply stable_grows|by apply IH].
Qed.

Lemma items_owned {A V} (T : stands A V) xs vs h h' :
  Stable T → items T owned xs vs h → h ⊆ h' → items T shared xs vs h'.
Proof.
  intros HT. revert vs h. induction xs as [|x xs IH]; intros [|v vs] h; try done. intros Hx Hs.
  destruct (owned_split _ _ _ _ Hx Hs) as (h1 & h2 & Hv & Hvs & Hs1 & Hs2).
  split; [by eapply stable_owned|by eapply IH].
Qed.

#[global] Instance slice_stable {A V} `{Cell (list A)} (T : stands A V) : Stable T → Stable (slice T).
Proof.
  intros HT. split; intros [l|] [v|] h h'; cbn; try done.
  - intros [a [Hl Ha]] Hs. exists a. split; [by eapply lookup_weaken|by eapply items_grows].
  - intros [a Ha] Hs. destruct (owned_split _ _ _ _ Ha Hs) as (h1 & h2 & Hl & Hv & Hs1 & Hs2).
    exists a. split; [exact (points_owned _ _ _ _ Hl Hs1)|by eapply items_owned].
Qed.

#[global] Instance plain_copies {A} : Copies copyPlain (plain : stands A A).
Proof. intros a v M [-> _]. apply yields_ret. by split. Qed.

Lemma yields_mono {A} M (m : Heap A) (P Q : A → heap → Prop) :
  yields M m P → (∀ a h, P a h → Q a h) → yields M m Q.
Proof. intros (a & h & ? & ? & ?) Hpq. exists a, h. auto. Qed.

#[global] Instance pointer_copies {A V} `{Cell A} (m : A → Heap A) (T : stands A V) :
  Copies m T → Stable T → Copies (copyPtr m) (pointer T).
Proof.
  intros Hm HT [l|] [v|] M; cbn; try done.
  - intros [a [Hl Ha]]. apply (yields_filled M zero _ (λ a' h, T owned a' v h)).
    + intros M' Hs. apply (yields_bind M' (load l) m (λ a1 h1, a1 = a ∧ h1 = ∅)).
      * apply (yields_load M' l a); [by eapply lookup_weaken|done].
      * intros a1 h1 _ [-> ->]. rewrite (right_id_L ∅ (∪)).
        eapply yields_mono; [apply copies; by eapply stable_grows|].
        intros a' h Ho _. by rewrite (left_id_L ∅ (∪)).
    + intros l' a' h Hd Ho. exists a'. by apply owned_and.
  - intros _. by apply yields_ret.
Qed.

Lemma copyItems_yields {A V} (m : A → Heap A) (T : stands A V) xs vs M :
  Stable T → Copies m T → items T shared xs vs M →
  yields M (copyItems m xs) (λ ys h, items T owned ys vs h).
Proof.
  intros HT Hm. revert vs M. induction xs as [|x xs IH]; intros [|v vs] M; cbn [items]; try done.
  - intros _. by apply yields_ret.
  - intros [Hx Hxs]. cbn [copyItems]. eapply yields_bind; [by apply copies|].
    intros x' h1 Hd Hx'. eapply yields_bind.
    + apply IH. eapply items_grows; [done|exact Hxs|apply map_union_subseteq_l].
    + intros ys h2 Hd2 Hys. apply yields_ret. intros Hd3 Hd4. rewrite (right_id_L ∅ (∪)) in *.
      by apply owned_and.
Qed.

#[global] Instance slice_copies {A V} `{Cell (list A)} z (m : A → Heap A) (T : stands A V) :
  Copies m T → Stable T → Copies (copySlice z m) (slice T).
Proof.
  intros Hm HT [l|] [vs|] M; cbn [copySlice slice]; try done; [|intros _; by apply yields_ret].
  intros [xs [Hl Hxs]]. apply (yields_bind M _ _ (λ a1 h1, a1 = xs ∧ h1 = ∅)).
  - by apply (yields_load M l xs).
  - intros a1 h1 _ [-> ->]. rewrite (right_id_L ∅ (∪)).
    apply (yields_filled M _ _ (λ ys h, items T owned ys vs h)).
    + intros M' Hs. apply copyItems_yields; [done|done|by eapply items_grows].
    + intros l' ys h Hd Hys _. rewrite (left_id_L ∅ (∪)). exists ys. by apply owned_and.
Qed.
End memory.
