(* ===== verification/DeepCopy.v ===== *)
(** * Deep copies of the API objects (api/v1alpha1/zz_generated.deepcopy.go)

    The cache of controller-runtime hands out an object only after [DeepCopyObject]; that a reconciler
    may then change its object, and that the other components may treat an object as a value, rests on
    the copy sharing nothing with the original.  Here the objects have their pointers and slices, every
    generated function is translated, and the copies are shown to be separate. *)

From stdpp Require Import prelude fin_maps gmap strings.
From S2P Require Import Prelude GoFloat SimModel SchedInputs Resources Memory.

Local Open Scope Z_scope.

(** ** The library's part *)

(** [metav1.ObjectMeta], [metav1.ListMeta] and [metav1.Condition]: their structs with pointers, the
    cells these point to, and the values they stand for. *)
Class MetaTypes := {
  LibCell : Type;
  MetaP : Type;
  ListMetaP : Type;
  ConditionP : Type;
  MetaV : Type;
  ListMetaV : Type;
  ConditionV : Type;
  zeroMeta : MetaP;
  zeroListMeta : ListMetaP;
  zeroCondition : ConditionP;
}.

Record TypeMeta := { tm_Kind : string; tm_APIVersion : string }.
Record MetaTime := { mt_Time : Time }.

(** ** The objects, with their pointers *)

Record JitterConfigSpecP := { jp_Enabled : bool; jp_Pct : float64; jp_Seed : option loc }.

Record GPUWorkloadSpecP := {
  wp_Tenant : string;
  wp_Priority : Z;
  wp_GPUCount : Z;
  wp_GPUMemoryMiB : Z;
  wp_Tokens : Z;
  wp_Profile : string;
  wp_Kind : string;
  wp_MaxRuntimeSeconds : option loc;
  wp_Training : option loc;
  wp_Inference : option loc;
  wp_Eval : option loc;
  wp_FineTune : option loc;
  wp_RLHF : option loc;
  wp_Embedding : option loc;
  wp_DataPreprocess : option loc;
  wp_Distillation : option loc;
  wp_Jitter : option loc;
}.

Record GPUWorkloadStatusP := {
  wsp_Phase : GPUWorkloadPhase;
  wsp_QueuedAt : option loc;
  wsp_Conditions : option loc;
}.

Record GPUNodePoolSpecP := {
  psp_NodeCount : Z;
  psp_DevicesPerNode : Z;
  psp_MemoryMiBPerDevice : Z;
  psp_Profile : string;
  psp_DeviceType : option loc;
}.

Record GPUNodePoolStatusP := { ptp_Counts : GPUNodePoolStatus; ptp_Conditions : option loc }.

Record TenantQuotaStatusP := { qtp_Conditions : option loc }.

Section objects.
Context `{MetaTypes}.

Record GPUWorkloadP := {
  gw_TypeMeta : TypeMeta;
  gw_ObjectMeta : MetaP;
  gw_Spec : GPUWorkloadSpecP;
  gw_Status : GPUWorkloadStatusP;
}.

Record GPUNodePoolP := {
  gp_TypeMeta : TypeMeta;
  gp_ObjectMeta : MetaP;
  gp_Spec : GPUNodePoolSpecP;
  gp_Status : GPUNodePoolStatusP;
}.

Record TenantQuotaP := {
  gq_TypeMeta : TypeMeta;
  gq_ObjectMeta : MetaP;
  gq_Spec : TenantQuotaSpec;
  gq_Status : TenantQuotaStatusP;
}.

(** [GPUWorkloadList], [GPUNodePoolList] and [TenantQuotaList]: their items are in an array. *)
Record ListP := { ls_TypeMeta : TypeMeta; ls_ListMeta : ListMetaP; ls_Items : option loc }.

(** The three lists are different types for a cell. *)
Record GPUWorkloadList := { wl_List : ListP }.
Record GPUNodePoolList := { pl_List : ListP }.
Record TenantQuotaList := { ql_List : ListP }.

Inductive cell :=
| CLib (x : LibCell)
| CString (x : string)
| CInt64 (x : Z)
| CTime (x : MetaTime)
| CTrainingRuntimeSpec (x : TrainingRuntimeSpec)
| CInferenceRuntimeSpec (x : InferenceRuntimeSpec)
| CEvalRuntimeSpec (x : EvalRuntimeSpec)
| CFineTuneRuntimeSpec (x : FineTuneRuntimeSpec)
| CRLHFRuntimeSpec (x : RLHFRuntimeSpec)
| CEmbeddingRuntimeSpec (x : EmbeddingRuntimeSpec)
| CDataPreprocessRuntimeSpec (x : DataPreprocessRuntimeSpec)
| CDistillationRuntimeSpec (x : DistillationRuntimeSpec)
| CJitterConfigSpecP (x : JitterConfigSpecP)
| CGPUWorkloadSpecP (x : GPUWorkloadSpecP)
| CGPUWorkloadStatusP (x : GPUWorkloadStatusP)
| CGPUWorkloadP (x : GPUWorkloadP)
| CGPUWorkloadList (x : GPUWorkloadList)
| CGPUNodePoolSpecP (x : GPUNodePoolSpecP)
| CGPUNodePoolStatusP (x : GPUNodePoolStatusP)
| CGPUNodePoolP (x : GPUNodePoolP)
| CGPUNodePoolList (x : GPUNodePoolList)
| CTenantQuotaSpec (x : TenantQuotaSpec)
| CTenantQuotaStatusP (x : TenantQuotaStatusP)
| CTenantQuotaP (x : TenantQuotaP)
| CTenantQuotaList (x : TenantQuotaList)
| CConditions (x : list ConditionP)
| CGPUWorkloads (x : list GPUWorkloadP)
| CGPUNodePools (x : list GPUNodePoolP)
| CTenantQuotas (x : list TenantQuotaP).

(** ** Zero values *)

Definition zeroTypeMeta : TypeMeta := {| tm_Kind := ""; tm_APIVersion := "" |}.
Definition zeroJitter : JitterConfigSpecP := {| jp_Enabled := false; jp_Pct := fzero; jp_Seed := None |}.
Definition zeroWorkloadSpec : GPUWorkloadSpecP :=
  {| wp_Tenant := ""; wp_Priority := 0; wp_GPUCount := 0; wp_GPUMemoryMiB := 0; wp_Tokens := 0;
     wp_Profile := ""; wp_Kind := ""; wp_MaxRuntimeSeconds := None; wp_Training := None;
     wp_Inference := None; wp_Eval := None; wp_FineTune := None; wp_RLHF := None; wp_Embedding := None;
     wp_DataPreprocess := None; wp_Distillation := None; wp_Jitter := None |}.
Definition zeroWorkloadStatus : GPUWorkloadStatusP :=
  {| wsp_Phase := PhaseNone; wsp_QueuedAt := None; wsp_Conditions := None |}.
Definition zeroWorkload : GPUWorkloadP :=
  {| gw_TypeMeta := zeroTypeMeta; gw_ObjectMeta := zeroMeta; gw_Spec := zeroWorkloadSpec;
     gw_Status := zeroWorkloadStatus |}.
Definition zeroPoolSpec : GPUNodePoolSpecP :=
  {| psp_NodeCount := 0; psp_DevicesPerNode := 0; psp_MemoryMiBPerDevice := 0; psp_Profile := "";
     psp_DeviceType := None |}.
Definition zeroPoolStatus : GPUNodePoolStatusP :=
  {| ptp_Counts := {| pst_TotalDevices := 0; pst_AllocatedDevices := 0; pst_AvailableDevices := 0;
                      pst_UtilizationPct := 0 |};
     ptp_Conditions := None |}.
Definition zeroPool : GPUNodePoolP :=
  {| gp_TypeMeta := zeroTypeMeta; gp_ObjectMeta := zeroMeta; gp_Spec := zeroPoolSpec;
     gp_Status := zeroPoolStatus |}.
Definition zeroQuotaSpec : TenantQuotaSpec :=
  {| tqs_Tenant := ""; tqs_MaxGPUs := 0; tqs_MaxMemoryMiB := 0; tqs_Weight := 0 |}.
Definition zeroQuotaStatus : TenantQuotaStatusP := {| qtp_Conditions := None |}.
Definition zeroQuota : TenantQuotaP :=
  {| gq_TypeMeta := zeroTypeMeta; gq_ObjectMeta := zeroMeta; gq_Spec := zeroQuotaSpec;
     gq_Status := zeroQuotaStatus |}.
Definition zeroList : ListP :=
  {| ls_TypeMeta := zeroTypeMeta; ls_ListMeta := zeroListMeta; ls_Items := None |}.

#[global] Instance cell_string : Cell (cell := cell) string :=
  {| inj_cell := CString; zero := ""; proj_inj a := eq_refl;
     proj_cell c := match c with CString x => Some x | _ => None end |}.
#[global] Instance cell_int64 : Cell (cell := cell) Z :=
  {| inj_cell := CInt64; zero := 0; proj_inj a := eq_refl;
     proj_cell c := match c with CInt64 x => Some x | _ => None end |}.
#[global] Instance cell_time : Cell (cell := cell) MetaTime :=
  {| inj_cell := CTime; zero := {| mt_Time := 0 |}; proj_inj a := eq_refl;
     proj_cell c := match c with CTime x => Some x | _ => None end |}.
#[global] Instance cell_TrainingRuntimeSpec : Cell (cell := cell) TrainingRuntimeSpec :=
  {| inj_cell := CTrainingRuntimeSpec;
     zero := Build_TrainingRuntimeSpec 0 0 0 0; proj_inj a := eq_refl;
     proj_cell c := match c with CTrainingRuntimeSpec x => Some x | _ => None end |}.
#[global] Instance cell_InferenceRuntimeSpec : Cell (cell := cell) InferenceRuntimeSpec :=
  {| inj_cell := CInferenceRuntimeSpec; zero := Build_InferenceRuntimeSpec 0; proj_inj a := eq_refl;
     proj_cell c := match c with CInferenceRuntimeSpec x => Some x | _ => None end |}.
#[global] Instance cell_EvalRuntimeSpec : Cell (cell := cell) EvalRuntimeSpec :=
  {| inj_cell := CEvalRuntimeSpec;
     zero := Build_EvalRuntimeSpec 0 fzero fzero; proj_inj a := eq_refl;
     proj_cell c := match c with CEvalRuntimeSpec x => Some x | _ => None end |}.
#[global] Instance cell_FineTuneRuntimeSpec : Cell (cell := cell) FineTuneRuntimeSpec :=
  {| inj_cell := CFineTuneRuntimeSpec;
     zero := Build_FineTuneRuntimeSpec 0 0 0 fzero fzero; proj_inj a := eq_refl;
     proj_cell c := match c with CFineTuneRuntimeSpec x => Some x | _ => None end |}.
#[global] Instance cell_RLHFRuntimeSpec : Cell (cell := cell) RLHFRuntimeSpec :=
  {| inj_cell := CRLHFRuntimeSpec; zero := Build_RLHFRuntimeSpec 0 0 0 0; proj_inj a := eq_refl;
     proj_cell c := match c with CRLHFRuntimeSpec x => Some x | _ => None end |}.
#[global] Instance cell_EmbeddingRuntimeSpec : Cell (cell := cell) EmbeddingRuntimeSpec :=
  {| inj_cell := CEmbeddingRuntimeSpec;
     zero := Build_EmbeddingRuntimeSpec 0 0 0; proj_inj a := eq_refl;
     proj_cell c := match c with CEmbeddingRuntimeSpec x => Some x | _ => None end |}.
#[global] Instance cell_DataPreprocessRuntimeSpec : Cell (cell := cell) DataPreprocessRuntimeSpec :=
  {| inj_cell := CDataPreprocessRuntimeSpec;
     zero := Build_DataPreprocessRuntimeSpec 0 fzero fzero; proj_inj a := eq_refl;
     proj_cell c := match c with CDataPreprocessRuntimeSpec x => Some x | _ => None end |}.
#[global] Instance cell_DistillationRuntimeSpec : Cell (cell := cell) DistillationRuntimeSpec :=
  {| inj_cell := CDistillationRuntimeSpec;
     zero := Build_DistillationRuntimeSpec "" 0 fzero; proj_inj a := eq_refl;
     proj_cell c := match c with CDistillationRuntimeSpec x => Some x | _ => None end |}.
#[global] Instance cell_JitterConfigSpecP : Cell (cell := cell) JitterConfigSpecP :=
  {| inj_cell := CJitterConfigSpecP; zero := zeroJitter; proj_inj a := eq_refl;
     proj_cell c := match c with CJitterConfigSpecP x => Some x | _ => None end |}.
#[global] Instance cell_GPUWorkloadSpecP : Cell (cell := cell) GPUWorkloadSpecP :=
  {| inj_cell := CGPUWorkloadSpecP; zero := zeroWorkloadSpec; proj_inj a := eq_refl;
     proj_cell c := match c with CGPUWorkloadSpecP x => Some x | _ => None end |}.
#[global] Instance cell_GPUWorkloadStatusP : Cell (cell := cell) GPUWorkloadStatusP :=
  {| inj_cell := CGPUWorkloadStatusP; zero := zeroWorkloadStatus; proj_inj a := eq_refl;
     proj_cell c := match c with CGPUWorkloadStatusP x => Some x | _ => None end |}.
#[global] Instance cell_GPUWorkloadP : Cell (cell := cell) GPUWorkloadP :=
  {| inj_cell := CGPUWorkloadP; zero := zeroWorkload; proj_inj a := eq_refl;
     proj_cell c := match c with CGPUWorkloadP x => Some x | _ => None end |}.
#[global] Instance cell_GPUWorkloadList : Cell (cell := cell) GPUWorkloadList :=
  {| inj_cell := CGPUWorkloadList; zero := Build_GPUWorkloadList zeroList; proj_inj a := eq_refl;
     proj_cell c := match c with CGPUWorkloadList x => Some x | _ => None end |}.
#[global] Instance cell_GPUNodePoolSpecP : Cell (cell := cell) GPUNodePoolSpecP :=
  {| inj_cell := CGPUNodePoolSpecP; zero := zeroPoolSpec; proj_inj a := eq_refl;
     proj_cell c := match c with CGPUNodePoolSpecP x => Some x | _ => None end |}.
#[global] Instance cell_GPUNodePoolStatusP : Cell (cell := cell) GPUNodePoolStatusP :=
  {| inj_cell := CGPUNodePoolStatusP; zero := zeroPoolStatus; proj_inj a := eq_refl;
     proj_cell c := match c with CGPUNodePoolStatusP x => Some x | _ => None end |}.
#[global] Instance cell_GPUNodePoolP : Cell (cell := cell) GPUNodePoolP :=
  {| inj_cell := CGPUNodePoolP; zero := zeroPool; proj_inj a := eq_refl;
     proj_cell c := match c with CGPUNodePoolP x => Some x | _ => None end |}.
#[global] Instance cell_GPUNodePoolList : Cell (cell := cell) GPUNodePoolList :=
  {| inj_cell := CGPUNodePoolList; zero := Build_GPUNodePoolList zeroList; proj_inj a := eq_refl;
     proj_cell c := match c with CGPUNodePoolList x => Some x | _ => None end |}.
#[global] Instance cell_TenantQuotaSpec : Cell (cell := cell) TenantQuotaSpec :=
  {| inj_cell := CTenantQuotaSpec; zero := zeroQuotaSpec; proj_inj a := eq_refl;
     proj_cell c := match c with CTenantQuotaSpec x => Some x | _ => None end |}.
#[global] Instance cell_TenantQuotaStatusP : Cell (cell := cell) TenantQuotaStatusP :=
  {| inj_cell := CTenantQuotaStatusP; zero := zeroQuotaStatus; proj_inj a := eq_refl;
     proj_cell c := match c with CTenantQuotaStatusP x => Some x | _ => None end |}.
#[global] Instance cell_TenantQuotaP : Cell (cell := cell) TenantQuotaP :=
  {| inj_cell := CTenantQuotaP; zero := zeroQuota; proj_inj a := eq_refl;
     proj_cell c := match c with CTenantQuotaP x => Some x | _ => None end |}.
#[global] Instance cell_TenantQuotaList : Cell (cell := cell) TenantQuotaList :=
  {| inj_cell := CTenantQuotaList; zero := Build_TenantQuotaList zeroList; proj_inj a := eq_refl;
     proj_cell c := match c with CTenantQuotaList x => Some x | _ => None end |}.
#[global] Instance cell_Conditions : Cell (cell := cell) (list ConditionP) :=
  {| inj_cell := CConditions; zero := []; proj_inj a := eq_refl;
     proj_cell c := match c with CConditions x => Some x | _ => None end |}.
#[global] Instance cell_GPUWorkloads : Cell (cell := cell) (list GPUWorkloadP) :=
  {| inj_cell := CGPUWorkloads; zero := []; proj_inj a := eq_refl;
     proj_cell c := match c with CGPUWorkloads x => Some x | _ => None end |}.
#[global] Instance cell_GPUNodePools : Cell (cell := cell) (list GPUNodePoolP) :=
  {| inj_cell := CGPUNodePools; zero := []; proj_inj a := eq_refl;
     proj_cell c := match c with CGPUNodePools x => Some x | _ => None end |}.
#[global] Instance cell_TenantQuotas : Cell (cell := cell) (list TenantQuotaP) :=
  {| inj_cell := CTenantQuotas; zero := []; proj_inj a := eq_refl;
     proj_cell c := match c with CTenantQuotas x => Some x | _ => None end |}.
End objects.

(** ** The copies *)

(** The generated functions of the library, and how its structs stand for their values. *)
Class MetaCopies `{MetaTypes} := {
  Meta_DeepCopyInto : MetaP → Heap (cell := cell) MetaP;
  ListMeta_DeepCopyInto : ListMetaP → Heap (cell := cell) ListMetaP;
  Condition_DeepCopyInto : ConditionP → Heap (cell := cell) ConditionP;
  Time_DeepCopy : option loc → Heap (cell := cell) (option loc);
  standsMeta : stands (cell := cell) MetaP MetaV;
  standsListMeta : stands (cell := cell) ListMetaP ListMetaV;
  standsCondition : stands (cell := cell) ConditionP ConditionV;
}.

Section copies.
Context `{MetaCopies}.
Notation Heap := (Heap (cell := cell)).

Definition DataPreprocessRuntimeSpec_DeepCopyInto : DataPreprocessRuntimeSpec → Heap DataPreprocessRuntimeSpec :=
  copyPlain.
Definition DataPreprocessRuntimeSpec_DeepCopy : option loc → Heap (option loc) :=
  copyPtr DataPreprocessRuntimeSpec_DeepCopyInto.

Definition DistillationRuntimeSpec_DeepCopyInto : DistillationRuntimeSpec → Heap DistillationRuntimeSpec :=
  copyPlain.
Definition DistillationRuntimeSpec_DeepCopy : option loc → Heap (option loc) :=
  copyPtr DistillationRuntimeSpec_DeepCopyInto.

Definition EmbeddingRuntimeSpec_DeepCopyInto : EmbeddingRuntimeSpec → Heap EmbeddingRuntimeSpec :=
  copyPlain.
Definition EmbeddingRuntimeSpec_DeepCopy : option loc → Heap (option loc) :=
  copyPtr EmbeddingRuntimeSpec_DeepCopyInto.

Definition EvalRuntimeSpec_DeepCopyInto : EvalRuntimeSpec → Heap EvalRuntimeSpec := copyPlain.
Definition EvalRuntimeSpec_DeepCopy : option loc → Heap (option loc) :=
  copyPtr EvalRuntimeSpec_DeepCopyInto.

Definition FineTuneRuntimeSpec_DeepCopyInto : FineTuneRuntimeSpec → Heap FineTuneRuntimeSpec :=
  copyPlain.
Definition FineTuneRuntimeSpec_DeepCopy : option loc → Heap (option loc) :=
  copyPtr FineTuneRuntimeSpec_DeepCopyInto.

Definition InferenceRuntimeSpec_DeepCopyInto : InferenceRuntimeSpec → Heap InferenceRuntimeSpec :=
  copyPlain.
Definition InferenceRuntimeSpec_DeepCopy : option loc → Heap (option loc) :=
  copyPtr InferenceRuntimeSpec_DeepCopyInto.

Definition RLHFRuntimeSpec_DeepCopyInto : RLHFRuntimeSpec → Heap RLHFRuntimeSpec := copyPlain.
Definition RLHFRuntimeSpec_DeepCopy : option loc → Heap (option loc) :=
  copyPtr RLHFRuntimeSpec_DeepCopyInto.

Definition TrainingRuntimeSpec_DeepCopyInto : TrainingRuntimeSpec → Heap TrainingRuntimeSpec :=
  copyPlain.
Definition TrainingRuntimeSpec_DeepCopy : option loc → Heap (option loc) :=
  copyPtr TrainingRuntimeSpec_DeepCopyInto.

Definition TenantQuotaSpec_DeepCopyInto : TenantQuotaSpec → Heap TenantQuotaSpec := copyPlain.
Definition TenantQuotaSpec_DeepCopy : option loc → Heap (option loc) :=
  copyPtr TenantQuotaSpec_DeepCopyInto.

(** [if in != nil { *out = new(A); **out = **in }] *)
Definition copyField (A : Type) `{Cell cell A} : option loc → Heap (option loc) :=
  copyPtr (copyPlain : A → Heap A).

Definition JitterConfigSpec_DeepCopyInto (in_ : JitterConfigSpecP) : Heap JitterConfigSpecP :=
  seed ← copyField Z (jp_Seed in_);
  mret {| jp_Enabled := jp_Enabled in_; jp_Pct := jp_Pct in_; jp_Seed := seed |}.
Definition JitterConfigSpec_DeepCopy : option loc → Heap (option loc) :=
  copyPtr JitterConfigSpec_DeepCopyInto.

Definition GPUWorkloadSpec_DeepCopyInto (in_ : GPUWorkloadSpecP) : Heap GPUWorkloadSpecP :=
  pMaxRuntimeSeconds ← copyField Z (wp_MaxRuntimeSeconds in_);
  pTraining ← copyField TrainingRuntimeSpec (wp_Training in_);
  pInference ← copyField InferenceRuntimeSpec (wp_Inference in_);
  pEval ← copyField EvalRuntimeSpec (wp_Eval in_);
  pFineTune ← copyField FineTuneRuntimeSpec (wp_FineTune in_);
  pRLHF ← copyField RLHFRuntimeSpec (wp_RLHF in_);
  pEmbedding ← copyField EmbeddingRuntimeSpec (wp_Embedding in_);
  pDataPreprocess ← copyField DataPreprocessRuntimeSpec (wp_DataPreprocess in_);
  pDistillation ← copyField DistillationRuntimeSpec (wp_Distillation in_);
  pJitter ← copyPtr JitterConfigSpec_DeepCopyInto (wp_Jitter in_);
  mret {| wp_Tenant := wp_Tenant in_; wp_Priority := wp_Priority in_; wp_GPUCount := wp_GPUCount in_;
          wp_GPUMemoryMiB := wp_GPUMemoryMiB in_; wp_Tokens := wp_Tokens in_;
          wp_Profile := wp_Profile in_; wp_Kind := wp_Kind in_;
          wp_MaxRuntimeSeconds := pMaxRuntimeSeconds;
          wp_Training := pTraining;
          wp_Inference := pInference;
          wp_Eval := pEval;
          wp_FineTune := pFineTune;
          wp_RLHF := pRLHF;
          wp_Embedding := pEmbedding;
          wp_DataPreprocess := pDataPreprocess;
          wp_Distillation := pDistillation;
          wp_Jitter := pJitter |}.
Definition GPUWorkloadSpec_DeepCopy : option loc → Heap (option loc) :=
  copyPtr GPUWorkloadSpec_DeepCopyInto.

Definition copyConditions : option loc → Heap (option loc) :=
  copySlice zeroCondition Condition_DeepCopyInto.

Definition GPUWorkloadStatus_DeepCopyInto (in_ : GPUWorkloadStatusP) : Heap GPUWorkloadStatusP :=
  queuedAt ← match wsp_QueuedAt in_ with None => mret None | Some l => Time_DeepCopy (Some l) end;
  conditions ← copyConditions (wsp_Conditions in_);
  mret {| wsp_Phase := wsp_Phase in_; wsp_QueuedAt := queuedAt; wsp_Conditions := conditions |}.
Definition GPUWorkloadStatus_DeepCopy : option loc → Heap (option loc) :=
  copyPtr GPUWorkloadStatus_DeepCopyInto.

Definition GPUWorkload_DeepCopyInto (in_ : GPUWorkloadP) : Heap GPUWorkloadP :=
  objectMeta ← Meta_DeepCopyInto (gw_ObjectMeta in_);
  spec ← GPUWorkloadSpec_DeepCopyInto (gw_Spec in_);
  status ← GPUWorkloadStatus_DeepCopyInto (gw_Status in_);
  mret {| gw_TypeMeta := gw_TypeMeta in_; gw_ObjectMeta := objectMeta; gw_Spec := spec;
          gw_Status := status |}.
Definition GPUWorkload_DeepCopy : option loc → Heap (option loc) :=
  copyPtr GPUWorkload_DeepCopyInto.

Definition GPUNodePoolSpec_DeepCopyInto (in_ : GPUNodePoolSpecP) : Heap GPUNodePoolSpecP :=
  deviceType ← copyField string (psp_DeviceType in_);
  mret {| psp_NodeCount := psp_NodeCount in_; psp_DevicesPerNode := psp_DevicesPerNode in_;
          psp_MemoryMiBPerDevice := psp_MemoryMiBPerDevice in_; psp_Profile := psp_Profile in_;
          psp_DeviceType := deviceType |}.
Definition GPUNodePoolSpec_DeepCopy : option loc → Heap (option loc) :=
  copyPtr GPUNodePoolSpec_DeepCopyInto.

Definition GPUNodePoolStatus_DeepCopyInto (in_ : GPUNodePoolStatusP) : Heap GPUNodePoolStatusP :=
  conditions ← copyConditions (ptp_Conditions in_);
  mret {| ptp_Counts := ptp_Counts in_; ptp_Conditions := conditions |}.
Definition GPUNodePoolStatus_DeepCopy : option loc → Heap (option loc) :=
  copyPtr GPUNodePoolStatus_DeepCopyInto.

Definition GPUNodePool_DeepCopyInto (in_ : GPUNodePoolP) : Heap GPUNodePoolP :=
  objectMeta ← Meta_DeepCopyInto (gp_ObjectMeta in_);
  spec ← GPUNodePoolSpec_DeepCopyInto (gp_Spec in_);
  status ← GPUNodePoolStatus_DeepCopyInto (gp_Status in_);
  mret {| gp_TypeMeta := gp_TypeMeta in_; gp_ObjectMeta := objectMeta; gp_Spec := spec;
          gp_Status := status |}.
Definition GPUNodePool_DeepCopy : option loc → Heap (option loc) :=
  copyPtr GPUNodePool_DeepCopyInto.

Definition TenantQuotaStatus_DeepCopyInto (in_ : TenantQuotaStatusP) : Heap TenantQuotaStatusP :=
  conditions ← copyConditions (qtp_Conditions in_);
  mret {| qtp_Conditions := conditions |}.
Definition TenantQuotaStatus_DeepCopy : option loc → Heap (option loc) :=
  copyPtr TenantQuotaStatus_DeepCopyInto.

Definition TenantQuota_DeepCopyInto (in_ : TenantQuotaP) : Heap TenantQuotaP :=
  objectMeta ← Meta_DeepCopyInto (gq_ObjectMeta in_);
  status ← TenantQuotaStatus_DeepCopyInto (gq_Status in_);
  mret {| gq_TypeMeta := gq_TypeMeta in_; gq_ObjectMeta := objectMeta; gq_Spec := gq_Spec in_;
          gq_Status := status |}.
Definition TenantQuota_DeepCopy : option loc → Heap (option loc) :=
  copyPtr TenantQuota_DeepCopyInto.

(** The lists, given how their items are copied. *)
Definition copyList (copyArray : option loc → Heap (option loc)) (in_ : ListP) : Heap ListP :=
  listMeta ← ListMeta_DeepCopyInto (ls_ListMeta in_);
  items ← copyArray (ls_Items in_);
  mret {| ls_TypeMeta := ls_TypeMeta in_; ls_ListMeta := listMeta; ls_Items := items |}.

Definition GPUWorkloadList_DeepCopyInto (in_ : GPUWorkloadList) : Heap GPUWorkloadList :=
  l ← copyList (copySlice zeroWorkload GPUWorkload_DeepCopyInto) (wl_List in_); mret {| wl_List := l |}.
Definition GPUWorkloadList_DeepCopy : option loc → Heap (option loc) :=
  copyPtr GPUWorkloadList_DeepCopyInto.

Definition GPUNodePoolList_DeepCopyInto (in_ : GPUNodePoolList) : Heap GPUNodePoolList :=
  l ← copyList (copySlice zeroPool GPUNodePool_DeepCopyInto) (pl_List in_); mret {| pl_List := l |}.
Definition GPUNodePoolList_DeepCopy : option loc → Heap (option loc) :=
  copyPtr GPUNodePoolList_DeepCopyInto.

Definition TenantQuotaList_DeepCopyInto (in_ : TenantQuotaList) : Heap TenantQuotaList :=
  l ← copyList (copySlice zeroQuota TenantQuota_DeepCopyInto) (ql_List in_); mret {| ql_List := l |}.
Definition TenantQuotaList_DeepCopy : option loc → Heap (option loc) :=
  copyPtr TenantQuotaList_DeepCopyInto.

(** [DeepCopyObject]: the copy as an interface, [nil] for [nil]. *)
Definition asObject (copy : option loc → Heap (option loc)) (in_ : option loc) : Heap (option loc) :=
  c ← copy in_; match c with Some l => mret (Some l) | None => mret None end.

Definition GPUWorkload_DeepCopyObject : option loc → Heap (option loc) := asObject GPUWorkload_DeepCopy.
Definition GPUWorkloadList_DeepCopyObject : option loc → Heap (option loc) := asObject GPUWorkloadList_DeepCopy.
Definition GPUNodePool_DeepCopyObject : option loc → Heap (option loc) := asObject GPUNodePool_DeepCopy.
Definition GPUNodePoolList_DeepCopyObject : option loc → Heap (option loc) := asObject GPUNodePoolList_DeepCopy.
Definition TenantQuota_DeepCopyObject : option loc → Heap (option loc) := asObject TenantQuota_DeepCopy.
Definition TenantQuotaList_DeepCopyObject : option loc → Heap (option loc) := asObject TenantQuotaList_DeepCopy.
End copies.

(** ** What the objects stand for *)

Section values.
Context `{MetaCopies}.
Notation stands := (stands (cell := cell)).

Notation field A := (pointer (plain : stands A A)).

Definition standsJitter : stands JitterConfigSpecP JitterConfigSpec :=
  struct (λ p v, js_Enabled v = jp_Enabled p ∧ js_Pct v = jp_Pct p) jp_Seed js_Seed (field Z).

(** The fields of a specification that are not pointers, and those that are. *)
Definition same_scalars (p : GPUWorkloadSpecP) (v : GPUWorkloadSpec) : Prop :=
  ws_Tenant v = wp_Tenant p ∧ ws_Priority v = wp_Priority p ∧ ws_GPUCount v = wp_GPUCount p ∧
  ws_GPUMemoryMiB v = wp_GPUMemoryMiB p ∧ ws_Tokens v = wp_Tokens p ∧ ws_Profile v = wp_Profile p ∧
  ws_Kind v = wp_Kind p.

Definition standsWorkloadSpec : stands GPUWorkloadSpecP GPUWorkloadSpec :=
  struct same_scalars
    (λ p, (wp_MaxRuntimeSeconds p, (wp_Training p, (wp_Inference p, (wp_Eval p, (wp_FineTune p,
          (wp_RLHF p, (wp_Embedding p, (wp_DataPreprocess p, (wp_Distillation p, wp_Jitter p))))))))))
    (λ v, (ws_MaxRuntimeSeconds v, (ws_Training v, (ws_Inference v, (ws_Eval v, (ws_FineTune v,
          (ws_RLHF v, (ws_Embedding v, (ws_DataPreprocess v, (ws_Distillation v, ws_Jitter v))))))))))
    (both (field Z) (both (field TrainingRuntimeSpec) (both (field InferenceRuntimeSpec)
    (both (field EvalRuntimeSpec) (both (field FineTuneRuntimeSpec) (both (field RLHFRuntimeSpec)
    (both (field EmbeddingRuntimeSpec) (both (field DataPreprocessRuntimeSpec)
    (both (field DistillationRuntimeSpec) (pointer standsJitter)))))))))).

(** The values of the statuses: [None] stands for a [nil] slice of conditions. *)
Record StatusV := {
  stv_Phase : GPUWorkloadPhase;
  stv_QueuedAt : option MetaTime;
  stv_Conditions : option (list ConditionV);
}.

Definition standsWorkloadStatus : stands GPUWorkloadStatusP StatusV :=
  struct (λ p v, stv_Phase v = wsp_Phase p)
    (λ p, (wsp_QueuedAt p, wsp_Conditions p)) (λ v, (stv_QueuedAt v, stv_Conditions v))
    (both (field MetaTime) (slice standsCondition)).

Definition standsPoolSpec : stands GPUNodePoolSpecP PoolSpec :=
  struct (λ p v, ps_NodeCount v = psp_NodeCount p ∧ ps_DevicesPerNode v = psp_DevicesPerNode p ∧
                 ps_MemoryMiBPerDevice v = psp_MemoryMiBPerDevice p ∧ ps_Profile v = psp_Profile p)
    psp_DeviceType ps_DeviceType (field string).

Definition standsPoolStatus
    : stands GPUNodePoolStatusP (GPUNodePoolStatus * option (list ConditionV)) :=
  struct (λ p v, v.1 = ptp_Counts p) ptp_Conditions snd (slice standsCondition).

Definition standsQuotaStatus : stands TenantQuotaStatusP (option (list ConditionV)) :=
  struct (λ _ _, True) qtp_Conditions (λ v, v) (slice standsCondition).

(** An object: its type, its metadata, its specification and its status. *)
Record ObjectV (S T : Type) := {
  ov_TypeMeta : TypeMeta;
  ov_Meta : MetaV;
  ov_Spec : S;
  ov_Status : T;
}.
#[global] Arguments ov_TypeMeta {_ _}.
#[global] Arguments ov_Meta {_ _}.
#[global] Arguments ov_Spec {_ _}.
#[global] Arguments ov_Status {_ _}.

Definition standsWorkload : stands GPUWorkloadP (ObjectV GPUWorkloadSpec StatusV) :=
  struct (λ p v, ov_TypeMeta v = gw_TypeMeta p)
    (λ p, (gw_ObjectMeta p, (gw_Spec p, gw_Status p))) (λ v, (ov_Meta v, (ov_Spec v, ov_Status v)))
    (both standsMeta (both standsWorkloadSpec standsWorkloadStatus)).

Definition standsPool
    : stands GPUNodePoolP (ObjectV PoolSpec (GPUNodePoolStatus * option (list ConditionV))) :=
  struct (λ p v, ov_TypeMeta v = gp_TypeMeta p)
    (λ p, (gp_ObjectMeta p, (gp_Spec p, gp_Status p))) (λ v, (ov_Meta v, (ov_Spec v, ov_Status v)))
    (both standsMeta (both standsPoolSpec standsPoolStatus)).

Definition standsQuota : stands TenantQuotaP (ObjectV TenantQuotaSpec (option (list ConditionV))) :=
  struct (λ p v, ov_TypeMeta v = gq_TypeMeta p ∧ ov_Spec v = gq_Spec p)
    (λ p, (gq_ObjectMeta p, gq_Status p)) (λ v, (ov_Meta v, ov_Status v))
    (both standsMeta standsQuotaStatus).

(** A list: its type, its metadata and its items. *)
Definition standsList {V} (T : stands (option loc) (option (list V)))
    : stands ListP (TypeMeta * ListMetaV * option (list V)) :=
  struct (λ p v, v.1.1 = ls_TypeMeta p) (λ p, (ls_ListMeta p, ls_Items p)) (λ v, (v.1.2, v.2))
    (both standsListMeta T).

Definition standsWorkloadList
    : stands GPUWorkloadList (TypeMeta * ListMetaV * option (list (ObjectV GPUWorkloadSpec StatusV))) :=
  struct (λ _ _, True) wl_List (λ v, v) (standsList (slice standsWorkload)).
Definition standsPoolList : stands GPUNodePoolList _ :=
  struct (λ _ _, True) pl_List (λ v, v) (standsList (slice standsPool)).
Definition standsQuotaList : stands TenantQuotaList _ :=
  struct (λ _ _, True) ql_List (λ v, v) (standsList (slice standsQuota)).
End values.

(** What the library documents of its own functions: they copy. *)
Class MetaLaws `{MetaCopies} : Prop := {
  meta_stable :: Stable standsMeta;
  listmeta_stable :: Stable standsListMeta;
  condition_stable :: Stable standsCondition;
  meta_copies :: Copies Meta_DeepCopyInto standsMeta;
  listmeta_copies :: Copies ListMeta_DeepCopyInto standsListMeta;
  condition_copies :: Copies Condition_DeepCopyInto standsCondition;
  time_copies :: Copies Time_DeepCopy (pointer (plain : stands MetaTime MetaTime));
}.

(** ** They are copied *)

(** Steps through the fields of a struct that is copied. *)
Ltac in_grown :=
  lazymatch goal with
  | |- ?M ⊆ ?M => reflexivity
  | |- ?M ⊆ ?M' ∪ ?h => transitivity M'; [in_grown|apply map_union_subseteq_l]
  end.

Ltac copy_field :=
  eapply yields_bind;
  [ apply copies; eapply stable_grows; [eassumption|in_grown] | intros ? ? _ ? ].

(** Opens what is known of the struct, copies the fields, and puts the parts together. *)
Ltac copy_struct :=
  intros a v M Hs;
  repeat match goal with
  | Hx : struct _ _ _ _ shared _ _ _ |- _ => destruct Hx
  | Hx : both _ _ shared _ _ _ |- _ => destruct Hx
  end; cbn [fst snd] in *;
  repeat lazymatch goal with |- yields _ (_ ≫= _) _ => copy_field end; apply yields_ret; intros; rewrite ?(right_id_L ∅ (∪)) in *;
  split; [first [assumption|exact I]|];
  repeat lazymatch goal with
  | |- both _ _ owned _ _ (_ ∪ _) => apply owned_and; [assumption|assumption|]
  | |- struct _ _ _ _ owned _ _ _ => split; [exact I|]
  end; try assumption.

Section laws.
Context `{MetaLaws}.

#[global] Instance jitter_copies : Copies JitterConfigSpec_DeepCopyInto standsJitter.
Proof. unfold JitterConfigSpec_DeepCopyInto, standsJitter, copyField. copy_struct. Qed.

#[global] Instance workloadSpec_copies : Copies GPUWorkloadSpec_DeepCopyInto standsWorkloadSpec.
Proof. unfold GPUWorkloadSpec_DeepCopyInto, standsWorkloadSpec, copyField. copy_struct. Qed.

Lemma queuedAt_copies :
  Copies (λ p, match p with None => mret None | Some l => Time_DeepCopy (Some l) end)
    (pointer (plain : stands MetaTime MetaTime)).
Proof.
  intros [l|] v M Hv; [by apply copies|]. destruct v; [done|]. by apply yields_ret.
Qed.

#[global] Instance workloadStatus_copies : Copies GPUWorkloadStatus_DeepCopyInto standsWorkloadStatus.
Proof.
  unfold GPUWorkloadStatus_DeepCopyInto, standsWorkloadStatus, copyConditions. intros a v M Hs.
  destruct Hs as [? [Hq Hc]]. cbn [fst snd] in *. eapply yields_bind; [by apply queuedAt_copies|].
  intros q h1 _ Hq'. copy_field. apply yields_ret. intros.
  rewrite ?(right_id_L ∅ (∪)) in *. split; [done|]. by apply owned_and.
Qed.

#[global] Instance workload_copies : Copies GPUWorkload_DeepCopyInto standsWorkload.
Proof. unfold GPUWorkload_DeepCopyInto, standsWorkload. copy_struct. Qed.

#[global] Instance poolSpec_copies : Copies GPUNodePoolSpec_DeepCopyInto standsPoolSpec.
Proof. unfold GPUNodePoolSpec_DeepCopyInto, standsPoolSpec, copyField. copy_struct. Qed.

#[global] Instance poolStatus_copies : Copies GPUNodePoolStatus_DeepCopyInto standsPoolStatus.
Proof. unfold GPUNodePoolStatus_DeepCopyInto, standsPoolStatus, copyConditions. copy_struct. Qed.

#[global] Instance pool_copies : Copies GPUNodePool_DeepCopyInto standsPool.
Proof. unfold GPUNodePool_DeepCopyInto, standsPool. copy_struct. Qed.

#[global] Instance quotaStatus_copies : Copies TenantQuotaStatus_DeepCopyInto standsQuotaStatus.
Proof. unfold TenantQuotaStatus_DeepCopyInto, standsQuotaStatus, copyConditions. copy_struct. Qed.

#[global] Instance quota_copies : Copies TenantQuota_DeepCopyInto standsQuota.
Proof. unfold TenantQuota_DeepCopyInto, standsQuota. copy_struct. Qed.

#[global] Instance list_copies {V} copyArray (T : stands (cell := cell) (option loc) (option (list V))) :
  Copies copyArray T → Stable T → Copies (copyList copyArray) (standsList T).
Proof. intros HC HT. unfold copyList, standsList. copy_struct. Qed.

#[global] Instance workloadList_copies : Copies GPUWorkloadList_DeepCopyInto standsWorkloadList.
Proof.
  intros a v M [_ Hl]. unfold GPUWorkloadList_DeepCopyInto. copy_field. apply yields_ret. intros _.
  rewrite (right_id_L ∅ (∪)). by split.
Qed.

#[global] Instance poolList_copies : Copies GPUNodePoolList_DeepCopyInto standsPoolList.
Proof.
  intros a v M [_ Hl]. unfold GPUNodePoolList_DeepCopyInto. copy_field. apply yields_ret. intros _.
  rewrite (right_id_L ∅ (∪)). by split.
Qed.

#[global] Instance quotaList_copies : Copies TenantQuotaList_DeepCopyInto standsQuotaList.
Proof.
  intros a v M [_ Hl]. unfold TenantQuotaList_DeepCopyInto. copy_field. apply yields_ret. intros _.
  rewrite (right_id_L ∅ (∪)). by split.
Qed.

#[global] Instance object_copies {A V} `{Cell cell A} (m : option loc → Heap (option loc))
    (T : stands (cell := cell) A V) : Copies m (pointer T) → Copies (asObject m) (pointer T).
Proof.
  intros Hm p v M Hp. unfold asObject. eapply yields_bind; [by apply Hm|].
  intros p' h1 _ Hp'. destruct p'; apply yields_ret; intros _; by rewrite (right_id_L ∅ (∪)).
Qed.

(** ** Properties *)

(** A copy leaves every cell of the memory as it was, owns all cells it consists of, and stands for the
    same value.  Whatever is done to the other cells later, the original can still be read as long as the
    cells of the old memory are left alone, and the copy as long as its own are. *)
Definition separate_copy {A V} (copy : A → Heap A) (T : stands (cell := cell) A V) : Prop :=
  ∀ p v M, T shared p v M →
  ∃ p' own, copy p M = Some (p', M ∪ own) ∧ M ##ₘ own ∧ T owned p' v own ∧
    (∀ M', M ⊆ M' → T shared p v M') ∧ (∀ M', own ⊆ M' → T shared p' v M').

Lemma copies_separate {A V} copy (T : stands (cell := cell) A V) :
  Copies copy T → Stable T → separate_copy copy T.
Proof.
  intros HC HT p v M Hp. destruct (copies p v M Hp) as (p' & own & Hc & Hd & Ho). exists p', own.
  split_and!; [done|done|done|..]; intros M' Hs; [by eapply stable_grows|by eapply stable_owned].
Qed.

(** C28: the copies the cache hands out are separate: copying a workload, a pool, a quota or a list of
    them, whatever cells the original shares within itself or with others, does not panic, changes no
    existing cell, and gives an object of the same value in cells of its own, so that a reconciler that
    changes its copy changes neither the cache nor what other components were given. *)
Theorem cached_objects_copied :
  separate_copy GPUWorkload_DeepCopyObject (pointer standsWorkload) ∧
  separate_copy GPUNodePool_DeepCopyObject (pointer standsPool) ∧
  separate_copy TenantQuota_DeepCopyObject (pointer standsQuota) ∧
  separate_copy GPUWorkloadList_DeepCopyObject (pointer standsWorkloadList) ∧
  separate_copy GPUNodePoolList_DeepCopyObject (pointer standsPoolList) ∧
  separate_copy TenantQuotaList_DeepCopyObject (pointer standsQuotaList).
Proof.
  split_and!; apply copies_separate; try apply _; apply object_copies, pointer_copies; apply _.
Qed.
End laws.

(** ** Witness *)

Module CopyExample.
(** Metadata with a name and a map of annotations behind a pointer; conditions without pointers. *)
Record metaP := { mp_Name : string; mp_Annotations : option loc }.
#[export] Instance types : MetaTypes :=
  {| LibCell := gmap string string; MetaP := metaP; ListMetaP := string; ConditionP := Condition;
     MetaV := string * option (gmap string string); ListMetaV := string; ConditionV := Condition;
     zeroMeta := {| mp_Name := ""; mp_Annotations := None |}; zeroListMeta := "";
     zeroCondition := Build_Condition "" "" 0 0 "" "" |}.
#[export] Instance cell_map : Cell (cell := cell) (gmap string string) :=
  {| inj_cell := CLib : gmap string string → cell; zero := ∅; proj_inj a := eq_refl;
     proj_cell c := match c with CLib x => Some x | _ => None end |}.
Definition copyMeta (m : metaP) : Heap (cell := cell) metaP :=
  annotations ← copyPtr (copyPlain : gmap string string → Heap _) (mp_Annotations m);
  mret {| mp_Name := mp_Name m; mp_Annotations := annotations |}.
Definition standsName : stands (cell := cell) metaP (string * option (gmap string string)) :=
  struct (λ p v, v.1 = mp_Name p) mp_Annotations snd
    (pointer (plain : stands (gmap string string) (gmap string string))).
#[export] Instance library : MetaCopies :=
  {| Meta_DeepCopyInto := copyMeta; ListMeta_DeepCopyInto := copyPlain;
     Condition_DeepCopyInto := copyPlain; Time_DeepCopy := copyPtr (copyPlain : MetaTime → Heap MetaTime);
     standsMeta := standsName; standsListMeta := plain; standsCondition := plain |}.
#[export] Instance library_laws : MetaLaws.
Proof.
  split; try apply _.
  change (Copies copyMeta standsName). unfold copyMeta, standsName. copy_struct.
Qed.

(** A workload whose time limit and whose seed share a cell. *)
Definition spec : GPUWorkloadSpecP :=
  {| wp_Tenant := "team"; wp_Priority := 0; wp_GPUCount := 1; wp_GPUMemoryMiB := 1024; wp_Tokens := 10;
     wp_Profile := "h100_sxm"; wp_Kind := "training"; wp_MaxRuntimeSeconds := Some 1%nat;
     wp_Training := None; wp_Inference := None; wp_Eval := None; wp_FineTune := None; wp_RLHF := None;
     wp_Embedding := None; wp_DataPreprocess := None; wp_Distillation := None; wp_Jitter := Some 2%nat |}.
Definition memory : gmap loc cell :=
  {[ 1%nat := CInt64 60;
     2%nat := CJitterConfigSpecP {| jp_Enabled := true; jp_Pct := fzero; jp_Seed := Some 1%nat |};
     3%nat := (CLib ({["key" := "value"]} : gmap string string) : cell);
     4%nat := CGPUWorkloadP {| gw_TypeMeta := zeroTypeMeta;
                gw_ObjectMeta := {| mp_Name := "job"; mp_Annotations := Some 3%nat |};
                gw_Spec := spec; gw_Status := zeroWorkloadStatus |} ]}.
Definition value : ObjectV GPUWorkloadSpec StatusV :=
  {| ov_TypeMeta := zeroTypeMeta; ov_Meta := ("job", Some {["key" := "value"]});
     ov_Spec := {| ws_Tenant := "team"; ws_Priority := 0; ws_GPUCount := 1; ws_GPUMemoryMiB := 1024;
                   ws_Tokens := 10; ws_Profile := "h100_sxm"; ws_MaxRuntimeSeconds := Some 60;
                   ws_Kind := "training"; ws_Training := None; ws_Inference := None; ws_Eval := None;
                   ws_FineTune := None; ws_RLHF := None; ws_Embedding := None; ws_DataPreprocess := None;
                   ws_Distillation := None;
                   ws_Jitter := Some {| js_Enabled := true; js_Pct := fzero; js_Seed := Some 60 |} |};
     ov_Status := {| stv_Phase := PhaseNone; stv_QueuedAt := None; stv_Conditions := None |} |}.
End CopyExample.

Section copy_example.
Import CopyExample.

Lemma memory_stands : pointer standsWorkload shared (Some 4%nat) (Some value) memory.
Proof.
  eexists. split; [reflexivity|]. split; [done|]. split; [|split].
  - split; [done|]. eexists. split; [reflexivity|done].
  - split; [by repeat split|]. repeat split; try done; eexists; (split; [reflexivity|]); try done.
    split; [done|]. eexists. by split; [reflexivity|].
  - by repeat split.
Qed.

Lemma cached_objects_copied_witness :
  ∃ p' own, GPUWorkload_DeepCopyObject (Some 4%nat) memory = Some (p', memory ∪ own) ∧ memory ##ₘ own ∧
    pointer standsWorkload owned p' (Some value) own.
Proof.
  destruct (proj1 cached_objects_copied (Some 4%nat) (Some value) memory memory_stands)
    as (p' & own & Hc & Hd & Ho & _).
  exists p', own. exact (conj Hc (conj Hd Ho)).
Defined.
End copy_example.
