(* ===== verification/SchedState.v ===== *)
(** * The scheduler's in-memory state (internal/controller/scheduler_loop.go, lines 27-264, 571-807)

    The queue fed by watch events: buckets of queued, scheduled and running workloads per namespace,
    the fleet capacity and the quotas; the event handlers; the request of a scheduling cycle through
    a channel with one slot; and the snapshot a cycle works on. *)

From stdpp Require Import prelude gmap strings pretty.
From S2P Require Import Prelude GoFloat SimModel SchedInputs Resources.

Local Open Scope Z_scope.
Local Open Scope go_scope.

Record schedulerState := {
  st_queued : gmap string (gmap string QueuedWorkload);
  st_scheduled : gmap string (gmap string RunningWorkload);
  st_running : gmap string (gmap string RunningWorkload);
  st_fleet : gmap string FleetFreeCapacity;
  st_quotas : gmap string (gmap string TenantQuota);
}.

Definition newSchedulerState : schedulerState :=
  {| st_queued := ∅; st_scheduled := ∅; st_running := ∅; st_fleet := ∅; st_quotas := ∅ |}.

(** ** Maps of maps

    [m[ns][k] = v] with the inner map made when missing, and [delete(m[ns], k)] with the outer entry
    dropped when the inner map becomes empty.  Reading a missing inner map reads an empty one. *)

Definition inner {V} (m : gmap string (gmap string V)) (ns : string) : gmap string V :=
  default ∅ (m !! ns).

Definition nested_insert {V} (ns k : string) (v : V) (m : gmap string (gmap string V))
    : gmap string (gmap string V) :=
  <[ns := <[k := v]> (inner m ns)]> m.

Definition nested_delete {V} (ns k : string) (m : gmap string (gmap string V))
    : gmap string (gmap string V) :=
  match m !! ns with
  | None => m
  | Some i => let i' := delete k i in
              if decide (size i' = 0%nat) then delete ns m else <[ns := i']> m
  end.

(** ** Operations *)

Definition stateWorkloadID (ns name : string) : string := ns +:+ "/" +:+ name.

Definition upsertQueued (st : schedulerState) (ns : string) (q : QueuedWorkload) : schedulerState :=
  {| st_queued := nested_insert ns (q_WorkloadID q) q (st_queued st);
     st_scheduled := st_scheduled st; st_running := st_running st; st_fleet := st_fleet st;
     st_quotas := st_quotas st |}.

Definition removeWorkload (st : schedulerState) (ns workloadID : string) : schedulerState :=
  {| st_queued := nested_delete ns workloadID (st_queued st);
     st_scheduled := nested_delete ns workloadID (st_scheduled st);
     st_running := nested_delete ns workloadID (st_running st);
     st_fleet := st_fleet st; st_quotas := st_quotas st |}.

Definition upsertScheduled (st : schedulerState) (ns : string) (r : RunningWorkload)
    : schedulerState :=
  {| st_queued := nested_delete ns (r_WorkloadID r) (st_queued st);
     st_scheduled := nested_insert ns (r_WorkloadID r) r (st_scheduled st);
     st_running := st_running st; st_fleet := st_fleet st; st_quotas := st_quotas st |}.

Definition upsertRunning (st : schedulerState) (ns : string) (r : RunningWorkload)
    : schedulerState :=
  {| st_queued := nested_delete ns (r_WorkloadID r) (st_queued st);
     st_scheduled := nested_delete ns (r_WorkloadID r) (st_scheduled st);
     st_running := nested_insert ns (r_WorkloadID r) r (st_running st);
     st_fleet := st_fleet st; st_quotas := st_quotas st |}.

Definition with_fleet (st : schedulerState) (f : gmap string FleetFreeCapacity) : schedulerState :=
  {| st_queued := st_queued st; st_scheduled := st_scheduled st; st_running := st_running st;
     st_fleet := f; st_quotas := st_quotas st |}.

Definition setFleet (st : schedulerState) (ns : string) (f : FleetFreeCapacity) : schedulerState :=
  with_fleet st (<[ns := f]> (st_fleet st)).

Definition deleteFleet (st : schedulerState) (ns : string) : schedulerState :=
  with_fleet st (delete ns (st_fleet st)).

Definition with_quotas (st : schedulerState) (q : gmap string (gmap string TenantQuota))
    : schedulerState :=
  {| st_queued := st_queued st; st_scheduled := st_scheduled st; st_running := st_running st;
     st_fleet := st_fleet st; st_quotas := q |}.

Definition upsertQuota (st : schedulerState) (ns tenant : string) (q : TenantQuota)
    : schedulerState :=
  with_quotas st (nested_insert ns tenant q (st_quotas st)).

Definition deleteQuota (st : schedulerState) (ns tenant : string) : schedulerState :=
  with_quotas st (nested_delete ns tenant (st_quotas st)).

Definition deleteAllQuotasInNamespace (st : schedulerState) (ns : string) : schedulerState :=
  with_quotas st (delete ns (st_quotas st)).

Definition namespacesWithQueueAndFleet `{MapIter} (st : schedulerState) : list string :=
  filter (λ ns, is_Some (st_fleet st !! ns))
    (filter (λ ns, size (inner (st_queued st) ns) ≠ 0%nat) (map_iter (st_queued st)).*1).

Definition snapshotForNamespace `{MapIter} (st : schedulerState) (ns : string)
    : option SchedulingInputs :=
  match st_fleet st !! ns with
  | None => None
  | Some fleet =>
      Some {| in_QueuedWorkloads := (map_iter (inner (st_queued st) ns)).*2;
              in_ScheduledWorkloads := (map_iter (inner (st_scheduled st) ns)).*2;
              in_RunningWorkloads := (map_iter (inner (st_running st) ns)).*2;
              in_FleetFreeCapacity :=
                {| f_TotalFreeDevices := f_TotalFreeDevices fleet;
                   f_TotalFreeMemoryMiB := f_TotalFreeMemoryMiB fleet;
                   f_ByProfile := Some (byProfile fleet) |};
              in_TenantQuotas := inner (st_quotas st) ns |}
  end.

(** ** Events *)

(** What an informer hands to its handlers: an object, or the tombstone of one. *)
Inductive object :=
| OWorkload (w : GPUWorkload)
| OPool (p : GPUNodePool)
| OQuota (q : TenantQuotaResource)
| OTombstone (o : object)
| OOther.

Definition untomb (o : object) : object := match o with OTombstone o' => o' | _ => o end.

(** [meta.Accessor(obj)] *)
Definition accessor (o : object) : option ObjectMeta :=
  match o with
  | OWorkload w => Some (w_Meta w)
  | OPool p => Some (p_Meta p)
  | OQuota q => Some (tq_Meta q)
  | _ => None
  end.

(** The state of the loop: the queue and the trigger channel ([None] for the nil channel, otherwise
    whether its one slot is taken). *)
Record loopState := { lp_state : schedulerState; lp_trigger : option bool }.

Definition with_state (s : loopState) (st : schedulerState) : loopState :=
  {| lp_state := st; lp_trigger := lp_trigger s |}.

Definition requestScheduling (s : loopState) : loopState :=
  match lp_trigger s with
  | None => s
  | Some _ => {| lp_state := lp_state s; lp_trigger := Some true |}
  end.

(** [queuedAt := time.Now(); if w.Status.QueuedAt != nil { queuedAt = w.Status.QueuedAt.Time }] *)
Definition queuedAtOr (now : Time) (w : GPUWorkload) : Time :=
  default now (wst_QueuedAt (w_Status w)).

Definition applyWorkloadToState (st : schedulerState) (now : Time) (obj : object) (deleted : bool)
    : schedulerState * bool :=
  let obj := untomb obj in
  match accessor obj with
  | None => (st, false)
  | Some m =>
      let ns := om_Namespace m in
      let workloadID := stateWorkloadID ns (om_Name m) in
      if deleted : bool then (removeWorkload st ns workloadID, false)
      else match obj with
      | OWorkload w =>
          if decide (om_DeletionTimestamp (w_Meta w) ≠ None)
          then (removeWorkload st ns workloadID, false)
          else match phase_of w with
          | GPUWorkloadPhaseQueued =>
              (upsertQueued st ns (GPUWorkloadToQueuedWorkload w workloadID (queuedAtOr now w)), true)
          | GPUWorkloadPhaseScheduled =>
              (upsertScheduled st ns (GPUWorkloadToRunningWorkload w workloadID (queuedAtOr now w)),
               false)
          | GPUWorkloadPhaseRunning =>
              (upsertRunning (removeWorkload st ns workloadID) ns
                 (GPUWorkloadToRunningWorkload w workloadID (queuedAtOr now w)), false)
          | _ => (removeWorkload st ns workloadID, false)
          end
      | _ => (st, false)
      end
  end.

Definition handleWorkloadAdd (s : loopState) (now : Time) (obj : object) : loopState :=
  let '(st, wasQueued) := applyWorkloadToState (lp_state s) now obj false in
  if wasQueued : bool then requestScheduling (with_state s st) else with_state s st.

Definition object_phase (o : object) : GPUWorkloadPhase :=
  match o with OWorkload w => phase_of w | _ => PhaseNone end.

Definition handleWorkloadUpdate (s : loopState) (now : Time) (oldObj newObj : object) : loopState :=
  let oldPhase := object_phase oldObj in
  let '(st, wasQueued) := applyWorkloadToState (lp_state s) now newObj false in
  let newPhase := object_phase newObj in
  if wasQueued || (bool_decide (oldPhase = GPUWorkloadPhaseRunning)
                   && negb (bool_decide (newPhase = GPUWorkloadPhaseRunning)))
  then requestScheduling (with_state s st) else with_state s st.

Definition handleWorkloadDelete (s : loopState) (now : Time) (obj : object) : loopState :=
  let obj := untomb obj in
  let s1 := match obj with
            | OWorkload w => if decide (phase_of w = GPUWorkloadPhaseRunning)
                             then requestScheduling s else s
            | _ => s
            end in
  with_state s1 (applyWorkloadToState (lp_state s1) now obj true).1.

(** [Client.List] of the pools of a namespace is an argument: what the API server answered. *)
Definition handlePoolEvent (s : loopState) (obj : object)
    (listPools : string → Result (list GPUNodePool)) : loopState :=
  match accessor (untomb obj) with
  | None => s
  | Some m =>
      let ns := om_Namespace m in
      match listPools ns with
      | Err _ => s
      | Ok items =>
          let st := if decide (length items = 0%nat) then deleteFleet (lp_state s) ns
                    else setFleet (lp_state s) ns (aggregateFleetFromPools items) in
          requestScheduling (with_state s st)
      end
  end.

(** The pools by namespace, in the order of the list; then one [setFleet] per namespace. *)
Definition byNamespace (items : list GPUNodePool) : gmap string (list GPUNodePool) :=
  foldl (λ m p, let ns := om_Namespace (p_Meta p) in <[ns := default [] (m !! ns) ++ [p]]> m)
        ∅ items.

Definition refreshFleetFromAPI `{MapIter} (s : loopState) (list_ : Result (list GPUNodePool))
    : loopState * option error :=
  match list_ with
  | Err e => (s, Some (Wrapf "list GPUNodePools" e))
  | Ok items =>
      (with_state s (foldl (λ st e, setFleet st e.1 (aggregateFleetFromPools e.2)) (lp_state s)
                       (map_iter (byNamespace items))), None)
  end.

Definition handleQuotaEvent (s : loopState) (obj : object) (deleted : bool) : loopState :=
  match untomb obj with
  | OQuota q =>
      let ns := om_Namespace (tq_Meta q) in
      let tenant := TrimSpace (tqs_Tenant (tq_Spec q)) in
      if deleted : bool then
        requestScheduling (with_state s
          (if decide (tenant ≠ "") then deleteQuota (lp_state s) ns tenant
           else deleteAllQuotasInNamespace (lp_state s) ns))
      else if decide (tenant = "") then s
      else requestScheduling (with_state s
             (upsertQuota (lp_state s) ns tenant
                {| t_MaxGPUs := tqs_MaxGPUs (tq_Spec q);
                   t_MaxMemoryMiB := tqs_MaxMemoryMiB (tq_Spec q);
                   t_Weight := tqs_Weight (tq_Spec q) |}))
  | _ => s
  end.


(** ** Informers: the functions registered for the events of each resource *)

Inductive informerEvent :=
| Added (obj : object)
| Updated (oldObj newObj : object)
| Removed (obj : object).

Definition workloadInformer (s : loopState) (now : Time) (ev : informerEvent) : loopState :=
  match ev with
  | Added obj => handleWorkloadAdd s now obj
  | Updated oldObj newObj => handleWorkloadUpdate s now oldObj newObj
  | Removed obj => handleWorkloadDelete s now obj
  end.

Definition poolInformer (s : loopState) (listPools : string → Result (list GPUNodePool))
    (ev : informerEvent) : loopState :=
  match ev with
  | Added obj => handlePoolEvent s obj listPools
  | Updated _ newObj => handlePoolEvent s newObj listPools
  | Removed obj => handlePoolEvent s obj listPools
  end.

Definition quotaInformer (s : loopState) (ev : informerEvent) : loopState :=
  match ev with
  | Added obj => handleQuotaEvent s obj false
  | Updated _ newObj => handleQuotaEvent s newObj false
  | Removed obj => handleQuotaEvent s obj true
  end.

(** The workload events of a run, each with the time it is handled. *)
Definition runWorkloadEvents (s : loopState) (evs : list (Time * informerEvent)) : loopState :=
  foldl (λ s e, workloadInformer s e.1 e.2) s evs.

(** ** Reading maps of maps *)

Section nested.
Context {V : Type}.
Implicit Type m : gmap string (gmap string V).

Definition look m (ns k : string) : option V := inner m ns !! k.

Lemma inner_insert m ns k v ns' :
  inner (nested_insert ns k v m) ns' =
  if decide (ns = ns') then <[k := v]> (inner m ns') else inner m ns'.
Proof.
  unfold nested_insert, inner. case_decide; subst.
  - by rewrite lookup_insert_eq.
  - by rewrite lookup_insert_ne.
Qed.

Lemma inner_delete m ns k ns' :
  inner (nested_delete ns k m) ns' =
  if decide (ns = ns') then delete k (inner m ns') else inner m ns'.
Proof.
  unfold nested_delete, inner. destruct (m !! ns) as [i|] eqn:Hm.
  - destruct (decide (size (delete k i) = 0%nat)) as [H0|]; destruct (decide (ns = ns')) as [<-|];
      rewrite ?lookup_delete_eq, ?lookup_delete_ne, ?lookup_insert_eq, ?lookup_insert_ne, ?Hm by done;
      try done.
    simpl. by apply map_size_empty_inv in H0.
  - case_decide; [|done]. subst. rewrite Hm. simpl. by rewrite delete_empty.
Qed.

Lemma look_insert m ns k v ns' k' :
  look (nested_insert ns k v m) ns' k' =
  if decide ((ns, k) = (ns', k')) then Some v else look m ns' k'.
Proof.
  unfold look. rewrite inner_insert. repeat case_decide; simplify_eq.
  - by rewrite lookup_insert_eq.
  - rewrite lookup_insert_ne; [done|]. naive_solver.
  - done.
Qed.

Lemma look_delete m ns k ns' k' :
  look (nested_delete ns k m) ns' k' =
  if decide ((ns, k) = (ns', k')) then None else look m ns' k'.
Proof.
  unfold look. rewrite inner_delete. repeat case_decide; simplify_eq.
  - by rewrite lookup_delete_eq.
  - rewrite lookup_delete_ne; [done|]. naive_solver.
  - done.
Qed.
End nested.

(** ** The buckets refine the last object seen of each workload *)

(** The specification of the queue: the last object delivered for each workload (with the time of
    delivery), nothing for the deleted ones. *)
Notation observation := (gmap (string * string) (GPUWorkload * Time)).

Definition obs_key (w : GPUWorkload) : string * string := (om_Namespace (w_Meta w), workload_id w).

Definition gone (ev : informerEvent) (w : GPUWorkload) : Prop :=
  match ev with Removed _ => True | _ => om_DeletionTimestamp (w_Meta w) ≠ None end.

#[export] Instance gone_dec ev w : Decision (gone ev w).
Proof. destruct ev; simpl; apply _. Defined.

Definition event_object (ev : informerEvent) : object :=
  untomb match ev with Added o => o | Updated _ o => o | Removed o => o end.

Definition observe (obs : observation) (now : Time) (ev : informerEvent) : observation :=
  match event_object ev with
  | OWorkload w => if decide (gone ev w) then delete (obs_key w) obs
                   else <[obs_key w := (w, now)]> obs
  | _ => obs
  end.

Definition observed (evs : list (Time * informerEvent)) : observation :=
  foldl (λ obs e, observe obs e.1 e.2) ∅ evs.

(** An event moves a workload forward when its bucket is not behind the one it was in. *)
Definition phase_rank (p : GPUWorkloadPhase) : nat :=
  match p with
  | GPUWorkloadPhaseQueued => 1
  | GPUWorkloadPhaseScheduled => 2
  | GPUWorkloadPhaseRunning => 3
  | _ => 0
  end.

Definition forward (obs : observation) (ev : informerEvent) : Prop :=
  match event_object ev with
  | OWorkload w =>
      gone ev w ∨ phase_rank (phase_of w) = 0%nat ∨
      ∀ w0 t, obs !! obs_key w = Some (w0, t) →
              (phase_rank (phase_of w0) ≤ phase_rank (phase_of w))%nat
  | _ => False
  end.

Fixpoint all_forward (obs : observation) (evs : list (Time * informerEvent)) : Prop :=
  match evs with
  | [] => True
  | (now, ev) :: evs' => forward obs ev ∧ all_forward (observe obs now ev) evs'
  end.

Definition queued_view (id : string) (o : option (GPUWorkload * Time)) : option QueuedWorkload :=
  '(w, t) ← o;
  if decide (phase_of w = GPUWorkloadPhaseQueued)
  then Some (GPUWorkloadToQueuedWorkload w id (queuedAtOr t w)) else None.

Definition running_view (p : GPUWorkloadPhase) (id : string) (o : option (GPUWorkload * Time))
    : option RunningWorkload :=
  '(w, t) ← o;
  if decide (phase_of w = p)
  then Some (GPUWorkloadToRunningWorkload w id (queuedAtOr t w)) else None.

Record refines (obs : observation) (st : schedulerState) : Prop := {
  rf_queued : ∀ ns id, look (st_queued st) ns id = queued_view id (obs !! (ns, id));
  rf_scheduled : ∀ ns id, look (st_scheduled st) ns id =
                          running_view GPUWorkloadPhaseScheduled id (obs !! (ns, id));
  rf_running : ∀ ns id, look (st_running st) ns id =
                        running_view GPUWorkloadPhaseRunning id (obs !! (ns, id));
}.

Lemma refines_init : refines ∅ newSchedulerState.
Proof. by constructor. Qed.

(** The effect of one event whose object is a workload; the trigger channel has no part in it. *)
Definition workload_step (st : schedulerState) (now : Time) (w : GPUWorkload) (removed : bool)
    : schedulerState :=
  (applyWorkloadToState st now (OWorkload w) removed).1.

Lemma workloadInformer_state s now ev w :
  event_object ev = OWorkload w →
  lp_state (workloadInformer s now ev) =
  workload_step (lp_state s) now w (match ev with Removed _ => true | _ => false end).
Proof.
  unfold event_object, workload_step. intros Hw.
  assert (Hun : ∀ o st d, untomb o = OWorkload w →
    applyWorkloadToState st now o d = applyWorkloadToState st now (OWorkload w) d).
  { intros o st d Ho. destruct o; simplify_eq/=; done. }
  destruct ev as [o|oo o|o]; simpl in *;
    unfold handleWorkloadAdd, handleWorkloadUpdate, handleWorkloadDelete.
  - rewrite (Hun o) by done. destruct (applyWorkloadToState _ _ _ _) as [st []]; [|done].
    unfold requestScheduling. by case_match.
  - rewrite (Hun o) by done. destruct (applyWorkloadToState _ _ _ _) as [st wq].
    unfold requestScheduling. by repeat case_match.
  - rewrite Hw. simpl. unfold requestScheduling. by repeat case_match.
Qed.

(** Both sides of a refinement at one key: the one the event is about, or another. *)
Ltac same_key :=
  match goal with |- context [decide (?k = (?ns', ?id'))] =>
    destruct (decide (k = (ns', id'))) as [[= <- <-]|E];
    [rewrite ?lookup_delete_eq, ?lookup_insert_eq; simpl
    |rewrite ?lookup_delete_ne, ?lookup_insert_ne by done; auto]
  end.

Lemma refines_remove obs st ns id :
  refines obs st → refines (delete (ns, id) obs) (removeWorkload st ns id).
Proof.
  intros [Hq Hs Hr]. constructor; intros ns' id'; simpl; rewrite look_delete; by same_key.
Qed.

Lemma refines_idle obs st ns id w t :
  phase_rank (phase_of w) = 0%nat → refines obs st →
  refines (<[(ns, id) := (w, t)]> obs) (removeWorkload st ns id).
Proof.
  intros H0 [Hq Hs Hr]. constructor; intros ns' id'; simpl; rewrite look_delete; same_key;
    destruct (decide _) as [Hp|]; try done; by rewrite Hp in H0.
Qed.

(** A workload whose last object is of a lower rank is in none of the higher buckets. *)
Lemma running_view_rank p id o n :
  (∀ w0 t, o = Some (w0, t) → (phase_rank (phase_of w0) ≤ n)%nat) → (n < phase_rank p)%nat →
  running_view p id o = None.
Proof.
  intros Ho Hn. destruct o as [[w0 t]|]; [|done]. simpl. rewrite decide_False; [done|].
  intros <-. specialize (Ho w0 t eq_refl). lia.
Qed.

Lemma refines_upsert obs st ns id w t :
  (∀ w0 t0, obs !! (ns, id) = Some (w0, t0) →
            (phase_rank (phase_of w0) ≤ phase_rank (phase_of w))%nat) →
  refines obs st →
  match phase_of w with
  | GPUWorkloadPhaseQueued =>
      refines (<[(ns, id) := (w, t)]> obs)
        (upsertQueued st ns (GPUWorkloadToQueuedWorkload w id (queuedAtOr t w)))
  | GPUWorkloadPhaseScheduled =>
      refines (<[(ns, id) := (w, t)]> obs)
        (upsertScheduled st ns (GPUWorkloadToRunningWorkload w id (queuedAtOr t w)))
  | GPUWorkloadPhaseRunning =>
      refines (<[(ns, id) := (w, t)]> obs)
        (upsertRunning (removeWorkload st ns id) ns
           (GPUWorkloadToRunningWorkload w id (queuedAtOr t w)))
  | _ => True
  end.
Proof.
  intros Hf [Hq Hs Hr]. destruct (phase_of w) eqn:Hp; try done; constructor; intros ns' id'; simpl;
    rewrite ?look_insert, ?look_delete; try same_key; rewrite ?Hp; try done.
  all: destruct (decide ((ns, id) = (ns', id'))) as [[= <- <-]|E];
    [rewrite lookup_insert_eq; simpl; rewrite Hp; simpl
    |by rewrite lookup_insert_ne].
  all: rewrite ?Hs, ?Hr; eapply running_view_rank; [exact Hf|simpl; lia].
Qed.

Lemma refines_step obs s now ev :
  forward obs ev → refines obs (lp_state s) →
  refines (observe obs now ev) (lp_state (workloadInformer s now ev)).
Proof.
  intros Hf HR. unfold forward, observe in *.
  destruct (event_object ev) as [w| | | |] eqn:Hev; try done.
  rewrite (workloadInformer_state s now ev w Hev). unfold workload_step, obs_key in *.
  change (workload_id w) with (stateWorkloadID (om_Namespace (w_Meta w)) (om_Name (w_Meta w))) in *.
  destruct (decide (gone ev w)) as [Hg|Hg].
  - destruct ev; cbn [gone] in Hg; cbv zeta beta iota delta [applyWorkloadToState untomb accessor];
      rewrite ?decide_True by done; by apply refines_remove.
  - assert (Hr : (match ev with Removed _ => true | _ => false end) = false) by (by destruct ev).
    rewrite Hr. cbv zeta beta iota delta [applyWorkloadToState untomb accessor].
    rewrite decide_False by (destruct ev; simpl in Hg; tauto).
    destruct Hf as [?|[Hf|Hf]]; [done| |].
    + pose proof (refines_idle obs _ (om_Namespace (w_Meta w)) (workload_id w) w now Hf HR). by destruct (phase_of w).
    + pose proof (refines_upsert _ _ _ _ _ now Hf HR) as Hu.
      destruct (phase_of w) eqn:Hp; try done; apply refines_idle; by rewrite ?Hp.
Qed.

(** ** Runs of the loop *)

(** Seeding the fleet when the loop starts. *)
Definition startSeed `{MapIter} (s : loopState) (list_ : Result (list GPUNodePool)) : loopState :=
  match refreshFleetFromAPI s list_ with
  | (s', Some _) => s'
  | (s', None) => requestScheduling s'
  end.

(** What a workload has to say for the scheduler to accept it.  This is more than the validation of the
    resource asks for: that has a minimum of 0 for the memory and lets tenant and profile be blank. *)
Definition sound_request (w : GPUWorkload) : Prop :=
  TrimSpace (ws_Tenant (w_Spec w)) ≠ "" ∧ TrimSpace (ws_Profile (w_Spec w)) ≠ "" ∧
  ws_Kind (w_Spec w) ∈ workloadKinds ∧ 0 < ws_GPUCount (w_Spec w) ∧
  0 < ws_GPUMemoryMiB (w_Spec w) ∧ 0 < ws_Tokens (w_Spec w).

(** A workload with a sound request whose queueing time, if it is set, is a time. *)
Definition served_workload (w : GPUWorkload) : Prop :=
  sound_request w ∧ wst_QueuedAt (w_Status w) ≠ Some 0.

Definition served (o : object) : Prop :=
  match o with
  | OWorkload w => served_workload w
  | OQuota q => 0 ≤ tqs_MaxGPUs (tq_Spec q) ∧ 0 ≤ tqs_MaxMemoryMiB (tq_Spec q) ∧
                0 ≤ tqs_Weight (tq_Spec q)
  | _ => True
  end.

(** The states the loop goes through, with the last objects seen and the state at the start of the
    last scheduling cycle. *)
Inductive loop_reach `{MapIter} : observation → schedulerState → loopState → Prop :=
| reach_start : loop_reach ∅ newSchedulerState {| lp_state := newSchedulerState;
                                                  lp_trigger := Some false |}
| reach_seed obs last s list_ :
    loop_reach obs last s →
    (∀ items ns, list_ = Ok items → pools_ok (default [] (byNamespace items !! ns))) →
    loop_reach obs last (startSeed s list_)
| reach_workload obs last s now ev :
    loop_reach obs last s → now ≠ 0 → forward obs ev → served (event_object ev) →
    loop_reach (observe obs now ev) last (workloadInformer s now ev)
| reach_pool obs last s listPools ev :
    loop_reach obs last s → (∀ ns items, listPools ns = Ok items → pools_ok items) →
    loop_reach obs last (poolInformer s listPools ev)
| reach_quota obs last s ev :
    loop_reach obs last s → served (event_object ev) →
    loop_reach obs last (quotaInformer s ev)
| reach_cycle obs last s :
    loop_reach obs last s → lp_trigger s = Some true →
    loop_reach obs (lp_state s) {| lp_state := lp_state s; lp_trigger := Some false |}.

(** The buckets are not touched by the other handlers. *)
Definition same_buckets (st st' : schedulerState) : Prop :=
  st_queued st = st_queued st' ∧ st_scheduled st = st_scheduled st' ∧ st_running st = st_running st'.

Lemma refines_same obs st st' : same_buckets st st' → refines obs st → refines obs st'.
Proof. intros (Hq & Hs & Hr) []. constructor; intros; rewrite <-?Hq, <-?Hs, <-?Hr; auto. Qed.

Lemma requestScheduling_state s : lp_state (requestScheduling s) = lp_state s.
Proof. unfold requestScheduling. by case_match. Qed.

Lemma seed_fold st (l : list (string * list GPUNodePool)) :
  let st' := foldl (λ st e, setFleet st e.1 (aggregateFleetFromPools e.2)) st l in
  same_buckets st st' ∧ st_quotas st' = st_quotas st ∧
  ∀ ns f, st_fleet st' !! ns = Some f →
    st_fleet st !! ns = Some f ∨ ∃ ps, (ns, ps) ∈ l ∧ f = aggregateFleetFromPools ps.
Proof.
  revert st. induction l as [|[ns ps] l IH]; intros st; simpl; [split_and!; by auto|].
  destruct (IH (setFleet st ns (aggregateFleetFromPools ps))) as (Hb & Hq & Hf).
  split_and!; [exact Hb|exact Hq|]. intros ns' f Hl. destruct (Hf ns' f Hl) as [H0|(ps' & ? & ?)].
  - simpl in H0. apply lookup_insert_Some in H0 as [[<- <-]|[_ ?]]; [|auto].
    right. exists ps. split; [apply list_elem_of_here|done].
  - right. exists ps'. split; [by apply list_elem_of_further|done].
Qed.

(** ** The invariant of the loop *)

Definition obs_served (obs : observation) : Prop :=
  ∀ k w t, obs !! k = Some (w, t) →
    k = obs_key w ∧ served_workload w ∧ t ≠ 0.

Record loop_inv (obs : observation) (s : loopState) : Prop := {
  li_refines : refines obs (lp_state s);
  li_served : obs_served obs;
  li_fleet : map_Forall (λ _ f, fleet_valid f) (st_fleet (lp_state s));
  li_quotas : ∀ ns, map_Forall valid_quota (inner (st_quotas (lp_state s)) ns);
  li_trigger : is_Some (lp_trigger s);
}.

Lemma loop_inv_state obs s s' :
  loop_inv obs s → same_buckets (lp_state s) (lp_state s') →
  map_Forall (λ _ f, fleet_valid f) (st_fleet (lp_state s')) →
  (∀ ns, map_Forall valid_quota (inner (st_quotas (lp_state s')) ns)) →
  is_Some (lp_trigger s') → loop_inv obs s'.
Proof. intros [] Hb ???. constructor; try done. by eapply refines_same. Qed.

Lemma loop_inv_request obs s : loop_inv obs s → loop_inv obs (requestScheduling s).
Proof.
  intros HI. pose proof HI as []. apply (loop_inv_state obs s); rewrite ?requestScheduling_state;
    try done. unfold requestScheduling. by case_match.
Qed.

Lemma loop_inv_seed `{MapIter} obs s list_ :
  loop_inv obs s →
  (∀ items ns, list_ = Ok items → pools_ok (default [] (byNamespace items !! ns))) →
  loop_inv obs (startSeed s list_).
Proof.
  intros HI Hok. pose proof HI as []. unfold startSeed, refreshFleetFromAPI.
  destruct list_ as [items|e]; [|done]. apply loop_inv_request.
  destruct (seed_fold (lp_state s) (map_iter (byNamespace items))) as (Hb & Hq & Hf).
  apply (loop_inv_state obs s); try done; simpl.
  - intros ns f Hl. destruct (Hf ns f Hl) as [?|(ps & Hin & ->)]; [by eapply li_fleet0|].
    apply aggregate_fleet_valid. rewrite map_iter_perm in Hin. apply elem_of_map_to_list in Hin.
    specialize (Hok items ns eq_refl). by rewrite Hin in Hok.
  - intros ns. rewrite Hq. apply li_quotas0.
Qed.

Lemma loop_inv_pool obs s listPools ev :
  loop_inv obs s → (∀ ns items, listPools ns = Ok items → pools_ok items) →
  loop_inv obs (poolInformer s listPools ev).
Proof.
  intros HI Hok. pose proof HI as [].
  assert (∀ o, loop_inv obs (handlePoolEvent s o listPools)).
  { intros o. unfold handlePoolEvent. case_match; [|done].
    destruct (listPools _) as [items|e] eqn:Hl; [|done]. apply loop_inv_request.
    apply (loop_inv_state obs s); simpl; try done; case_decide; try done; simpl.
    - by apply map_Forall_delete.
    - apply map_Forall_insert_2; [|done]. by eapply aggregate_fleet_valid, Hok. }
  destruct ev; simpl; auto.
Qed.

Lemma loop_inv_quota obs s ev :
  loop_inv obs s → served (event_object ev) → loop_inv obs (quotaInformer s ev).
Proof.
  intros HI Hs. pose proof HI as [].
  assert (∀ o d, served (untomb o) → loop_inv obs (handleQuotaEvent s o d)) as Hh.
  { clear Hs. intros o d Hs. unfold handleQuotaEvent.
    destruct (untomb o) as [| |q| |]; try done. set (t := TrimSpace _).
    destruct d; [|destruct (decide (t = "")) as [|Ht]; [done|]]; apply loop_inv_request;
      apply (loop_inv_state obs s); simpl; try done; try (by case_decide); intros ns.
    - case_decide; simpl.
      + rewrite inner_delete. case_decide; [by apply map_Forall_delete|done].
      + unfold inner. destruct (decide (om_Namespace (tq_Meta q) = ns)) as [<-|].
        * rewrite lookup_delete_eq. apply map_Forall_empty.
        * rewrite lookup_delete_ne by done. apply li_quotas0.
    - rewrite inner_insert. case_decide; [|done].
      apply map_Forall_insert_2; [|done]. destruct Hs as (? & ? & ?).
      split_and!; try done. unfold t in *. by rewrite TrimSpace_idem_blank. }
  unfold event_object in Hs. destruct ev; simpl; auto.
Qed.

Lemma loop_inv_workload obs s now ev :
  loop_inv obs s → now ≠ 0 → forward obs ev → served (event_object ev) →
  loop_inv (observe obs now ev) (workloadInformer s now ev).
Proof.
  intros [HR Hs Hf Hq Ht] Hnow Hfw Hev.
  assert (st_fleet (lp_state (workloadInformer s now ev)) = st_fleet (lp_state s) ∧
          st_quotas (lp_state (workloadInformer s now ev)) = st_quotas (lp_state s)) as [Ef Eq].
  { unfold forward in Hfw. destruct (event_object ev) as [w| | | |] eqn:He; try done.
    rewrite (workloadInformer_state s now ev w He). unfold workload_step, applyWorkloadToState.
    simpl. by repeat case_match. }
  constructor; rewrite ?Ef, ?Eq; try done.
  - by apply refines_step.
  - unfold forward, observe in *. destruct (event_object ev) as [w| | | |]; try done.
    intros k w' t. case_decide.
    + rewrite lookup_delete_Some. intros [_ ?]. by apply Hs.
    + rewrite lookup_insert_Some. intros [[<- [= <- <-]]|[_ ?]]; [done|by apply Hs].
  - destruct Ht as [b Hb]. destruct ev; simpl;
      unfold handleWorkloadAdd, handleWorkloadUpdate, handleWorkloadDelete, requestScheduling;
      repeat (case_match; simplify_eq/=); eauto; try (by rewrite Hb); congruence.
Qed.

Lemma loop_reach_inv `{MapIter} obs last s : loop_reach obs last s → loop_inv obs s.
Proof.
  induction 1 as [|???? _ IH|????? _ IH|????? _ IH|???? _ IH|??? _ IH].
  - constructor; simpl; [apply refines_init|done|apply map_Forall_empty| |by eexists].
    intros ns. unfold inner. rewrite lookup_empty. apply map_Forall_empty.
  - by apply loop_inv_seed.
  - by apply loop_inv_workload.
  - by apply loop_inv_pool.
  - by apply loop_inv_quota.
  - destruct IH. by constructor.
Qed.

(** ** The snapshot of a cycle *)

Lemma bucket_ids `{MapIter} {V} (idf : V → string) (m : gmap string V) :
  (∀ id v, m !! id = Some v → idf v = id) → idf <$> (map_iter m).*2 = (map_iter m).*1.
Proof.
  intros Hid. rewrite <- list_fmap_compose. apply list_fmap_ext. intros i [id v] Hi. simpl.
  apply Hid, elem_of_map_to_list. rewrite <- map_iter_perm. by eapply list_elem_of_lookup_2.
Qed.

Lemma map_iter_keys `{MapIter} {V} (m : gmap string V) :
  NoDup (map_iter m).*1 ∧ ∀ k, k ∈ (map_iter m).*1 ↔ is_Some (m !! k).
Proof.
  split; [rewrite map_iter_perm; apply NoDup_fst_map_to_list|]. intros k.
  rewrite map_iter_perm, list_elem_of_fmap. split.
  - intros ([k' v] & -> & Hin). apply elem_of_map_to_list in Hin. by exists v.
  - intros [v Hv]. exists (k, v). split; [done|]. by apply elem_of_map_to_list.
Qed.

Lemma map_iter_values `{MapIter} {V} (m : gmap string V) v :
  v ∈ (map_iter m).*2 ↔ ∃ k, m !! k = Some v.
Proof.
  rewrite map_iter_perm, list_elem_of_fmap. split.
  - intros ([k v'] & -> & Hin). apply elem_of_map_to_list in Hin. by exists k.
  - intros [k Hk]. exists (k, v). split; [done|]. by apply elem_of_map_to_list.
Qed.

Lemma workload_id_nonblank w : TrimSpace (workload_id w) ≠ "".
Proof.
  unfold workload_id, nn_String. rewrite TrimSpace_blank, !bytes_app, !Forall_app.
  intros (_ & H & _). by inversion H.
Qed.

Section snapshot.
Context `{MapIter} (obs : observation) (st : schedulerState) (HR : refines obs st).

Lemma queued_entry ns id q :
  inner (st_queued st) ns !! id = Some q →
  ∃ w t, obs !! (ns, id) = Some (w, t) ∧ phase_of w = GPUWorkloadPhaseQueued ∧
         q = GPUWorkloadToQueuedWorkload w id (queuedAtOr t w).
Proof.
  intros Hq. pose proof (rf_queued _ _ HR ns id) as Hv. unfold look in Hv.
  rewrite Hq in Hv. revert Hv. destruct (obs !! (ns, id)) as [[w t]|]; [|done].
  simpl. destruct (decide _); [|done]. intros [= ->]. eauto.
Qed.

Lemma running_entry p ns id r :
  running_view p id (obs !! (ns, id)) = Some r →
  ∃ w t, obs !! (ns, id) = Some (w, t) ∧ phase_of w = p ∧
         r = GPUWorkloadToRunningWorkload w id (queuedAtOr t w).
Proof.
  destruct (obs !! (ns, id)) as [[w t]|]; [|done]. simpl. destruct (decide _); [|done].
  intros [= <-]. eauto.
Qed.

Lemma scheduled_entry ns id r :
  inner (st_scheduled st) ns !! id = Some r →
  ∃ w t, obs !! (ns, id) = Some (w, t) ∧ phase_of w = GPUWorkloadPhaseScheduled ∧
         r = GPUWorkloadToRunningWorkload w id (queuedAtOr t w).
Proof.
  intros Hr. apply running_entry. by rewrite <- (rf_scheduled _ _ HR).
Qed.

Lemma run_entry ns id r :
  inner (st_running st) ns !! id = Some r →
  ∃ w t, obs !! (ns, id) = Some (w, t) ∧ phase_of w = GPUWorkloadPhaseRunning ∧
         r = GPUWorkloadToRunningWorkload w id (queuedAtOr t w).
Proof.
  intros Hr. apply running_entry. by rewrite <- (rf_running _ _ HR).
Qed.

Lemma snapshot_ids ns inp :
  snapshotForNamespace st ns = Some inp →
  NoDup (all_ids inp) ∧ ∀ id, id ∈ all_ids inp → is_Some (obs !! (ns, id)).
Proof.
  unfold snapshotForNamespace. case_match; [|done]. intros [= <-]. unfold all_ids. simpl.
  rewrite !bucket_ids.
  2:{ intros id r Hr. by destruct (run_entry _ _ _ Hr) as (? & ? & _ & _ & ->). }
  2:{ intros id r Hr. by destruct (scheduled_entry _ _ _ Hr) as (? & ? & _ & _ & ->). }
  2:{ intros id q Hq. by destruct (queued_entry _ _ _ Hq) as (? & ? & _ & _ & ->). }
  destruct (map_iter_keys (inner (st_queued st) ns)) as [Hq1 Hq2].
  destruct (map_iter_keys (inner (st_scheduled st) ns)) as [Hs1 Hs2].
  destruct (map_iter_keys (inner (st_running st) ns)) as [Hr1 Hr2].
  assert (Hq : ∀ id, id ∈ (map_iter (inner (st_queued st) ns)).*1 →
    ∃ w t, obs !! (ns, id) = Some (w, t) ∧ phase_of w = GPUWorkloadPhaseQueued).
  { intros id [q Hq]%Hq2. destruct (queued_entry _ _ _ Hq) as (w & t & ? & ? & _). eauto. }
  assert (Hs : ∀ id, id ∈ (map_iter (inner (st_scheduled st) ns)).*1 →
    ∃ w t, obs !! (ns, id) = Some (w, t) ∧ phase_of w = GPUWorkloadPhaseScheduled).
  { intros id [q Hq']%Hs2. destruct (scheduled_entry _ _ _ Hq') as (w & t & ? & ? & _). eauto. }
  assert (Hr : ∀ id, id ∈ (map_iter (inner (st_running st) ns)).*1 →
    ∃ w t, obs !! (ns, id) = Some (w, t) ∧ phase_of w = GPUWorkloadPhaseRunning).
  { intros id [q Hq']%Hr2. destruct (run_entry _ _ _ Hq') as (w & t & ? & ? & _). eauto. }
  split.
  - rewrite !NoDup_app. split_and!; try done.
    + intros id H1 H2. destruct (Hq _ H1) as (? & ? & ? & ?).
      apply elem_of_app in H2 as [H2|H2]; [destruct (Hs _ H2) as (? & ? & ? & ?)
        |destruct (Hr _ H2) as (? & ? & ? & ?)]; congruence.
    + intros id H1 H2. destruct (Hs _ H1) as (? & ? & ? & ?), (Hr _ H2) as (? & ? & ? & ?).
      congruence.
  - intros id. rewrite !elem_of_app. intros [Hi|[Hi|Hi]];
      [destruct (Hq _ Hi) as (? & ? & ? & ?)|destruct (Hs _ Hi) as (? & ? & ? & ?)
      |destruct (Hr _ Hi) as (? & ? & ? & ?)]; eauto.
Qed.

(** The objects behind the buckets carry the times they need. *)
Definition obs_timed : Prop :=
  ∀ k w t, obs !! k = Some (w, t) → k = obs_key w ∧ wst_QueuedAt (w_Status w) ≠ Some 0 ∧ t ≠ 0.

Lemma entry_valid ns id w t :
  obs_timed → obs !! (ns, id) = Some (w, t) →
  TrimSpace id ≠ "" ∧
  (valid_queued (GPUWorkloadToQueuedWorkload w id (queuedAtOr t w)) ↔ sound_request w) ∧
  (valid_scheduled (GPUWorkloadToRunningWorkload w id (queuedAtOr t w)) ↔ sound_request w) ∧
  (valid_running (GPUWorkloadToRunningWorkload w id (queuedAtOr t w)) ↔ sound_request w).
Proof.
  intros Ht Ho. destruct (Ht _ _ _ Ho) as (Hk & Hq & Ht0).
  assert (Hq0 : queuedAtOr t w ≠ 0).
  { unfold queuedAtOr. destruct (wst_QueuedAt (w_Status w)); simpl; [|done]. intros ->. done. }
  injection Hk as -> ->. split; [apply workload_id_nonblank|].
  unfold valid_queued, valid_running, valid_scheduled, valid_request, sound_request. simpl.
  rewrite !MapWorkloadKind_id, normalized_blank, ToLower_empty. tauto.
Qed.

(** The snapshot is accepted exactly when the objects behind it say what they have to. *)
Lemma snapshot_exact ns inp :
  obs_timed → fleet_shaped (in_FleetFreeCapacity inp) →
  map_Forall (λ t _, TrimSpace t ≠ "") (in_TenantQuotas inp) →
  snapshotForNamespace st ns = Some inp →
  Valid inp ↔
  (∀ id w t, obs !! (ns, id) = Some (w, t) → phase_rank (phase_of w) ≠ 0%nat → sound_request w) ∧
  fleet_sound (in_FleetFreeCapacity inp) ∧
  map_Forall (λ _ q, 0 ≤ t_MaxGPUs q ∧ 0 ≤ t_MaxMemoryMiB q ∧ 0 ≤ t_Weight q) (in_TenantQuotas inp).
Proof.
  intros Ht Hshape Hquota Hsnap. destruct (snapshot_ids ns inp Hsnap) as [Hnd Hids].
  unfold snapshotForNamespace in Hsnap. destruct (st_fleet _ !! ns) as [f|] eqn:Hf; [|done].
  injection Hsnap as <-. simpl in *. split.
  - intros [_ _ Hqs Hss Hrs Htd Htm Hpr _ _ Hqu]. simpl in *.
    rewrite Forall_forall in Hqs. rewrite Forall_forall in Hss. rewrite Forall_forall in Hrs.
    split_and!.
    + intros id w t Ho Hp. destruct (entry_valid ns id w t Ht Ho) as (_ & Eq & Es & Er).
      destruct (phase_of w) eqn:Hph; try done.
      * apply Eq, Hqs, map_iter_values. exists id.
        change (look (st_queued st) ns id = Some (GPUWorkloadToQueuedWorkload w id (queuedAtOr t w))).
        rewrite (rf_queued _ _ HR), Ho. simpl. by rewrite decide_True.
      * apply Es, Hss, map_iter_values. exists id.
        change (look (st_scheduled st) ns id = Some (GPUWorkloadToRunningWorkload w id (queuedAtOr t w))).
        rewrite (rf_scheduled _ _ HR), Ho. simpl. by rewrite decide_True.
      * apply Er, Hrs, map_iter_values. exists id.
        change (look (st_running st) ns id = Some (GPUWorkloadToRunningWorkload w id (queuedAtOr t w))).
        rewrite (rf_running _ _ HR), Ho. simpl. by rewrite decide_True.
    + split; [|done]. eapply map_Forall_impl; [exact Hpr|]. by intros k cap (_ & ?).
    + eapply map_Forall_impl; [exact Hqu|]. by intros k q (_ & ?).
  - intros (Hreq & (Hpr & ? & ?) & Hqu). destruct Hshape as (Hkeys & ? & ?).
    constructor; simpl; try done.
    + apply Forall_forall. intros id [[w t] Hw]%Hids. by destruct (entry_valid ns id w t Ht Hw).
    + apply Forall_forall. intros q [id Hq]%map_iter_values.
      destruct (queued_entry _ _ _ Hq) as (w & t & Hw & Hp & ->).
      apply (entry_valid ns id w t Ht Hw), (Hreq id w t Hw). by rewrite Hp.
    + apply Forall_forall. intros r [id Hr]%map_iter_values.
      destruct (scheduled_entry _ _ _ Hr) as (w & t & Hw & Hp & ->).
      apply (entry_valid ns id w t Ht Hw), (Hreq id w t Hw). by rewrite Hp.
    + apply Forall_forall. intros r [id Hr]%map_iter_values.
      destruct (run_entry _ _ _ Hr) as (w & t & Hw & Hp & ->).
      apply (entry_valid ns id w t Ht Hw), (Hreq id w t Hw). by rewrite Hp.
    + intros k cap Hc. split; [by apply (Hkeys k cap)|by apply (Hpr k cap)].
    + intros k q Hc. split; [by apply (Hquota k q)|by apply (Hqu k q)].
Qed.
End snapshot.

Lemma snapshot_valid `{MapIter} obs s ns inp :
  loop_inv obs s → snapshotForNamespace (lp_state s) ns = Some inp → Valid inp.
Proof.
  intros HI Hs. pose proof Hs as Hf. unfold snapshotForNamespace in Hf.
  destruct (st_fleet _ !! ns) as [f|] eqn:E; [|done]. injection Hf as Hf.
  destruct (proj1 (fleet_valid_split f) (li_fleet _ _ HI ns f E)) as [Hshape Hsound].
  apply (snapshot_exact obs (lp_state s) (li_refines _ _ HI) ns); rewrite <- ?Hf in *; simpl; try done.
  - intros k w t Ho. destruct (li_served _ _ HI k w t Ho) as (? & [_ ?] & ?). done.
  - intros k q Hq. by destruct (li_quotas _ _ HI ns k q Hq).
  - split_and!; [|done|].
    + intros id w t Ho _. by destruct (li_served _ _ HI _ w t Ho) as (_ & [? _] & _).
    + intros k q Hq. by destruct (li_quotas _ _ HI ns k q Hq).
Qed.

(** ** Wake-ups *)

(** The same fleet and quotas, and no workload queued that was not there with the same request.  This
    says nothing of the scheduled and the running workloads, which count against the quotas. *)
Definition quiet (last st : schedulerState) : Prop :=
  st_fleet st = st_fleet last ∧ st_quotas st = st_quotas last ∧
  ∀ ns id q, look (st_queued st) ns id = Some q → look (st_queued last) ns id = Some q.

Lemma quiet_refl st : quiet st st.
Proof. by split_and!. Qed.

Lemma quiet_trans st1 st2 st3 : quiet st1 st2 → quiet st2 st3 → quiet st1 st3.
Proof. intros (? & ? & ?) (? & ? & ?). split_and!; [congruence|congruence|auto]. Qed.

#[export] Instance quiet_preorder : PreOrder quiet.
Proof. split; [exact quiet_refl|exact quiet_trans]. Qed.

Lemma quiet_remove st ns id : quiet st (removeWorkload st ns id).
Proof.
  split_and!; try done. intros ns' id' q. simpl. rewrite look_delete. by case_decide.
Qed.

(** An event that finds nothing queued leaves the queue quiet. *)
Lemma apply_quiet st now o d :
  (applyWorkloadToState st now o d).2 = false → quiet st (applyWorkloadToState st now o d).1.
Proof.
  unfold applyWorkloadToState. destruct (accessor (untomb o)) as [m|]; [|done].
  destruct d; [intros _; apply quiet_remove|].
  destruct (untomb o) as [w| | | |]; try done.
  case_decide; [intros _; apply quiet_remove|].
  destruct (phase_of w); simpl; try done; intros _; try apply quiet_remove;
    (split_and!; [done..|]); intros ns id q; simpl; rewrite !look_delete; by repeat case_decide.
Qed.

Definition pending (s : loopState) : Prop := lp_trigger s = Some true.

Lemma request_pending s : is_Some (lp_trigger s) → pending (requestScheduling s).
Proof. intros [b Hb]. unfold pending, requestScheduling. by rewrite Hb. Qed.

(** Every handler either requests a cycle or leaves the state quiet and the trigger as it was. *)
Definition awake (s s' : loopState) : Prop :=
  pending s' ∨ (lp_trigger s' = lp_trigger s ∧ quiet (lp_state s) (lp_state s')).

Lemma workload_awake s now ev : is_Some (lp_trigger s) → awake s (workloadInformer s now ev).
Proof.
  intros Ht. destruct ev as [o|oo o|o]; simpl.
  - unfold handleWorkloadAdd. pose proof (apply_quiet (lp_state s) now o false) as Hq.
    destruct (applyWorkloadToState _ _ _ _) as [st []]; simpl in *.
    + left. by apply request_pending.
    + right. split; [done|by apply Hq].
  - unfold handleWorkloadUpdate. pose proof (apply_quiet (lp_state s) now o false) as Hq.
    destruct (applyWorkloadToState _ _ _ _) as [st wq]; simpl in *.
    destruct (wq || _) eqn:Hb; [left; by apply request_pending|].
    right. split; [done|]. apply orb_false_iff in Hb as [-> _]. by apply Hq.
  - unfold handleWorkloadDelete. set (s1 := match untomb o with OWorkload _ => _ | _ => _ end).
    assert (lp_state s1 = lp_state s ∧ (pending s1 ∨ lp_trigger s1 = lp_trigger s)) as [E Hs1].
    { subst s1. destruct (untomb o); auto. case_decide; [|auto].
      rewrite requestScheduling_state. split; [done|]. left. by apply request_pending. }
    rewrite E. destruct Hs1 as [?|Hs1]; [by left|]. right. split; [done|]. simpl.
    apply apply_quiet. unfold applyWorkloadToState. by case_match.
Qed.

Lemma pool_awake s listPools ev :
  is_Some (lp_trigger s) → awake s (poolInformer s listPools ev).
Proof.
  intros Ht. assert (∀ o, awake s (handlePoolEvent s o listPools)) as Hh.
  { intros o. unfold handlePoolEvent. case_match; [|by right].
    case_match; [|by right]. left. by apply request_pending. }
  destruct ev; apply Hh.
Qed.

Lemma quota_awake s ev : is_Some (lp_trigger s) → awake s (quotaInformer s ev).
Proof.
  intros Ht. assert (∀ o d, awake s (handleQuotaEvent s o d)) as Hh.
  { intros o d. unfold handleQuotaEvent. destruct (untomb o); try by right.
    destruct d; [left; by apply request_pending|].
    case_decide; [by right|]. left. by apply request_pending. }
  destruct ev; apply Hh.
Qed.

Lemma seed_awake `{MapIter} s list_ : is_Some (lp_trigger s) → awake s (startSeed s list_).
Proof.
  intros Ht. unfold startSeed, refreshFleetFromAPI. destruct list_; [|by right].
  left. by apply request_pending.
Qed.

Lemma awake_quiet last s s' :
  awake s s' → (¬ pending s → quiet last (lp_state s)) → ¬ pending s' → quiet last (lp_state s').
Proof.
  intros [?|[Ht Hq]] IH Hn; [done|]. etrans; [apply IH|done]. unfold pending in *. by rewrite <- Ht.
Qed.

Lemma loop_reach_quiet `{MapIter} obs last s :
  loop_reach obs last s → ¬ pending s → quiet last (lp_state s).
Proof.
  induction 1 as [|???? Hr IH|????? Hr IH|????? Hr IH|???? Hr IH|??? Hr IH].
  - by intros _.
  - eapply awake_quiet; [|exact IH]. apply seed_awake, (loop_reach_inv _ _ _ Hr).
  - eapply awake_quiet; [|exact IH]. apply workload_awake, (loop_reach_inv _ _ _ Hr).
  - eapply awake_quiet; [|exact IH]. apply pool_awake, (loop_reach_inv _ _ _ Hr).
  - eapply awake_quiet; [|exact IH]. apply quota_awake, (loop_reach_inv _ _ _ Hr).
  - intros _. simpl. apply quiet_refl.
Qed.

(** ** Theorems *)

(** The in-memory queue refines the cluster: in every state the loop can reach, the queued,
    scheduled and running buckets hold exactly the workloads whose last delivered object is in that
    phase (converted from that object), so no workload is in two of them. *)
Theorem queue_refines_objects `{MapIter} obs last s :
  loop_reach obs last s → refines obs (lp_state s).
Proof. intros Hr. apply (loop_reach_inv _ _ _ Hr). Qed.

(** In every state the loop can reach while the API server serves objects with sound requests (more than
    the validation of the resource asks for), pools in range and non-negative quotas, the snapshot of
    every namespace passes [Validate], so no namespace is skipped. *)
Theorem snapshot_accepted `{MapIter} obs last s ns inp :
  loop_reach obs last s → snapshotForNamespace (lp_state s) ns = Some inp → Validate inp = None.
Proof.
  intros Hr Hs. apply Validate_None. eapply snapshot_valid; [|done]. by eapply loop_reach_inv.
Qed.

(** When no cycle is pending, the fleet and the quotas are those of the last cycle and every queued
    workload was queued, with the same request, when it started.  What becomes of running workloads is
    said of the interleaved handlers, in [LoopInterleaving]. *)
Theorem no_lost_wakeup `{MapIter} obs last s :
  loop_reach obs last s → lp_trigger s = Some false →
  st_fleet (lp_state s) = st_fleet last ∧ st_quotas (lp_state s) = st_quotas last ∧
  ∀ ns id q, look (st_queued (lp_state s)) ns id = Some q →
             look (st_queued last) ns id = Some q.
Proof.
  intros Hr Ht. apply (loop_reach_quiet _ _ _ Hr). unfold pending. by rewrite Ht.
Qed.

(** ** Witnesses *)

Module QueueExample.
#[export] Existing Instance map_iter_canonical.
Import ResourceExample.
Definition w : GPUWorkload := workload "job" "team" 2 1024 GPUWorkloadPhaseQueued.
Definition w' : GPUWorkload := workload "job" "team" 2 1024 GPUWorkloadPhaseScheduled.
Definition s0 : loopState := {| lp_state := newSchedulerState; lp_trigger := Some false |}.
(** The pools are listed, a workload is created and a cycle starts; then it is scheduled. *)
Definition s1 : loopState := startSeed s0 (Ok pools).
Definition s2 : loopState := workloadInformer s1 7 (Added (OWorkload w)).
Definition s3 : loopState := {| lp_state := lp_state s2; lp_trigger := Some false |}.
Definition s4 : loopState := workloadInformer s3 8 (Updated (OWorkload w) (OWorkload w')).
Definition obs : observation :=
  observe (observe ∅ 7 (Added (OWorkload w))) 8 (Updated (OWorkload w) (OWorkload w')).
End QueueExample.

Section witness.
Import QueueExample.

Lemma example_served p : served_workload (ResourceExample.workload "job" "team" 2 1024 p).
Proof.
  unfold served_workload. simpl. split_and!; try done; try (by vm_compute).
  apply (bool_decide_unpack _). by vm_compute.
Qed.

Lemma example_seed items ns :
  @Ok (list GPUNodePool) ResourceExample.pools = Ok items →
  pools_ok (default [] (byNamespace items !! ns)).
Proof.
  intros [= <-].
  assert (byNamespace ResourceExample.pools = {["ns" := ResourceExample.pools]}) as -> by done.
  destruct (decide (ns = "ns")) as [->|].
  - rewrite lookup_singleton_eq. apply example_pools_ok.
  - rewrite lookup_singleton_ne by done. split; [by apply Forall_nil_2|]. by split; vm_compute.
Qed.

Lemma example_reach : loop_reach obs (lp_state s3) s4.
Proof.
  apply reach_workload; [|done| |apply example_served].
  - apply (reach_cycle _ newSchedulerState s2); [|done].
    apply reach_workload; [|done| |apply example_served].
    + apply reach_seed; [apply reach_start|apply example_seed].
    + right. right. intros w0 t. by rewrite lookup_empty.
  - right. right. intros w0 t Hl. change (Some (w, 7) = Some (w0, t)) in Hl.
    injection Hl as <- <-. simpl. lia.
Qed.

Lemma queue_refines_objects_witness :
  look (st_scheduled (lp_state s4)) "ns" "ns/job" =
  running_view GPUWorkloadPhaseScheduled "ns/job" (obs !! ("ns", "ns/job")).
Proof. apply (rf_scheduled _ _ (queue_refines_objects obs (lp_state s3) s4 example_reach)). Defined.

Lemma snapshot_accepted_witness :
  ∃ inp, snapshotForNamespace (lp_state s4) "ns" = Some inp ∧ Validate inp = None.
Proof.
  eexists. split; [vm_compute; reflexivity|].
  apply (snapshot_accepted obs (lp_state s3) s4 "ns"); [apply example_reach|].
  vm_compute. reflexivity.
Defined.

Lemma no_lost_wakeup_witness : st_fleet (lp_state s4) = st_fleet (lp_state s3).
Proof. apply (no_lost_wakeup obs (lp_state s3) s4 example_reach). by vm_compute. Defined.
End witness.

(** ** What valid objects do not exclude *)

(** A workload that goes back from Scheduled to Queued stays in the scheduled bucket: the snapshot
    has its id twice, and the namespace is skipped until the workload leaves. *)
Example requeued_id_is_duplicate :
  let s := workloadInformer QueueExample.s4 9
             (Updated (OWorkload QueueExample.w') (OWorkload QueueExample.w)) in
  (λ inp, Validate (H := map_iter_canonical) inp) <$>
    snapshotForNamespace (H := map_iter_canonical) (lp_state s) "ns" =
  Some (Some (at_index "scheduledWorkloads" 0 ("duplicate workloadID " +:+ Quote "ns/job"))).
Proof. vm_compute. reflexivity. Qed.

(** A queued workload with [gpuMemoryMiB] 0, which the resource's validation accepts, makes the
    snapshot of its namespace invalid, whatever else is queued there. *)
Theorem zero_memory_blocks_namespace `{MapIter} obs s ns inp id w t :
  refines obs (lp_state s) → obs !! (ns, id) = Some (w, t) →
  phase_of w = GPUWorkloadPhaseQueued → ws_GPUMemoryMiB (w_Spec w) = 0 →
  snapshotForNamespace (lp_state s) ns = Some inp → Validate inp ≠ None.
Proof.
  intros HR Ho Hp H0 Hs HV. apply Validate_None in HV. apply valid_qs in HV.
  unfold snapshotForNamespace in Hs. case_match; [|done]. injection Hs as <-. simpl in HV.
  rewrite Forall_forall in HV.
  destruct (HV (GPUWorkloadToQueuedWorkload w id (queuedAtOr t w))) as (_ & Hv).
  - apply map_iter_values. exists id. change (look (st_queued (lp_state s)) ns id =
      Some (GPUWorkloadToQueuedWorkload w id (queuedAtOr t w))).
    rewrite (rf_queued _ _ HR), Ho. simpl. by rewrite decide_True.
  - unfold valid_request in Hv. simpl in Hv. rewrite H0 in Hv. lia.
Qed.
