(* ===== verification/LoopInterleaving.v ===== *)
(** * The handlers of the scheduler loop, interleaved

    The informers of workloads, pools and quotas call their handlers from goroutines of their own,
    [Start] seeds the fleet from another, and the scheduling goroutine takes the trigger and reads the
    state beside them.  What is atomic is one operation of the state, under its mutex, and one send to
    or receive from the trigger channel.  Here a handler is the sequence of these, equal to the handler
    of [SchedState] when it runs alone, and the sequences of all goroutines interleave. *)

From stdpp Require Import prelude gmap strings.
From S2P Require Import Prelude GoFloat SimModel SchedInputs Admission Fairness Preemption Selection.
From S2P Require Import Resources SchedState.

Local Open Scope Z_scope.
Local Open Scope go_scope.

(** ** Operations under the lock *)

Inductive stateOp :=
| UpsertQueued (ns : string) (q : QueuedWorkload)
| UpsertScheduled (ns : string) (r : RunningWorkload)
| UpsertRunning (ns : string) (r : RunningWorkload)
| RemoveWorkload (ns workloadID : string)
| SetFleet (ns : string) (f : FleetFreeCapacity)
| DeleteFleet (ns : string)
| UpsertQuota (ns tenant : string) (q : TenantQuota)
| DeleteQuota (ns tenant : string)
| DeleteAllQuotas (ns : string).

Definition run_op (op : stateOp) (st : schedulerState) : schedulerState :=
  match op with
  | UpsertQueued ns q => upsertQueued st ns q
  | UpsertScheduled ns r => upsertScheduled st ns r
  | UpsertRunning ns r => upsertRunning st ns r
  | RemoveWorkload ns id => removeWorkload st ns id
  | SetFleet ns f => setFleet st ns f
  | DeleteFleet ns => deleteFleet st ns
  | UpsertQuota ns t q => upsertQuota st ns t q
  | DeleteQuota ns t => deleteQuota st ns t
  | DeleteAllQuotas ns => deleteAllQuotasInNamespace st ns
  end.

(** One atomic step of a handler. *)
Inductive atomic := Locked (op : stateOp) | Request.

Definition exec (s : loopState) (m : atomic) : loopState :=
  match m with
  | Locked op => with_state s (run_op op (lp_state s))
  | Request => requestScheduling s
  end.

Definition exec_all (s : loopState) (p : list atomic) : loopState := foldl exec s p.

(** ** Handlers as sequences *)

(** The operations of [applyWorkloadToState], and whether it found the workload queued. *)
Definition applyOps (now : Time) (obj : object) (deleted : bool) : list stateOp * bool :=
  let obj := untomb obj in
  match accessor obj with
  | None => ([], false)
  | Some m =>
      let ns := om_Namespace m in
      let workloadID := stateWorkloadID ns (om_Name m) in
      if deleted : bool then ([RemoveWorkload ns workloadID], false)
      else match obj with
      | OWorkload w =>
          if decide (om_DeletionTimestamp (w_Meta w) ≠ None)
          then ([RemoveWorkload ns workloadID], false)
          else match phase_of w with
          | GPUWorkloadPhaseQueued =>
              ([UpsertQueued ns (GPUWorkloadToQueuedWorkload w workloadID (queuedAtOr now w))], true)
          | GPUWorkloadPhaseScheduled =>
              ([UpsertScheduled ns (GPUWorkloadToRunningWorkload w workloadID (queuedAtOr now w))],
               false)
          | GPUWorkloadPhaseRunning =>
              ([RemoveWorkload ns workloadID;
                UpsertRunning ns (GPUWorkloadToRunningWorkload w workloadID (queuedAtOr now w))], false)
          | _ => ([RemoveWorkload ns workloadID], false)
          end
      | _ => ([], false)
      end
  end.

Definition request_if (b : bool) : list atomic := if b then [Request] else [].

(** The handlers of the workload informer: the removal handler requests a cycle before it updates the
    state, the others after. *)
Definition workloadProgram (now : Time) (ev : informerEvent) : list atomic :=
  match ev with
  | Added obj =>
      let '(ops, wasQueued) := applyOps now obj false in (Locked <$> ops) ++ request_if wasQueued
  | Updated oldObj newObj =>
      let '(ops, wasQueued) := applyOps now newObj false in
      (Locked <$> ops) ++
      request_if (wasQueued || (bool_decide (object_phase oldObj = GPUWorkloadPhaseRunning)
                                && negb (bool_decide (object_phase newObj = GPUWorkloadPhaseRunning))))
  | Removed obj =>
      let obj := untomb obj in
      request_if (bool_decide (object_phase obj = GPUWorkloadPhaseRunning))
      ++ (Locked <$> (applyOps now obj true).1)
  end.

Definition event_target (ev : informerEvent) : object :=
  match ev with Added o => o | Updated _ o => o | Removed o => o end.

Definition poolProgram (listPools : string → Result (list GPUNodePool)) (ev : informerEvent)
    : list atomic :=
  match accessor (untomb (event_target ev)) with
  | None => []
  | Some m =>
      let ns := om_Namespace m in
      match listPools ns with
      | Err _ => []
      | Ok items =>
          [Locked (if decide (length items = 0%nat) then DeleteFleet ns
                   else SetFleet ns (aggregateFleetFromPools items)); Request]
      end
  end.

Definition quotaProgram (ev : informerEvent) : list atomic :=
  match untomb (event_target ev) with
  | OQuota q =>
      let ns := om_Namespace (tq_Meta q) in
      let tenant := TrimSpace (tqs_Tenant (tq_Spec q)) in
      match ev with
      | Removed _ =>
          [Locked (if decide (tenant ≠ "") then DeleteQuota ns tenant else DeleteAllQuotas ns); Request]
      | _ =>
          if decide (tenant = "") then []
          else [Locked (UpsertQuota ns tenant
                          {| t_MaxGPUs := tqs_MaxGPUs (tq_Spec q);
                             t_MaxMemoryMiB := tqs_MaxMemoryMiB (tq_Spec q);
                             t_Weight := tqs_Weight (tq_Spec q) |}); Request]
      end
  | _ => []
  end.

Definition seedProgram `{MapIter} (list_ : Result (list GPUNodePool)) : list atomic :=
  match list_ with
  | Err _ => []
  | Ok items =>
      ((λ e, Locked (SetFleet e.1 (aggregateFleetFromPools e.2))) <$> map_iter (byNamespace items))
      ++ [Request]
  end.

(** ** Alone, a sequence is its handler *)

Lemma exec_all_app s p q : exec_all s (p ++ q) = exec_all (exec_all s p) q.
Proof. apply foldl_app. Qed.

Lemma exec_locked s ops :
  exec_all s (Locked <$> ops) = with_state s (foldl (λ st op, run_op op st) (lp_state s) ops).
Proof.
  revert s. induction ops as [|op ops IH]; intros s; [by destruct s|]. csimpl.
  unfold exec_all in *. simpl. by rewrite IH.
Qed.

Lemma applyOps_correct st now obj d :
  applyWorkloadToState st now obj d =
  (foldl (λ st op, run_op op st) st (applyOps now obj d).1, (applyOps now obj d).2).
Proof.
  unfold applyWorkloadToState, applyOps. destruct (accessor _) as [m|]; [|done].
  destruct d; [done|]. destruct (untomb obj) as [w| | | |]; try done. case_decide; [done|].
  by destruct (phase_of w).
Qed.

Lemma workloadProgram_correct s now ev : exec_all s (workloadProgram now ev) = workloadInformer s now ev.
Proof.
  destruct ev as [o|oo o|o]; simpl;
    unfold handleWorkloadAdd, handleWorkloadUpdate, handleWorkloadDelete.
  - rewrite applyOps_correct. destruct (applyOps now o false) as [ops []]; simpl;
      by rewrite exec_all_app, exec_locked.
  - rewrite applyOps_correct. destruct (applyOps now o false) as [ops wq]; simpl.
    rewrite exec_all_app, exec_locked. by destruct (wq || _).
  - rewrite exec_all_app, exec_locked, applyOps_correct. unfold request_if.
    destruct (untomb o) as [w| | | |]; cbn [object_phase]; try done.
    by destruct (decide (phase_of w = GPUWorkloadPhaseRunning)) as [->|Hne];
      [rewrite bool_decide_eq_true_2|rewrite bool_decide_eq_false_2].
Qed.

Lemma poolProgram_correct s listPools ev :
  exec_all s (poolProgram listPools ev) = poolInformer s listPools ev.
Proof.
  assert (Hh : ∀ o, exec_all s (match accessor (untomb o) with
    | None => []
    | Some m => match listPools (om_Namespace m) with
        | Err _ => []
        | Ok items => [Locked (if decide (length items = 0%nat) then DeleteFleet (om_Namespace m)
                       else SetFleet (om_Namespace m) (aggregateFleetFromPools items)); Request]
        end end) = handlePoolEvent s o listPools).
  { intros o. unfold handlePoolEvent. destruct (accessor _) as [m|]; [|done].
    destruct (listPools _) as [items|e]; [|done]. by case_decide. }
  destruct ev; apply Hh.
Qed.

Lemma quotaProgram_correct s ev : exec_all s (quotaProgram ev) = quotaInformer s ev.
Proof.
  unfold quotaProgram. destruct ev as [o|oo o|o]; simpl; unfold handleQuotaEvent;
    destruct (untomb o); try done; by case_decide.
Qed.

Lemma seedProgram_correct `{MapIter} s list_ : exec_all s (seedProgram list_) = startSeed s list_.
Proof.
  unfold seedProgram, startSeed, refreshFleetFromAPI. destruct list_ as [items|e]; [|done].
  rewrite exec_all_app. unfold exec_all at 1. simpl. f_equal. generalize (map_iter (byNamespace items)).
  intros l. revert s. induction l as [|e l IH]; intros s; [by destruct s|]. csimpl.
  unfold exec_all in *. simpl. by rewrite IH.
Qed.

(** ** Interleaving *)

Inductive goroutine := Workloads | Pools | Quotas | Starter.
#[export] Instance goroutine_eq_dec : EqDecision goroutine.
Proof. solve_decision. Defined.

(** The loop, what each goroutine has left of the handler it is in, the last object of each workload
    handed to the workload informer, the state when the last cycle took its trigger, and the workloads
    whose deletion (their removal, or a deletion timestamp) the informer has been told of since, or was
    about to carry out then. *)
Record threads := {
  th_loop : loopState;
  th_left : goroutine → list atomic;
  th_obs : observation;
  th_last : schedulerState;
  th_gone : gset (string * string);
}.

(** The workloads that a handler is still going to take out of the state. *)
Definition removals (p : list atomic) : gset (string * string) :=
  list_to_set (omap (λ m, match m with Locked (RemoveWorkload ns id) => Some (ns, id) | _ => None end) p).

Lemma elem_of_removals ns id p : (ns, id) ∈ removals p ↔ Locked (RemoveWorkload ns id) ∈ p.
Proof.
  unfold removals. rewrite elem_of_list_to_set, list_elem_of_omap. split.
  - intros ([[]|] & Hm & E); try done. by injection E as -> ->.
  - intros Hm. by exists (Locked (RemoveWorkload ns id)).
Qed.

Definition add_gone (ev : informerEvent) (s : gset (string * string)) : gset (string * string) :=
  match event_object ev with
  | OWorkload w => if decide (gone ev w) then {[obs_key w]} ∪ s else s
  | _ => s
  end.

(** client-go: the handlers of an informer get an object as added when it is not known, and with an
    update the object that was known. *)
Definition chained (obs : observation) (ev : informerEvent) : Prop :=
  match event_object ev, ev with
  | OWorkload w, Added _ => obs !! obs_key w = None
  | OWorkload w, Updated old _ => ∀ w0 t, obs !! obs_key w = Some (w0, t) → old = OWorkload w0
  | _, _ => True
  end.

Definition set_left (g : goroutine) (p : list atomic) (f : goroutine → list atomic)
    : goroutine → list atomic := λ g', if decide (g' = g) then p else f g'.

Definition threads_init : threads :=
  {| th_loop := {| lp_state := newSchedulerState; lp_trigger := Some false |};
     th_left := λ _, []; th_obs := ∅; th_last := newSchedulerState; th_gone := ∅ |}.

(** What a step does: an event reaches an informer, the seeding starts, or a goroutine goes on. *)
Inductive label :=
| WorkloadEvent (now : Time) (ev : informerEvent)
| PoolEvent (listPools : string → Result (list GPUNodePool)) (ev : informerEvent)
| QuotaEvent (ev : informerEvent)
| SeedList (list_ : Result (list GPUNodePool))
| GoOn.

(** A goroutine that is between handlers gets the next event; any goroutine makes its next atomic step;
    the scheduling goroutine takes the trigger. *)
Inductive thread_step `{MapIter} : label → threads → threads → Prop :=
| deliver_workload x now ev :
    th_left x Workloads = [] → forward (th_obs x) ev → chained (th_obs x) ev →
    thread_step (WorkloadEvent now ev) x
      {| th_loop := th_loop x; th_left := set_left Workloads (workloadProgram now ev) (th_left x);
         th_obs := observe (th_obs x) now ev; th_last := th_last x;
         th_gone := add_gone ev (th_gone x) |}
| deliver_pool x listPools ev :
    th_left x Pools = [] →
    thread_step (PoolEvent listPools ev) x
      {| th_loop := th_loop x; th_left := set_left Pools (poolProgram listPools ev) (th_left x);
         th_obs := th_obs x; th_last := th_last x; th_gone := th_gone x |}
| deliver_quota x ev :
    th_left x Quotas = [] →
    thread_step (QuotaEvent ev) x
      {| th_loop := th_loop x; th_left := set_left Quotas (quotaProgram ev) (th_left x);
         th_obs := th_obs x; th_last := th_last x; th_gone := th_gone x |}
| start_seed x list_ :
    th_left x Starter = [] →
    thread_step (SeedList list_) x
      {| th_loop := th_loop x; th_left := set_left Starter (seedProgram list_) (th_left x);
         th_obs := th_obs x; th_last := th_last x; th_gone := th_gone x |}
| advance x g m rest :
    th_left x g = m :: rest →
    thread_step GoOn x
      {| th_loop := exec (th_loop x) m; th_left := set_left g rest (th_left x);
         th_obs := th_obs x; th_last := th_last x; th_gone := th_gone x |}
| take_trigger x :
    lp_trigger (th_loop x) = Some true →
    thread_step GoOn x
      {| th_loop := {| lp_state := lp_state (th_loop x); lp_trigger := Some false |};
         th_left := th_left x; th_obs := th_obs x; th_last := lp_state (th_loop x);
         th_gone := filter (λ k, th_obs x !! k = None) (removals (th_left x Workloads)) |}.

(** Runs in which every event satisfies [ok]. *)
Definition threads_reach `{MapIter} (ok : label → Prop) : threads → Prop :=
  rtc (λ x y, ∃ l, ok l ∧ thread_step l x y) threads_init.

Definition any_event : label → Prop := λ _, True.

(** ** Wake-ups *)

(** Operations that can enable no admission. *)
Definition quiet_op (op : stateOp) : bool :=
  match op with UpsertScheduled _ _ | UpsertRunning _ _ | RemoveWorkload _ _ => true | _ => false end.

Lemma quiet_op_quiet op st : quiet_op op = true → quiet st (run_op op st).
Proof.
  destruct op; try done; intros _; simpl; try apply quiet_remove;
    (split_and!; [done..|]); intros ns' id' q; simpl; rewrite look_delete; by case_decide.
Qed.

(** Whoever changes the state in a way that matters will request a cycle afterwards. *)
Fixpoint requests_later (p : list atomic) : Prop :=
  match p with
  | [] => True
  | Request :: p => requests_later p
  | Locked op :: p => (quiet_op op = true ∨ Request ∈ p) ∧ requests_later p
  end.

Lemma requests_later_app p q :
  requests_later p → requests_later q → requests_later (p ++ q).
Proof.
  intros Hp Hq. induction p as [|[op|] p IH]; simpl in *; [done| |auto].
  destruct Hp as [[?|?] Hp]; (split; [|auto]); [by left|right; set_solver].
Qed.

Lemma requests_later_end ops : requests_later ((Locked <$> ops) ++ [Request]).
Proof. induction ops as [|op ops IH]; csimpl; [done|]. split; [right; set_solver|done]. Qed.

Lemma requests_later_quiet ops :
  Forall (λ op, quiet_op op = true) ops → requests_later (Locked <$> ops).
Proof. induction 1; csimpl; auto. Qed.

Lemma applyOps_quiet now o d : (applyOps now o d).2 = false → Forall (λ op, quiet_op op = true) (applyOps now o d).1.
Proof.
  unfold applyOps. destruct (accessor _) as [m|]; [|by constructor]. destruct d; [by repeat constructor|].
  destruct (untomb o) as [w| | | |]; try by constructor. case_decide; [by repeat constructor|].
  destruct (phase_of w); try done; by repeat constructor.
Qed.

Lemma workloadProgram_later now ev : requests_later (workloadProgram now ev).
Proof.
  destruct ev as [o|oo o|o]; cbn [workloadProgram].
  - pose proof (applyOps_quiet now o false) as Hq. destruct (applyOps now o false) as [ops []]; simpl in *.
    + apply requests_later_end.
    + rewrite app_nil_r. by apply requests_later_quiet, Hq.
  - pose proof (applyOps_quiet now o false) as Hq. destruct (applyOps now o false) as [ops wq]; simpl in *.
    destruct (wq || _) eqn:E; [apply requests_later_end|]. apply orb_false_iff in E as [-> _].
    unfold request_if. rewrite app_nil_r. by apply requests_later_quiet, Hq.
  - apply requests_later_app; [by destruct (bool_decide _)|].
    apply requests_later_quiet, applyOps_quiet. unfold applyOps. by destruct (accessor _).
Qed.

Lemma poolProgram_later listPools ev : requests_later (poolProgram listPools ev).
Proof.
  unfold poolProgram. destruct (accessor _) as [m|]; [|done]. destruct (listPools _); [|done].
  apply (requests_later_end [_]).
Qed.

Lemma quotaProgram_later ev : requests_later (quotaProgram ev).
Proof.
  unfold quotaProgram. destruct (untomb _); try done.
  destruct ev; try case_decide; try done; apply (requests_later_end [_]).
Qed.

Lemma seedProgram_later `{MapIter} list_ : requests_later (seedProgram list_).
Proof.
  unfold seedProgram. destruct list_ as [items|e]; [|done].
  rewrite (list_fmap_compose (λ e, SetFleet e.1 (aggregateFleetFromPools e.2)) Locked).
  apply requests_later_end.
Qed.

(** A cycle is pending, or some goroutine is about to request one, or nothing that matters has
    changed since the last one. *)
Record awake_inv (x : threads) : Prop := {
  ai_trigger : is_Some (lp_trigger (th_loop x));
  ai_later : ∀ g, requests_later (th_left x g);
  ai_quiet : pending (th_loop x) ∨ (∃ g, Request ∈ th_left x g) ∨
             quiet (th_last x) (lp_state (th_loop x));
}.

Lemma set_left_spec g p f g' : set_left g p f g' = if decide (g' = g) then p else f g'.
Proof. done. Qed.

Lemma awake_deliver x g p obs left :
  requests_later p → th_left x g = [] → awake_inv x →
  awake_inv {| th_loop := th_loop x; th_left := set_left g p (th_left x); th_obs := obs;
               th_last := th_last x; th_gone := left |}.
Proof.
  intros Hp Hg [Ht Hl Hq]. constructor; simpl; [done| |].
  - intros g'. rewrite set_left_spec. case_decide; [done|apply Hl].
  - destruct Hq as [?|[[g' Hr]|?]]; [by left| |by right; right]. right. left. exists g'.
    rewrite set_left_spec. case_decide; [|done]. subst. rewrite Hg in Hr. by apply elem_of_nil in Hr.
Qed.

Lemma awake_advance x g m rest :
  th_left x g = m :: rest → awake_inv x →
  awake_inv {| th_loop := exec (th_loop x) m; th_left := set_left g rest (th_left x);
               th_obs := th_obs x; th_last := th_last x; th_gone := th_gone x |}.
Proof.
  intros Hg [Ht Hl Hq]. pose proof (Hl g) as Hlg. rewrite Hg in Hlg. constructor; simpl.
  - destruct m; simpl; [done|]. unfold requestScheduling. by destruct (lp_trigger (th_loop x)).
  - intros g'. rewrite set_left_spec. case_decide; [|apply Hl]. destruct m; [apply Hlg|done].
  - destruct m as [op|]; simpl in *; [|left; by apply request_pending].
    destruct Hlg as [[Hop|Hreq] _].
    + destruct Hq as [?|[[g' Hr]|Hq]]; [by left| |].
      * right. left. exists g'. rewrite set_left_spec. case_decide; [|done]. subst. rewrite Hg in Hr.
        apply elem_of_cons in Hr as [?|?]; done.
      * right. right. etransitivity; [exact Hq|by apply quiet_op_quiet].
    + right. left. exists g. rewrite set_left_spec. by rewrite decide_True.
Qed.

Lemma awake_step `{MapIter} l x y : awake_inv x → thread_step l x y → awake_inv y.
Proof.
  intros Hx. destruct 1 as [x now ev Hg Hf Hch|x lp ev Hg|x ev Hg|x l Hg|x g m rest Hg|x Ht].
  - by apply awake_deliver; [apply workloadProgram_later|..].
  - by apply awake_deliver; [apply poolProgram_later|..].
  - by apply awake_deliver; [apply quotaProgram_later|..].
  - by apply awake_deliver; [apply seedProgram_later|..].
  - by apply awake_advance.
  - destruct Hx as [_ Hl _]. constructor; simpl; [by eexists|done|]. right. right. apply quiet_refl.
Qed.

(** An invariant of the steps holds in every state they reach. *)
Lemma threads_invariant `{MapIter} ok (P : threads → Prop) x :
  P threads_init → (∀ l x y, ok l → P x → thread_step l x y → P y) → threads_reach ok x → P x.
Proof.
  intros Hinit Hstep Hr. unfold threads_reach in Hr. revert Hinit.
  induction Hr as [|x1 x2 x3 (l & Hl & Hs) _ IH]; eauto.
Qed.

Lemma threads_reach_awake `{MapIter} ok x : threads_reach ok x → awake_inv x.
Proof.
  apply threads_invariant; [|intros l x' y _; apply awake_step].
  constructor; simpl; [by eexists|done|]. right. right. apply quiet_refl.
Qed.

(** ** The buckets *)

(** The operations of pools and quotas leave the buckets alone, and what an operation makes of the
    buckets depends on nothing else. *)
Definition bucket_op (op : stateOp) : bool :=
  match op with
  | UpsertQueued _ _ | UpsertScheduled _ _ | UpsertRunning _ _ | RemoveWorkload _ _ => true
  | _ => false
  end.

Definition other_program (p : list atomic) : Prop :=
  Forall (λ m, match m with Locked op => bucket_op op = false | Request => True end) p.

Lemma run_op_other op st : bucket_op op = false → same_buckets st (run_op op st).
Proof. by destruct op. Qed.

Lemma run_op_buckets op st st' : same_buckets st st' → same_buckets (run_op op st) (run_op op st').
Proof.
  intros (Hq & Hs & Hr). unfold same_buckets. destruct op; simpl; rewrite ?Hq, ?Hs, ?Hr; done.
Qed.

Lemma exec_buckets m s s' :
  same_buckets (lp_state s) (lp_state s') →
  same_buckets (lp_state (exec s m)) (lp_state (exec s' m)).
Proof.
  intros Hb. destruct m; simpl; [by apply run_op_buckets|]. by rewrite !requestScheduling_state.
Qed.

Lemma exec_all_buckets p s s' :
  same_buckets (lp_state s) (lp_state s') →
  same_buckets (lp_state (exec_all s p)) (lp_state (exec_all s' p)).
Proof.
  revert s s'. induction p as [|m p IH]; intros s s' Hb; [done|]. apply IH. by apply exec_buckets.
Qed.

(** Once the workload informer has finished what it is in, the buckets are those of the objects it was
    handed. *)
Record bucket_inv (x : threads) : Prop := {
  bi_other : ∀ g, g ≠ Workloads → other_program (th_left x g);
  bi_refines : refines (th_obs x) (lp_state (exec_all (th_loop x) (th_left x Workloads)));
}.

Lemma poolProgram_other listPools ev : other_program (poolProgram listPools ev).
Proof.
  unfold poolProgram. destruct (accessor _); [|constructor]. destruct (listPools _); [|constructor].
  case_decide; by repeat constructor.
Qed.

Lemma quotaProgram_other ev : other_program (quotaProgram ev).
Proof.
  unfold quotaProgram. destruct (untomb _); try by constructor.
  destruct ev; case_decide; by repeat constructor.
Qed.

Lemma seedProgram_other `{MapIter} list_ : other_program (seedProgram list_).
Proof.
  unfold seedProgram. destruct list_; [|constructor]. apply Forall_app. split; [|by repeat constructor].
  apply Forall_fmap, Forall_true. done.
Qed.

Lemma bucket_deliver x g p :
  g ≠ Workloads → other_program p → bucket_inv x →
  bucket_inv {| th_loop := th_loop x; th_left := set_left g p (th_left x); th_obs := th_obs x;
                th_last := th_last x; th_gone := th_gone x |}.
Proof.
  intros Hg Hp [Ho Hr]. constructor; simpl.
  - intros g' Hg'. rewrite set_left_spec. case_decide; [done|by apply Ho].
  - rewrite set_left_spec. by rewrite decide_False.
Qed.

Lemma bucket_step `{MapIter} l x y : bucket_inv x → thread_step l x y → bucket_inv y.
Proof.
  intros Hx. destruct 1 as [x now ev Hg Hf Hch|x lp ev Hg|x ev Hg|x l Hg|x g m rest Hg|x Ht].
  - destruct Hx as [Ho Hr]. constructor; simpl.
    + intros g' Hg'. rewrite set_left_spec. rewrite decide_False by done. by apply Ho.
    + rewrite set_left_spec, decide_True by done. rewrite workloadProgram_correct.
      apply refines_step; [done|]. by rewrite Hg in Hr.
  - apply bucket_deliver; [done|apply poolProgram_other|done].
  - apply bucket_deliver; [done|apply quotaProgram_other|done].
  - apply bucket_deliver; [done|apply seedProgram_other|done].
  - destruct Hx as [Ho Hr]. constructor; simpl.
    + intros g' Hg'. rewrite set_left_spec. case_decide; [|by apply Ho]. subst g'.
      pose proof (Ho g Hg') as Hg2. rewrite Hg in Hg2. by inversion Hg2.
    + rewrite set_left_spec. case_decide as E.
      * subst g. by rewrite Hg in Hr.
      * eapply refines_same; [|exact Hr]. apply exec_all_buckets. destruct m as [op|]; simpl.
        -- pose proof (Ho g ltac:(done)) as Hg2. rewrite Hg in Hg2. apply run_op_other.
           by inversion Hg2.
        -- by rewrite requestScheduling_state.
  - destruct Hx as [Ho Hr]. constructor; simpl; [done|]. eapply refines_same; [|exact Hr].
    by apply exec_all_buckets.
Qed.

Lemma threads_reach_buckets `{MapIter} ok x : threads_reach ok x → bucket_inv x.
Proof.
  apply threads_invariant; [|intros l x' y _; apply bucket_step].
  constructor; simpl; [by repeat constructor|apply refines_init].
Qed.

(** ** Workloads that leave Running *)

Definition running_now (obs : observation) (k : string * string) : Prop :=
  ∃ w t, obs !! k = Some (w, t) ∧ phase_of w = GPUWorkloadPhaseRunning.

(** A running workload stays in its bucket until it is taken out. *)
Lemma running_kept p s ns id :
  is_Some (look (st_running (lp_state s)) ns id) → Locked (RemoveWorkload ns id) ∉ p →
  is_Some (look (st_running (lp_state (exec_all s p))) ns id).
Proof.
  revert s. induction p as [|m p IH]; intros s Hs; [done|]. intros [Hm Hp]%not_elem_of_cons.
  apply IH; [|done]. destruct m as [op|]; simpl; [|by rewrite requestScheduling_state].
  destruct op as [| |ns' r|ns' id'| | | | |]; simpl; try done.
  - rewrite look_insert. by case_decide.
  - rewrite look_delete. case_decide as E; [|done]. destruct Hm. by simplify_eq.
Qed.

Lemma refines_running o st ns id :
  refines o st → is_Some (look (st_running st) ns id) ↔ running_now o (ns, id).
Proof.
  intros HR. rewrite (rf_running _ _ HR). unfold running_now. destruct (o !! (ns, id)) as [[w t]|]; simpl.
  - case_decide as E; [naive_solver|]. split; [by intros []|]. by intros (? & ? & [= <- <-] & ?).
  - split; [by intros []|]. by intros (? & ? & ? & _).
Qed.

(** The workload handlers take out the workload of their event, first. *)
Lemma applyOps_removal now o d w ns id :
  untomb o = OWorkload w → RemoveWorkload ns id ∈ (applyOps now o d).1 → (ns, id) = obs_key w.
Proof.
  intros Ho. unfold applyOps. rewrite Ho. cbn [accessor].
  destruct d; [by intros [= -> ->]%list_elem_of_singleton|]. case_decide; [by intros [= -> ->]%list_elem_of_singleton|].
  destruct (phase_of w); cbn [fst]; intros Hin;
    repeat (apply elem_of_cons in Hin as [Hin|Hin]; [by simplify_eq|]); by apply elem_of_nil in Hin.
Qed.

Lemma applyOps_removal_first now o d op ops ns id :
  (applyOps now o d).1 = op :: ops → RemoveWorkload ns id ∉ ops.
Proof.
  unfold applyOps. destruct (accessor _); [|done]. destruct d; [by intros [= _ <-] ?%elem_of_nil|].
  destruct (untomb o) as [w| | | |]; try done. case_decide; [by intros [= _ <-] ?%elem_of_nil|].
  destruct (phase_of w); intros [= _ <-]; try by intros ?%elem_of_nil. by intros ?%list_elem_of_singleton.
Qed.

(** What the workload informer has left to do: operations whose removal is of a workload that is gone,
    runs again, does not run in the state, or is followed by a request; or the rest of the removal
    handler. *)
Definition leaving (obs : observation) (st : schedulerState) (p : list atomic) : Prop :=
  (∃ ops b, p = (Locked <$> ops) ++ request_if b ∧
     (∀ ns id, RemoveWorkload ns id ∈ ops →
        b = true ∨ obs !! (ns, id) = None ∨ running_now obs (ns, id) ∨
        look (st_running st) ns id = None) ∧
     (∀ op ops' ns id, ops = op :: ops' → RemoveWorkload ns id ∉ ops')) ∨
  (∀ ns id, Locked (RemoveWorkload ns id) ∈ p → obs !! (ns, id) = None).

(** The update of a workload that ran and does not any more ends in a request. *)
Lemma update_requests now (w0 : GPUWorkload) b' w :
  untomb b' = OWorkload w → phase_of w0 = GPUWorkloadPhaseRunning → phase_of w ≠ GPUWorkloadPhaseRunning →
  ∃ ops, workloadProgram now (Updated (OWorkload w0) b') = (Locked <$> ops) ++ [Request] ∧
         (applyOps now b' false).1 = ops.
Proof.
  intros Hb Hp0 Hp. cbn [workloadProgram object_phase]. destruct (applyOps now b' false) as [ops wq].
  exists ops. split; [|done]. rewrite Hp0, bool_decide_eq_true_2 by done.
  rewrite bool_decide_eq_false_2; [by rewrite orb_true_r|]. by destruct b'; simplify_eq/=.
Qed.

Lemma workloadProgram_leaving obs st now ev :
  refines obs st → forward obs ev → chained obs ev →
  leaving (observe obs now ev) st (workloadProgram now ev).
Proof.
  intros HR Hf Hch. unfold forward in Hf.
  destruct (event_object ev) as [w| | | |] eqn:He; try done.
  assert (Hobs : observe obs now ev = if decide (gone ev w) then delete (obs_key w) obs
                                      else <[obs_key w := (w, now)]> obs)
    by (unfold observe; by rewrite He).
  unfold chained in Hch. rewrite He in Hch. destruct ev as [b|old b|b]; cbn [event_object] in He.
  - left. exists (applyOps now b false).1, (applyOps now b false).2. split_and!.
    + cbn [workloadProgram]. by destruct (applyOps now b false).
    + intros ns id Hk%(applyOps_removal now b false w ns id He). right. rewrite Hk, Hobs.
      case_decide; [left; apply lookup_delete_eq|]. right. right. apply eq_None_not_Some.
      injection Hk as -> ->. rewrite (refines_running _ _ _ _ HR). intros (? & ? & E & _).
      unfold obs_key in Hch. congruence.
    + intros op ops' ns id. apply applyOps_removal_first.
  - left. exists (applyOps now b false).1,
      ((applyOps now b false).2 || (bool_decide (object_phase old = GPUWorkloadPhaseRunning)
                                   && negb (bool_decide (object_phase b = GPUWorkloadPhaseRunning)))).
    split_and!.
    + cbn [workloadProgram]. by destruct (applyOps now b false).
    + intros ns id Hk%(applyOps_removal now b false w ns id He). rewrite Hk, Hobs.
      case_decide; [right; left; apply lookup_delete_eq|].
      destruct (decide (phase_of w = GPUWorkloadPhaseRunning)) as [Hp|Hp].
      { right. right. left. exists w, now. split; [apply lookup_insert_eq|done]. }
      destruct (look (st_running st) ns id) as [r|] eqn:Hl; [|by auto]. left.
      assert (running_now obs (ns, id)) as (w0 & t0 & Ho & Hp0)
        by (apply (refines_running _ _ _ _ HR); by rewrite Hl).
      rewrite Hk in Ho. rewrite (Hch w0 t0 Ho). cbn [object_phase]. rewrite Hp0.
      rewrite bool_decide_eq_true_2 by done. rewrite bool_decide_eq_false_2; [by rewrite orb_true_r|].
      unfold event_object in He. by destruct b; simplify_eq/=.
    + intros op ops' ns id. apply applyOps_removal_first.
  - right. intros ns id. cbn [workloadProgram]. rewrite elem_of_app. intros [Hr|Hr].
    + by destruct (bool_decide _); [apply list_elem_of_singleton in Hr|apply elem_of_nil in Hr].
    + apply list_elem_of_fmap in Hr as (op & [= <-] & Hop).
      change (untomb b = OWorkload w) in He. rewrite He in Hop.
      apply (applyOps_removal now (OWorkload w) true w) in Hop; [|done].
      rewrite Hop, Hobs, decide_True by done. apply lookup_delete_eq.
Qed.

(** A cycle is pending, or will be requested, or what ran when the last cycle started runs now or was
    deleted. *)
Record running_inv (x : threads) : Prop := {
  ri_leaving : leaving (th_obs x) (lp_state (th_loop x)) (th_left x Workloads);
  ri_left : pending (th_loop x) ∨ (∃ g, Request ∈ th_left x g) ∨
    ∀ ns id, is_Some (look (st_running (th_last x)) ns id) →
             running_now (th_obs x) (ns, id) ∨ (ns, id) ∈ th_gone x;
}.

Lemma leaving_advance obs s m rest :
  leaving obs (lp_state s) (m :: rest) → leaving obs (lp_state (exec s m)) rest.
Proof.
  intros [(ops & b & Hp & Hr & Hfirst)|Hr].
  - destruct ops as [|op ops]; csimpl in Hp.
    + destruct b; [|done]. injection Hp as -> ->. left. exists [], false. split_and!; [done|..].
      * by intros ?? ?%elem_of_nil.
      * done.
    + injection Hp as -> ->. left. exists ops, b. split_and!; [done|..].
      * intros ns id Hin. by destruct (Hfirst op ops ns id eq_refl).
      * intros op' ops' ns id -> Hin. apply (Hfirst op (op' :: ops') ns id eq_refl). by right.
  - right. intros ns id Hin. apply Hr. by right.
Qed.

Lemma request_or_not (p : list atomic) : Request ∈ p ∨ Request ∉ p.
Proof.
  induction p as [|[op|] p [IH|IH]]; [right; apply not_elem_of_nil|left; by right| |left; left|left; left].
  right. by apply not_elem_of_cons.
Qed.

Lemma left_set (x : threads) g p :
  th_left x g = [] → (∃ g', Request ∈ th_left x g') → ∃ g', Request ∈ set_left g p (th_left x) g'.
Proof.
  intros Hg [g' Hr]. exists g'. rewrite set_left_spec. case_decide; [|done].
  subst. rewrite Hg in Hr. by apply elem_of_nil in Hr.
Qed.

Lemma running_deliver x g p :
  g ≠ Workloads → th_left x g = [] → running_inv x →
  running_inv {| th_loop := th_loop x; th_left := set_left g p (th_left x); th_obs := th_obs x;
                 th_last := th_last x; th_gone := th_gone x |}.
Proof.
  intros Hw Hg [Hl Hr]. constructor; simpl.
  - rewrite set_left_spec. by rewrite decide_False.
  - destruct Hr as [?|[?|?]]; [by left| |by right; right]. right. left. by apply left_set.
Qed.

(** After an event either a request is left to be made, or what ran runs still or is deleted. *)
Lemma running_event obs now ev k :
  forward obs ev → chained obs ev → running_now obs k →
  Request ∈ workloadProgram now ev ∨ running_now (observe obs now ev) k ∨ k ∈ add_gone ev ∅.
Proof.
  intros Hf Hch (w0 & t0 & Ho & Hp0). unfold forward, chained, observe, add_gone in *.
  destruct (event_object ev) as [w| | | |] eqn:He; try done. case_decide as Hg.
  - destruct (decide (k = obs_key w)) as [->|Hne]; [right; right; set_solver|].
    right. left. exists w0, t0. split; [by rewrite lookup_delete_ne|done].
  - destruct (decide (k = obs_key w)) as [->|Hne].
    2:{ right. left. exists w0, t0. split; [by rewrite lookup_insert_ne|done]. }
    destruct (decide (phase_of w = GPUWorkloadPhaseRunning)) as [Hp|Hp].
    { right. left. exists w, now. split; [apply lookup_insert_eq|done]. }
    destruct ev as [b|old b|b]; [congruence| |by destruct Hg].
    left. rewrite (Hch w0 t0 Ho). destruct (update_requests now w0 b w He Hp0 Hp) as (ops & -> & _).
    apply elem_of_app. right. left.
Qed.

Lemma running_step `{MapIter} l x y :
  awake_inv x → bucket_inv x → running_inv x → thread_step l x y → running_inv y.
Proof.
  intros Ha Hb Hx. destruct 1 as [x now ev Hg Hf Hch|x lp ev Hg|x ev Hg|x l Hg|x g m rest Hg|x Ht].
  - destruct Hx as [Hl Hr], Hb as [Ho HR]. rewrite Hg in HR. constructor; simpl.
    + rewrite set_left_spec, decide_True by done. by apply workloadProgram_leaving.
    + destruct Hr as [?|[?|Hr]]; [by left|right; left; by apply left_set|]. right.
      destruct (request_or_not (workloadProgram now ev)) as [Hq|Hq].
      { left. exists Workloads. by rewrite set_left_spec, decide_True. }
      right. intros ns id [Hrun|Hgone]%Hr.
      * destruct (running_event (th_obs x) now ev (ns, id) Hf Hch Hrun) as [?|[?|Hk]]; [done|by left|right].
        unfold add_gone in *. destruct (event_object ev); try done. case_decide; set_solver.
      * right. unfold add_gone. destruct (event_object ev); try done. case_decide; set_solver.
  - by apply running_deliver.
  - by apply running_deliver.
  - by apply running_deliver.
  - destruct Hx as [Hl Hr], Hb as [Ho HR]. constructor; simpl.
    + rewrite set_left_spec. case_decide as E.
      * subst g. rewrite Hg in Hl. by apply leaving_advance.
      * assert (st_running (lp_state (exec (th_loop x) m)) = st_running (lp_state (th_loop x))) as Es.
        { pose proof (Ho g ltac:(done)) as Hg2. rewrite Hg in Hg2. destruct m as [op|]; simpl.
          - symmetry. apply (run_op_other op). by inversion Hg2.
          - by rewrite requestScheduling_state. }
        unfold leaving. by rewrite Es.
    + destruct m as [op|]; simpl.
      * destruct Hr as [?|[[g' Hr]|?]]; [by left| |by right; right]. right. left. exists g'.
        rewrite set_left_spec. case_decide; [|done]. subst. rewrite Hg in Hr.
        apply elem_of_cons in Hr as [?|?]; done.
      * left. apply request_pending, (ai_trigger _ Ha).
  - destruct Hx as [Hl _], Hb as [Ho HR]. constructor; simpl; [done|]. right.
    destruct (request_or_not (th_left x Workloads)) as [Hq|Hq]; [left; by exists Workloads|]. right.
    intros ns id Hs.
    destruct (decide ((ns, id) ∈ removals (th_left x Workloads))) as [Hm|Hm]; rewrite elem_of_removals in Hm.
    + destruct Hl as [(ops & b & Hp & Hrem & _)|Hrem].
      * destruct b; [exfalso; apply Hq; rewrite Hp; apply elem_of_app; right; left|].
        simpl in Hp. rewrite app_nil_r in Hp.
        assert (RemoveWorkload ns id ∈ ops) as Hin.
        { rewrite Hp in Hm. by apply list_elem_of_fmap in Hm as (? & [= <-] & ?). }
        destruct (Hrem ns id Hin) as [?|[Hn|[?|Hn]]]; [done| |by left|rewrite Hn in Hs; by destruct Hs].
        right. apply elem_of_filter. split; [done|by apply elem_of_removals].
      * right. apply elem_of_filter. split; [by apply Hrem|by apply elem_of_removals].
    + left. apply (refines_running _ _ _ _ HR). by apply running_kept.
Qed.

Lemma threads_reach_running `{MapIter} ok x : threads_reach ok x → running_inv x.
Proof.
  intros Hx. assert (awake_inv x ∧ bucket_inv x ∧ running_inv x) as (_ & _ & ?); [|done].
  revert Hx. apply (threads_invariant ok (λ x, awake_inv x ∧ bucket_inv x ∧ running_inv x)).
  - split_and!; [by apply (threads_reach_awake ok); constructor|by apply (threads_reach_buckets ok); constructor|].
    constructor; simpl.
    + right. by intros ?? ?%elem_of_nil.
    + right. right. intros ns id. by intros [].
  - intros l x' y _ (Ha & Hb & Hr) Hs.
    split_and!; [by eapply awake_step|by eapply bucket_step|by eapply running_step].
Qed.

(** ** Snapshots *)

(** What the events bring: workloads, fleets and quotas with the given properties, while the clock
    runs. *)
Record content := {
  ct_workload : GPUWorkload → Prop;
  ct_fleet : FleetFreeCapacity → Prop;
  ct_quota : string → TenantQuota → Prop;
}.

Definition carries (c : content) (l : label) : Prop :=
  match l with
  | WorkloadEvent now ev =>
      now ≠ 0 ∧ match event_object ev with OWorkload w => ct_workload c w | _ => True end
  | PoolEvent listPools _ =>
      ∀ ns items, listPools ns = Ok items → ct_fleet c (aggregateFleetFromPools items)
  | QuotaEvent ev =>
      match event_object ev with
      | OQuota q =>
          TrimSpace (tqs_Tenant (tq_Spec q)) ≠ "" →
          ct_quota c (TrimSpace (tqs_Tenant (tq_Spec q)))
            {| t_MaxGPUs := tqs_MaxGPUs (tq_Spec q); t_MaxMemoryMiB := tqs_MaxMemoryMiB (tq_Spec q);
               t_Weight := tqs_Weight (tq_Spec q) |}
      | _ => True
      end
  | SeedList list_ =>
      ∀ items ns ps, list_ = Ok items → byNamespace items !! ns = Some ps →
        ct_fleet c (aggregateFleetFromPools ps)
  | GoOn => True
  end.

(** Any objects at all, with times that are times: the clock is not at zero, and neither is the queueing
    time of a workload that has one. *)
Definition timed_event (l : label) : Prop :=
  match l with
  | WorkloadEvent now ev =>
      now ≠ 0 ∧
      match event_object ev with OWorkload w => wst_QueuedAt (w_Status w) ≠ Some 0 | _ => True end
  | _ => True
  end.

(** Workloads with sound requests, pools in range and non-negative quotas. *)
Definition served_event (l : label) : Prop :=
  match l with
  | WorkloadEvent now ev => now ≠ 0 ∧ served (event_object ev)
  | PoolEvent listPools _ => ∀ ns items, listPools ns = Ok items → pools_ok items
  | QuotaEvent ev => served (event_object ev)
  | SeedList list_ =>
      ∀ items ns, list_ = Ok items → pools_ok (default [] (byNamespace items !! ns))
  | GoOn => True
  end.

(** What the snapshots get of either. *)
Definition timed : content :=
  {| ct_workload := λ w, wst_QueuedAt (w_Status w) ≠ Some 0; ct_fleet := fleet_shaped;
     ct_quota := λ t _, TrimSpace t ≠ "" |}.
Definition sound : content :=
  {| ct_workload := served_workload; ct_fleet := fleet_valid; ct_quota := valid_quota |}.

Lemma timed_carries l : timed_event l → carries timed l.
Proof.
  destruct l as [now ev|listPools ev|ev|list_|]; cbn [timed_event carries timed ct_workload ct_fleet ct_quota].
  - done.
  - intros _ ns items _. apply aggregate_shaped.
  - intros _. destruct (event_object ev); try done. intros Ht. by rewrite TrimSpace_idem_blank.
  - intros _ items ns ps _ _. apply aggregate_shaped.
  - done.
Qed.

Lemma served_carries l : served_event l → carries sound l.
Proof.
  destruct l as [now ev|listPools ev|ev|list_|]; cbn [served_event carries sound ct_workload ct_fleet ct_quota].
  - intros [? Hs]. split; [done|]. by destruct (event_object ev).
  - intros Hok ns items Hl. by eapply aggregate_fleet_valid, Hok.
  - intros Hs. destruct (event_object ev); try done. intros Ht. destruct Hs as (? & ? & ?).
    unfold valid_quota. by rewrite TrimSpace_idem_blank.
  - intros Hok items ns ps Hl Hps. specialize (Hok items ns Hl). rewrite Hps in Hok.
    by apply aggregate_fleet_valid.
  - done.
Qed.

(** What an operation on the buckets makes of the objects they show; a workload that becomes Running is
    shown by none in between. *)
Inductive shows (c : content) (o : observation) : stateOp → observation → Prop :=
| shows_remove ns id : shows c o (RemoveWorkload ns id) (delete (ns, id) o)
| shows_queued w t :
    phase_of w = GPUWorkloadPhaseQueued → ct_workload c w → t ≠ 0 →
    (∀ w0 t0, o !! obs_key w = Some (w0, t0) →
              (phase_rank (phase_of w0) ≤ phase_rank GPUWorkloadPhaseQueued)%nat) →
    shows c o (UpsertQueued (om_Namespace (w_Meta w))
               (GPUWorkloadToQueuedWorkload w (workload_id w) (queuedAtOr t w)))
      (<[obs_key w := (w, t)]> o)
| shows_scheduled w t :
    phase_of w = GPUWorkloadPhaseScheduled → ct_workload c w → t ≠ 0 →
    (∀ w0 t0, o !! obs_key w = Some (w0, t0) →
              (phase_rank (phase_of w0) ≤ phase_rank GPUWorkloadPhaseScheduled)%nat) →
    shows c o (UpsertScheduled (om_Namespace (w_Meta w))
               (GPUWorkloadToRunningWorkload w (workload_id w) (queuedAtOr t w)))
      (<[obs_key w := (w, t)]> o)
| shows_running w t :
    phase_of w = GPUWorkloadPhaseRunning → ct_workload c w → t ≠ 0 → o !! obs_key w = None →
    shows c o (UpsertRunning (om_Namespace (w_Meta w))
               (GPUWorkloadToRunningWorkload w (workload_id w) (queuedAtOr t w)))
      (<[obs_key w := (w, t)]> o).

Lemma refines_upsertRunning o st ns id w t :
  phase_of w = GPUWorkloadPhaseRunning → o !! (ns, id) = None → refines o st →
  refines (<[(ns, id) := (w, t)]> o)
    (upsertRunning st ns (GPUWorkloadToRunningWorkload w id (queuedAtOr t w))).
Proof.
  intros Hp Ho [Hq Hs Hr]. constructor; intros ns' id'; simpl; rewrite ?look_insert, ?look_delete;
    try same_key; rewrite ?Hp; try done.
  all: destruct (decide ((ns, id) = (ns', id'))) as [[= <- <-]|E];
    [rewrite lookup_insert_eq; simpl; rewrite Hp; simpl|by rewrite lookup_insert_ne].
  all: by rewrite ?Hq, ?Hs, Ho.
Qed.

Lemma shows_refines c o op o' st : shows c o op o' → refines o st → refines o' (run_op op st).
Proof.
  destruct 1 as [ns id|w t Hp _ _ Hf|w t Hp _ _ Hf|w t Hp _ _ Ho]; intros HR.
  - by apply refines_remove.
  - pose proof (refines_upsert o st _ _ w t ltac:(rewrite Hp; exact Hf) HR) as Hu. by rewrite Hp in Hu.
  - pose proof (refines_upsert o st _ _ w t ltac:(rewrite Hp; exact Hf) HR) as Hu. by rewrite Hp in Hu.
  - by apply refines_upsertRunning.
Qed.

(** The objects the buckets show have the property. *)
Definition obs_carries (c : content) (o : observation) : Prop :=
  ∀ k w t, o !! k = Some (w, t) → k = obs_key w ∧ ct_workload c w ∧ t ≠ 0.

Lemma shows_carries c o op o' : shows c o op o' → obs_carries c o → obs_carries c o'.
Proof.
  destruct 1 as [ns id|w t _ ? ? _|w t _ ? ? _|w t _ ? ? _]; intros Hs k w' t' Hk;
    [apply lookup_delete_Some in Hk as [_ ?]; by apply Hs|..];
    (apply lookup_insert_Some in Hk as [[<- [= <- <-]]|[_ ?]]; [done|by apply Hs]).
Qed.

(** The rest of a workload handler leads from [o] to objects among [fin]. *)
Fixpoint leads (c : content) (o : observation) (p : list atomic) (fin : observation) : Prop :=
  match p with
  | [] => o ⊆ fin
  | Request :: p => leads c o p fin
  | Locked op :: p => ∃ o', shows c o op o' ∧ leads c o' p fin
  end.

Lemma leads_request c o b p fin : leads c o p fin → leads c o (request_if b ++ p) fin.
Proof. by destruct b. Qed.

Lemma leads_app c o ops b fin :
  leads c o (Locked <$> ops) fin → leads c o ((Locked <$> ops) ++ request_if b) fin.
Proof.
  revert o. induction ops as [|op ops IH]; intros o; csimpl.
  - intros Hl. by destruct b.
  - intros (o' & Ho & Hl). exists o'. split; [done|by apply IH].
Qed.

Lemma delete_insert_sub (o obs : observation) k x : o ⊆ obs → delete k o ⊆ <[k := x]> obs.
Proof.
  intros Hs. apply map_subseteq_spec. intros k' v [Hk Hl]%lookup_delete_Some.
  rewrite lookup_insert_ne by done. by eapply lookup_weaken.
Qed.

Lemma delete_delete_sub (o obs : observation) k : o ⊆ obs → delete k o ⊆ delete k obs.
Proof. intros Hs. by apply delete_mono. Qed.

Lemma applyOps_leads c o obs now ev w :
  event_object ev = OWorkload w → o ⊆ obs → now ≠ 0 → ct_workload c w → forward obs ev →
  leads c o (Locked <$> (applyOps now (OWorkload w) (match ev with Removed _ => true | _ => false end)).1)
    (observe obs now ev).
Proof.
  intros He Hs Hnow Hw Hf. unfold forward, observe in *. rewrite He in *.
  unfold applyOps. cbn [untomb accessor].
  change (stateWorkloadID (om_Namespace (w_Meta w)) (om_Name (w_Meta w))) with (workload_id w).
  destruct (decide (gone ev w)) as [Hg|Hg].
  { destruct ev; cbn [gone] in Hg; rewrite ?decide_True by done; csimpl;
      eexists; (split; [apply shows_remove|by apply delete_delete_sub]). }
  assert (match ev with Removed _ => true | _ => false end = false) as -> by (by destruct ev).
  rewrite decide_False by (destruct ev; cbn [gone] in Hg; tauto).
  destruct Hf as [?|[H0|Hf]]; [done| |].
  - destruct (phase_of w) eqn:Hp; try done; csimpl;
      (eexists; split; [apply shows_remove|by apply delete_insert_sub]).
  - destruct (phase_of w) eqn:Hp; csimpl;
      try (eexists; split; [apply shows_remove|by apply delete_insert_sub]).
    + eexists. split; [|by apply insert_mono]. apply shows_queued; [done..|].
      intros w0 t0 Hl. apply (Hf w0 t0). by eapply lookup_weaken.
    + eexists. split; [|by apply insert_mono]. apply shows_scheduled; [done..|].
      intros w0 t0 Hl. apply (Hf w0 t0). by eapply lookup_weaken.
    + eexists. split; [apply shows_remove|]. eexists.
      split; [apply shows_running; [done..|apply lookup_delete_eq]|].
      rewrite insert_delete_eq. by apply insert_mono.
Qed.

Lemma workloadProgram_leads c o obs now ev :
  o ⊆ obs → carries c (WorkloadEvent now ev) → forward obs ev →
  leads c o (workloadProgram now ev) (observe obs now ev).
Proof.
  intros Hs [Hnow Hserved] Hf.
  destruct (event_object ev) as [w| | | |] eqn:He; try (unfold forward in Hf; by rewrite He in Hf).
  pose proof (applyOps_leads c o obs now ev w He Hs Hnow Hserved Hf) as Hl.
  assert (∀ b' d, untomb b' = OWorkload w → applyOps now b' d = applyOps now (OWorkload w) d) as Hun.
  { intros b' d Hb. unfold applyOps. by rewrite Hb. }
  destruct ev as [b|b b'|b]; cbn [workloadProgram event_object] in *.
  - rewrite Hun by exact He. destruct (applyOps _ _ _) as [ops wq]. by apply leads_app.
  - rewrite Hun by exact He. destruct (applyOps _ _ _) as [ops wq]. by apply leads_app.
  - apply leads_request. change (untomb b = OWorkload w) in He. by rewrite He.
Qed.

(** Operations that keep the fleet and the quotas so. *)
Definition valid_op (c : content) (op : stateOp) : Prop :=
  match op with
  | SetFleet _ f => ct_fleet c f
  | UpsertQuota _ t q => ct_quota c t q
  | _ => True
  end.

Definition valid_program (c : content) (p : list atomic) : Prop :=
  Forall (λ m, match m with Locked op => valid_op c op | Request => True end) p.

Definition stores_valid (c : content) (st : schedulerState) : Prop :=
  map_Forall (λ _ f, ct_fleet c f) (st_fleet st) ∧
  ∀ ns, map_Forall (ct_quota c) (inner (st_quotas st) ns).

Lemma run_op_valid c op st : valid_op c op → stores_valid c st → stores_valid c (run_op op st).
Proof.
  intros Hop [Hf Hq]. destruct op; cbn [run_op valid_op] in *; split; simpl; try done.
  - by apply map_Forall_insert_2.
  - by apply map_Forall_delete.
  - intros ns'. rewrite inner_insert. case_decide; [by apply map_Forall_insert_2|done].
  - intros ns'. rewrite inner_delete. case_decide; [by apply map_Forall_delete|done].
  - intros ns'. unfold inner. destruct (decide (ns = ns')) as [<-|].
    + rewrite lookup_delete_eq. apply map_Forall_empty.
    + rewrite lookup_delete_ne by done. apply Hq.
Qed.

Lemma applyOps_valid c now obj d : Forall (valid_op c) (applyOps now obj d).1.
Proof.
  unfold applyOps. destruct (accessor _); [|constructor]. destruct d; [by repeat constructor|].
  destruct (untomb obj) as [w| | | |]; try by constructor. case_decide; [by repeat constructor|].
  destruct (phase_of w); by repeat constructor.
Qed.

Lemma locked_valid c ops : Forall (valid_op c) ops → valid_program c (Locked <$> ops).
Proof. unfold valid_program. by rewrite Forall_fmap. Qed.

Lemma workloadProgram_valid c now ev : valid_program c (workloadProgram now ev).
Proof.
  assert (∀ b, valid_program c (request_if b)) as Hr by (intros []; by repeat constructor).
  destruct ev as [b|b b'|b]; cbn [workloadProgram].
  - pose proof (applyOps_valid c now b false). destruct (applyOps _ _ _).
    apply Forall_app. split; [by apply locked_valid|apply Hr].
  - pose proof (applyOps_valid c now b' false). destruct (applyOps _ _ _).
    apply Forall_app. split; [by apply locked_valid|apply Hr].
  - apply Forall_app. split; [apply Hr|]. apply locked_valid, applyOps_valid.
Qed.

Lemma poolProgram_valid c listPools ev :
  carries c (PoolEvent listPools ev) → valid_program c (poolProgram listPools ev).
Proof.
  intros Hok. unfold poolProgram. destruct (accessor _); [|constructor].
  destruct (listPools _) as [items|e] eqn:Hl; [|constructor].
  repeat constructor. case_decide; [done|]. by eapply Hok.
Qed.

Lemma quotaProgram_valid c ev : carries c (QuotaEvent ev) → valid_program c (quotaProgram ev).
Proof.
  intros Hok. unfold quotaProgram. cbn in Hok. unfold event_object in Hok. fold (event_target ev) in Hok.
  destruct (untomb (event_target ev)) as [| |q| |]; try by constructor. unfold valid_program.
  destruct ev; (case_decide; [by repeat constructor|]);
    repeat (apply Forall_cons; split); try exact (Forall_nil_2 _); try exact I; by apply Hok.
Qed.

Lemma seedProgram_valid `{MapIter} c list_ :
  carries c (SeedList list_) → valid_program c (seedProgram list_).
Proof.
  intros Hok. unfold seedProgram. destruct list_ as [items|e]; [|constructor].
  apply Forall_app. split; [|by repeat constructor]. apply Forall_fmap, Forall_forall.
  intros [ns ps] Hin. cbn. rewrite map_iter_perm in Hin. apply elem_of_map_to_list in Hin. by eapply Hok.
Qed.

(** At every moment the buckets show objects that were delivered, each once, from which the workload
    informer goes on to the last ones it was handed; the fleet and the quotas are as delivered. *)
Record snapshot_inv (c : content) (x : threads) : Prop := {
  si_shown : ∃ o, refines o (lp_state (th_loop x)) ∧ obs_carries c o ∧
                  leads c o (th_left x Workloads) (th_obs x);
  si_stores : stores_valid c (lp_state (th_loop x));
  si_valid : ∀ g, valid_program c (th_left x g);
  si_other : ∀ g, g ≠ Workloads → other_program (th_left x g);
}.

Lemma snapshot_deliver c x g p :
  g ≠ Workloads → valid_program c p → other_program p → snapshot_inv c x →
  snapshot_inv c {| th_loop := th_loop x; th_left := set_left g p (th_left x); th_obs := th_obs x;
                  th_last := th_last x; th_gone := th_gone x |}.
Proof.
  intros Hg Hv Hp [(o & HR & Hs & Hl) Hst Hval Ho]. constructor; simpl; [|done|..].
  - exists o. rewrite set_left_spec, decide_False by done. done.
  - intros g'. rewrite set_left_spec. by case_decide.
  - intros g' Hg'. rewrite set_left_spec. case_decide; [done|by apply Ho].
Qed.

Lemma snapshot_advance c x g m rest :
  th_left x g = m :: rest → snapshot_inv c x →
  snapshot_inv c {| th_loop := exec (th_loop x) m; th_left := set_left g rest (th_left x);
                  th_obs := th_obs x; th_last := th_last x; th_gone := th_gone x |}.
Proof.
  intros Hg [(o & HR & Hs & Hl) Hst Hval Ho]. pose proof (Hval g) as Hvg. rewrite Hg in Hvg.
  apply Forall_cons in Hvg as [Hm Hrest]. constructor; simpl.
  - rewrite set_left_spec. case_decide as E.
    + subst g. rewrite Hg in Hl. destruct m as [op|]; simpl in *.
      * destruct Hl as (o' & Hsh & Hl). exists o'.
        split_and!; [by eapply shows_refines|by eapply shows_carries|done].
      * exists o. by rewrite requestScheduling_state.
    + exists o. split_and!; [|done|done]. eapply refines_same; [|exact HR]. destruct m as [op|]; simpl.
      * pose proof (Ho g ltac:(done)) as Hg2. rewrite Hg in Hg2. apply run_op_other. by inversion Hg2.
      * by rewrite requestScheduling_state.
  - destruct m as [op|]; simpl; [by apply run_op_valid|by rewrite requestScheduling_state].
  - intros g'. rewrite set_left_spec. by case_decide.
  - intros g' Hg'. rewrite set_left_spec. case_decide; [|by apply Ho]. subst g'.
    pose proof (Ho g Hg') as Hg2. rewrite Hg in Hg2. by inversion Hg2.
Qed.

Lemma snapshot_step `{MapIter} c l x y :
  carries c l → snapshot_inv c x → thread_step l x y → snapshot_inv c y.
Proof.
  intros Hl Hx. destruct 1 as [x now ev Hg Hf Hch|x lp ev Hg|x ev Hg|x ls Hg|x g m rest Hg|x Ht].
  - destruct Hx as [(o & HR & Hs & Hleads) Hst Hval Ho]. rewrite Hg in Hleads.
    constructor; simpl; [|done|..].
    + exists o. rewrite set_left_spec, decide_True by done. split_and!; [done|done|].
      by apply workloadProgram_leads.
    + intros g'. rewrite set_left_spec. case_decide; [apply workloadProgram_valid|done].
    + intros g' Hg'. rewrite set_left_spec, decide_False by done. by apply Ho.
  - apply snapshot_deliver; [done|by apply poolProgram_valid|apply poolProgram_other|done].
  - apply snapshot_deliver; [done|by apply quotaProgram_valid|apply quotaProgram_other|done].
  - apply snapshot_deliver; [done|by apply seedProgram_valid|apply seedProgram_other|done].
  - by apply snapshot_advance.
  - by destruct Hx as [? ? ? ?].
Qed.

Lemma threads_reach_snapshot `{MapIter} c (ok : label → Prop) x :
  (∀ l, ok l → carries c l) → threads_reach ok x → snapshot_inv c x.
Proof.
  intros Hok. apply threads_invariant; [|intros l x' y Hl; apply snapshot_step; auto].
  constructor; simpl.
  - exists ∅. split_and!; [apply refines_init|done|done].
  - split; [apply map_Forall_empty|]. intros ns. cbn. unfold inner. rewrite lookup_empty.
    apply map_Forall_empty.
  - constructor.
  - by repeat constructor.
Qed.

(** ** Properties *)

(** C5: which changes wake the scheduler, however the handlers of the three informers, the seeding at
    start-up and the scheduling goroutine interleave between their atomic operations (for informers that
    deliver an update with the object known before, and workloads that do not go back to an earlier
    bucket).  Once no handler is under way and no cycle is pending, the fleet and the quotas are those the
    last cycle found; every queued workload was queued, with the same request, when it took its trigger;
    and every workload that was running then is running now, unless the informer has been told of its
    deletion since, or was carrying it out then.  So no change of the fleet or of the quotas, no workload
    that was queued and none that left Running by a change of its phase waits for a cycle that nobody
    requested.  What can go unnoticed is a deletion ([removal_unnoticed]), a workload that leaves
    Scheduled ([scheduled_departure_unnoticed]) and a changed request of a running one.  Whenever the
    workload informer is between two events, the buckets hold exactly the workloads whose last delivered
    object is in that phase. *)
Theorem interleaved_wakeups `{MapIter} (x : threads) :
  threads_reach any_event x → th_left x Workloads = [] →
  refines (th_obs x) (lp_state (th_loop x)) ∧
  ((∀ g, th_left x g = []) → lp_trigger (th_loop x) = Some false →
   quiet (th_last x) (lp_state (th_loop x)) ∧
   ∀ ns id, is_Some (look (st_running (th_last x)) ns id) →
     is_Some (look (st_running (lp_state (th_loop x))) ns id) ∨ (ns, id) ∈ th_gone x).
Proof.
  intros Hx Hw.
  assert (refines (th_obs x) (lp_state (th_loop x))) as HR.
  { pose proof (bi_refines _ (threads_reach_buckets _ x Hx)) as Hr. by rewrite Hw in Hr. }
  split; [done|]. intros Hl Ht.
  assert (¬ pending (th_loop x)) as Hp by (unfold pending; by rewrite Ht).
  assert (¬ ∃ g, Request ∈ th_left x g) as Hn by (intros [g Hg]; rewrite Hl in Hg; by apply elem_of_nil in Hg).
  split.
  - by destruct (ai_quiet _ (threads_reach_awake _ x Hx)) as [?|[?|?]].
  - destruct (ri_left _ (threads_reach_running _ x Hx)) as [?|[?|Hr]]; [done..|].
    intros ns id Hs. rewrite (refines_running _ _ _ _ HR). by apply Hr.
Qed.

(** C10: a cycle can take its snapshots at any moment, and they are refused only for what an object
    says itself.  However the handlers interleave, between any two atomic operations, for any workloads,
    pools and quotas (with times that are not zero, and as long as no workload goes back to an earlier
    bucket, say from Scheduled to Queued), a snapshot of a namespace has every workload at most once, and
    there are objects the buckets show such that the scheduler accepts the snapshot exactly when
    each of them in phase Queued, Scheduled or Running has a sound request (tenant and profile not
    blank, a known kind, positive GPUs, memory and tokens; the validation of the resource asks for less,
    in particular it allows memory 0), no capacity of the fleet is negative and free devices have memory,
    and no quota is negative.  So no snapshot is refused for an id that is blank or twice there, a
    missing time, a blank profile or tenant of the fleet or the quotas, or totals that do not add up; and
    if all objects delivered are sound, with pools in range, none is refused. *)
Theorem interleaved_snapshot_exact `{MapIter} (x : threads) ns inp :
  threads_reach timed_event x → snapshotForNamespace (lp_state (th_loop x)) ns = Some inp →
  NoDup (all_ids inp) ∧
  (∃ o, refines o (lp_state (th_loop x)) ∧
     (Validate inp = None ↔
      (∀ id w t, o !! (ns, id) = Some (w, t) →
         phase_of w ∈ [GPUWorkloadPhaseQueued; GPUWorkloadPhaseScheduled; GPUWorkloadPhaseRunning] →
         sound_request w) ∧
      fleet_sound (in_FleetFreeCapacity inp) ∧
      map_Forall (λ _ q, 0 ≤ t_MaxGPUs q ∧ 0 ≤ t_MaxMemoryMiB q ∧ 0 ≤ t_Weight q)
        (in_TenantQuotas inp))) ∧
  (threads_reach served_event x → Validate inp = None).
Proof.
  intros Hx Hs. pose proof Hs as Hinp. unfold snapshotForNamespace in Hinp.
  destruct (st_fleet _ !! ns) as [f|] eqn:Hf; [|done]. injection Hinp as Hinp.
  destruct (threads_reach_snapshot timed _ x timed_carries Hx) as [(o & HR & Ho & _) [Hfl Hqu] _ _].
  split; [by eapply snapshot_ids|]. split.
  - exists o. split; [done|]. rewrite Validate_None, (snapshot_exact o _ HR ns inp).
    + assert (Hph : ∀ p, phase_rank p ≠ 0%nat ↔ p ∈ [GPUWorkloadPhaseQueued;
        GPUWorkloadPhaseScheduled; GPUWorkloadPhaseRunning]) by (intros []; set_solver).
      by setoid_rewrite Hph.
    + exact Ho.
    + rewrite <- Hinp. by apply (Hfl ns f).
    + rewrite <- Hinp. apply Hqu.
    + done.
  - intros Hx'. apply Validate_None.
    destruct (threads_reach_snapshot sound _ x served_carries Hx') as [(o' & HR' & Ho' & _) [Hfl' Hqu'] _ _].
    apply (snapshot_valid o' (th_loop x) ns); [|done]. constructor; try done.
    exact (ai_trigger _ (threads_reach_awake _ x Hx)).
Qed.

(** ** Schedules *)

Module ScheduleExample.
#[export] Existing Instance map_iter_canonical.
Import ResourceExample.

(** Steps as functions: an event for one of the informers, the next atomic step of a goroutine, the
    trigger. *)
Inductive move :=
| EvWorkload (now : Time) (ev : informerEvent)
| EvQuota (ev : informerEvent)
| Seed (list_ : Result (list GPUNodePool))
| Run (g : goroutine)
| Cycle.

Definition with_left (g : goroutine) (p : list atomic) (obs : observation) (left : gset (string * string))
    (x : threads) : threads :=
  {| th_loop := th_loop x; th_left := set_left g p (th_left x); th_obs := obs; th_last := th_last x;
     th_gone := left |}.

Definition play (x : threads) (m : move) : threads :=
  match m with
  | EvWorkload now ev =>
      with_left Workloads (workloadProgram now ev) (observe (th_obs x) now ev) (add_gone ev (th_gone x)) x
  | EvQuota ev => with_left Quotas (quotaProgram ev) (th_obs x) (th_gone x) x
  | Seed l => with_left Starter (seedProgram l) (th_obs x) (th_gone x) x
  | Run g =>
      match th_left x g with
      | a :: rest => {| th_loop := exec (th_loop x) a; th_left := set_left g rest (th_left x);
                        th_obs := th_obs x; th_last := th_last x; th_gone := th_gone x |}
      | [] => x
      end
  | Cycle => {| th_loop := {| lp_state := lp_state (th_loop x); lp_trigger := Some false |};
                th_left := th_left x; th_obs := th_obs x; th_last := lp_state (th_loop x);
                th_gone := filter (λ k, th_obs x !! k = None) (removals (th_left x Workloads)) |}
  end.

(** A move the goroutines can make in this state. *)
Definition playable (x : threads) (m : move) : Prop :=
  match m with
  | EvWorkload now ev => th_left x Workloads = [] ∧ forward (th_obs x) ev ∧ chained (th_obs x) ev
  | EvQuota ev => th_left x Quotas = []
  | Seed l => th_left x Starter = []
  | Run g => True
  | Cycle => lp_trigger (th_loop x) = Some true
  end.

Fixpoint all_playable (x : threads) (ms : list move) : Prop :=
  match ms with [] => True | m :: ms => playable x m ∧ all_playable (play x m) ms end.

#[export] Instance forward_dec obs ev : Decision (forward obs ev).
Proof.
  unfold forward. destruct (event_object ev) as [w| | | |]; try apply _.
  destruct (obs !! obs_key w) as [[w0 t]|].
  - destruct (decide (gone ev w ∨ phase_rank (phase_of w) = 0%nat ∨
                      (phase_rank (phase_of w0) ≤ phase_rank (phase_of w))%nat)) as [Hd|Hd].
    + left. destruct Hd as [?|[?|?]]; [by left|by right; left|]. right. right. by intros ?? [= <- <-].
    + right. intros [?|[?|Hl]]; apply Hd; [by left|by right; left|]. right. right. by eapply Hl.
  - left. right. right. done.
Defined.

#[export] Instance chained_dec obs ev : Decision (chained obs ev).
Proof.
  unfold chained. destruct (event_object ev) as [w| | | |]; destruct ev as [b|old b|b]; try apply _.
  destruct (obs !! obs_key w) as [[w0 t]|].
  - assert (Decision (old = OWorkload w0)) as [E|E].
    { destruct old as [w'| | | |]; try by right. destruct (decide (w' = w0)) as [E|];
        [left; by f_equal|right; congruence]. }
    + left. by intros ?? [= <- <-].
    + right. intros Hc. apply E. by eapply Hc.
  - by left.
Defined.

#[export] Instance playable_dec x m : Decision (playable x m).
Proof. destruct m; simpl; apply _. Defined.

#[export] Instance all_playable_dec x ms : Decision (all_playable x ms).
Proof. revert x. induction ms; intros x; simpl; apply _. Defined.

Definition schedule (ms : list move) : threads := foldl play threads_init ms.

Definition label_of (m : move) : label :=
  match m with
  | EvWorkload now ev => WorkloadEvent now ev
  | EvQuota ev => QuotaEvent ev
  | Seed l => SeedList l
  | Run _ | Cycle => GoOn
  end.

Lemma schedule_reach (ok : label → Prop) ms :
  ok GoOn → Forall (λ m, ok (label_of m)) ms → all_playable threads_init ms →
  threads_reach ok (schedule ms).
Proof.
  intros Hgo. unfold threads_reach, schedule. generalize threads_init as x.
  induction ms as [|m ms IH]; intros x; [constructor|]. intros [Hok Hoks]%Forall_cons [Hm Hms]. simpl.
  etransitivity; [|by apply IH].
  destruct m as [now ev|ev|l|g|]; simpl in Hm, Hok |- *;
    try destruct (th_left x g) as [|a rest] eqn:E; try constructor;
    apply rtc_once; eexists; (split; [exact Hok|]).
  - destruct Hm as (? & ? & ?). by apply deliver_workload.
  - by apply deliver_quota.
  - by apply start_seed.
  - by apply advance.
  - by apply take_trigger.
Qed.

(** Two workloads of a tenant that may hold two GPUs, each asking for two. *)
Definition quota : TenantQuotaResource :=
  {| tq_Meta := meta "ns" "team";
     tq_Spec := {| tqs_Tenant := "team"; tqs_MaxGPUs := 2; tqs_MaxMemoryMiB := 0; tqs_Weight := 1 |} |}.
Definition first (p : GPUWorkloadPhase) : object := OWorkload (workload "first" "team" 2 1024 p).
Definition second : object := OWorkload (workload "second" "team" 2 1024 GPUWorkloadPhaseQueued).

(** The pools and the quota are known, and the first workload is in the given phase. *)
Definition opening (p : GPUWorkloadPhase) : list move :=
  [Seed (Ok pools); Run Starter; Run Starter; EvQuota (Added (OQuota quota)); Run Quotas; Run Quotas;
   EvWorkload 7 (Added (first p)); Run Workloads; Run Workloads;
   EvWorkload 8 (Added second); Run Workloads; Run Workloads].

(** What a cycle on this state would admit. *)
Definition choice (st : schedulerState) : option Selection :=
  option_map SelectOneForAdmission (snapshotForNamespace st "ns").

Definition idle (x : threads) : bool :=
  forallb (λ g, bool_decide (th_left x g = [])) [Workloads; Pools; Quotas; Starter].

(** The first workload is removed while it runs; the cycle its removal asked for starts before the
    removal reaches the state. *)
Definition removal : list move :=
  opening GPUWorkloadPhaseRunning ++ [Cycle; EvWorkload 9 (Removed (first GPUWorkloadPhaseRunning));
                                      Run Workloads; Cycle; Run Workloads].

(** The first workload fails before it runs. *)
Definition departure : list move :=
  opening GPUWorkloadPhaseScheduled ++
  [Cycle; EvWorkload 9 (Updated (first GPUWorkloadPhaseScheduled) (first GPUWorkloadPhaseFailed));
   Run Workloads].

(** The first workload goes from Scheduled to Running, and the pending cycle starts between the removal
    and the insertion. *)
Definition between : list move :=
  opening GPUWorkloadPhaseScheduled ++
  [EvWorkload 9 (Updated (first GPUWorkloadPhaseScheduled) (first GPUWorkloadPhaseRunning));
   Run Workloads; Cycle].
Definition promotion : list move := between ++ [Run Workloads].
End ScheduleExample.

Section schedules.
Import ScheduleExample.

Lemma removal_reach : threads_reach any_event (schedule removal).
Proof.
  apply schedule_reach; [done|by apply Forall_true|]. apply (bool_decide_unpack _). by vm_compute.
Qed.

Lemma departure_reach : threads_reach any_event (schedule departure).
Proof.
  apply schedule_reach; [done|by apply Forall_true|]. apply (bool_decide_unpack _). by vm_compute.
Qed.

Lemma first_served p : served (first p).
Proof. apply (example_served p). Qed.

Lemma opening_served p : Forall (λ m, served_event (label_of m)) (opening p).
Proof.
  unfold opening. repeat (apply Forall_cons; split); try apply Forall_nil_2; try exact I.
  - exact example_seed.
  - by vm_compute.
  - split; [done|apply first_served].
  - split; [done|apply (example_served GPUWorkloadPhaseQueued)].
Qed.

Lemma between_reach : threads_reach served_event (schedule between).
Proof.
  apply schedule_reach; [done| |apply (bool_decide_unpack _); by vm_compute].
  apply Forall_app. split; [apply opening_served|].
  repeat (apply Forall_cons; split); try apply Forall_nil_2; try exact I.
  split; [done|apply first_served].
Qed.

Lemma promotion_reach : threads_reach any_event (schedule promotion).
Proof.
  apply schedule_reach; [done|by apply Forall_true|]. apply (bool_decide_unpack _). by vm_compute.
Qed.

Lemma interleaved_wakeups_witness :
  quiet (th_last (schedule removal)) (lp_state (th_loop (schedule removal))) ∧
  ("ns", "ns/first") ∈ th_gone (schedule removal).
Proof.
  destruct (interleaved_wakeups (schedule removal) removal_reach) as [_ Hx]; [by vm_compute|].
  destruct Hx as [Hq Hr]; [intros []; by vm_compute|by vm_compute|]. split; [exact Hq|].
  destruct (Hr "ns" "ns/first") as [Hn|Hg]; [|exfalso; vm_compute in Hn; by destruct Hn|exact Hg].
  vm_compute. by eexists.
Defined.

Lemma served_timed l : served_event l → timed_event l.
Proof.
  destruct l as [now ev| | | |]; try done. intros [? Hs]. split; [done|].
  by destruct (event_object ev); [destruct Hs|..].
Qed.

Lemma threads_reach_impl (ok ok' : label → Prop) x :
  (∀ l, ok l → ok' l) → threads_reach ok x → threads_reach ok' x.
Proof. intros Hok. apply rtc_subrel. intros y z (l & Hl & Hs). exists l. auto. Qed.

(** Between the removal and the insertion of a workload that becomes Running. *)
Lemma interleaved_snapshot_exact_witness :
  ∃ inp, snapshotForNamespace (lp_state (th_loop (schedule between))) "ns" = Some inp ∧
         NoDup (all_ids inp) ∧ Validate inp = None.
Proof.
  eexists. split; [reflexivity|].
  destruct (interleaved_snapshot_exact (schedule between) "ns" _
    (threads_reach_impl _ _ _ served_timed between_reach) eq_refl) as (Hnd & _ & Hv).
  split; [exact Hnd|exact (Hv between_reach)].
Defined.

(** A removal can go unnoticed: the handler asks for a cycle before it removes the workload.  Everything
    at rest, the last cycle found the tenant at its quota, the second workload would be admitted now, and
    no cycle is pending. *)
Example removal_unnoticed :
  let x := schedule removal in
  threads_reach any_event x ∧ idle x = true ∧ lp_trigger (th_loop x) = Some false ∧
  option_map s_noAdmissionReason (choice (th_last x)) = Some NoAdmissionReasonQuota ∧
  option_map s_selectedID (choice (lp_state (th_loop x))) = Some "ns/second".
Proof. split; [exact removal_reach|]. vm_compute. auto. Qed.

(** Nor is a workload noticed that leaves Scheduled for good: the last cycle found the tenant at its
    quota, the second workload would be admitted now, and no cycle is pending. *)
Example scheduled_departure_unnoticed :
  let x := schedule departure in
  threads_reach any_event x ∧ idle x = true ∧ lp_trigger (th_loop x) = Some false ∧
  option_map s_noAdmissionReason (choice (th_last x)) = Some NoAdmissionReasonQuota ∧
  option_map s_selectedID (choice (lp_state (th_loop x))) = Some "ns/second".
Proof. split; [exact departure_reach|]. vm_compute. auto. Qed.

(** A workload that becomes Running is in no bucket for a moment: a cycle that starts then does not
    count it, and admits the second workload over the tenant's quota. *)
Example promotion_uncounted :
  let x := schedule promotion in
  threads_reach any_event x ∧ option_map s_selectedID (choice (th_last x)) = Some "ns/second" ∧
  option_map s_noAdmissionReason (choice (lp_state (th_loop x))) = Some NoAdmissionReasonQuota.
Proof. split; [exact promotion_reach|]. vm_compute. auto. Qed.
End schedules.
