(* ===== verification/Cluster.v ===== *)
(** * What the controllers run against

    The interfaces of the scheduler loop and of the reconcilers: the API server through
    controller-runtime's client (a parameter, with its documented behaviour as laws), the simulator
    through the interface [WorkloadRuntimeSimulator] (with the laws the controllers rely on, which
    the simulator of [internal/sim] discharges), and the effects they leave behind (metrics, events,
    messages, log lines). *)

From stdpp Require Import prelude gmap strings pretty.
From S2P Require Import Prelude GoFloat SimModel SchedInputs Runtime Simulator Resources.

Local Open Scope Z_scope.
Local Open Scope go_scope.

(** ** Effects *)

Inductive effect :=
| Inc (metric : string) (labels : list string)
| Observe (metric : string) (n : Z)
| ObserveSince (metric : string) (labels : list string) (since : Time)
| ObserveSpan (metric : string) (labels : list string) (start end_ : Time)
| SetGauge (metric : string) (n : Z)
| Event (obj : NamespacedName) (eventType reason message : string)
| Produced (namespace name : string)
| LogAdmitted (workloadID reason : string).

#[export] Instance effect_eq_dec : EqDecision effect.
Proof. solve_decision. Defined.

(** ** The API server *)

(** An accepted write of this client: what was stored before, what is stored after. *)
Inductive apiWrite :=
| StatusWrite (before after : GPUWorkload)
| ObjectWrite (before after : GPUWorkload).

(** [client.Get], [client.Status().Update] and [client.Update] on workloads.  A write returns the
    caller's object as it is after the server's answer was decoded into it.  Each call also returns
    the new state of the server, in which others may have written too. *)
Class ApiClient (W : Type) := {
  Get : W → NamespacedName → W * Result GPUWorkload;
  StatusUpdate : W → GPUWorkload → W * Result GPUWorkload;
  Update : W → GPUWorkload → W * Result GPUWorkload;
}.

(** What the caller's object [o] holds once the stored object [after] was decoded into it: the
    identity, the version and the status are those of the stored object. *)
Definition answered (o after o' : GPUWorkload) : Prop :=
  key_of (w_Meta after) = key_of (w_Meta o) ∧ key_of (w_Meta o') = key_of (w_Meta o) ∧
  om_ResourceVersion (w_Meta o') = om_ResourceVersion (w_Meta after) ∧
  om_DeletionTimestamp (w_Meta o') = om_DeletionTimestamp (w_Meta after) ∧
  w_Status o' = w_Status after ∧ w_Spec o' = w_Spec after.

(** The documented behaviour: a write is accepted only against the version the caller read
    ([resourceVersion], "optimistic concurrency"), a version names one state of an object, a status
    write changes the status only and any other write leaves the status alone.  An error is taken to be
    the server's answer that it wrote nothing; a write whose answer is lost on the way back is not
    modelled. *)
Class ApiLaws (W : Type) `{ApiClient W} := {
  history : W → list apiWrite;
  was_stored : W → GPUWorkload → Prop;
  version_unique : ∀ w o1 o2, was_stored w o1 → was_stored w o2 →
    key_of (w_Meta o1) = key_of (w_Meta o2) →
    om_ResourceVersion (w_Meta o1) = om_ResourceVersion (w_Meta o2) → o1 = o2;
  get_keeps : ∀ w k, history (Get w k).1 = history w ∧
    ∀ o, was_stored w o → was_stored (Get w k).1 o;
  get_ok : ∀ w k w' o, Get w k = (w', Ok o) → was_stored w' o ∧ key_of (w_Meta o) = k;
  status_keeps : ∀ w o o', was_stored w o' → was_stored (StatusUpdate w o).1 o';
  status_ok : ∀ w o w' o', StatusUpdate w o = (w', Ok o') →
    ∃ before after, history w' = history w ++ [StatusWrite before after] ∧
      was_stored w' before ∧ was_stored w' after ∧ answered o after o' ∧
      key_of (w_Meta before) = key_of (w_Meta o) ∧
      om_ResourceVersion (w_Meta before) = om_ResourceVersion (w_Meta o) ∧
      w_Status after = w_Status o ∧ w_Spec after = w_Spec before ∧
      om_Annotations (w_Meta after) = om_Annotations (w_Meta before) ∧
      om_DeletionTimestamp (w_Meta after) = om_DeletionTimestamp (w_Meta before);
  status_err : ∀ w o w' e, StatusUpdate w o = (w', Err e) → history w' = history w;
  update_keeps : ∀ w o o', was_stored w o' → was_stored (Update w o).1 o';
  update_ok : ∀ w o w' o', Update w o = (w', Ok o') →
    ∃ before after, history w' = history w ++ [ObjectWrite before after] ∧
      was_stored w' before ∧ was_stored w' after ∧ answered o after o' ∧
      key_of (w_Meta before) = key_of (w_Meta o) ∧
      om_ResourceVersion (w_Meta before) = om_ResourceVersion (w_Meta o) ∧
      w_Status after = w_Status before ∧ w_Spec after = w_Spec o ∧
      om_Annotations (w_Meta after) = om_Annotations (w_Meta o) ∧
      om_Finalizers (w_Meta after) = om_Finalizers (w_Meta o) ∧
      om_DeletionTimestamp (w_Meta after) = om_DeletionTimestamp (w_Meta before);
  update_err : ∀ w o w' e, Update w o = (w', Err e) → history w' = history w;
}.

(** A successful status write of an object that was read: it replaces what was read. *)
Lemma status_write_exact `{ApiLaws W} w o w' o1 o' :
  was_stored w o1 → key_of (w_Meta o1) = key_of (w_Meta o) →
  om_ResourceVersion (w_Meta o1) = om_ResourceVersion (w_Meta o) →
  StatusUpdate w o = (w', Ok o') →
  ∃ after, history w' = history w ++ [StatusWrite o1 after] ∧ was_stored w' after ∧
    answered o after o' ∧ w_Status after = w_Status o ∧ w_Spec after = w_Spec o1 ∧
    om_DeletionTimestamp (w_Meta after) = om_DeletionTimestamp (w_Meta o1) ∧
    om_Annotations (w_Meta after) = om_Annotations (w_Meta o1).
Proof.
  intros Hs Hk Hv HU. pose proof (status_keeps w o o1 Hs) as Hs'. rewrite HU in Hs'.
  destruct (status_ok w o w' o' HU) as (b & after & -> & Hb & Ha & Hans & Hkb & Hvb & ? & ? & ? & ?).
  assert (b = o1) as -> by (apply (version_unique w'); congruence || done).
  by exists after.
Qed.

Lemma status_write_read `{ApiLaws W} w o w' o1 o' :
  was_stored w o1 → key_of (w_Meta o1) = key_of (w_Meta o) →
  om_ResourceVersion (w_Meta o1) = om_ResourceVersion (w_Meta o) →
  StatusUpdate w o = (w', Ok o') →
  ∃ after, history w' = history w ++ [StatusWrite o1 after] ∧ was_stored w' after ∧
    answered o after o' ∧ w_Status after = w_Status o ∧ w_Spec after = w_Spec o1 ∧
    om_DeletionTimestamp (w_Meta after) = om_DeletionTimestamp (w_Meta o1).
Proof.
  intros Hs Hk Hv HU. destruct (status_write_exact w o w' o1 o' Hs Hk Hv HU)
    as (after & ? & ? & ? & ? & ? & ? & _). by exists after.
Qed.

(** [meta.SetStatusCondition] and the finalizer helpers of controllerutil. *)
Class ApiMachinery := {
  SetStatusCondition : list Condition → Condition → list Condition;
  ContainsFinalizer : list string → string → bool;
  AddFinalizer : list string → string → list string;
  RemoveFinalizer : list string → string → list string;
}.

Class ApiMachineryLaws `{ApiMachinery} := {
  condition_set : ∀ l c, ∃ c', c' ∈ SetStatusCondition l c ∧ cd_Type c' = cd_Type c ∧
    cd_Status c' = cd_Status c ∧ cd_Reason c' = cd_Reason c ∧ cd_Message c' = cd_Message c ∧
    cd_ObservedGeneration c' = cd_ObservedGeneration c;
  finalizer_contained : ∀ l f, ContainsFinalizer l f = true ↔ f ∈ l;
  finalizer_added : ∀ l f, f ∈ AddFinalizer l f;
  finalizer_removed : ∀ l f, f ∉ RemoveFinalizer l f;
}.

(** ** The simulator *)

Class WorkloadRuntimeSimulator (S : Type) := {
  wrs_Allocate : S → string → Z → Z → S * Result Allocation;
  wrs_AllocateWithOptions : S → string → Z → Z → AllocationOptions → S * Result Allocation;
  wrs_StartWithRuntimeInput : S → Time → RuntimeInput → S * Result string;
  wrs_GetLatestRunStatusForWorkload : S → Time → string → S * Result RunStatus;
  wrs_Preempt : S → string → S * option error;
  wrs_Release : S → string → S * option error;
}.

(** What the controllers rely on: who holds devices and who runs, and how the calls change it. *)
Class SimulatorLaws (S : Type) `{WorkloadRuntimeSimulator S} := {
  sim_inv : S → Prop;
  holds : S → string → Prop;
  runs : S → string → Prop;
  allocate_law : ∀ s id g m opts s' r, sim_inv s → wrs_AllocateWithOptions s id g m opts = (s', r) →
    sim_inv s' ∧ (∀ id', runs s' id' ↔ runs s id') ∧
    match r with
    | Ok _ => ¬ holds s id ∧ ∀ id', holds s' id' ↔ id' = id ∨ holds s id'
    | Err _ => ∀ id', holds s' id' ↔ holds s id'
    end;
  preempt_law : ∀ s id s' r, sim_inv s → wrs_Preempt s id = (s', r) →
    sim_inv s' ∧ (∀ id', holds s' id' ↔ holds s id') ∧
    match r with
    | None => ∀ id', runs s' id' ↔ id' ≠ id ∧ runs s id'
    | Some _ => ∀ id', runs s' id' ↔ runs s id'
    end;
  release_law : ∀ s id s' r, sim_inv s → wrs_Release s id = (s', r) →
    sim_inv s' ∧ (∀ id', runs s' id' ↔ runs s id') ∧
    match r with
    | None => ∀ id', holds s' id' ↔ id' ≠ id ∧ holds s id'
    | Some _ => ∀ id', holds s' id' ↔ holds s id'
    end;
}.

(** *** internal/sim implements it *)

#[export] Instance simulator_runtime `{MapIter, RunEnv} : WorkloadRuntimeSimulator Simulator := {|
  wrs_Allocate := Allocate;
  wrs_AllocateWithOptions := AllocateWithOptions;
  wrs_StartWithRuntimeInput := StartWithRuntimeInput;
  wrs_GetLatestRunStatusForWorkload := GetLatestRunStatusForWorkload;
  wrs_Preempt := Preempt;
  wrs_Release := Release;
|}.

Definition has_allocation (s : Simulator) (id : string) : Prop := is_Some (sim_allocations s !! id).
Definition has_running_run (s : Simulator) (id : string) : Prop :=
  ∃ k r, sim_runs s !! k = Some r ∧ run_WorkloadID r = id ∧ run_Status r = RunStatusRunning.

Lemma allocate_holds `{MapIter} s id g m opts s' r :
  sim_wf s → AllocateWithOptions s id g m opts = (s', r) →
  sim_wf s' ∧ (∀ id', has_running_run s' id' ↔ has_running_run s id') ∧
  match r with
  | Ok _ => ¬ has_allocation s id ∧ ∀ id', has_allocation s' id' ↔ id' = id ∨ has_allocation s id'
  | Err _ => ∀ id', has_allocation s' id' ↔ has_allocation s id'
  end.
Proof.
  intros Hwf HA. split; [by eapply Allocate_preserves|].
  apply AllocateWithOptions_inv in HA. destruct r as [a|e]; [|by subst].
  destruct HA as (_ & _ & _ & Hn & _ & -> & _). split; [done|].
  unfold has_allocation. rewrite Hn. split; [by intros []|]. intros id'. simpl.
  destruct (decide (id' = id)) as [->|Hne].
  - rewrite lookup_insert_eq. naive_solver.
  - rewrite lookup_insert_ne by done. naive_solver.
Qed.

Lemma preempt_runs `{MapIter} s id s' r :
  sim_wf s → Preempt s id = (s', r) →
  sim_wf s' ∧ (∀ id', has_allocation s' id' ↔ has_allocation s id') ∧
  match r with
  | None => ∀ id', has_running_run s' id' ↔ id' ≠ id ∧ has_running_run s id'
  | Some _ => ∀ id', has_running_run s' id' ↔ has_running_run s id'
  end.
Proof.
  intros Hwf HP. split; [by eapply Preempt_preserves|]. revert HP. unfold Preempt.
  case_decide; [by intros [= <- <-]|]. pose proof (Preempt_record s id) as Hrec.
  unfold has_running_run.
  destruct (head _) as [[key run]|]; intros [= <- <-]; (split; [done|]); intros id'; simpl.
  - destruct Hrec as (Hk & Hkw & Hks). split.
    + intros (k & r' & Hr & <- & Hs). apply lookup_insert_Some in Hr as [[_ <-]|[Hne Hr]]; [done|].
      split; [|by eauto]. intros Heq. apply Hne. by eapply (wf_unique s Hwf); try done; congruence.
    + intros (Hne & k & r' & Hr & <- & Hs). exists k, r'. rewrite lookup_insert_ne; [done|].
      intros ->. congruence.
  - split; [|by intros []]. intros (k & r' & Hr & <- & Hs). split; [|by eauto].
    intros Heq. by apply (Hrec k r').
Qed.

Lemma release_holds s id s' r :
  sim_wf s → Release s id = (s', r) →
  sim_wf s' ∧ (∀ id', has_running_run s' id' ↔ has_running_run s id') ∧
  match r with
  | None => ∀ id', has_allocation s' id' ↔ id' ≠ id ∧ has_allocation s id'
  | Some _ => ∀ id', has_allocation s' id' ↔ has_allocation s id'
  end.
Proof.
  intros Hwf HR. split; [by eapply Release_preserves|]. revert HR. unfold Release.
  case_decide; [by intros [= <- <-]|]. intros [= <- <-]. split; [done|]. intros id'.
  unfold has_allocation. simpl. destruct (decide (id' = id)) as [->|Hne].
  - rewrite lookup_delete_eq. naive_solver.
  - rewrite lookup_delete_ne by done. naive_solver.
Qed.

#[export] Instance simulator_laws `{MapIter, RunEnv} : SimulatorLaws Simulator := {|
  sim_inv := sim_wf;
  holds := has_allocation;
  runs := has_running_run;
  allocate_law := allocate_holds;
  preempt_law := preempt_runs;
  release_law := release_holds;
|}.

(** ** The world of a controller *)

(** The server, the simulator and the effects so far. *)
Record World {W S : Type} := { wo_api : W; wo_sim : S; wo_log : list effect }.

Section world.
Context {W S : Type}.
Implicit Types w : @World W S.

Definition emit w (l : list effect) : World :=
  {| wo_api := wo_api w; wo_sim := wo_sim w; wo_log := wo_log w ++ l |}.
Definition with_api w (a : W) : World :=
  {| wo_api := a; wo_sim := wo_sim w; wo_log := wo_log w |}.
Definition with_sim w (s : S) : World :=
  {| wo_api := wo_api w; wo_sim := s; wo_log := wo_log w |}.

(** [if s.Recorder != nil { s.Recorder.Event(...); EventsEmittedTotal...Inc() }] *)
Definition recordEvent (recorder : bool) w (obj : NamespacedName)
    (eventType reason message : string) : World :=
  if recorder
  then emit w [Event obj eventType reason message; Inc "events_emitted_total" [reason]]
  else w.

Context `{ApiLaws W}.

(** The writes of this client from one world to a later one, all with a property. *)
Definition writes_by (P : apiWrite → Prop) w w' : Prop :=
  ∃ l, history (wo_api w') = history (wo_api w) ++ l ∧ Forall P l.

#[export] Instance writes_by_preorder P : PreOrder (writes_by P).
Proof.
  split.
  - intros w. exists []. by rewrite app_nil_r.
  - intros w1 w2 w3 (l1 & E1 & F1) (l2 & E2 & F2). exists (l1 ++ l2).
    rewrite E2, E1, app_assoc. split; [done|]. by apply Forall_app.
Qed.

Lemma writes_same P w w' : history (wo_api w') = history (wo_api w) → writes_by P w w'.
Proof. intros E. exists []. by rewrite E, app_nil_r. Qed.

Lemma writes_emit P w l : writes_by P w (emit w l).
Proof. by apply writes_same. Qed.
End world.

(** ** A small API server, to run the controllers on concrete inputs

    Every version ever stored is kept under its object and its version; the current version of each
    object is the one named by [sv_current]. *)

Module SmallServer.
Record server := {
  sv_versions : gmap (string * string * string) GPUWorkload;
  sv_current : gmap (string * string) string;
  sv_history : list apiWrite;
}.

Definition pair_of (k : NamespacedName) : string * string := (nn_Namespace k, nn_Name k).
Definition version_key (o : GPUWorkload) : string * string * string :=
  (pair_of (key_of (w_Meta o)), om_ResourceVersion (w_Meta o)).
Definition stored (s : server) (o : GPUWorkload) : Prop := sv_versions s !! version_key o = Some o.

Definition get (s : server) (k : NamespacedName) : option GPUWorkload :=
  v ← sv_current s !! pair_of k;
  o ← sv_versions s !! (pair_of k, v);
  if decide (version_key o = (pair_of k, v)) then Some o else None.

Definition not_found : error := StatusError NotFound "not found".
Definition conflict : error := StatusError Conflict "the object has been modified".

Definition with_version (m : ObjectMeta) (v : string) : ObjectMeta :=
  {| om_Namespace := om_Namespace m; om_Name := om_Name m; om_Generation := om_Generation m;
     om_ResourceVersion := v; om_CreationTimestamp := om_CreationTimestamp m;
     om_DeletionTimestamp := om_DeletionTimestamp m; om_Annotations := om_Annotations m;
     om_Finalizers := om_Finalizers m |}.

(** Store [f cur], with a new version, if the caller read the current version. *)
Definition write (s : server) (o : GPUWorkload) (f : GPUWorkload → GPUWorkload)
    (entry : GPUWorkload → GPUWorkload → apiWrite) : server * Result GPUWorkload :=
  match get s (key_of (w_Meta o)) with
  | None => (s, Err not_found)
  | Some cur =>
      let v := "v" +:+ pretty (size (sv_versions s)) in
      let new := with_meta (f cur) (with_version (w_Meta (f cur)) v) in
      if decide (om_ResourceVersion (w_Meta cur) = om_ResourceVersion (w_Meta o)
                 ∧ sv_versions s !! version_key new = None
                 ∧ key_of (w_Meta new) = key_of (w_Meta cur))
      then ({| sv_versions := <[version_key new := new]> (sv_versions s);
               sv_current := <[pair_of (key_of (w_Meta o)) := v]> (sv_current s);
               sv_history := sv_history s ++ [entry cur new] |}, Ok new)
      else (s, Err conflict)
  end.

Definition set_status (o cur : GPUWorkload) : GPUWorkload :=
  {| w_Meta := w_Meta cur; w_Spec := w_Spec cur; w_Status := w_Status o |}.
Definition set_object (o cur : GPUWorkload) : GPUWorkload :=
  {| w_Meta := {| om_Namespace := om_Namespace (w_Meta o); om_Name := om_Name (w_Meta o);
                  om_Generation := om_Generation (w_Meta o);
                  om_ResourceVersion := om_ResourceVersion (w_Meta o);
                  om_CreationTimestamp := om_CreationTimestamp (w_Meta cur);
                  om_DeletionTimestamp := om_DeletionTimestamp (w_Meta cur);
                  om_Annotations := om_Annotations (w_Meta o);
                  om_Finalizers := om_Finalizers (w_Meta o) |};
     w_Spec := w_Spec o; w_Status := w_Status cur |}.

#[export] Instance small_client : ApiClient server := {|
  Get := λ s k, (s, match get s k with Some o => Ok o | None => Err not_found end);
  StatusUpdate := λ s o, write s o (set_status o) StatusWrite;
  Update := λ s o, write s o (set_object o) ObjectWrite;
|}.

Definition init (objects : list GPUWorkload) : server :=
  {| sv_versions := list_to_map ((λ o, (version_key o, o)) <$> objects);
     sv_current := list_to_map ((λ o, (pair_of (key_of (w_Meta o)),
                                       om_ResourceVersion (w_Meta o))) <$> objects);
     sv_history := [] |}.

Lemma pair_of_inj k1 k2 : pair_of k1 = pair_of k2 → k1 = k2.
Proof. destruct k1, k2. by intros [= -> ->]. Qed.

Lemma get_Some s k o : get s k = Some o → stored s o ∧ key_of (w_Meta o) = k.
Proof.
  unfold get. destruct (sv_current s !! _) as [v|]; [|done]. simpl.
  destruct (sv_versions s !! _) as [o'|] eqn:Ho; [|done]. simpl.
  case_decide as Hk; [|done]. intros [= <-]. split; [unfold stored; by rewrite Hk|].
  apply pair_of_inj. by apply (f_equal fst) in Hk.
Qed.

Lemma write_Ok s o f entry s' new :
  write s o f entry = (s', Ok new) →
  ∃ cur, stored s' cur ∧ stored s' new ∧ sv_history s' = sv_history s ++ [entry cur new] ∧
    key_of (w_Meta cur) = key_of (w_Meta o) ∧ key_of (w_Meta new) = key_of (w_Meta cur) ∧
    om_ResourceVersion (w_Meta cur) = om_ResourceVersion (w_Meta o) ∧
    new = with_meta (f cur) (with_version (w_Meta (f cur)) (om_ResourceVersion (w_Meta new))).
Proof.
  unfold write. destruct (get s _) as [cur|] eqn:Hg; [|done]. apply get_Some in Hg as [Hs Hk].
  case_decide as Hd; [|done]. destruct Hd as (Hv & Hfresh & Hkey). intros [= <- <-].
  exists cur. split_and!; try done.
  - unfold stored in *. simpl. rewrite lookup_insert_ne; [done|]. intros Heq. by rewrite Heq, Hs in Hfresh.
  - unfold stored. simpl. apply lookup_insert_eq.
Qed.

Lemma write_Err s o f entry s' e : write s o f entry = (s', Err e) → s' = s.
Proof.
  unfold write. destruct (get s _); [|by intros [= <- _]]. case_decide; [done|by intros [= <- _]].
Qed.

Lemma write_keeps s o f entry o' : stored s o' → stored (write s o f entry).1 o'.
Proof.
  intros Hs. unfold write. destruct (get s _) as [cur|]; [|done].
  case_decide as Hd; [|done]. destruct Hd as (_ & Hfresh & _). unfold stored in *. simpl.
  rewrite lookup_insert_ne; [done|]. intros Heq. by rewrite Heq, Hs in Hfresh.
Qed.

#[export] Instance small_laws : ApiLaws server.
Proof.
  refine {| history := sv_history; was_stored := stored |}.
  - intros w o1 o2 H1 H2 Hk Hv. unfold stored in *.
    assert (version_key o1 = version_key o2) as Heq by (unfold version_key; congruence).
    rewrite Heq in H1. congruence.
  - by intros w k.
  - intros w k w' o. simpl. destruct (get w k) eqn:Hg; [|done]. intros [= <- <-]. by apply get_Some.
  - intros w o o'. apply write_keeps.
  - intros w o w' new (cur & ? & ? & ? & Hk & Hk' & ? & Hn)%write_Ok. exists cur, new.
    unfold answered. split_and!; try done; try (by rewrite Hk'); by rewrite Hn.
  - by intros w o w' e ->%write_Err.
  - intros w o o'. apply write_keeps.
  - intros w o w' new (cur & ? & ? & ? & Hk & Hk' & ? & Hn)%write_Ok. exists cur, new.
    unfold answered. split_and!; try done; try (by rewrite Hk'); by rewrite Hn.
  - by intros w o w' e ->%write_Err.
Defined.

#[export] Instance small_machinery : ApiMachinery := {|
  SetStatusCondition := λ l c, filter (λ c', cd_Type c' ≠ cd_Type c) l ++ [c];
  ContainsFinalizer := λ l f, bool_decide (f ∈ l);
  AddFinalizer := λ l f, if decide (f ∈ l) then l else l ++ [f];
  RemoveFinalizer := λ l f, filter (λ g, g ≠ f) l;
|}.

#[export] Instance small_machinery_laws : ApiMachineryLaws.
Proof.
  split.
  - intros l c. exists c. split_and!; try done. apply elem_of_app. right. apply list_elem_of_here.
  - intros l f. apply bool_decide_eq_true.
  - intros l f. simpl. case_decide; [done|]. apply elem_of_app. right. apply list_elem_of_here.
  - intros l f. simpl. rewrite list_elem_of_filter. tauto.
Qed.
End SmallServer.
