(* ===== verification/RunMetrics.v ===== *)
(** * The histogram of run durations (internal/sim/metrics.go, and its calls in contract.go)

    A run is observed when the simulator notices that it is over: in [GetStatus] and
    [GetLatestRunStatusForWorkload], which mark a run that has ended, and in [Preempt].  Here are the
    observations of the three operations, as functions of the state they start from, and the theorem
    that every run is observed once, with its own duration. *)

From stdpp Require Import prelude gmap strings.
From S2P Require Import Prelude GoFloat SimModel Runtime Simulator Cluster.

Local Open Scope Z_scope.
Local Open Scope go_scope.

(** ** RecordRunDuration *)

(** [if kind == "" { kind = "unknown" }] *)
Definition kindLabel (kind : string) : string := if decide (kind = "") then "unknown" else kind.

(** [RecordRunDuration(kind, end.Sub(start).Seconds())] *)
Definition RecordRunDuration (kind : string) (start end_ : Time) : effect :=
  ObserveSpan "run_duration_seconds" [kindLabel kind] start end_.
(** [RecordRunDuration(kind, time.Since(start).Seconds())] *)
Definition RecordRunDurationSince (kind : string) (start : Time) : effect :=
  ObserveSince "run_duration_seconds" [kindLabel kind] start.

(** ** The observations of an operation *)

Definition refreshObserved (now : Time) (run : runRecord) : list effect :=
  if bool_decide (run_Status run = RunStatusRunning) && negb (Before now (run_EndsAt run))
  then [RecordRunDuration (ri_Kind (run_Runtime run)) (run_StartedAt run) (run_EndsAt run)]
  else [].

Definition GetStatusObserved (s : Simulator) (now : Time) (runID : string) : list effect :=
  if decide (runID = "") then []
  else match sim_runs s !! runID with None => [] | Some run => refreshObserved now run end.

Definition GetLatestObserved `{MapIter} (s : Simulator) (now : Time) (workloadID : string)
    : list effect :=
  if decide (workloadID = "") then []
  else match foldl (later workloadID) None (map_iter (sim_runs s)) with
  | None => []
  | Some (_, run) => refreshObserved now run
  end.

Definition PreemptObserved `{MapIter} (s : Simulator) (workloadID : string) : list effect :=
  if decide (workloadID = "") then []
  else match head (filter (λ e, is_running workloadID e.2 = true) (map_iter (sim_runs s))) with
  | None => []
  | Some (_, run) => [RecordRunDurationSince (ri_Kind (run_Runtime run)) (run_StartedAt run)]
  end.

(** A call of the simulator with what it observes; the other operations observe nothing. *)
Inductive observed_step : Simulator → list effect → Simulator → Prop :=
| observed_status s now id s' r :
    GetStatus s now id = (s', r) → observed_step s (GetStatusObserved s now id) s'
| observed_latest (I : MapIter) s now w s' r :
    GetLatestRunStatusForWorkload s now w = (s', r) → observed_step s (GetLatestObserved s now w) s'
| observed_preempt (I : MapIter) s w s' r :
    Preempt s w = (s', r) → observed_step s (PreemptObserved s w) s'
| observed_register s k spec s' r : RegisterFleet s k spec = (s', r) → observed_step s [] s'
| observed_delete s k : observed_step s [] (DeleteFleet s k)
| observed_allocate (I : MapIter) s w g m opts s' r :
    AllocateWithOptions s w g m opts = (s', r) → observed_step s [] s'
| observed_start (I : MapIter) (R : RunEnv) s now input s' r :
    StartWithRuntimeInput s now input = (s', r) → observed_step s [] s'
| observed_release s w s' r : Release s w = (s', r) → observed_step s [] s'.

(** A life of the simulator, with everything it observed. *)
Inductive observed_reach : nat → list effect → Simulator → Prop :=
| observed_new : observed_reach 0 [] NewSimulator
| observed_next n l s l' s' :
    observed_reach n l s → observed_step s l' s' → Z.of_nat n < int64_max →
    observed_reach (S n) (l ++ l') s'.

(** ** Every run is observed once *)

(** What the histogram holds for a run that is over. *)
Definition duration_of (run : runRecord) : effect :=
  match run_Status run with
  | RunStatusPreempted => RecordRunDurationSince (ri_Kind (run_Runtime run)) (run_StartedAt run)
  | _ => RecordRunDuration (ri_Kind (run_Runtime run)) (run_StartedAt run) (run_EndsAt run)
  end.

Definition over (e : string * runRecord) : Prop := run_Status e.2 ≠ RunStatusRunning.
#[export] Instance over_dec e : Decision (over e) := _.

Definition durations (m : gmap string runRecord) : list effect :=
  duration_of <$> (map_to_list (filter over m)).*2.

Lemma durations_stop m key run st :
  m !! key = Some run → run_Status run = RunStatusRunning → st ≠ RunStatusRunning →
  durations (<[key := with_status run st]> m) ≡ₚ durations m ++ [duration_of (with_status run st)].
Proof.
  intros Hk Hr Hst. unfold durations. rewrite (map_filter_insert_True over m key (with_status run st)) by exact Hst.
  rewrite map_to_list_insert; [csimpl; by rewrite Permutation_cons_append|].
  apply map_lookup_filter_None. right. intros x Hx Ho. by simplify_eq.
Qed.

Lemma durations_start m key run :
  m !! key = None → run_Status run = RunStatusRunning → durations (<[key := run]> m) = durations m.
Proof.
  intros Hk Hr. unfold durations. rewrite map_filter_insert_False by (intros Ho; by apply Ho).
  by rewrite delete_id.
Qed.

Lemma refresh_durations s now key run s' st :
  sim_runs s !! key = Some run → refreshRun s now key run = (s', st) →
  durations (sim_runs s') ≡ₚ durations (sim_runs s) ++ refreshObserved now run.
Proof.
  unfold refreshRun, refreshObserved. intros Hk.
  destruct (_ && _) eqn:E; intros [= <- <-]; [|by rewrite app_nil_r].
  apply andb_true_iff in E as [E%bool_decide_eq_true_1 _]. simpl. by rewrite durations_stop.
Qed.

Lemma observed_step_sim s l s' : observed_step s l s' → sim_step s s'.
Proof.
  destruct 1; [eapply step_status|eapply step_latest|eapply step_preempt|eapply step_register
    |apply step_delete|eapply step_allocate|eapply step_start|eapply step_release]; done.
Qed.

Lemma observed_step_durations s l s' :
  sim_wf s → sim_nextRunID s < int64_max → observed_step s l s' →
  durations (sim_runs s') ≡ₚ durations (sim_runs s) ++ l.
Proof.
  intros Hwf Hn Hs.
  assert (Hsame : ∀ s', sim_runs s' = sim_runs s →
    durations (sim_runs s') ≡ₚ durations (sim_runs s) ++ []) by (intros ? ->; by rewrite app_nil_r).
  destruct Hs as [s now id s' r Hop|I s now w s' r Hop|I s w s' r Hop|s k spec s' r Hop|s k
    |I s w g m opts s' r Hop|I R s now input s' r Hop|s w s' r Hop].
  - unfold GetStatus, GetStatusObserved in *. case_decide; [simplify_eq; by apply Hsame|].
    destruct (sim_runs s !! id) as [run|] eqn:Hr; [|simplify_eq; by apply Hsame].
    destruct (refreshRun _ _ _ _) as [s1 st] eqn:Hf. simplify_eq. by eapply refresh_durations.
  - unfold GetLatestRunStatusForWorkload, GetLatestObserved in *.
    case_decide; [simplify_eq; by apply Hsame|].
    destruct (foldl _ _ _) as [[key run]|] eqn:Hl; [|simplify_eq; by apply Hsame].
    destruct (refreshRun _ _ _ _) as [s1 st] eqn:Hf. simplify_eq.
    apply GetLatest_record in Hl as [Hl _]. by eapply refresh_durations.
  - unfold Preempt, PreemptObserved in *. case_decide; [simplify_eq; by apply Hsame|].
    pose proof (Preempt_record s w) as Hp.
    destruct (head _) as [[key run]|]; [|simplify_eq; by apply Hsame].
    destruct Hp as (Hk & _ & Hst). simplify_eq; simpl. by rewrite durations_stop.
  - apply Hsame. unfold RegisterFleet in Hop. by case_match; simplify_eq.
  - apply Hsame. unfold DeleteFleet. by case_decide.
  - apply Hsame. apply AllocateWithOptions_inv in Hop. destruct r; [|by subst].
    by destruct Hop as (_ & _ & _ & _ & _ & -> & _).
  - apply StartWithRuntimeInput_inv in Hop. destruct r as [nid|]; [|apply Hsame; by subst].
    destruct Hop as (input' & a & d & _ & _ & _ & _ & _ & -> & ->). simpl. rewrite app_nil_r.
    pose proof (wf_next s Hwf). rewrite int64_add_id by int_lia.
    by rewrite durations_start by (try apply run_id_fresh; done).
  - apply Hsame. by apply Release_inv in Hop as [->| ->].
Qed.

Lemma observed_reach_sim n l s : observed_reach n l s → sim_reach n s.
Proof.
  induction 1 as [|n l s l' s' _ IH Hs Hn]; [constructor|].
  eapply reach_step; [exact IH|by eapply observed_step_sim|done].
Qed.

(** C29: every run is observed exactly once, when the simulator notices its end: in whatever order
    runs are started, polled and preempted, the histogram holds one duration for each run that is
    over, under the kind of the run (the planned time for one that ended, the time since its start
    for a preempted one), and none for a run that is still going. *)
Theorem run_durations_exact (n : nat) (l : list effect) (s : Simulator) :
  observed_reach n l s → l ≡ₚ durations (sim_runs s).
Proof.
  induction 1 as [|n l s l' s' Hr IH Hs Hn]; [done|].
  destruct (sim_reach_wf n s (observed_reach_sim _ _ _ Hr)) as [Hwf Hnx].
  rewrite (observed_step_durations s l' s' Hwf ltac:(lia) Hs). by rewrite IH.
Qed.

(** ** An example *)

Module RunMetricsExample.
Import SimExample.
(** The run of [SimExample], preempted. *)
Definition s4 : Simulator := (Preempt s3 "ns/w").1.

Lemma observed_s4 :
  observed_reach 4 [RecordRunDurationSince "training" 100] s4.
Proof.
  change [RecordRunDurationSince "training" 100] with
    ((([] ++ []) ++ []) ++ [] ++ [RecordRunDurationSince "training" 100]).
  assert (Hn : ∀ n : nat, (n < 8)%nat → Z.of_nat n < int64_max) by int_lia.
  assert (Ho : PreemptObserved s3 "ns/w" = [RecordRunDurationSince "training" 100]) by by vm_compute.
  simpl app. change [RecordRunDurationSince "training" 100]
    with ([] ++ [RecordRunDurationSince "training" 100]). rewrite <- Ho.
  eapply observed_next; [|apply (observed_preempt I _ _ _ (Preempt s3 "ns/w").2), surjective_pairing
    |apply Hn; lia].
  change (@nil effect) with ([] ++ [] : list effect).
  eapply observed_next; [|apply (observed_start I R _ 100 input _ (Ok "run-1")), started|apply Hn; lia].
  change (@nil effect) with ([] ++ [] : list effect).
  eapply observed_next; [|apply (observed_allocate I _ "ns/w" 3 40000 firstFitOptions _
    (AllocateWithOptions s1 "ns/w" 3 40000 firstFitOptions).2), surjective_pairing|apply Hn; lia].
  change (@nil effect) with ([] ++ [] : list effect).
  eapply observed_next; [apply observed_new|apply (observed_register _ "ns/pool" spec _
    (RegisterFleet NewSimulator "ns/pool" spec).2), surjective_pairing|apply Hn; lia].
Qed.
End RunMetricsExample.

Import RunMetricsExample.

Lemma run_durations_exact_witness :
  [RecordRunDurationSince "training" 100] ≡ₚ durations (sim_runs s4).
Proof. exact (run_durations_exact 4 _ s4 observed_s4). Defined.
