(* ===== verification/SchedulerLoop.v ===== *)
(** * The scheduling cycle (internal/controller/scheduler_loop.go, lines 266-548)

    One pass over the namespaces: decisions on a working copy of the inputs, victims preempted and
    released, workloads patched to Scheduled with retries on conflict, and virtual admissions
    between the decisions of a batch. *)

From stdpp Require Import prelude gmap strings pretty.
From S2P Require Import Prelude GoFloat SimModel SchedInputs Admission Fairness Preemption.
From S2P Require Import Selection Runtime Simulator Resources SchedState Cluster.

Local Open Scope Z_scope.
Local Open Scope go_scope.

(** The fields of [SchedulerLoop] a cycle reads; the client and the simulator are the instances of
    their interfaces. *)
Record loopConfig := {
  lc_MaxAdmissionsPerCycle : Z;
  lc_MinCycleInterval : Z;
  lc_Recorder : bool;
  lc_ClaimableProducer : bool;
}.

Definition maxConflictRetries : nat := 5.
Definition conditionTypeAdmitted : string := "Admitted".

(** [strings.Cut(id, "/")] with both sides required non-empty. *)
Definition splitID (workloadID : string) : option NamespacedName :=
  match Cut workloadID slash with
  | Some (namespace, name) =>
      if decide (namespace = "" ∨ name = "") then None
      else Some {| nn_Namespace := namespace; nn_Name := name |}
  | None => None
  end.

Definition tenantForMetric (tenant : string) : string :=
  if decide (tenant = "") then "_empty" else tenant.

Section cycle.
Context {W S : Type} `{ApiClient W, WorkloadRuntimeSimulator S, ApiMachinery, MapIter}.
Context (cfg : loopConfig).
Local Notation World := (@Cluster.World W S).

Definition record (w : World) (obj : NamespacedName) (eventType reason message : string)
    : World :=
  recordEvent (lc_Recorder cfg) w obj eventType reason message.

(** ** Retries *)

Fixpoint retryLoop (n : nat) (op : World → World * option error) (lastErr : option error)
    (w : World) : World * option error :=
  match n with
  | O => (w, lastErr)
  | Datatypes.S n' =>
      match op w with
      | (w', None) => (w', None)
      | (w', Some e) =>
          if IsConflict e then retryLoop n' op (Some e) (emit w' [Inc "status_conflict_409_total" []])
          else (w', Some e)
      end
  end.

Definition runWithConflictRetry (op : World → World * option error) (w : World)
    : World * option error :=
  retryLoop maxConflictRetries op None w.

(** ** Preemption of the victims *)

Definition markPreempted (key : NamespacedName) (workloadID : string) (w : World)
    : World * option error :=
  let '(a, r) := Get (wo_api w) key in
  let w := with_api w a in
  match r with
  | Err e => if IsNotFound e then (w, None) else (w, Some (Wrapf ("get victim " +:+ workloadID) e))
  | Ok victim =>
      if decide (phase_of victim = GPUWorkloadPhasePreempted) then (w, None)
      else
        let '(a, r) := StatusUpdate (wo_api w) (with_phase victim GPUWorkloadPhasePreempted) in
        let w := with_api w a in
        match r with
        | Err e => (w, Some e)
        | Ok victim => (record w (key_of (w_Meta victim)) "Warning" "Preempted"
                          "Workload preempted to make capacity", None)
        end
  end.

Fixpoint markVictimsPreemptedAndRelease (victims : list RunningWorkload) (w : World)
    : World * option error :=
  match victims with
  | [] => (w, None)
  | v :: victims' =>
      match splitID (r_WorkloadID v) with
      | None => markVictimsPreemptedAndRelease victims' w
      | Some key =>
          match runWithConflictRetry (markPreempted key (r_WorkloadID v)) w with
          | (w, Some e) => (w, Some (Wrapf ("mark victim preempted " +:+ r_WorkloadID v) e))
          | (w, None) =>
          match wrs_Preempt (wo_sim w) (r_WorkloadID v) with
          | (s, Some e) => (with_sim w s, Some (Wrapf ("simulator preempt " +:+ r_WorkloadID v) e))
          | (s, None) =>
          let w := with_sim w s in
          match wrs_Release (wo_sim w) (r_WorkloadID v) with
          | (s, Some e) => (with_sim w s, Some (Wrapf ("simulator release " +:+ r_WorkloadID v) e))
          | (s, None) =>
              markVictimsPreemptedAndRelease victims'
                (emit (with_sim w s) [Inc "preemptions_total" []])
          end end end
      end
  end.

(** ** The admission patch *)

(** The code reads the clock for each patch; here all patches of a cycle carry the time [now]. *)
Definition admitPatch (workload : GPUWorkload) (now : Time) (reason message : string) : GPUWorkload :=
  {| w_Meta := w_Meta workload; w_Spec := w_Spec workload;
     w_Status :=
       {| wst_Phase := GPUWorkloadPhaseScheduled; wst_QueuedAt := wst_QueuedAt (w_Status workload);
          wst_Conditions :=
            SetStatusCondition (wst_Conditions (w_Status workload))
              {| cd_Type := conditionTypeAdmitted; cd_Status := "True";
                 cd_ObservedGeneration := om_Generation (w_Meta workload);
                 cd_LastTransitionTime := now; cd_Reason := reason; cd_Message := message |} |} |}.

Definition patchOnce (key : NamespacedName) (now : Time) (reason message : string) (w : World)
    : World * option error :=
  let '(a, r) := Get (wo_api w) key in
  let w := with_api w a in
  match r with
  | Err e => (w, Some (Wrapf "get workload" e))
  | Ok workload =>
      if decide (phase_of workload ≠ GPUWorkloadPhaseQueued) then (w, None)
      else
        let '(a, r) := StatusUpdate (wo_api w) (admitPatch workload now reason message) in
        let w := with_api w a in
        match r with
        | Err e => (w, Some e)
        | Ok workload => (record w (key_of (w_Meta workload)) "Normal" "Admitted" message, None)
        end
  end.

Definition patchWorkloadAdmittedAndScheduled (workloadID reason message : string) (now : Time)
    (w : World) : World * option error :=
  match splitID workloadID with
  | None => (w, Some (Errorf ("invalid workloadID " +:+ Quote workloadID)))
  | Some key =>
      match runWithConflictRetry (patchOnce key now reason message) w with
      | (w, Some e) => (w, Some (Wrapf ("patch workload " +:+ workloadID) e))
      | (w, None) =>
          (if lc_ClaimableProducer cfg then emit w [Produced (nn_Namespace key) (nn_Name key)] else w,
           None)
      end
  end.

(** ** A batch in one namespace *)

Record batchResult := {
  br_world : World;
  br_admittedCount : Z;
  br_working : SchedulingInputs;
  br_lastNoAdmissionReason : string;
}.

Definition decision (result : string) : effect := Inc "schedule_decisions_total" [result].

(** The effects of an admission that was patched. *)
Definition admittedEffects (selectedID reason : string) (admitted : option QueuedWorkload)
    : list effect :=
  decision "admitted" ::
  match admitted with
  | Some a => [Inc "admissions_by_tenant_total" [tenantForMetric (q_Tenant a)];
               Inc "schedule_decisions_by_kind_total" [q_Kind a];
               ObserveSince "queue_wait_seconds" [] (q_QueuedAt a)]
  | None => []
  end ++ [LogAdmitted selectedID reason].

(** [for admittedCount < maxAdmissions]: [n] is what is left of it.  [None] is a panic of
    [ApplyVirtualAdmission]. *)
Fixpoint batchLoop (n : nat) (now : Time) (admittedCount : Z) (working : SchedulingInputs)
    (w : World) : option batchResult :=
  let stop w := Some {| br_world := w; br_admittedCount := admittedCount; br_working := working;
                        br_lastNoAdmissionReason := "" |} in
  match n with
  | O => stop w
  | Datatypes.S n' =>
      let d := SelectOneForAdmission working in
      if decide (s_selectedID d = "") then
        Some {| br_world :=
                  emit w ((if decide (s_noAdmissionReason d = NoAdmissionReasonQuota)
                           then [Inc "quota_denied_total" []] else [])
                          ++ [decision "no_candidate"]);
                br_admittedCount := admittedCount; br_working := working;
                br_lastNoAdmissionReason := s_noAdmissionReason d |}
      else
      let '(w, perr) := if decide (0 < length (s_victims d))%nat
                        then markVictimsPreemptedAndRelease (s_victims d) w else (w, None) in
      match perr with
      | Some _ => stop (emit w [decision "error_preempt"])
      | None =>
      match patchWorkloadAdmittedAndScheduled (s_selectedID d) (s_reason d) (s_message d) now w with
      | (w, Some _) => stop (emit w [decision "error_patch"])
      | (w, None) =>
          let admitted := QueuedWorkloadByID working (s_selectedID d) in
          let w := emit w (admittedEffects (s_selectedID d) (s_reason d) admitted) in
          let done working := Some {| br_world := w; br_admittedCount := admittedCount [+] 1;
                                      br_working := working; br_lastNoAdmissionReason := "" |} in
          match admitted with
          | None => done working
          | Some a =>
              match ApplyVirtualAdmission working a now with
              | None => None
              | Some (working', Some _) => done working'
              | Some (working', None) => batchLoop n' now (admittedCount [+] 1) working' w
              end
          end
      end end
  end.

(** ** The cycle *)

(** The event on the first workload of the fair order when nothing fits. *)
Definition reportNoFit (working : SchedulingInputs) (w : World) : World :=
  match fairOrder working with
  | [] => w
  | first :: _ =>
      match splitID (q_WorkloadID first) with
      | None => w
      | Some key =>
          let '(a, r) := Get (wo_api w) key in
          let w := with_api w a in
          match r with
          | Ok workload => record w (key_of (w_Meta workload)) "Warning" "NoFit"
                             "No candidate fits fleet capacity; workloads remain Queued"
          | Err _ => w
          end
      end
  end.

Definition maxAdmissions : Z :=
  if lc_MaxAdmissionsPerCycle cfg <=? 0 then 1 else lc_MaxAdmissionsPerCycle cfg.

(** The loop over the namespaces.  The informers run beside it: [st ns] is the in-memory state when
    the loop comes to [ns], and [now ns] the clock of its batch. *)
Fixpoint namespaceLoop (st : string → schedulerState) (now : string → Time)
    (namespaces : list string)
    (w : World) : option World :=
  match namespaces with
  | [] => Some (emit w [Observe "admissions_per_cycle" 0])
  | ns :: rest =>
      match snapshotForNamespace (st ns) ns with
      | None => namespaceLoop st now rest w
      | Some inputs =>
          if decide (length (in_QueuedWorkloads inputs) = 0%nat) then namespaceLoop st now rest w
          else match Validate inputs with
          | Some _ => namespaceLoop st now rest w
          | None =>
              match batchLoop (Z.to_nat maxAdmissions) (now ns) 0 inputs w with
              | None => None
              | Some b =>
                  let w := br_world b in
                  if 0 <? br_admittedCount b
                  then Some (emit w [Observe "admissions_per_cycle" (br_admittedCount b)])
                  else
                    namespaceLoop st now rest
                      (if decide (br_lastNoAdmissionReason b = NoAdmissionReasonNoFit)
                       then if decide (0 < length (in_QueuedWorkloads (br_working b)))%nat
                            then if lc_Recorder cfg then reportNoFit (br_working b) w else w
                            else w
                       else w)
              end
          end
      end
  end.

Definition runSchedulingCycle (st0 : schedulerState) (st : string → schedulerState)
    (now : string → Time) (w : World) : option World :=
  namespaceLoop st now (namespacesWithQueueAndFleet st0)
    (emit w [Inc "scheduling_cycles_total" []]).
End cycle.

(** The pause after a cycle that started at [cycleStart] and was over at [now]: [Start] sleeps so
    long before it reads the trigger again. *)
Definition cyclePause (cfg : loopConfig) (cycleStart now : Time) : Z :=
  if 0 <? lc_MinCycleInterval cfg
  then let elapsed := now - cycleStart in
       if elapsed <? lc_MinCycleInterval cfg then lc_MinCycleInterval cfg [-] elapsed else 0
  else 0.

(** Two cycles start at least [MinCycleInterval] apart. *)
Lemma cyclePause_spaced cfg cycleStart now :
  cycleStart ≤ now → lc_MinCycleInterval cfg ≤ int64_max →
  cycleStart + lc_MinCycleInterval cfg ≤ now + cyclePause cfg cycleStart now.
Proof.
  intros Hle Hmax. unfold cyclePause. destruct (0 <? _) eqn:E1; [|lia].
  destruct (now - cycleStart <? _) eqn:E2; [|lia]. rewrite int64_sub_id; [lia|int_lia].
Qed.

(** ** Retries *)

Section proofs.
Context {W S : Type} `{ApiLaws W, SimulatorLaws S, ApiMachinery, MapIter}.
Context (cfg : loopConfig).
Implicit Types w : @World W S.

(** One run of [op] that ends in a conflict, with the metric it counts. *)
Definition conflict_step (op : @World W S → World * option error) w w' : Prop :=
  ∃ e w1, op w = (w1, Some e) ∧ IsConflict e = true ∧
          w' = emit w1 [Inc "status_conflict_409_total" []].

Lemma retryLoop_spec n op last w w' r :
  retryLoop n op last w = (w', r) →
  ∃ k wk, nsteps (conflict_step op) k w wk ∧
    (((k < n)%nat ∧ op wk = (w', r) ∧ ∀ e, r = Some e → IsConflict e = false) ∨
     (k = n ∧ w' = wk ∧ if decide (n = 0%nat) then r = last
                        else ∃ e, r = Some e ∧ IsConflict e = true)).
Proof.
  revert last w. induction n as [|n IH]; intros last w; simpl.
  { intros [= <- <-]. exists 0%nat, w. split; [constructor|]. right. done. }
  destruct (op w) as [w1 [e|]] eqn:Hop.
  2:{ intros [= <- <-]. exists 0%nat, w. split; [constructor|]. left. split_and!; [lia|done|done]. }
  destruct (IsConflict e) eqn:Hc.
  - intros (k & wk & Hk & Hr)%IH. exists (Datatypes.S k), wk. split.
    { econstructor; [|exact Hk]. by exists e, w1. }
    destruct Hr as [(? & ? & ?)|(-> & -> & Hr)]; [left; split_and!; [lia|done|done]|].
    right. split_and!; try done. case_decide; [|done]. eauto.
  - intros [= <- <-]. exists 0%nat, w. split; [constructor|]. left.
    split_and!; [lia|done|]. by intros e' [= <-].
Qed.

(** What [op] keeps, and the metric of a conflict too, the retries keep. *)
Lemma retry_keeps (R : @World W S → @World W S → Prop) `{!PreOrder R} op w :
  (∀ w, R w (op w).1) → (∀ w l, (∀ id r, LogAdmitted id r ∉ l) → R w (emit w l)) →
  R w (runWithConflictRetry op w).1.
Proof.
  intros Hop Hemit. unfold runWithConflictRetry.
  generalize maxConflictRetries, (@None error). intros n. revert w.
  induction n as [|n IH]; intros w last; simpl; [done|].
  specialize (Hop w). destruct (op w) as [w1 [e|]]; [|done]. simpl in Hop.
  destruct (IsConflict e); [|done]. etrans; [exact Hop|]. etrans; [|apply IH].
  apply Hemit. intros id r. rewrite list_elem_of_singleton. done.
Qed.

(** ** Writes *)

Lemma record_world w obj ty reason msg :
  wo_api (record cfg w obj ty reason msg) = wo_api w ∧
  wo_sim (record cfg w obj ty reason msg) = wo_sim w.
Proof. unfold record, recordEvent. by case_match. Qed.

(** A status write that changes the phase of the object with this key, and nothing else of it. *)
Definition preempts_key (key : NamespacedName) (x : apiWrite) : Prop :=
  ∃ before after, x = StatusWrite before after ∧ key_of (w_Meta before) = key ∧
    key_of (w_Meta after) = key ∧ phase_of before ≠ GPUWorkloadPhasePreempted ∧
    w_Status after = w_Status (with_phase before GPUWorkloadPhasePreempted) ∧
    w_Spec after = w_Spec before.

Definition admits_key (key : NamespacedName) (reason message : string) (x : apiWrite) : Prop :=
  ∃ before after now, x = StatusWrite before after ∧ key_of (w_Meta before) = key ∧
    key_of (w_Meta after) = key ∧ phase_of before = GPUWorkloadPhaseQueued ∧
    w_Status after = w_Status (admitPatch before now reason message) ∧
    w_Spec after = w_Spec before.

(** One run of the victim's update: no write, or the write of the phase. *)
Lemma markPreempted_spec key id w w' r :
  markPreempted cfg key id w = (w', r) →
  wo_sim w' = wo_sim w ∧
  (history (wo_api w') = history (wo_api w) ∨
   r = None ∧ ∃ x, history (wo_api w') = history (wo_api w) ++ [x] ∧ preempts_key key x).
Proof.
  unfold markPreempted. destruct (get_keeps (wo_api w) key) as [Hh _].
  destruct (Get (wo_api w) key) as [a [v|e]] eqn:Hg; simpl in *.
  2:{ case_match; intros [= <- <-]; simpl; auto. }
  destruct (get_ok _ _ _ _ Hg) as [Hst Hk].
  case_decide as Hp; [intros [= <- <-]; simpl; auto|].
  destruct (StatusUpdate a _) as [a' [o'|e]] eqn:Hu; intros [= <- <-]; simpl.
  - destruct (record_world (with_api (with_api w a) a') (key_of (w_Meta o')) "Warning" "Preempted"
      "Workload preempted to make capacity") as [-> ->]. simpl.
    split; [done|]. right. split; [done|].
    destruct (status_write_read a (with_phase v GPUWorkloadPhasePreempted) a' v o' Hst
      eq_refl eq_refl Hu) as (after & E & _ & (Hka & _) & Hs & Hsp & _).
    rewrite E, Hh. eexists. split; [done|]. exists v, after.
    by split_and!; try done; rewrite Hka.
  - split; [done|]. left. by rewrite (status_err _ _ _ _ Hu), Hh.
Qed.

Lemma patchOnce_spec key now reason msg w w' r :
  patchOnce cfg key now reason msg w = (w', r) →
  wo_sim w' = wo_sim w ∧
  (history (wo_api w') = history (wo_api w) ∧
     (r = None → ∃ o, was_stored (wo_api w') o ∧ key_of (w_Meta o) = key ∧
                      phase_of o ≠ GPUWorkloadPhaseQueued) ∨
   r = None ∧ ∃ x, history (wo_api w') = history (wo_api w) ++ [x] ∧ admits_key key reason msg x).
Proof.
  unfold patchOnce. destruct (get_keeps (wo_api w) key) as [Hh _].
  destruct (Get (wo_api w) key) as [a [v|e]] eqn:Hg; simpl in *.
  2:{ intros [= <- <-]. simpl. split; [done|]. by left. }
  destruct (get_ok _ _ _ _ Hg) as [Hst Hk].
  case_decide as Hp; [intros [= <- <-]; simpl; split; [done|]; left; split; [done|]; by exists v|].
  destruct (StatusUpdate a _) as [a' [o'|e]] eqn:Hu; intros [= <- <-]; simpl.
  - destruct (record_world (with_api (with_api w a) a') (key_of (w_Meta o')) "Normal" "Admitted"
      msg) as [-> ->]. simpl. split; [done|]. right. split; [done|].
    destruct (status_write_read a (admitPatch v now reason msg) a' v o' Hst
      eq_refl eq_refl Hu) as (after & E & _ & (Hka & _) & Hs & Hsp & _).
    rewrite E, Hh. eexists. split; [done|]. exists v, after, now.
    by split_and!; try done; rewrite Hka.
  - split; [done|]. left. split; [|done]. by rewrite (status_err _ _ _ _ Hu), Hh.
Qed.

(** Retrying an operation that writes only when it succeeds: at most one write in all. *)
Lemma retry_one_write (P : apiWrite → Prop) (Q : @World W S → Prop) op w w' r :
  (∀ w w' r, op w = (w', r) → wo_sim w' = wo_sim w ∧
     (history (wo_api w') = history (wo_api w) ∧ (r = None → Q w') ∨
      r = None ∧ ∃ x, history (wo_api w') = history (wo_api w) ++ [x] ∧ P x)) →
  runWithConflictRetry op w = (w', r) →
  wo_sim w' = wo_sim w ∧
  (history (wo_api w') = history (wo_api w) ∧ (r = None → Q w') ∨
   r = None ∧ ∃ x, history (wo_api w') = history (wo_api w) ++ [x] ∧ P x).
Proof.
  intros Hop (k & wk & Hk & Hr)%retryLoop_spec.
  assert (wo_sim wk = wo_sim w ∧ history (wo_api wk) = history (wo_api w)) as [Es Eh].
  { clear Hr. induction Hk as [|k w1 w2 w3 (e & w1' & Ho & _ & ->) _ IH]; [done|].
    destruct IH as [-> ->]. simpl. by destruct (Hop _ _ _ Ho) as [-> [[-> _]|[? _]]]. }
  destruct Hr as [(_ & Ho & _)|(-> & -> & (e & -> & _))].
  - destruct (Hop _ _ _ Ho) as [E Hx]. by rewrite E, Es, <- Eh.
  - split; [done|]. by left.
Qed.

(** The patch of an admission: no write, or one that moves the workload from Queued to Scheduled
    and sets the condition. *)
Lemma patch_spec id reason msg now w w' r :
  patchWorkloadAdmittedAndScheduled cfg id reason msg now w = (w', r) →
  wo_sim w' = wo_sim w ∧
  (history (wo_api w') = history (wo_api w) ∧
     (r = None → ∃ o key, splitID id = Some key ∧ was_stored (wo_api w') o ∧
        key_of (w_Meta o) = key ∧ phase_of o ≠ GPUWorkloadPhaseQueued) ∨
   r = None ∧ ∃ key x, splitID id = Some key ∧
     history (wo_api w') = history (wo_api w) ++ [x] ∧ admits_key key reason msg x).
Proof.
  unfold patchWorkloadAdmittedAndScheduled.
  destruct (splitID id) as [key|] eqn:Hid; [|intros [= <- <-]; split; [done|]; by left].
  destruct (runWithConflictRetry _ w) as [w1 r1] eqn:Hrun.
  apply (retry_one_write (admits_key key reason msg)
    (λ w, ∃ o, was_stored (wo_api w) o ∧ key_of (w_Meta o) = key ∧
               phase_of o ≠ GPUWorkloadPhaseQueued)) in Hrun as [Es Hx];
    [|intros; by eapply patchOnce_spec].
  destruct r1 as [e|].
  - intros [= <- <-]. split; [done|]. destruct Hx as [[Hx _]|[? _]]; [|done]. by left.
  - intros [= <- <-].
    assert (∀ (b : bool) l, wo_api (if b then emit w1 l else w1) = wo_api w1 ∧
                            wo_sim (if b then emit w1 l else w1) = wo_sim w1) as Hb by (by intros []).
    destruct (Hb (lc_ClaimableProducer cfg) [Produced (nn_Namespace key) (nn_Name key)]) as [-> ->].
    split; [done|]. destruct Hx as [[Hx Hq]|[_ (x & Hx & Ha)]].
    + left. split; [done|]. intros _. destruct (Hq eq_refl) as (o & ? & ? & ?). by exists o, key.
    + right. split; [done|]. by exists key, x.
Qed.

(** *** Victims *)

Definition preempts_victim (vs : list RunningWorkload) (x : apiWrite) : Prop :=
  ∃ v key, v ∈ vs ∧ splitID (r_WorkloadID v) = Some key ∧ preempts_key key x.

Lemma preempts_victim_cons v vs x : preempts_victim vs x → preempts_victim (v :: vs) x.
Proof. intros (v' & key & Hv & ?). exists v', key. split; [by apply list_elem_of_further|done]. Qed.

(** What stopping the workloads [X] does to the simulator: nobody gains devices or a run, and the
    others keep theirs. *)
Record shrinks (X : list string) (s s' : S) : Prop := {
  sk_inv : sim_inv s';
  sk_holds : ∀ id, holds s' id → holds s id;
  sk_runs : ∀ id, runs s' id → runs s id;
  sk_others : ∀ id, id ∉ X → (holds s id → holds s' id) ∧ (runs s id → runs s' id);
}.

Lemma shrinks_refl X s : sim_inv s → shrinks X s s.
Proof. intros Hi. by constructor. Qed.

Lemma shrinks_trans X s1 s2 s3 : shrinks X s1 s2 → shrinks X s2 s3 → shrinks X s1 s3.
Proof.
  intros [I1 Hh1 Hr1 Ho1] [I2 Hh2 Hr2 Ho2]. constructor; [done|auto|auto|].
  intros id Hid. destruct (Ho1 id Hid), (Ho2 id Hid). auto.
Qed.

Lemma shrinks_mono X Y s s' : X ⊆ Y → shrinks X s s' → shrinks Y s s'.
Proof. intros Hs []. constructor; auto. Qed.

Lemma preempt_shrinks s id s' r :
  sim_inv s → wrs_Preempt s id = (s', r) → shrinks [id] s s' ∧ (r = None → ¬ runs s' id).
Proof.
  intros Hi Hp. destruct (preempt_law s id s' r Hi Hp) as (Hi' & Hh & Hr).
  destruct r as [e|]; (split; [constructor; [done|by intros; apply Hh| |]|]); try done.
  - by intros id' ?%Hr.
  - intros id' _. split; [by intros ?%Hh|by intros ?%Hr].
  - by intros id' [_ ?]%Hr.
  - intros id' Hne. split; [by intros ?%Hh|]. intros Hru. apply Hr. split; [|done].
    intros ->. by apply Hne, list_elem_of_singleton.
  - intros _ [? _]%Hr. done.
Qed.

Lemma release_shrinks s id s' r :
  sim_inv s → wrs_Release s id = (s', r) → shrinks [id] s s' ∧ (r = None → ¬ holds s' id).
Proof.
  intros Hi Hp. destruct (release_law s id s' r Hi Hp) as (Hi' & Hh & Hr).
  destruct r as [e|]; (split; [constructor; [done| |by intros; apply Hh|]|]); try done.
  - by intros id' ?%Hr.
  - intros id' _. split; [by intros ?%Hr|by intros ?%Hh].
  - by intros id' [_ ?]%Hr.
  - intros id' Hne. split; [|by intros ?%Hh]. intros Hru. apply Hr. split; [|done].
    intros ->. by apply Hne, list_elem_of_singleton.
  - intros _ [? _]%Hr. done.
Qed.

Definition stopped (s : S) (v : RunningWorkload) : Prop :=
  is_Some (splitID (r_WorkloadID v)) → ¬ holds s (r_WorkloadID v) ∧ ¬ runs s (r_WorkloadID v).

Lemma victims_spec vs w w' r :
  sim_inv (wo_sim w) → markVictimsPreemptedAndRelease cfg vs w = (w', r) →
  shrinks (r_WorkloadID <$> vs) (wo_sim w) (wo_sim w') ∧
  writes_by (preempts_victim vs) w w' ∧ (r = None → Forall (stopped (wo_sim w')) vs).
Proof.
  revert w. induction vs as [|v vs IH]; intros w Hi; simpl.
  { intros [= <- <-]. split_and!; [by apply shrinks_refl|done|by constructor]. }
  assert (Hmono : ∀ w1 w2, writes_by (preempts_victim vs) w1 w2 →
                           writes_by (preempts_victim (v :: vs)) w1 w2).
  { intros w1 w2 (l & E & Hl). exists l. split; [done|].
    eapply Forall_impl; [exact Hl|]. apply preempts_victim_cons. }
  assert (Hsub1 : [r_WorkloadID v] ⊆ r_WorkloadID v :: (r_WorkloadID <$> vs)) by set_solver.
  assert (Hsub2 : r_WorkloadID <$> vs ⊆ r_WorkloadID v :: (r_WorkloadID <$> vs)) by set_solver.
  destruct (splitID (r_WorkloadID v)) as [key|] eqn:Hid.
  2:{ intros Hm. destruct (IH w Hi Hm) as (Hs & Hw & Hst).
      split_and!; [by eapply shrinks_mono|by apply Hmono|].
      intros Hn. constructor; [|by apply Hst]. intros [? Hk]. by rewrite Hid in Hk. }
  destruct (runWithConflictRetry _ w) as [w1 r1] eqn:Hrun.
  apply (retry_one_write (preempts_key key) (λ _, True)) in Hrun as [Es Hx].
  2:{ intros ??? (? & [?|(-> & ?)])%markPreempted_spec; auto. }
  assert (Hw1 : writes_by (preempts_victim (v :: vs)) w w1).
  { destruct Hx as [[Hx _]|[_ (x & Hx & Hp)]]; [by apply writes_same|].
    exists [x]. split; [done|]. constructor; [|done]. exists v, key.
    split; [apply list_elem_of_here|done]. }
  rewrite <- Es in Hi |- *. destruct r1 as [e|].
  { intros [= <- <-]. by split_and!; [apply shrinks_refl| |]. }
  destruct (wrs_Preempt (wo_sim w1) _) as [s1 e1] eqn:HP.
  destruct (preempt_shrinks _ _ _ _ Hi HP) as [Hsh1 Hnr].
  apply (shrinks_mono _ _ _ _ Hsub1) in Hsh1.
  destruct e1 as [e1|]; [by intros [= <- <-]; split_and!|]. simpl.
  destruct (wrs_Release s1 _) as [s2 e2] eqn:HR.
  destruct (release_shrinks _ _ _ _ (sk_inv _ _ _ Hsh1) HR) as [Hsh2 Hnh].
  apply (shrinks_mono _ _ _ _ Hsub1) in Hsh2. pose proof (shrinks_trans _ _ _ _ Hsh1 Hsh2) as Hsh.
  destruct e2 as [e2|]; [by intros [= <- <-]; split_and!|].
  intros Hm. destruct (IH (emit (with_sim (with_sim w1 s1) s2) [Inc "preemptions_total" []])
    (sk_inv _ _ _ Hsh) Hm) as (Hs & Hw & Hst). simpl in Hs.
  split_and!.
  - eapply shrinks_trans; [exact Hsh|by eapply shrinks_mono].
  - etrans; [exact Hw1|]. exact (Hmono _ _ Hw).
  - intros Hn. constructor; [|by apply Hst]. intros _. split.
    + intros Hh%(sk_holds _ _ _ Hs). by apply Hnh.
    + intros Hr%(sk_runs _ _ _ Hs)%(sk_runs _ _ _ Hsh2). by apply Hnr.
Qed.

(** ** What is logged as admitted *)

Definition admitted_log (l : list effect) : list string :=
  omap (λ e, match e with LogAdmitted id _ => Some id | _ => None end) l.

Definition same_admitted w w' : Prop := admitted_log (wo_log w') = admitted_log (wo_log w).

#[export] Instance same_admitted_preorder : PreOrder same_admitted.
Proof. split; [done|]. intros w1 w2 w3 E1 E2. unfold same_admitted in *. congruence. Qed.

Lemma admitted_log_app l k : admitted_log (l ++ k) = admitted_log l ++ admitted_log k.
Proof. apply omap_app. Qed.

Lemma emit_same w l : (∀ id r, LogAdmitted id r ∉ l) → same_admitted w (emit w l).
Proof.
  intros Hl. unfold same_admitted. simpl. rewrite admitted_log_app.
  replace (admitted_log l) with (@nil string); [by rewrite app_nil_r|].
  induction l as [|e l IH]; [done|]. simpl. destruct e; simpl; try (apply IH; set_solver).
  exfalso. by eapply Hl, list_elem_of_here.
Qed.

Lemma record_same w obj ty reason msg : same_admitted w (record cfg w obj ty reason msg).
Proof. unfold record, recordEvent. case_match; [apply emit_same; set_solver|done]. Qed.

Lemma retry_same op w : (∀ w, same_admitted w (op w).1) →
  same_admitted w (runWithConflictRetry op w).1.
Proof. intros Hop. apply (retry_keeps same_admitted op w Hop). apply emit_same. Qed.

Lemma markPreempted_same key id w : same_admitted w (markPreempted cfg key id w).1.
Proof.
  unfold markPreempted. destruct (Get _ _) as [a [v|e]]; [|by case_match].
  case_decide; [done|]. destruct (StatusUpdate _ _) as [a' [v'|e]]; [|done].
  apply (record_same (with_api (with_api w a) a')).
Qed.

Lemma patchOnce_same key now reason msg w : same_admitted w (patchOnce cfg key now reason msg w).1.
Proof.
  unfold patchOnce. destruct (Get _ _) as [a [v|e]]; [|done].
  case_decide; [done|]. destruct (StatusUpdate _ _) as [a' [v'|e]]; [|done].
  apply (record_same (with_api (with_api w a) a')).
Qed.

Lemma victims_same vs w : same_admitted w (markVictimsPreemptedAndRelease cfg vs w).1.
Proof.
  revert w. induction vs as [|v vs IH]; intros w; simpl; [done|].
  destruct (splitID _) as [key|]; [|apply IH].
  pose proof (retry_same _ w (markPreempted_same key (r_WorkloadID v))) as Hr.
  destruct (runWithConflictRetry _ w) as [w1 [e|]]; [done|]. simpl in Hr.
  destruct (wrs_Preempt _ _) as [s1 [e|]]; [done|]. simpl.
  destruct (wrs_Release _ _) as [s2 [e|]]; [done|].
  etrans; [exact Hr|]. etrans; [|apply IH].
  apply (emit_same (with_sim (with_sim w1 s1) s2)). set_solver.
Qed.

Lemma patch_same id reason msg now w :
  same_admitted w (patchWorkloadAdmittedAndScheduled cfg id reason msg now w).1.
Proof.
  unfold patchWorkloadAdmittedAndScheduled. destruct (splitID id) as [key|]; [|done].
  pose proof (retry_same _ w (patchOnce_same key now reason msg)) as Hr.
  destruct (runWithConflictRetry _ w) as [w1 [e|]]; [done|]. simpl in *.
  case_match; [|done]. etrans; [exact Hr|]. apply emit_same. set_solver.
Qed.

(** ** Batches *)

Definition requested (l : list QueuedWorkload) : Z := Zsum q_GPUCount l.
Definition on_profile (p : string) (l : list QueuedWorkload) : list QueuedWorkload :=
  filter (λ q, q_Profile q = p) l.
Definition of_tenant (t : string) (l : list QueuedWorkload) : list QueuedWorkload :=
  filter (λ q, q_Tenant q = t) l.

Definition free_of (inp : SchedulingInputs) (p : string) : Z :=
  match byProfile (in_FleetFreeCapacity inp) !! p with
  | Some cap => c_FreeDevices cap
  | None => 0
  end.

(** The admissions [adm] on free devices, then [pre] by preemption, of a batch that starts on
    [inp]. *)
Record batch_ok (inp : SchedulingInputs) (adm pre : list QueuedWorkload) : Prop := {
  bo_queued : adm ++ pre ⊆+ in_QueuedWorkloads inp;
  bo_last : (length pre ≤ 1)%nat;
  bo_free : ∀ p, requested (on_profile p adm) ≤ free_of inp p;
  bo_short : ∀ a, a ∈ pre →
    free_of inp (q_Profile a) < requested (on_profile (q_Profile a) adm) + q_GPUCount a;
  bo_caps : ∀ a cap, a ∈ adm ++ pre → tenant_cap (in_TenantQuotas inp) (q_Tenant a) = Some cap →
    tenant_gpus (q_Tenant a) (committed inp)
      + requested (of_tenant (q_Tenant a) (adm ++ pre)) ≤ cap;
}.

Lemma batch_ok_nil inp : Valid inp → batch_ok inp [] [].
Proof.
  intros HV. constructor; try done.
  - apply submseteq_nil_l.
  - simpl. lia.
  - intros p. unfold free_of. simpl. destruct (_ !! _) eqn:E; [|done].
    by destruct (valid_profiles _ HV _ _ E) as (_ & ? & _).
  - by intros a ?%elem_of_nil.
  - by intros a cap ?%elem_of_nil.
Qed.

Lemma of_tenant_cons t a l :
  requested (of_tenant t (a :: l)) = (if decide (q_Tenant a = t) then q_GPUCount a else 0)
                                     + requested (of_tenant t l).
Proof. unfold of_tenant, requested. rewrite filter_cons. case_decide; simpl; lia. Qed.

Lemma on_profile_cons p a l :
  requested (on_profile p (a :: l)) = (if decide (q_Profile a = p) then q_GPUCount a else 0)
                                      + requested (on_profile p l).
Proof. unfold on_profile, requested. rewrite filter_cons. case_decide; simpl; lia. Qed.

Lemma of_tenant_none t l : (∀ a, a ∈ l → q_Tenant a ≠ t) → requested (of_tenant t l) = 0.
Proof.
  intros Hl. induction l as [|a l IH]; [done|]. rewrite of_tenant_cons, decide_False, IH; [done| |].
  - intros b Hb. by apply Hl, list_elem_of_further.
  - apply Hl, list_elem_of_here.
Qed.

Section batch.
Context (inp : SchedulingInputs) (a : QueuedWorkload) (now : Time).
Hypotheses (HV : Valid inp) (HR : InRange inp) (Ha : a ∈ in_QueuedWorkloads inp).

Lemma not_over_cap cap :
  ¬ over_cap inp a → tenant_cap (in_TenantQuotas inp) (q_Tenant a) = Some cap →
  tenant_gpus (q_Tenant a) (committed inp) + q_GPUCount a ≤ cap.
Proof. intros Hn Hc. apply Z.nlt_ge. intros Hlt. apply Hn. by exists cap. Qed.

(** A single admission. *)
Lemma batch_ok_free : admissible inp a → batch_ok inp [a] [].
Proof.
  intros (Hcap & _ & cap & Hc & Hg & _). constructor; simpl; try done.
  - by apply singleton_submseteq_l.
  - lia.
  - intros p. rewrite on_profile_cons. unfold on_profile, requested, free_of. simpl.
    case_decide; subst; [rewrite Hc; lia|]. destruct (_ !! p) eqn:E; [|done].
    by destruct (valid_profiles _ HV _ _ E) as (_ & ? & _).
  - by intros ? ?%elem_of_nil.
  - intros a' c ->%list_elem_of_singleton Hq. rewrite of_tenant_cons, decide_True by done.
    unfold of_tenant, requested. simpl. pose proof (not_over_cap c Hcap Hq). lia.
Qed.

Lemma batch_ok_preempting cap :
  admissible_by_preemption inp a → byProfile (in_FleetFreeCapacity inp) !! q_Profile a = Some cap →
  c_FreeDevices cap < q_GPUCount a → batch_ok inp [] [a].
Proof.
  intros (Hcap & _) Hc Hlt. pose proof (batch_ok_nil inp HV) as Hnil. constructor; simpl.
  - by apply singleton_submseteq_l.
  - lia.
  - apply Hnil.
  - intros a' ->%list_elem_of_singleton. unfold free_of. rewrite Hc.
    unfold on_profile, requested. simpl. lia.
  - intros a' c ->%list_elem_of_singleton Hq. rewrite of_tenant_cons, decide_True by done.
    unfold of_tenant, requested. simpl. pose proof (not_over_cap c Hcap Hq). lia.
Qed.

Lemma free_of_admitted cap p :
  byProfile (in_FleetFreeCapacity inp) !! q_Profile a = Some cap →
  free_of (admitted_inputs inp a now cap) p =
  free_of inp p - (if decide (q_Profile a = p) then q_GPUCount a else 0).
Proof.
  intros Hc. unfold free_of. change (byProfile (in_FleetFreeCapacity (admitted_inputs inp a now cap)))
    with (<[q_Profile a := {| c_FreeDevices := c_FreeDevices cap - q_GPUCount a;
            c_FreeMemoryMiB := c_FreeMemoryMiB cap - q_GPUCount a * c_MemoryMiBPerDevice cap;
            c_MemoryMiBPerDevice := c_MemoryMiBPerDevice cap |}]>
          (byProfile (in_FleetFreeCapacity inp))).
  case_decide as Hp.
  - rewrite <- Hp, lookup_insert_eq, Hc. done.
  - rewrite lookup_insert_ne by done. lia.
Qed.

Lemma tenant_gpus_admitted cap t :
  tenant_gpus t (committed (admitted_inputs inp a now cap)) =
  tenant_gpus t (committed inp) + (if decide (q_Tenant a = t) then q_GPUCount a else 0).
Proof.
  unfold committed. simpl. rewrite app_assoc, tenant_gpus_app. f_equal.
  unfold tenant_gpus. rewrite filter_cons. simpl. case_decide; simpl; lia.
Qed.

(** The admissions after the first one. *)
Lemma batch_ok_cons cap adm pre :
  admissible inp a → byProfile (in_FleetFreeCapacity inp) !! q_Profile a = Some cap →
  batch_ok (admitted_inputs inp a now cap) adm pre → batch_ok inp (a :: adm) pre.
Proof.
  intros (Hcap & _) Hc [Hq Hl Hf Hs Ht]. constructor; simpl.
  - pose proof (valid_ids _ HV) as Hnd. unfold all_ids in Hnd. apply NoDup_app in Hnd as (Hnd & _ & _).
    rewrite <- (filter_key_ne q_WorkloadID (in_QueuedWorkloads inp) a Hnd Ha).
    by apply submseteq_skip.
  - done.
  - intros p. rewrite on_profile_cons. specialize (Hf p). rewrite (free_of_admitted cap p Hc) in Hf. lia.
  - intros a' Ha'. specialize (Hs a' Ha'). rewrite on_profile_cons.
    rewrite (free_of_admitted cap (q_Profile a') Hc) in Hs. lia.
  - intros a' c Hin Hc'. rewrite of_tenant_cons.
    destruct (decide (Exists (λ b, q_Tenant b = q_Tenant a') (adm ++ pre))) as [Hex|Hno].
    + apply Exists_exists in Hex as (b & Hb & E). specialize (Ht b c Hb). rewrite E in Ht.
      specialize (Ht Hc'). rewrite tenant_gpus_admitted in Ht. lia.
    + rewrite (of_tenant_none _ (adm ++ pre)).
      2:{ intros b Hb E. apply Hno, Exists_exists. by exists b. }
      apply elem_of_cons in Hin as [->|Hin].
      * rewrite decide_True by done. pose proof (not_over_cap c Hcap Hc'). lia.
      * exfalso. apply Hno, Exists_exists. by exists a'.
Qed.
End batch.

(** A decision and what the loop does with it, one case per outcome. *)
Lemma select_cases inp :
  Valid inp → InRange inp →
  let d := SelectOneForAdmission inp in
  s_selectedID d = "" ∨
  ∃ a, a ∈ in_QueuedWorkloads inp ∧ s_selectedID d = q_WorkloadID a ∧ q_WorkloadID a ≠ "" ∧
    QueuedWorkloadByID inp (s_selectedID d) = Some a ∧
    (admissible inp a ∧ s_victims d = [] ∨
     admissible_by_preemption inp a ∧ s_victims d ≠ [] ∧
     ∃ cap, byProfile (in_FleetFreeCapacity inp) !! q_Profile a = Some cap ∧
            c_FreeDevices cap < q_GPUCount a).
Proof.
  intros HV HR. simpl. set (d := SelectOneForAdmission inp).
  destruct (SelectOneForAdmission_spec inp HV HR) as [Hd|[Hd|(_ & Hd & _)]]; fold d in Hd; [| |by left].
  - right. pose proof (selected_nonempty inp HV HR d (or_introl Hd)) as Hne.
    destruct Hd as (a & Hf & Hid & Hv & _). pose proof (first_with_elem _ _ _ Hf) as [Hin Hadm].
    apply fairOrder_elem in Hin. exists a. rewrite Hid in *. split_and!; try done.
    + by apply selected_by_id.
    + by left.
  - right. pose proof (selected_nonempty inp HV HR d (or_intror Hd)) as Hne.
    destruct Hd as (_ & a & cap & Hf & Hid & Hv & Hc & [Hlt _] & _).
    pose proof (first_with_elem _ _ _ Hf) as [Hin Hadm]. apply fairOrder_elem in Hin.
    exists a. rewrite Hid in *. split_and!; try done.
    + by apply selected_by_id.
    + right. split_and!; try done. by exists cap.
Qed.

(** The outcome of a batch: the admissions logged, what they are, and how many. *)
Definition batch_outcome (n : nat) (count : Z) (inp : SchedulingInputs) w
    (b : @batchResult W S) : Prop :=
  ∃ adm pre, batch_ok inp adm pre ∧ (length (adm ++ pre) ≤ n)%nat ∧
    br_admittedCount b = count + Z.of_nat (length (adm ++ pre)) ∧
    admitted_log (wo_log (br_world b)) =
      admitted_log (wo_log w) ++ (q_WorkloadID <$> adm ++ pre).

Lemma outcome_none n count inp w b :
  Valid inp → br_admittedCount b = count → same_admitted w (br_world b) →
  batch_outcome n count inp w b.
Proof.
  intros HV Hc Hl. exists [], []. split_and!; [by apply batch_ok_nil|simpl; lia|simpl; lia|].
  simpl. by rewrite app_nil_r.
Qed.

Lemma batch_spec n now count inp w :
  Valid inp → InRange inp → now ≠ 0 → 0 ≤ count → count + Z.of_nat n ≤ int64_max →
  ∃ b, batchLoop cfg n now count inp w = Some b ∧ batch_outcome n count inp w b.
Proof.
  revert count inp w. induction n as [|n IH]; intros count inp w HV HR Hnow H0c Hmax.
  { eexists. split; [done|]. by apply outcome_none. }
  cbn [batchLoop]. destruct (select_cases inp HV HR) as [Hno|(a & Ha & Hid & Hne & Hby & Hcase)].
  { rewrite decide_True by done. eexists. split; [done|]. apply outcome_none; try done.
    apply emit_same. case_decide; set_solver. }
  rewrite decide_False by congruence. set (d := SelectOneForAdmission inp) in *.
  set (mv := if decide _ then _ else _).
  assert (Hmv : same_admitted w mv.1) by (unfold mv; case_decide; [apply victims_same|done]).
  destruct mv as [w1 [e|]]; simpl in Hmv.
  { eexists. split; [done|]. apply outcome_none; try done. simpl. etrans; [exact Hmv|].
    apply emit_same. set_solver. }
  pose proof (patch_same (s_selectedID d) (s_reason d) (s_message d) now w1) as Hp.
  destruct (patchWorkloadAdmittedAndScheduled _ _ _ _ _ w1) as [w2 [e|]]; simpl in Hp.
  { eexists. split; [done|]. apply outcome_none; try done. simpl. etrans; [exact Hmv|].
    etrans; [exact Hp|]. apply emit_same. set_solver. }
  rewrite Hby. set (w3 := emit w2 _).
  assert (Hlog : admitted_log (wo_log w3) = admitted_log (wo_log w) ++ [q_WorkloadID a]).
  { unfold w3. simpl. rewrite admitted_log_app. f_equal; [|by rewrite <- Hid].
    by rewrite <- Hmv, <- Hp. }
  assert (Hcount : count [+] 1 = count + 1) by (apply int64_add_id; int_lia).
  pose proof (ApplyVirtualAdmission_spec inp a now HV HR Ha) as Hv.
  assert (Hdone : ∀ inp' adm pre, adm ++ pre = [a] → batch_ok inp adm pre →
    batch_outcome (Datatypes.S n) count inp w {| br_world := w3; br_admittedCount := count [+] 1;
      br_working := inp'; br_lastNoAdmissionReason := "" |}).
  { intros inp' adm pre E Hok. exists adm, pre. rewrite E. split_and!; try done; simpl; lia. }
  destruct Hcase as [(Hadm & _)|(Hadm & _ & cap & Hc & Hlt)].
  - pose proof Hadm as (_ & _ & cap & Hc & Hg & _). rewrite Hc in Hv. case_decide as Hd.
    + rewrite Hv, Hcount. destruct Hd as [Hd Hm].
      destruct (IH (count + 1) (admitted_inputs inp a now cap) w3) as
        (b & -> & adm & pre & Hok & Hl & Hbc & Hbl); [by apply admitted_valid|by apply admitted_range
        |done|lia|lia|].
      eexists. split; [done|]. exists (a :: adm), pre. split_and!; [by eapply batch_ok_cons| | |].
      * simpl. lia.
      * rewrite Hbc. simpl. lia.
      * rewrite Hbl, Hlog. simpl. by rewrite <- app_assoc.
    + destruct Hv as (out & e & ->). eexists. split; [done|]. eapply Hdone; [|by apply batch_ok_free]. done.
  - rewrite Hc in Hv. rewrite decide_False in Hv by lia. destruct Hv as (out & e & ->).
    eexists. split; [done|]. eapply Hdone; [|by eapply batch_ok_preempting]. done.
Qed.

(** ** The writes of a cycle *)

Definition cycle_write (x : apiWrite) : Prop :=
  ∃ key, preempts_key key x ∨ ∃ reason message, admits_key key reason message x.

(** What any part of a cycle does outside: legal writes, and no new devices or runs. *)
Record cycle_effect w w' : Prop := {
  ce_writes : writes_by cycle_write w w';
  ce_inv : sim_inv (wo_sim w) → sim_inv (wo_sim w');
  ce_holds : sim_inv (wo_sim w) → ∀ id, holds (wo_sim w') id → holds (wo_sim w) id;
  ce_runs : sim_inv (wo_sim w) → ∀ id, runs (wo_sim w') id → runs (wo_sim w) id;
}.

#[export] Instance cycle_effect_preorder : PreOrder cycle_effect.
Proof.
  split; [by constructor|]. intros w1 w2 w3 [] []. constructor; auto. by etrans.
Qed.

Lemma cycle_effect_emit w l : cycle_effect w (emit w l).
Proof. constructor; try done. apply writes_emit. Qed.

Lemma victims_effect vs w : cycle_effect w (markVictimsPreemptedAndRelease cfg vs w).1.
Proof.
  destruct (markVictimsPreemptedAndRelease cfg vs w) as [w' r] eqn:E. simpl.
  assert (Hw : writes_by cycle_write w w').
  { revert w E. induction vs as [|v vs IH]; intros w; simpl; [by intros [= <- _]|].
    destruct (splitID _) as [key|]; [|apply IH].
    destruct (runWithConflictRetry _ w) as [w1 r1] eqn:Hrun.
    apply (retry_one_write (preempts_key key) (λ _, True)) in Hrun as [_ Hx].
    2:{ intros ??? (? & [?|(-> & ?)])%markPreempted_spec; auto. }
    assert (Hw1 : writes_by cycle_write w w1).
    { destruct Hx as [[Hx _]|[_ (x & Hx & Hp)]]; [by apply writes_same|].
      exists [x]. split; [done|]. constructor; [|done]. exists key. by left. }
    destruct r1; [by intros [= <- _]|]. destruct (wrs_Preempt _ _) as [s1 [e|]]; [by intros [= <- _]|].
    simpl. destruct (wrs_Release _ _) as [s2 [e|]]; [by intros [= <- _]|].
    intros E. etrans; [exact Hw1|]. exact (IH _ E). }
  constructor; [done|..]; intros Hi; by destruct (victims_spec vs w w' r Hi E) as [[] _].
Qed.

Lemma patch_effect id reason msg now w :
  cycle_effect w (patchWorkloadAdmittedAndScheduled cfg id reason msg now w).1.
Proof.
  destruct (patchWorkloadAdmittedAndScheduled cfg id reason msg now w) as [w' r] eqn:E. simpl.
  apply patch_spec in E as [Es Hx]. constructor; rewrite ?Es; try done.
  destruct Hx as [[Hx _]|[_ (key & x & _ & Hx & Ha)]]; [by apply writes_same|].
  exists [x]. split; [done|]. constructor; [|done]. exists key. right. by exists reason, msg.
Qed.

Lemma batch_effect n now count inp w b :
  batchLoop cfg n now count inp w = Some b → cycle_effect w (br_world b).
Proof.
  revert count inp w. induction n as [|n IH]; intros count inp w; cbn [batchLoop];
    [by intros [= <-]|].
  case_decide; [intros [= <-]; apply cycle_effect_emit|].
  set (d := SelectOneForAdmission inp). set (mv := if decide _ then _ else _).
  assert (Hmv : cycle_effect w mv.1) by (unfold mv; case_decide; [apply victims_effect|done]).
  destruct mv as [w1 [e|]]; simpl in Hmv.
  { intros [= <-]. etrans; [exact Hmv|apply cycle_effect_emit]. }
  pose proof (patch_effect (s_selectedID d) (s_reason d) (s_message d) now w1) as Hp.
  destruct (patchWorkloadAdmittedAndScheduled _ _ _ _ _ w1) as [w2 [e|]]; simpl in Hp.
  { intros [= <-]. do 2 (etrans; [eassumption|]). apply cycle_effect_emit. }
  set (l := admittedEffects _ _ _). pose proof (cycle_effect_emit w2 l) as He.
  destruct (QueuedWorkloadByID _ _) as [a|]; [|intros [= <-]; by do 2 (etrans; [eassumption|])].
  destruct (ApplyVirtualAdmission _ _ _) as [[inp' [e|]]|]; [| |done].
  - intros [= <-]. by do 2 (etrans; [eassumption|]).
  - intros Hb%IH. by do 3 (etrans; [eassumption|]).
Qed.

Lemma reportNoFit_effect inp w :
  cycle_effect w (reportNoFit cfg inp w) ∧ same_admitted w (reportNoFit cfg inp w).
Proof.
  unfold reportNoFit. destruct (fairOrder inp) as [|q l]; [done|].
  destruct (splitID _) as [key|]; [|done]. destruct (get_keeps (wo_api w) key) as [Hh _].
  destruct (Get _ _) as [a [o|e]]; simpl in Hh.
  - split.
    + constructor; destruct (record_world (with_api w a) (key_of (w_Meta o)) "Warning" "NoFit"
        "No candidate fits fleet capacity; workloads remain Queued") as [E1 E2]; rewrite ?E2; try done.
      apply writes_same. by rewrite E1.
    + apply (record_same (with_api w a)).
  - split; [|done]. constructor; try done. by apply writes_same.
Qed.

(** ** The cycle *)

Definition cycle_inputs (st : string → schedulerState) (now : string → Time) : Prop :=
  (∀ ns inp, snapshotForNamespace (st ns) ns = Some inp → InRange inp) ∧ ∀ ns, now ns ≠ 0.

(** Either nothing is admitted, or one batch in one namespace is. *)
Definition cycle_outcome (st : string → schedulerState) (namespaces : list string) w w' : Prop :=
  same_admitted w w' ∨
  ∃ ns inp adm pre, ns ∈ namespaces ∧ snapshotForNamespace (st ns) ns = Some inp ∧ Valid inp ∧
    batch_ok inp adm pre ∧ 0 < Z.of_nat (length (adm ++ pre)) ≤ maxAdmissions cfg ∧
    admitted_log (wo_log w') = admitted_log (wo_log w) ++ (q_WorkloadID <$> adm ++ pre).

Lemma outcome_more st namespaces ns w0 w w' :
  same_admitted w0 w → cycle_outcome st namespaces w w' → cycle_outcome st (ns :: namespaces) w0 w'.
Proof.
  intros Hs [Ho|(ns' & inp & adm & pre & ? & ? & ? & ? & ? & Hl)]; [left; by etrans|].
  right. exists ns', inp, adm, pre. split_and!; try done; [by apply list_elem_of_further|lia|lia|].
  by rewrite Hl, Hs.
Qed.

Lemma maxAdmissions_pos : 1 ≤ maxAdmissions cfg.
Proof. unfold maxAdmissions. case_match; lia. Qed.

Lemma namespaceLoop_spec st now namespaces w :
  cycle_inputs st now → lc_MaxAdmissionsPerCycle cfg ≤ int64_max →
  ∃ w', namespaceLoop cfg st now namespaces w = Some w' ∧ cycle_effect w w' ∧
        cycle_outcome st namespaces w w'.
Proof.
  intros [Hrange Hnow] Hmax. revert w. induction namespaces as [|ns rest IH]; intros w; cbn [namespaceLoop].
  { eexists. split_and!; [done|apply cycle_effect_emit|]. left. apply emit_same. set_solver. }
  assert (Hskip : ∃ w', namespaceLoop cfg st now rest w = Some w' ∧ cycle_effect w w' ∧
                        cycle_outcome st (ns :: rest) w w').
  { destruct (IH w) as (w' & -> & ? & ?). exists w'. split_and!; try done. by eapply outcome_more. }
  destruct (snapshotForNamespace (st ns) ns) as [inp|] eqn:Hsn; [|exact Hskip].
  destruct (decide _); [exact Hskip|]. destruct (Validate inp) eqn:HV; [exact Hskip|]. clear Hskip.
  apply Validate_None in HV. pose proof maxAdmissions_pos as Hpos.
  assert (maxAdmissions cfg ≤ int64_max) by (unfold maxAdmissions, int64_max in *; case_match; lia).
  destruct (batch_spec (Z.to_nat (maxAdmissions cfg)) (now ns) 0 inp w HV (Hrange ns inp Hsn)
    (Hnow ns)) as (b & Hb & adm & pre & Hok & Hl & Hc & Hlog); [lia|lia|].
  rewrite Hb. pose proof (batch_effect _ _ _ _ _ _ Hb) as Hbe.
  destruct (0 <? br_admittedCount b) eqn:Hpos'.
  - eexists. split_and!; [done| |].
    + etrans; [exact Hbe|apply cycle_effect_emit].
    + right. exists ns, inp, adm, pre.
      split_and!; try done; [apply list_elem_of_here|lia|lia|].
      rewrite <- Hlog. apply emit_same. set_solver.
  - assert (adm ++ pre = []) as E by (apply length_zero_iff_nil; lia).
    rewrite E in Hlog. simpl in Hlog. rewrite app_nil_r in Hlog.
    set (w1 := if decide _ then _ else _).
    assert (cycle_effect w w1 ∧ same_admitted w w1) as [He1 Hs1].
    { unfold w1. destruct (reportNoFit_effect (br_working b) (br_world b)) as [? ?].
      repeat case_match; try done. split; by etrans. }
    destruct (IH w1) as (w' & -> & ? & ?). exists w'. split_and!; [done|by etrans|].
    by eapply outcome_more.
Qed.
End proofs.

(** ** Theorems *)

Section theorems.
Context {W S : Type} `{ApiLaws W, SimulatorLaws S, ApiMachinery, MapIter}.
Context (cfg : loopConfig).

(** C2: a cycle admits safely.  It never panics; it admits in at most one namespace, at most
    [MaxAdmissionsPerCycle] workloads, all of them queued there; those admitted on free devices
    never ask for more devices of a profile than are free; at most one more, the last, is admitted
    by preemption; and with all of them no tenant exceeds its GPU cap. *)
Theorem cycle_admissions_safe st0 st now (w : @World W S) :
  cycle_inputs st now → lc_MaxAdmissionsPerCycle cfg ≤ int64_max →
  ∃ w', runSchedulingCycle cfg st0 st now w = Some w' ∧
    cycle_outcome cfg st (namespacesWithQueueAndFleet st0) w w'.
Proof.
  intros Hin Hmax. unfold runSchedulingCycle.
  edestruct (namespaceLoop_spec cfg st now (namespacesWithQueueAndFleet st0)
    (emit w [Inc "scheduling_cycles_total" []])) as (w' & -> & _ & Ho); [done|done|].
  exists w'. split; [done|]. destruct Ho as [Ho|(ns & inp & adm & pre & ? & ? & ? & ? & ? & Hl)].
  - left. etrans; [|exact Ho]. apply emit_same. set_solver.
  - right. exists ns, inp, adm, pre. split_and!; try done; try lia. rewrite Hl. f_equal.
    apply emit_same. set_solver.
Qed.

(** C11: all a cycle writes to the API server are status updates against the version it read, each of
    which either moves a workload from Queued to Scheduled with the Admitted condition, or moves one
    that is not yet Preempted to Preempted; and in the simulator it allocates and starts nothing. *)
Theorem cycle_writes_legal st0 st now (w : @World W S) :
  cycle_inputs st now → lc_MaxAdmissionsPerCycle cfg ≤ int64_max →
  ∃ w', runSchedulingCycle cfg st0 st now w = Some w' ∧ cycle_effect w w'.
Proof.
  intros Hin Hmax. unfold runSchedulingCycle.
  edestruct (namespaceLoop_spec cfg st now (namespacesWithQueueAndFleet st0)
    (emit w [Inc "scheduling_cycles_total" []])) as (w' & -> & He & _); [done|done|].
  exists w'. split; [done|]. etrans; [|exact He]. apply cycle_effect_emit.
Qed.

(** The retries are exact: the operation is run until its first outcome that is not a conflict
    and that outcome is returned, or five times when all of them conflict, and then the last
    conflict is returned. *)
Theorem conflict_retry_exact op (w w' : @World W S) r :
  runWithConflictRetry op w = (w', r) →
  ∃ k wk, nsteps (conflict_step op) k w wk ∧
    (((k < maxConflictRetries)%nat ∧ op wk = (w', r) ∧ ∀ e, r = Some e → IsConflict e = false) ∨
     (k = maxConflictRetries ∧ w' = wk ∧ ∃ e, r = Some e ∧ IsConflict e = true)).
Proof. apply retryLoop_spec. Qed.

(** C16: the admission patch writes at most once over all its retries.  When it reports success,
    either it moved the workload from Queued to Scheduled, keeping its spec and queue time and
    setting the condition with the given reason and message, or it wrote nothing because it read the
    workload in another phase; when it reports an error it has written nothing. *)
Theorem admission_patch_once id reason message now (w w' : @World W S) r :
  patchWorkloadAdmittedAndScheduled cfg id reason message now w = (w', r) →
  wo_sim w' = wo_sim w ∧
  (history (wo_api w') = history (wo_api w) ∧
     (r = None → ∃ o key, splitID id = Some key ∧ was_stored (wo_api w') o ∧
        key_of (w_Meta o) = key ∧ phase_of o ≠ GPUWorkloadPhaseQueued) ∨
   r = None ∧ ∃ key x, splitID id = Some key ∧
     history (wo_api w') = history (wo_api w) ++ [x] ∧ admits_key key reason message x).
Proof. apply patch_spec. Qed.

(** C17: preempting victims writes only their phases and stops only them: whatever the outcome, no
    workload gains devices or a run and the others keep theirs; on success every victim with a
    well-formed id has lost its devices and its run. *)
Theorem victims_stopped_only (victims : list RunningWorkload) (w w' : @World W S) r :
  sim_inv (wo_sim w) → markVictimsPreemptedAndRelease cfg victims w = (w', r) →
  shrinks (r_WorkloadID <$> victims) (wo_sim w) (wo_sim w') ∧
  writes_by (preempts_victim victims) w w' ∧ (r = None → Forall (stopped (wo_sim w')) victims).
Proof. apply victims_spec. Qed.
End theorems.

(** ** Witnesses *)

Module CycleExample.
Import ResourceExample.
#[export] Existing Instance map_iter_canonical.
#[export] Existing Instance SmallServer.small_client.
#[export] Existing Instance SmallServer.small_laws.
#[export] Existing Instance SmallServer.small_machinery.
#[export] Instance env : RunEnv := RuntimeExample.env 0.

(** Two devices are free; [a] asks for one of them and [b] for both. *)
Definition a : GPUWorkload := workload "a" "team" 1 1024 GPUWorkloadPhaseQueued.
Definition b : GPUWorkload := workload "b" "team" 2 1024 GPUWorkloadPhaseQueued.
Definition cap : ProfileFreeCapacity :=
  {| c_FreeDevices := 2; c_FreeMemoryMiB := 163840; c_MemoryMiBPerDevice := 81920 |}.
Definition fleet : FleetFreeCapacity :=
  {| f_TotalFreeDevices := 2; f_TotalFreeMemoryMiB := 163840;
     f_ByProfile := Some {["h100_sxm" := cap]} |}.
Definition qa : QueuedWorkload := GPUWorkloadToQueuedWorkload a "ns/a" 5.
Definition qb : QueuedWorkload := GPUWorkloadToQueuedWorkload b "ns/b" 5.
Definition st : schedulerState :=
  {| st_queued := {["ns" := {["ns/a" := qa; "ns/b" := qb]}]}; st_scheduled := ∅; st_running := ∅;
     st_fleet := {["ns" := fleet]}; st_quotas := ∅ |}.
Definition cfg (n : Z) : loopConfig :=
  {| lc_MaxAdmissionsPerCycle := n; lc_MinCycleInterval := 0; lc_Recorder := true;
     lc_ClaimableProducer := true |}.
Definition w0 : @World SmallServer.server Simulator :=
  {| wo_api := SmallServer.init [a; b]; wo_sim := NewSimulator; wo_log := [] |}.
Definition victim : RunningWorkload := GPUWorkloadToRunningWorkload a "ns/a" 5.
End CycleExample.

Section witness.
Import CycleExample.

Definition phases (x : apiWrite) : string * GPUWorkloadPhase * GPUWorkloadPhase :=
  match x with
  | StatusWrite before after => (workload_id before, phase_of before, phase_of after)
  | ObjectWrite before after => (workload_id before, phase_of before, phase_of after)
  end.

Definition after_cycle (n : Z) : option (@World SmallServer.server Simulator) :=
  runSchedulingCycle (cfg n) st (λ _, st) (λ _, 9) w0.

(** A batch can preempt what it has just admitted: the virtual admission of [a] puts it among the
    running workloads, and [b], which asks for both devices, takes [a] as its victim.  [a] ends up
    Preempted, a terminal phase, without having run. *)
Example batch_preempts_own_admission :
  (λ w, phases <$> SmallServer.sv_history (wo_api w)) <$> after_cycle 5 =
  Some [("ns/a", GPUWorkloadPhaseQueued, GPUWorkloadPhaseScheduled);
        ("ns/a", GPUWorkloadPhaseScheduled, GPUWorkloadPhasePreempted);
        ("ns/b", GPUWorkloadPhaseQueued, GPUWorkloadPhaseScheduled)].
Proof. vm_compute. reflexivity. Qed.

(** A victim that has finished in the meantime is overwritten: Succeeded becomes Preempted. *)
Example finished_victim_overwritten :
  let w := {| wo_api := SmallServer.init [with_phase a GPUWorkloadPhaseSucceeded];
              wo_sim := NewSimulator; wo_log := [] |} in
  phases <$> SmallServer.sv_history
    (wo_api (markVictimsPreemptedAndRelease (cfg 1) [victim] w).1) =
  [("ns/a", GPUWorkloadPhaseSucceeded, GPUWorkloadPhasePreempted)].
Proof. vm_compute. reflexivity. Qed.

Definition inp : SchedulingInputs :=
  {| in_QueuedWorkloads := [qa; qb]; in_ScheduledWorkloads := []; in_RunningWorkloads := [];
     in_FleetFreeCapacity := fleet; in_TenantQuotas := ∅ |}.

Lemma inp_in_range : InRange inp.
Proof. solve_in_range. Qed.

Lemma example_inputs : cycle_inputs (λ _, st) (λ _, 9).
Proof.
  split; [|done]. intros ns inp' Hs. unfold snapshotForNamespace in Hs. simpl in Hs.
  destruct (decide (ns = "ns")) as [->|Hne].
  - rewrite lookup_singleton_eq in Hs. injection Hs as <-. apply inp_in_range.
  - by rewrite lookup_singleton_ne in Hs.
Qed.

Lemma cycle_admissions_safe_witness :
  ∃ w', after_cycle 5 = Some w' ∧
    cycle_outcome (cfg 5) (λ _, st) (namespacesWithQueueAndFleet st) w0 w' ∧
    admitted_log (wo_log w') = ["ns/a"; "ns/b"].
Proof.
  destruct (cycle_admissions_safe (cfg 5) st (λ _, st) (λ _, 9) w0 example_inputs
    ltac:(by vm_compute)) as (w' & Hw & Ho).
  exists w'. split_and!; [exact Hw|exact Ho|].
  assert (E : (λ w, admitted_log (wo_log w)) <$> after_cycle 5 = Some ["ns/a"; "ns/b"])
    by (vm_compute; reflexivity).
  unfold after_cycle in E. rewrite Hw in E. by injection E.
Defined.

Lemma cycle_writes_legal_witness : ∃ w', after_cycle 5 = Some w' ∧ cycle_effect w0 w'.
Proof.
  exact (cycle_writes_legal (cfg 5) st (λ _, st) (λ _, 9) w0 example_inputs ltac:(by vm_compute)).
Defined.

(** A client whose version is stale: every attempt conflicts. *)
Definition stale (w : @World SmallServer.server Simulator)
    : @World SmallServer.server Simulator * option error :=
  (w, Some SmallServer.conflict).

Lemma conflict_retry_exact_witness :
  ∃ k wk, nsteps (conflict_step stale) k w0 wk ∧ (k ≤ 5)%nat ∧
    length (wo_log (runWithConflictRetry stale w0).1) = 5%nat.
Proof.
  destruct (conflict_retry_exact stale w0 (runWithConflictRetry stale w0).1
    (runWithConflictRetry stale w0).2 ltac:(by destruct (runWithConflictRetry stale w0)))
    as (k & wk & Hk & Hcase).
  exists k, wk. split_and!; [exact Hk| |by vm_compute].
  unfold maxConflictRetries in Hcase. lia.
Defined.

Lemma admission_patch_once_witness :
  ∃ x, history (wo_api (patchWorkloadAdmittedAndScheduled (cfg 1) "ns/a" "r" "m" 9 w0).1) = [x] ∧
    admits_key {| nn_Namespace := "ns"; nn_Name := "a" |} "r" "m" x.
Proof.
  destruct (patchWorkloadAdmittedAndScheduled (cfg 1) "ns/a" "r" "m" 9 w0) as [w' r] eqn:E.
  destruct (admission_patch_once (cfg 1) "ns/a" "r" "m" 9 w0 w' r E) as [_ Hx].
  cbn [fst].
  assert (El : length (history (wo_api w')) = 1%nat)
    by (change w' with (w', r).1; rewrite <- E; by vm_compute).
  destruct Hx as [[Hx _]|(_ & key & x & Hk & Hx & Ha)]; rewrite Hx in El |- *.
  - done.
  - exists x. split; [done|]. change (splitID "ns/a") with
      (Some {| nn_Namespace := "ns"; nn_Name := "a" |}) in Hk. by injection Hk as <-.
Defined.

Lemma victims_stopped_only_witness :
  stopped (wo_sim (markVictimsPreemptedAndRelease (cfg 1) [victim] w0).1) victim.
Proof.
  destruct (markVictimsPreemptedAndRelease (cfg 1) [victim] w0) as [w' r] eqn:E.
  assert (Hi : sim_inv (wo_sim w0)) by exact NewSimulator_wf.
  destruct (victims_stopped_only (cfg 1) [victim] w0 w' r Hi E) as (_ & _ & Hs).
  assert (r = None) as Hr by (change r with (w', r).2; rewrite <- E; by vm_compute).
  specialize (Hs Hr). by inversion Hs.
Defined.
End witness.
