(* ===== verification/Reconciler.v ===== *)
(** * The workload reconciler (internal/controller/gpuworkload_controller.go)

    Reconciliation of one workload: completion bookkeeping for terminal phases, finalizer, queueing
    of new workloads, execution of admitted ones on the simulator, polling of running ones, and
    release on deletion. *)

From stdpp Require Import prelude gmap strings pretty.
From S2P Require Import Prelude GoFloat SimModel SchedInputs Runtime Simulator Resources Cluster.

Local Open Scope Z_scope.
Local Open Scope go_scope.

(** The fields of [GPUWorkloadReconciler]; whether the pointer fields are set. *)
Record GPUWorkloadReconciler := {
  rc_RuntimeSimulator : bool;
  rc_Recorder : bool;
  rc_UseWorkerPool : bool;
}.

Definition gpuWorkloadFinalizer : string := "scheduler.ishanchopra.dev/gpuworkload-finalizer".
Definition annotationCompletionCounted : string := "scheduler.ishanchopra.dev/completion-counted".
Definition annotationValueTrue : string := "true".

Definition isTerminalPhase (phase : GPUWorkloadPhase) : bool :=
  match phase with
  | GPUWorkloadPhaseSucceeded | GPUWorkloadPhaseFailed | GPUWorkloadPhasePreempted => true
  | _ => false
  end.

Definition isAlreadyAllocatedErr (e : error) : bool :=
  Contains (ToLower (Error e)) "already has an allocation".
Definition isAlreadyRunningErr (e : error) : bool :=
  Contains (ToLower (Error e)) "already has a running run".

(** [workload.DeletionTimestamp.IsZero()] *)
Definition deletionIsZero (w : GPUWorkload) : bool :=
  match om_DeletionTimestamp (w_Meta w) with
  | None => true
  | Some t => IsZero t
  end.

(** [workload.Annotations[annotationCompletionCounted] = annotationValueTrue], with the map made
    when it is nil. *)
Definition countCompletion (w : GPUWorkload) : GPUWorkload :=
  let m := w_Meta w in
  with_meta w
    {| om_Namespace := om_Namespace m; om_Name := om_Name m; om_Generation := om_Generation m;
       om_ResourceVersion := om_ResourceVersion m; om_CreationTimestamp := om_CreationTimestamp m;
       om_DeletionTimestamp := om_DeletionTimestamp m;
       om_Annotations := Some (<[annotationCompletionCounted := annotationValueTrue]>
                                 (default ∅ (om_Annotations m)));
       om_Finalizers := om_Finalizers m |}.

Definition with_finalizers (w : GPUWorkload) (l : list string) : GPUWorkload :=
  let m := w_Meta w in
  with_meta w
    {| om_Namespace := om_Namespace m; om_Name := om_Name m; om_Generation := om_Generation m;
       om_ResourceVersion := om_ResourceVersion m; om_CreationTimestamp := om_CreationTimestamp m;
       om_DeletionTimestamp := om_DeletionTimestamp m; om_Annotations := om_Annotations m;
       om_Finalizers := l |}.

Definition completionCounted (w : GPUWorkload) : bool :=
  match om_Annotations (w_Meta w) with
  | None => false
  | Some m => bool_decide (m !! annotationCompletionCounted = Some annotationValueTrue)
  end.

(** The metrics of a completion. *)
Definition completionEffects (w : GPUWorkload) : list effect :=
  Inc "workload_completions_total" [] ::
  if IsZero (om_CreationTimestamp (w_Meta w)) then []
  else [ObserveSince "e2e_latency_seconds" [] (om_CreationTimestamp (w_Meta w))].

(** [ctrl.Result] and the error of a reconciliation. *)
Record outcome := { oc_RequeueAfter : Z; oc_err : option error }.
Definition finished : outcome := {| oc_RequeueAfter := 0; oc_err := None |}.
Definition failed (e : error) : outcome := {| oc_RequeueAfter := 0; oc_err := Some e |}.

Section reconciler.
Context {W S : Type} `{ApiClient W, WorkloadRuntimeSimulator S, ApiMachinery}.
Context (r : GPUWorkloadReconciler).
Local Notation World := (@Cluster.World W S).

Definition record (w : World) (o : GPUWorkload) (eventType reason message : string) : World :=
  recordEvent (rc_Recorder r) w (key_of (w_Meta o)) eventType reason message.

(** [r.Status().Update(ctx, workload)] and [r.Update(ctx, workload)]: on success the object is what
    the server answered. *)
Definition updateStatus (w : World) (o : GPUWorkload) : World * Result GPUWorkload :=
  let '(a, res) := StatusUpdate (wo_api w) o in (with_api w a, res).
Definition updateObject (w : World) (o : GPUWorkload) : World * Result GPUWorkload :=
  let '(a, res) := Update (wo_api w) o in (with_api w a, res).
Definition release (w : World) (id : string) : World * option error :=
  let '(s, e) := wrs_Release (wo_sim w) id in (with_sim w s, e).

(** [executeAdmission], last part: the phase Running, unless it is there already. *)
Definition markRunning (workload : GPUWorkload) (w : World) : World * option error :=
  if decide (phase_of workload = GPUWorkloadPhaseRunning) then (w, None)
  else match updateStatus w (with_phase workload GPUWorkloadPhaseRunning) with
       | (w, Err e) => (w, Some e)
       | (w, Ok o) => (record w o "Normal" "Running" "Workload running", None)
       end.

(** The start of the run. *)
Definition startRun (workload : GPUWorkload) (now : Time) (w : World) : World * option error :=
  let '(s, run) := wrs_StartWithRuntimeInput (wo_sim w) now
                     (buildRuntimeInput (workload_id workload) workload) in
  let w := with_sim w s in
  match run with
  | Err e => if isAlreadyRunningErr e then markRunning workload w else (w, Some e)
  | Ok _ => markRunning workload w
  end.

(** The allocation, then the start. *)
Definition allocateAndStart (workload : GPUWorkload) (now : Time) (w : World)
    : World * option error :=
  let opts := {| o_PlacementPolicy := PlacementPolicyFirstFit; o_RequireSameNode := false;
                 o_MaxNodes := 0; o_PreferredDeviceType := "";
                 o_PreferredProfile := ToLower (TrimSpace (ws_Profile (w_Spec workload))) |} in
  let '(s, allocation) := wrs_AllocateWithOptions (wo_sim w) (workload_id workload)
                            (ws_GPUCount (w_Spec workload)) (ws_GPUMemoryMiB (w_Spec workload)) opts in
  let w := with_sim w s in
  match allocation with
  | Err e => if isAlreadyAllocatedErr e then startRun workload now w else (w, Some e)
  | Ok _ => startRun workload now w
  end.

Definition executeAdmission (workload : GPUWorkload) (now : Time) (w : World)
    : World * option error :=
  if negb (rc_RuntimeSimulator r) then (w, Some (Errorf "runtime simulator is not configured"))
  else if decide (phase_of workload = GPUWorkloadPhaseScheduled)
  then allocateAndStart workload now w
  else match updateStatus w (with_phase workload GPUWorkloadPhaseScheduled) with
       | (w, Err e) => (w, Some e)
       | (w, Ok o) =>
           allocateAndStart o now
             (record w o "Normal" "Scheduled" "Workload scheduled, allocation started")
       end.

(** The phase a run status stands for; [None] when the workload keeps running. *)
Definition targetPhase (status : RunStatus) : option GPUWorkloadPhase :=
  match status with
  | RunStatusRunning => None
  | RunStatusSucceeded => Some GPUWorkloadPhaseSucceeded
  | RunStatusFailed => Some GPUWorkloadPhaseFailed
  | RunStatusPreempted => Some GPUWorkloadPhasePreempted
  | RunStatusOther _ => None
  end.

Definition completionEvent (w : World) (o : GPUWorkload) (p : GPUWorkloadPhase) : World :=
  match p with
  | GPUWorkloadPhaseSucceeded => record w o "Normal" "Succeeded" "Workload completed successfully"
  | GPUWorkloadPhaseFailed => record w o "Warning" "Failed" "Workload run failed"
  | GPUWorkloadPhasePreempted => record w o "Warning" "Preempted" "Workload was preempted"
  | _ => w
  end.

(** The new world, the workload as the calls left it, and the results. *)
Definition pollRunningStatus (workload : GPUWorkload) (now : Time) (w : World)
    : World * GPUWorkload * Result bool :=
  if negb (rc_RuntimeSimulator r)
  then (w, workload, Err (Errorf "runtime simulator is not configured"))
  else
  let workloadID := workload_id workload in
  let '(s, res) := wrs_GetLatestRunStatusForWorkload (wo_sim w) now workloadID in
  let w := with_sim w s in
  match res with
  | Err e => if Contains (ToLower (Error e)) "not found" then (w, workload, Ok false)
             else (w, workload, Err e)
  | Ok status =>
  match targetPhase status with
  | None => (w, workload, Ok false)
  | Some target =>
  if decide (phase_of workload = target) then (w, workload, Ok true)
  else
  let succeeded := bool_decide (target = GPUWorkloadPhaseSucceeded) in
  let o := if succeeded then countCompletion (with_phase workload target)
           else with_phase workload target in
  match updateStatus w o with
  | (w, Err e) => (w, o, Err e)
  | (w, Ok o) =>
      let '(w, o) :=
        if succeeded then
          match updateObject (emit w (completionEffects o)) o with
          | (w, Ok o') => (w, o')
          | (w, Err _) => (w, o)
          end
        else (w, o) in
      let w := (release w workloadID).1 in
      (completionEvent w o target, o, Ok true)
  end end end.

(** The branch for terminal phases. *)
Definition finishTerminal (workload : GPUWorkload) (w : World) : World :=
  let w :=
    if bool_decide (phase_of workload = GPUWorkloadPhaseSucceeded) && negb (completionCounted workload)
    then (updateObject (emit w (completionEffects workload)) (countCompletion workload)).1
    else w in
  if rc_RuntimeSimulator r then (release w (workload_id workload)).1 else w.

(** The branch for deleted workloads. *)
Definition finishDeleted (workload : GPUWorkload) (w : World) : World * outcome :=
  let '(w, err) :=
    if rc_RuntimeSimulator r then
      match release w (workload_id workload) with
      | (w, Some e) => (w, Some e)
      | (w, None) => (record w workload "Normal" "Released" "Workload released on delete", None)
      end
    else (w, None) in
  match err with
  | Some e => (w, failed e)
  | None =>
      match updateObject w (with_finalizers workload
              (RemoveFinalizer (om_Finalizers (w_Meta workload)) gpuWorkloadFinalizer)) with
      | (w, Err e) => (w, failed e)
      | (w, Ok _) => (w, finished)
      end
  end.

(** What comes after the queue state is initialised. *)
Definition actuate (workload : GPUWorkload) (now : Time) (w : World) : World * outcome :=
  if deletionIsZero workload && bool_decide (phase_of workload = GPUWorkloadPhaseScheduled) then
    if rc_UseWorkerPool r then (w, finished)
    else match executeAdmission workload now w with
         | (w, Some e) => (w, failed e)
         | (w, None) => (w, finished)
         end
  else
  let deleted (workload : GPUWorkload) (w : World) :=
    if negb (deletionIsZero workload) then finishDeleted workload w else (w, finished) in
  if deletionIsZero workload && bool_decide (phase_of workload = GPUWorkloadPhaseRunning) then
    if rc_UseWorkerPool r then (w, finished)
    else match pollRunningStatus workload now w with
         | (w, _, Err e) => (w, failed e)
         | (w, _, Ok false) => (w, {| oc_RequeueAfter := 2 * Second; oc_err := None |})
         | (w, workload, Ok true) => deleted workload w
         end
  else deleted workload w.

Definition initQueued (workload : GPUWorkload) (now : Time) : GPUWorkload :=
  {| w_Meta := w_Meta workload; w_Spec := w_Spec workload;
     w_Status := {| wst_Phase := GPUWorkloadPhaseQueued; wst_QueuedAt := Some now;
                    wst_Conditions := wst_Conditions (w_Status workload) |} |}.

Definition Reconcile (req : NamespacedName) (now : Time) (w : World) : World * outcome :=
  let '(a, res) := Get (wo_api w) req in
  let w := with_api w a in
  match res with
  | Err e => if IsNotFound e then (w, finished) else (w, failed e)
  | Ok workload =>
  if deletionIsZero workload && isTerminalPhase (phase_of workload)
  then (finishTerminal workload w, finished)
  else if deletionIsZero workload
          && negb (ContainsFinalizer (om_Finalizers (w_Meta workload)) gpuWorkloadFinalizer) then
    match updateObject w (with_finalizers workload
            (AddFinalizer (om_Finalizers (w_Meta workload)) gpuWorkloadFinalizer)) with
    | (w, Err e) => (w, failed e)
    | (w, Ok _) => (w, finished)
    end
  else if deletionIsZero workload && bool_decide (phase_of workload = PhaseNone) then
    match updateStatus w (initQueued workload now) with
    | (w, Err e) => (w, failed e)
    | (w, Ok o) => actuate o now (record w o "Normal" "Queued" "Workload queued for scheduling")
    end
  else actuate workload now w
  end.
End reconciler.

(** ** Writes *)

(** The phase changes the reconciler makes. *)
Inductive lifecycle : GPUWorkloadPhase → GPUWorkloadPhase → Prop :=
| lc_queue : lifecycle PhaseNone GPUWorkloadPhaseQueued
| lc_start : lifecycle GPUWorkloadPhaseScheduled GPUWorkloadPhaseRunning
| lc_succeed : lifecycle GPUWorkloadPhaseRunning GPUWorkloadPhaseSucceeded
| lc_fail : lifecycle GPUWorkloadPhaseRunning GPUWorkloadPhaseFailed
| lc_preempt : lifecycle GPUWorkloadPhaseRunning GPUWorkloadPhasePreempted.

Definition legal_write (x : apiWrite) : Prop :=
  match x with
  | StatusWrite before after =>
      lifecycle (phase_of before) (phase_of after) ∧ w_Spec after = w_Spec before ∧
      deletionIsZero before = true
  | ObjectWrite before after => w_Status after = w_Status before
  end.

Section proofs.
Context {W S : Type} `{ApiLaws W, SimulatorLaws S, ApiMachineryLaws}.
Context (r : GPUWorkloadReconciler).
Implicit Types w : @World W S.

(** [o] is a version of an object the server stored, as it is now or with local changes. *)
Definition read_as w (o1 o : GPUWorkload) : Prop :=
  was_stored (wo_api w) o1 ∧ key_of (w_Meta o1) = key_of (w_Meta o) ∧
  om_ResourceVersion (w_Meta o1) = om_ResourceVersion (w_Meta o).

Lemma updateStatus_spec w o1 o w' res :
  read_as w o1 o → updateStatus w o = (w', res) →
  wo_sim w' = wo_sim w ∧ wo_log w' = wo_log w ∧
  match res with
  | Err _ => history (wo_api w') = history (wo_api w)
  | Ok o' => ∃ after, history (wo_api w') = history (wo_api w) ++ [StatusWrite o1 after] ∧
      read_as w' after o' ∧ w_Status after = w_Status o ∧ w_Status o' = w_Status o ∧
      w_Spec after = w_Spec o1 ∧ workload_id o' = workload_id o ∧
      om_DeletionTimestamp (w_Meta o') = om_DeletionTimestamp (w_Meta o1) ∧
      om_DeletionTimestamp (w_Meta after) = om_DeletionTimestamp (w_Meta o1)
  end.
Proof.
  intros (Hs & Hk & Hv). unfold updateStatus.
  destruct (StatusUpdate (wo_api w) o) as [a [o'|e]] eqn:HU; intros [= <- <-]; simpl.
  - destruct (status_write_read _ _ _ _ _ Hs Hk Hv HU)
      as (after & Hh & Ha & (Hka & Hk' & Hv' & Hd & Hst & _) & Hsa & Hsp & Hda).
    split_and!; try done. exists after. unfold workload_id.
    split_and!; try done; try congruence. by split_and!; [|congruence|].
  - by rewrite (status_err _ _ _ _ HU).
Qed.

Lemma updateObject_spec w o1 o w' res :
  read_as w o1 o → updateObject w o = (w', res) →
  wo_sim w' = wo_sim w ∧ wo_log w' = wo_log w ∧
  match res with
  | Err _ => history (wo_api w') = history (wo_api w)
  | Ok o' => ∃ after, history (wo_api w') = history (wo_api w) ++ [ObjectWrite o1 after] ∧
      w_Status after = w_Status o1 ∧ om_Annotations (w_Meta after) = om_Annotations (w_Meta o) ∧
      om_Finalizers (w_Meta after) = om_Finalizers (w_Meta o) ∧
      om_DeletionTimestamp (w_Meta o') = om_DeletionTimestamp (w_Meta o1)
  end.
Proof.
  intros (Hs & Hk & Hv). unfold updateObject.
  pose proof (update_keeps (wo_api w) o o1 Hs) as Hs'.
  destruct (Update (wo_api w) o) as [a [o'|e]] eqn:HU; intros [= <- <-]; simpl in *.
  - destruct (update_ok _ _ _ _ HU) as (b & after & Hh & ? & ? & (? & ? & ? & Hd & _) & ? & ? & ? & ? & ? & ? & Hd').
    assert (b = o1) as -> by (apply (version_unique a); congruence || done).
    split_and!; try done. exists after. split_and!; try done. congruence.
  - by rewrite (update_err _ _ _ _ HU).
Qed.

Lemma updateObject_writes w o : writes_by legal_write w (updateObject w o).1.
Proof.
  unfold updateObject. destruct (Update (wo_api w) o) as [a [o'|e]] eqn:HU; simpl.
  - destruct (update_ok _ _ _ _ HU) as (b & after & Hh & _ & _ & _ & _ & _ & Hs & _).
    exists [ObjectWrite b after]. split; [done|]. by constructor.
  - apply writes_same. simpl. by rewrite (update_err _ _ _ _ HU).
Qed.

Lemma record_api w o ty reason msg :
  wo_api (record r w o ty reason msg) = wo_api w ∧ wo_sim (record r w o ty reason msg) = wo_sim w.
Proof. unfold record, recordEvent. by case_match. Qed.

Lemma release_api w id : wo_api (release w id).1 = wo_api w ∧ wo_log (release w id).1 = wo_log w.
Proof. unfold release. by destruct (wrs_Release _ _). Qed.

Lemma writes_api P w w1 w2 : wo_api w2 = wo_api w1 → writes_by P w w1 → writes_by P w w2.
Proof. unfold writes_by. by intros ->. Qed.

(** *** Execution of an admission *)

(** The two calls to the simulator, and the only write. *)
Definition admission_calls (o : GPUWorkload) (now : Time) (s s' : S) : Prop :=
  ∃ s1 ra rs,
    wrs_AllocateWithOptions s (workload_id o) (ws_GPUCount (w_Spec o)) (ws_GPUMemoryMiB (w_Spec o))
      {| o_PlacementPolicy := PlacementPolicyFirstFit; o_RequireSameNode := false; o_MaxNodes := 0;
         o_PreferredDeviceType := "";
         o_PreferredProfile := ToLower (TrimSpace (ws_Profile (w_Spec o))) |} = (s1, ra) ∧
    wrs_StartWithRuntimeInput s1 now (buildRuntimeInput (workload_id o) o) = (s', rs) ∧
    (∀ e, ra = Err e → isAlreadyAllocatedErr e = true) ∧
    (∀ e, rs = Err e → isAlreadyRunningErr e = true).

Definition admission_result (o : GPUWorkload) (now : Time) w w' (err : option error) : Prop :=
  match err with
  | Some _ => history (wo_api w') = history (wo_api w)
  | None => admission_calls o now (wo_sim w) (wo_sim w') ∧
      ∃ after, history (wo_api w') = history (wo_api w) ++ [StatusWrite o after] ∧
        phase_of after = GPUWorkloadPhaseRunning ∧ w_Spec after = w_Spec o
  end.

Lemma markRunning_spec w o w' err :
  read_as w o o → phase_of o = GPUWorkloadPhaseScheduled → markRunning r o w = (w', err) →
  wo_sim w' = wo_sim w ∧
  match err with
  | Some _ => history (wo_api w') = history (wo_api w)
  | None => ∃ after, history (wo_api w') = history (wo_api w) ++ [StatusWrite o after] ∧
      phase_of after = GPUWorkloadPhaseRunning ∧ w_Spec after = w_Spec o
  end.
Proof.
  intros Hr Hp. unfold markRunning. rewrite decide_False by (by rewrite Hp).
  destruct (updateStatus _ _) as [w1 res] eqn:Hu.
  apply (updateStatus_spec _ o) in Hu as (Hsim & _ & Hx); [|exact Hr].
  destruct res as [o'|e]; intros [= <- <-]; [|done].
  destruct (record_api w1 o' "Normal" "Running" "Workload running") as [-> ->].
  split; [done|]. destruct Hx as (after & Hh & _ & Hst & _ & Hsp & _). exists after.
  split_and!; try done. unfold phase_of. by rewrite Hst.
Qed.

Lemma executeAdmission_spec w o now w' err :
  read_as w o o → phase_of o = GPUWorkloadPhaseScheduled →
  executeAdmission r o now w = (w', err) → admission_result o now w w' err.
Proof.
  intros Hr Hp. unfold executeAdmission, allocateAndStart, startRun.
  destruct (negb _); [by intros [= <- <-]|]. rewrite decide_True by done.
  destruct (wrs_AllocateWithOptions _ _ _ _ _) as [s1 ra] eqn:Ha. simpl.
  destruct (wrs_StartWithRuntimeInput s1 now _) as [s2 rs] eqn:Hs.
  assert (Hrun : (∀ e, ra = Err e → isAlreadyAllocatedErr e = true) →
                 (∀ e, rs = Err e → isAlreadyRunningErr e = true) →
                 markRunning r o (with_sim (with_sim w s1) s2) = (w', err) →
                 admission_result o now w w' err).
  { intros Hra Hrs [Hsim Hx]%markRunning_spec; [|done|done]. unfold admission_result. rewrite Hsim.
    destruct err; [done|]. split; [|done]. by exists s1, ra, rs. }
  destruct ra as [al|e]; [|destruct (isAlreadyAllocatedErr e) eqn:He; [|by intros [= <- <-]]];
    (destruct rs as [run|e']; [|destruct (isAlreadyRunningErr e') eqn:He'; [|by intros [= <- <-]]]);
    apply Hrun; (done || by intros ? [= <-]).
Qed.

(** *** Polling *)

Lemma completionEvent_world w o p :
  wo_api (completionEvent r w o p) = wo_api w ∧ wo_sim (completionEvent r w o p) = wo_sim w.
Proof. unfold completionEvent. destruct p; try done; apply record_api. Qed.

(** How a run ends, and the phase that stands for it. *)
Inductive run_end : RunStatus → GPUWorkloadPhase → Prop :=
| end_succeeded : run_end RunStatusSucceeded GPUWorkloadPhaseSucceeded
| end_failed : run_end RunStatusFailed GPUWorkloadPhaseFailed
| end_preempted : run_end RunStatusPreempted GPUWorkloadPhasePreempted.

Definition completions (l : list effect) : nat :=
  length (filter (λ e, e = Inc "workload_completions_total" []) l).

Lemma completionEffects_one o : completions (completionEffects o) = 1%nat.
Proof. unfold completionEffects. by destruct (IsZero _). Qed.

Lemma updateObject_log w o : wo_log (updateObject w o).1 = wo_log w.
Proof. unfold updateObject. by destruct (Update _ _). Qed.

Lemma completions_app l l' : completions (l ++ l') = (completions l + completions l')%nat.
Proof. unfold completions. by rewrite filter_app, length_app. Qed.

(** The server refused the phase [p] for the workload [o], with [e], and nothing else happened. *)
Definition end_refused (o : GPUWorkload) (p : GPUWorkloadPhase) w w' (e : error) : Prop :=
  ∃ o1, key_of (w_Meta o1) = key_of (w_Meta o) ∧ phase_of o1 = p ∧
    StatusUpdate (wo_api w) o1 = (wo_api w', Err e) ∧ wo_sim w' = wo_sim w ∧ wo_log w' = wo_log w.

(** The phase [p] was written over the workload as it was read; for a success, and only then, the
    completion was counted, once, and the object may have been written after that (the mark), with the
    status as it is. *)
Definition end_written (o : GPUWorkload) (p : GPUWorkloadPhase) w w' : Prop :=
  ∃ after l, history (wo_api w') = history (wo_api w) ++ StatusWrite o after :: l ∧
    phase_of after = p ∧ w_Spec after = w_Spec o ∧
    (l = [] ∨ p = GPUWorkloadPhaseSucceeded ∧
       ∃ marked, l = [ObjectWrite after marked] ∧ w_Status marked = w_Status after) ∧
    completions (wo_log w') =
      (completions (wo_log w) + if decide (p = GPUWorkloadPhaseSucceeded) then 1 else 0)%nat.

Lemma end_written_same o p w w1 w2 :
  end_written o p w w1 → wo_api w2 = wo_api w1 →
  completions (wo_log w2) = completions (wo_log w1) → end_written o p w w2.
Proof. unfold end_written. by intros ? -> ->. Qed.

(** The phase with its mark, as the pollers write them. *)
Definition endedAs (o : GPUWorkload) (p : GPUWorkloadPhase) : GPUWorkload :=
  if bool_decide (p = GPUWorkloadPhaseSucceeded) then countCompletion (with_phase o p)
  else with_phase o p.

Lemma endedAs_read w o p : read_as w o o → read_as w o (endedAs o p) ∧ phase_of (endedAs o p) = p.
Proof. intros Hr. unfold endedAs. by case_bool_decide. Qed.

Definition markCounted w (o : GPUWorkload) (p : GPUWorkloadPhase) : World * GPUWorkload :=
  if bool_decide (p = GPUWorkloadPhaseSucceeded) then
    match updateObject (emit w (completionEffects o)) o with
    | (w, Ok o') => (w, o')
    | (w, Err _) => (w, o)
    end
  else (w, o).

Lemma write_end w o p w1 res :
  read_as w o o → updateStatus w (endedAs o p) = (w1, res) →
  match res with
  | Err e => end_refused o p w w1 e
  | Ok o2 => end_written o p w (markCounted w1 o2 p).1 ∧ wo_sim (markCounted w1 o2 p).1 = wo_sim w ∧
      om_DeletionTimestamp (w_Meta (markCounted w1 o2 p).2) = om_DeletionTimestamp (w_Meta o)
  end.
Proof.
  intros Hr Hu. destruct (endedAs_read w o p Hr) as [Hr1 Hp1]. destruct res as [o2|e].
  2:{ unfold updateStatus in Hu. destruct (StatusUpdate _ _) as [a res] eqn:HU. injection Hu as <- ->.
      exists (endedAs o p). split_and!; [by destruct Hr1 as (_ & -> & _)|done..]. }
  apply (updateStatus_spec _ o) in Hu as (Hsim & Hlog & after & Hh & Hr2 & Hst & _ & Hsp & _ & Hd & Hda);
    [|done].
  assert (phase_of after = p) as Hpa by (unfold phase_of in *; congruence).
  unfold markCounted. case_bool_decide as Hs; cbn [fst snd].
  - destruct (updateObject _ _) as [w2 res2] eqn:Hu2.
    pose proof (updateObject_log (emit w1 (completionEffects o2)) o2) as Hl2. rewrite Hu2 in Hl2.
    cbn [fst] in Hl2. apply (updateObject_spec _ after) in Hu2 as (Hs2 & _ & Hx2); [|exact Hr2].
    assert (completions (wo_log w2) = completions (wo_log w) + 1)%nat as Hc.
    { rewrite Hl2. cbn [wo_log emit]. by rewrite completions_app, completionEffects_one, Hlog. }
    destruct res2 as [o3|e]; cbn [fst snd].
    + destruct Hx2 as (marked & Hh2 & Hst2 & _ & _ & Hd3). split_and!; [|by rewrite Hs2|congruence].
      exists after, [ObjectWrite after marked]. rewrite Hh2, decide_True by done. cbn [wo_api emit].
      rewrite Hh, <- app_assoc. split_and!; try done. right. split; [done|]. by exists marked.
    + split_and!; [|by rewrite Hs2|congruence]. exists after, []. rewrite Hx2, decide_True by done.
      cbn [wo_api emit]. rewrite Hh. split_and!; try done. by left.
  - split_and!; [|done|congruence]. exists after, []. rewrite Hh, Hlog, decide_False by done.
    split_and!; [done|done|done|by left|by rewrite Nat.add_0_r].
Qed.

Lemma record_completions w o ty reason msg :
  completions (wo_log (record r w o ty reason msg)) = completions (wo_log w).
Proof.
  unfold record, recordEvent. destruct (rc_Recorder r); [|done]. cbn [wo_log emit].
  rewrite completions_app. unfold completions. simpl. lia.
Qed.

Lemma completionEvent_completions w o p :
  completions (wo_log (completionEvent r w o p)) = completions (wo_log w).
Proof. unfold completionEvent. destruct p; try done; apply record_completions. Qed.

(** What a poll of a Running workload does with the answer of the simulator: a run that has ended has
    its phase written, or refused by the server, and once it is written the devices are released;
    anything else but an error other than "not found" means to wait. *)
Definition poll_result (o : GPUWorkload) (now : Time) w w' (res : Result bool) : Prop :=
  let '(s, reported) := wrs_GetLatestRunStatusForWorkload (wo_sim w) now (workload_id o) in
  match reported with
  | Err e => w' = with_sim w s ∧
      res = if Contains (ToLower (Error e)) "not found" then Ok false else Err e
  | Ok st =>
      (∀ p, run_end st p →
         (∃ e, res = Err e ∧ end_refused o p (with_sim w s) w' e) ∨
         res = Ok true ∧ end_written o p w w' ∧ wo_sim w' = (wrs_Release s (workload_id o)).1) ∧
      ((∀ p, ¬ run_end st p) → w' = with_sim w s ∧ res = Ok false)
  end.

Lemma pollRunningStatus_spec w o now w' o' res :
  read_as w o o → phase_of o = GPUWorkloadPhaseRunning →
  pollRunningStatus r o now w = (w', o', res) →
  (if rc_RuntimeSimulator r then poll_result o now w w' res
   else w' = w ∧ res = Err (Errorf "runtime simulator is not configured")) ∧
  (res = Ok true → om_DeletionTimestamp (w_Meta o') = om_DeletionTimestamp (w_Meta o)).
Proof.
  intros Hr Hp. unfold pollRunningStatus, poll_result.
  destruct (rc_RuntimeSimulator r); cbn [negb]; [|by intros [= <- <- <-]].
  destruct (wrs_GetLatestRunStatusForWorkload _ _ _) as [s [st|e]].
  2:{ case_match; intros [= <- <- <-]; by split_and!. }
  assert (Hw : ∀ p, run_end st p → targetPhase st = Some p) by (by destruct 1).
  assert (Hn : ∀ p, targetPhase st = Some p → run_end st p)
    by (intros p; destruct st; simpl; intros [= <-]; constructor).
  destruct (targetPhase st) as [p|] eqn:Ht.
  2:{ intros [= <- <- <-]. split; [|done]. split; [|done]. intros p Hq. by specialize (Hw p Hq). }
  assert (p ≠ GPUWorkloadPhaseRunning) by (destruct (Hn p eq_refl); done).
  rewrite decide_False by congruence. fold (endedAs o p).
  destruct (updateStatus (with_sim w s) (endedAs o p)) as [w1 res1] eqn:Hu.
  apply write_end in Hu; [|exact Hr].
  assert (Hany : ∀ res w', (∃ e, res = Err e ∧ end_refused o p (with_sim w s) w' e) ∨
      res = Ok true ∧ end_written o p w w' ∧ wo_sim w' = (wrs_Release s (workload_id o)).1 →
    (∀ p, run_end st p → (∃ e, res = Err e ∧ end_refused o p (with_sim w s) w' e) ∨
       res = Ok true ∧ end_written o p w w' ∧ wo_sim w' = (wrs_Release s (workload_id o)).1) ∧
    ((∀ p, ¬ run_end st p) → w' = with_sim w s ∧ res = Ok false)).
  { intros res0 w0 Hor. split; [intros p' Hp'|intros Hno; exfalso; by eapply Hno, Hn].
    specialize (Hw p' Hp'). by simplify_eq. }
  destruct res1 as [o2|e].
  2:{ intros [= <- <- <-]. split; [|done]. apply Hany. left. by exists e. }
  fold (markCounted w1 o2 p). destruct Hu as (Hwr & Hsim & Hd).
  destruct (markCounted w1 o2 p) as [w2 o3]. cbn [fst snd] in *. intros [= <- <- <-]. split; [|done].
  apply Hany. right. split; [done|].
  pose proof (release_api w2 (workload_id o)) as [Ea El]. split.
  - apply (end_written_same _ _ _ w2); [exact Hwr| |].
    + by rewrite (proj1 (completionEvent_world _ _ _)).
    + by rewrite completionEvent_completions, El.
  - rewrite (proj2 (completionEvent_world _ _ _)). unfold release. rewrite Hsim. cbn [wo_sim with_sim].
    by destruct (wrs_Release s _).
Qed.

(** *** The whole reconciliation *)

Lemma deletionIsZero_eq o o' :
  om_DeletionTimestamp (w_Meta o') = om_DeletionTimestamp (w_Meta o) →
  deletionIsZero o' = deletionIsZero o.
Proof. unfold deletionIsZero. by intros ->. Qed.

Lemma finishTerminal_writes o w :
  writes_by (λ x, ∃ b a, x = ObjectWrite b a ∧ w_Status a = w_Status b) w (finishTerminal r o w).
Proof.
  unfold finishTerminal. set (w1 := if _ && _ then _ else _).
  assert (Hw1 : writes_by (λ x, ∃ b a, x = ObjectWrite b a ∧ w_Status a = w_Status b) w w1).
  { unfold w1. case_match; [|done]. unfold updateObject.
    destruct (Update _ _) as [a [o'|e]] eqn:HU; simpl.
    - destruct (update_ok _ _ _ _ HU) as (b & after & Hh & _ & _ & _ & _ & _ & Hs & _).
      exists [ObjectWrite b after]. split; [done|]. constructor; [by eauto|done].
    - apply writes_same. simpl. by rewrite (update_err _ _ _ _ HU). }
  case_match; [|done]. eapply writes_api; [|exact Hw1]. apply release_api.
Qed.

Lemma object_writes_legal w w' :
  writes_by (λ x, ∃ b a, x = ObjectWrite b a ∧ w_Status a = w_Status b) w w' →
  writes_by legal_write w w'.
Proof.
  intros (l & Hh & Hl). exists l. split; [done|]. eapply Forall_impl; [exact Hl|].
  by intros ? (b & a & -> & ?).
Qed.

Lemma finishDeleted_writes o w : writes_by legal_write w (finishDeleted r o w).1.
Proof.
  unfold finishDeleted. set (x := if rc_RuntimeSimulator r then _ else _).
  assert (Hx : wo_api x.1 = wo_api w).
  { unfold x. case_match; [|done]. pose proof (release_api w (workload_id o)) as [Ha _].
    destruct (release w _) as [w1 [e|]]; simpl in *; [done|].
    by rewrite (proj1 (record_api _ _ _ _ _)). }
  destruct x as [w1 [e|]]; simpl in *; [by apply writes_same; rewrite Hx|].
  set (o' := with_finalizers _ _). pose proof (updateObject_writes w1 o') as Hu.
  destruct (updateObject w1 o') as [w2 [?|?]]; simpl in *;
    (etrans; [|exact Hu]; apply writes_same; by rewrite Hx).
Qed.

Lemma poll_legal o now w w' res :
  phase_of o = GPUWorkloadPhaseRunning → deletionIsZero o = true →
  (if rc_RuntimeSimulator r then poll_result o now w w' res
   else w' = w ∧ res = Err (Errorf "runtime simulator is not configured")) →
  writes_by legal_write w w'.
Proof.
  intros Hp Hz. destruct (rc_RuntimeSimulator r); [|by intros [-> _]]. unfold poll_result.
  destruct (wrs_GetLatestRunStatusForWorkload _ _ _) as [s [st|e]]; [|intros [-> _]; by apply writes_same].
  intros [Hend Hno].
  assert ((∃ p, run_end st p) ∨ ∀ p, ¬ run_end st p) as [[p Hr]|Hn].
  { destruct st; try (left; eexists; constructor); right; intros p; inversion 1. }
  2:{ destruct (Hno Hn) as [-> _]. by apply writes_same. }
  destruct (Hend p Hr) as [(e & _ & o1 & _ & _ & HU & _)|(_ & (after & l & Hh & Hpa & Hsp & Hl & _) & _)].
  { apply writes_same. by apply status_err in HU. }
  eexists. split; [exact Hh|]. constructor.
  - simpl. rewrite Hp, Hpa. split_and!; try done. destruct Hr; constructor.
  - destruct Hl as [->|(_ & marked & -> & Hm)]; [constructor|]. by apply Forall_singleton.
Qed.

Lemma actuate_writes o now w w' out :
  read_as w o o → actuate r o now w = (w', out) → writes_by legal_write w w'.
Proof.
  intros Hr. unfold actuate. destruct (deletionIsZero o) eqn:Hz; simpl.
  2:{ intros E. pose proof (finishDeleted_writes o w) as Hw. by rewrite E in Hw. }
  case_bool_decide as Hs.
  { case_match; [by intros [= <- _]|].
    destruct (executeAdmission r o now w) as [w1 err] eqn:He.
    apply executeAdmission_spec in He; [|done|done].
    destruct err; intros [= <- _]; simpl in He; [by apply writes_same|].
    destruct He as (_ & after & Hh & Hp & Hsp). exists [StatusWrite o after]. split; [done|].
    constructor; [|done]. simpl. rewrite Hs, Hp. split_and!; [constructor|done|done]. }
  case_bool_decide as Hp; [|by intros [= <- _]].
  case_match; [by intros [= <- _]|].
  destruct (pollRunningStatus r o now w) as [[w1 o1] res] eqn:He.
  apply pollRunningStatus_spec in He as [Hres Hd]; [|done|done].
  assert (writes_by legal_write w w1) as Hlegal by (by eapply poll_legal).
  destruct res as [[|]|e]; intros E; [|by injection E as <- _..].
  rewrite (deletionIsZero_eq o o1 (Hd eq_refl)), Hz in E. by injection E as <- _.
Qed.

Lemma Reconcile_writes req now w w' out :
  Reconcile r req now w = (w', out) → writes_by legal_write w w'.
Proof.
  unfold Reconcile. destruct (get_keeps (wo_api w) req) as [Hh _].
  destruct (Get (wo_api w) req) as [a [o|e]] eqn:Hg; simpl in Hh.
  2:{ case_match; intros [= <- _]; by apply writes_same. }
  destruct (get_ok _ _ _ _ Hg) as [Hst Hk].
  assert (Hr : read_as (with_api w a) o o) by done.
  assert (Hw : ∀ w', writes_by legal_write (with_api w a) w' → writes_by legal_write w w').
  { intros w1 (l & E & Hl). exists l. rewrite E. simpl. by rewrite Hh. }
  case_match.
  { intros [= <- _]. apply Hw, object_writes_legal, finishTerminal_writes. }
  case_match.
  { set (o' := with_finalizers _ _). pose proof (updateObject_writes (with_api w a) o') as Hu.
    destruct (updateObject _ o') as [w2 [?|?]]; intros [= <- _]; by apply Hw. }
  destruct (deletionIsZero o) eqn:Hz; simpl; [case_bool_decide as Hp|];
    [|by intros ?%actuate_writes; [apply Hw|]..].
  destruct (updateStatus _ _) as [w1 res] eqn:Hu.
  apply (updateStatus_spec _ o) in Hu as (_ & _ & Hx); [|done].
  destruct res as [o'|e]; [|intros [= <- _]; by apply Hw, writes_same].
  destruct Hx as (after & Hh1 & Hr1 & Hs & Hs' & Hsp & _).
  set (w2 := record _ _ _ _ _ _). assert (Ew : wo_api w2 = wo_api w1) by apply record_api.
  intros Ha. apply Hw. transitivity w2.
  - rewrite <- Ew in Hh1. exists [StatusWrite o after]. split; [done|]. constructor; [|done].
    simpl. unfold phase_of in *. rewrite Hp, Hs. split_and!; [constructor|done|done].
  - revert Ha. unfold actuate. assert (phase_of o' = GPUWorkloadPhaseQueued) as Hq
      by (unfold phase_of; by rewrite Hs').
    rewrite Hq, !andb_false_r. destruct (deletionIsZero o'); simpl; [by intros [= <- _]|].
    intros E. pose proof (finishDeleted_writes o' w2) as Hd. by rewrite E in Hd.
Qed.

(** *** Terminal phases and deletion *)

Lemma finishTerminal_completions o w :
  completions (wo_log (finishTerminal r o w)) =
  (completions (wo_log w) +
   if bool_decide (phase_of o = GPUWorkloadPhaseSucceeded) && negb (completionCounted o)
   then 1 else 0)%nat.
Proof.
  unfold finishTerminal. set (w1 := if _ && _ then _ else _).
  assert (Hw1 : completions (wo_log w1) = (completions (wo_log w) +
    if bool_decide (phase_of o = GPUWorkloadPhaseSucceeded) && negb (completionCounted o)
    then 1 else 0)%nat).
  { unfold w1. case_match; [|lia]. rewrite updateObject_log. simpl. unfold completions at 1.
    rewrite filter_app, length_app. fold (completions (wo_log w)). f_equal.
    apply completionEffects_one. }
  destruct (rc_RuntimeSimulator r); [|done]. by rewrite (proj2 (release_api _ _)).
Qed.

Lemma countCompletion_counted o : completionCounted (countCompletion o) = true.
Proof.
  unfold completionCounted, countCompletion. cbn. rewrite bool_decide_eq_true. apply lookup_insert_eq.
Qed.

Lemma finishTerminal_exact o w :
  read_as w o o →
  let due := bool_decide (phase_of o = GPUWorkloadPhaseSucceeded) && negb (completionCounted o) in
  (history (wo_api (finishTerminal r o w)) = history (wo_api w) ∨
   due = true ∧ ∃ marked,
     history (wo_api (finishTerminal r o w)) = history (wo_api w) ++ [ObjectWrite o marked] ∧
     w_Status marked = w_Status o ∧ completionCounted marked = true) ∧
  wo_sim (finishTerminal r o w) =
    if rc_RuntimeSimulator r then (wrs_Release (wo_sim w) (workload_id o)).1 else wo_sim w.
Proof.
  intros Hr due. unfold finishTerminal. fold due.
  set (w1 := if due then _ else _).
  assert ((history (wo_api w1) = history (wo_api w) ∨ due = true ∧ ∃ marked,
     history (wo_api w1) = history (wo_api w) ++ [ObjectWrite o marked] ∧
     w_Status marked = w_Status o ∧ completionCounted marked = true) ∧ wo_sim w1 = wo_sim w) as [Hw1 Hs1].
  { unfold w1. destruct due; [|by split; [left|]].
    destruct (updateObject _ _) as [w2 res] eqn:Hu.
    apply (updateObject_spec _ o) in Hu as (Hs & _ & Hx); [|exact Hr]. cbn [fst]. split; [|exact Hs].
    destruct res as [o'|e]; [|by left]. destruct Hx as (m & Hh & Hst & Ha & _). right. split; [done|].
    exists m. split_and!; [done|done|]. unfold completionCounted. rewrite Ha.
    apply (countCompletion_counted o). }
  destruct (rc_RuntimeSimulator r); [|by split].
  destruct (release_api w1 (workload_id o)) as [-> _]. split; [done|]. unfold release. rewrite Hs1.
  by destruct (wrs_Release (wo_sim w) _).
Qed.

Lemma finishDeleted_spec o w w' out :
  read_as w o o → rc_RuntimeSimulator r = true → sim_inv (wo_sim w) →
  finishDeleted r o w = (w', out) →
  match oc_err out with
  | Some _ => history (wo_api w') = history (wo_api w)
  | None => ¬ holds (wo_sim w') (workload_id o) ∧
      (∀ id, id ≠ workload_id o → holds (wo_sim w') id ↔ holds (wo_sim w) id) ∧
      ∃ after, history (wo_api w') = history (wo_api w) ++ [ObjectWrite o after] ∧
        gpuWorkloadFinalizer ∉ om_Finalizers (w_Meta after) ∧ w_Status after = w_Status o
  end.
Proof.
  intros Hr Hsim Hi. unfold finishDeleted, release. rewrite Hsim.
  destruct (wrs_Release (wo_sim w) _) as [s [e|]] eqn:HR; [by intros [= <- <-]|].
  destruct (release_law _ _ _ _ Hi HR) as (_ & _ & Hh).
  set (w1 := record _ _ _ _ _ _).
  assert (E : wo_api w1 = wo_api w ∧ wo_sim w1 = s) by (apply (record_api (with_sim w s))).
  destruct E as [Ea Es]. set (o1 := with_finalizers _ _).
  assert (Hr1 : read_as w1 o o1) by (unfold read_as; by rewrite Ea).
  destruct (updateObject w1 o1) as [w2 res] eqn:Hu.
  apply (updateObject_spec _ o) in Hu as (E2 & _ & Hx); [|done].
  destruct res as [o'|e]; intros [= <- <-]; simpl; [|by rewrite Hx, Ea].
  rewrite E2, Es. split_and!.
  - intros [? _]%Hh. done.
  - intros id Hne. rewrite Hh. naive_solver.
  - destruct Hx as (after & Hh' & Hst & _ & Hf & _). exists after. rewrite Hh', Ea.
    split_and!; try done. rewrite Hf. apply finalizer_removed.
Qed.
End proofs.

(** ** Theorems *)

Section theorems.
Context {W S : Type} `{ApiLaws W, SimulatorLaws S, ApiMachineryLaws}.
Context (r : GPUWorkloadReconciler) (req : NamespacedName) (now : Time) (w w' : @World W S).
Context (out : outcome) (HR : Reconcile r req now w = (w', out)).

(** C9: every write of a reconciliation is legal: a status write moves the stored phase along the
    lifecycle (new to Queued, Scheduled to Running, Running to Succeeded, Failed or Preempted), never
    on a workload under deletion and never changing the spec; any other write leaves the status
    alone.  In particular no terminal phase is ever left. *)
Theorem reconcile_writes_legal : writes_by legal_write w w'.
Proof using All. by eapply Reconcile_writes. Qed.

(** What the reconciler read. *)
Context (a : W) (o : GPUWorkload) (HG : Get (wo_api w) req = (a, Ok o)).

Lemma read_api : history a = history (wo_api w) ∧ read_as (with_api w a) o o.
Proof using HG.
  destruct (get_keeps (wo_api w) req) as [Hh _]. rewrite HG in Hh. split; [done|].
  destruct (get_ok _ _ _ _ HG) as [Hs _]. done.
Qed.

(** C15: an admitted workload is started before it is marked Running: when the reconciliation of a
    Scheduled workload succeeds, the allocation and then the start were accepted by the simulator
    (or were done already), and the one write is the phase Running; when it fails nothing was
    written, so the workload stays Scheduled and is retried. *)
Theorem admission_executed :
  phase_of o = GPUWorkloadPhaseScheduled → deletionIsZero o = true →
  ContainsFinalizer (om_Finalizers (w_Meta o)) gpuWorkloadFinalizer = true →
  rc_UseWorkerPool r = false → admission_result o now w w' (oc_err out).
Proof using All.
  intros Hp Hz Hf Hu. destruct read_api as [Hh Hr]. revert HR. unfold Reconcile, actuate.
  rewrite HG, Hz, Hf, Hu, Hp. simpl.
  destruct (executeAdmission r o now _) as [w1 err] eqn:He.
  apply executeAdmission_spec in He; [|done|done].
  destruct err; intros [= <- <-]; simpl in *; rewrite <- Hh; done.
Qed.

(** C21: a Running workload follows its run.  With a simulator and without a worker pool, the
    reconciliation of a workload that is Running, not under deletion and has its finalizer asks the
    simulator for the status of its run.  Running, an unknown status or an error that says "not found"
    leave everything as it is, and it comes again in two seconds; any other error is returned.  When the
    run Succeeded, Failed or was Preempted, the same phase is written over the workload as it was read:
    if the server refuses that, its error is returned and nothing is counted or released; otherwise the
    reconciliation ends, the devices are released, and a success, and no other end, is counted as one
    completion, after which the object may be written once more, with its status as it is. *)
Theorem poll_follows_simulator :
  phase_of o = GPUWorkloadPhaseRunning → deletionIsZero o = true →
  ContainsFinalizer (om_Finalizers (w_Meta o)) gpuWorkloadFinalizer = true →
  rc_UseWorkerPool r = false → rc_RuntimeSimulator r = true →
  ∃ res, poll_result o now (with_api w a) w' res ∧
    out = match res with
          | Err e => failed e
          | Ok false => {| oc_RequeueAfter := 2 * Second; oc_err := None |}
          | Ok true => finished
          end.
Proof using All.
  intros Hp Hz Hf Hu Hs. destruct read_api as [_ Hr]. revert HR. unfold Reconcile, actuate.
  rewrite HG, Hz, Hf, Hu, Hp. simpl.
  destruct (pollRunningStatus r o now _) as [[w1 o1] res] eqn:He.
  apply pollRunningStatus_spec in He as [Hres Hd]; [|done|done]. rewrite Hs in Hres.
  destruct res as [[|]|e]; intros E; [exists (Ok true)|exists (Ok false)|exists (Err e)];
    rewrite ?(deletionIsZero_eq o o1 (Hd eq_refl)), ?Hz in E; by injection E as <- <-.
Qed.

(** C22: the reconciler and a workload that is over.  One reconciliation of a workload that it reads in
    phase Succeeded, Failed or Preempted and not under deletion ends without an error and leaves the
    status alone.  A success that is not marked as counted is counted, once, and then at most one write
    is made, over the workload as it was read, that marks it; in all other cases nothing is written or
    counted.  With a simulator the devices are released.  (Other parts of the system do overwrite
    terminal phases; this is about the reconciler.) *)
Theorem terminal_reconciled :
  deletionIsZero o = true →
  phase_of o ∈ [GPUWorkloadPhaseSucceeded; GPUWorkloadPhaseFailed; GPUWorkloadPhasePreempted] →
  let due := bool_decide (phase_of o = GPUWorkloadPhaseSucceeded) && negb (completionCounted o) in
  out = finished ∧
  (history (wo_api w') = history (wo_api w) ∨
   due = true ∧ ∃ marked, history (wo_api w') = history (wo_api w) ++ [ObjectWrite o marked] ∧
     w_Status marked = w_Status o ∧ completionCounted marked = true) ∧
  completions (wo_log w') = (completions (wo_log w) + if due then 1 else 0)%nat ∧
  wo_sim w' = if rc_RuntimeSimulator r then (wrs_Release (wo_sim w) (workload_id o)).1 else wo_sim w.
Proof using All.
  intros Hz Ht. destruct read_api as [Hh Hr]. revert HR. unfold Reconcile. rewrite HG, Hz.
  assert (isTerminalPhase (phase_of o) = true) as -> by
    (rewrite !elem_of_cons, elem_of_nil in Ht; by destruct Ht as [->|[->|[->|[]]]]).
  cbn [andb]. intros [= <- <-]. split_and!; [done|..].
  - destruct (finishTerminal_exact r o (with_api w a) Hr) as [[E|(Hd & m & E & Hm)] _];
      cbn [wo_api with_api] in E; rewrite Hh in E; [by left|right]. by split; [|exists m].
  - exact (finishTerminal_completions r o (with_api w a)).
  - exact (proj2 (finishTerminal_exact r o (with_api w a) Hr)).
Qed.

(** C20: deletion releases before it lets go: when the reconciliation of a workload under deletion
    succeeds, the workload holds no devices any more, the others hold what they held, and the one
    write removed the finalizer; when it fails nothing was written, so the finalizer still protects
    the workload. *)
Theorem deletion_releases :
  deletionIsZero o = false → rc_RuntimeSimulator r = true → sim_inv (wo_sim w) →
  match oc_err out with
  | Some _ => history (wo_api w') = history (wo_api w)
  | None => ¬ holds (wo_sim w') (workload_id o) ∧
      (∀ id, id ≠ workload_id o → holds (wo_sim w') id ↔ holds (wo_sim w) id) ∧
      ∃ after, history (wo_api w') = history (wo_api w) ++ [ObjectWrite o after] ∧
        gpuWorkloadFinalizer ∉ om_Finalizers (w_Meta after) ∧ w_Status after = w_Status o
  end.
Proof using All.
  intros Hz Hs Hi. destruct read_api as [Hh Hr]. revert HR. unfold Reconcile, actuate.
  rewrite HG, Hz. simpl. intros Hd. apply finishDeleted_spec in Hd; [|done..].
  simpl in Hd. by rewrite Hh in Hd.
Qed.
End theorems.

(** ** Witnesses *)

Module ReconcileExample.
Import ResourceExample.
#[export] Existing Instance map_iter_canonical.
#[export] Existing Instance SmallServer.small_client.
#[export] Existing Instance SmallServer.small_laws.
#[export] Existing Instance SmallServer.small_machinery.
#[export] Existing Instance SmallServer.small_machinery_laws.
#[export] Instance env : RunEnv := RuntimeExample.env 0.

Definition req : NamespacedName := {| nn_Namespace := "ns"; nn_Name := "w" |}.
Definition object (phase : GPUWorkloadPhase) (deleted : option Time) : GPUWorkload :=
  let o := workload "w" "team" 1 1024 phase in
  let m := w_Meta o in
  with_meta o
    {| om_Namespace := om_Namespace m; om_Name := om_Name m; om_Generation := om_Generation m;
       om_ResourceVersion := om_ResourceVersion m; om_CreationTimestamp := om_CreationTimestamp m;
       om_DeletionTimestamp := deleted; om_Annotations := None;
       om_Finalizers := [gpuWorkloadFinalizer] |}.
Definition r : GPUWorkloadReconciler :=
  {| rc_RuntimeSimulator := true; rc_Recorder := true; rc_UseWorkerPool := false |}.
Definition world (o : GPUWorkload) : @World SmallServer.server Simulator :=
  {| wo_api := SmallServer.init [o]; wo_sim := SimExample.s1; wo_log := [] |}.
Definition after (o : GPUWorkload) : World * outcome := Reconcile r req 100 (world o).
End ReconcileExample.

Section witness.
Import ReconcileExample.

Lemma reconcile_pair o : Reconcile r req 100 (world o) = ((after o).1, (after o).2).
Proof. unfold after. by destruct (Reconcile _ _ _ _). Qed.

Lemma reconcile_writes_legal_witness :
  writes_by legal_write (world (object PhaseNone None)) (after (object PhaseNone None)).1 ∧
  length (history (wo_api (after (object PhaseNone None)).1)) = 1%nat.
Proof.
  split; [|by vm_compute].
  exact (reconcile_writes_legal r req 100 _ _ _ (reconcile_pair (object PhaseNone None))).
Defined.

Lemma admission_executed_witness :
  let o := object GPUWorkloadPhaseScheduled None in
  oc_err (after o).2 = None ∧
  admission_result o 100 (world o) (after o).1 (oc_err (after o).2).
Proof.
  simpl. split; [by vm_compute|].
  apply (admission_executed r req 100 _ _ _ (reconcile_pair _)
    (wo_api (world (object GPUWorkloadPhaseScheduled None)))); by vm_compute.
Defined.

(** A run that has ended when its workload is reconciled. *)
Lemma poll_follows_simulator_witness :
  let o := object GPUWorkloadPhaseRunning None in
  let w := {| wo_api := SmallServer.init [o]; wo_sim := SimExample.s3; wo_log := [] |} in
  let '(w', out) := Reconcile r req (200 * Second) w in
  out = finished ∧ end_written o GPUWorkloadPhaseSucceeded w w' ∧ sim_allocations (wo_sim w') = ∅.
Proof.
  intros o w. destruct (Reconcile r req (200 * Second) w) as [w' out] eqn:HR.
  assert (Ho : (Reconcile r req (200 * Second) w).2 = finished) by (vm_compute; reflexivity).
  rewrite HR in Ho. simpl in Ho.
  destruct (poll_follows_simulator r req (200 * Second) w w' out HR (wo_api w) o) as (res & Hres & Hout);
    [vm_compute; reflexivity..|].
  assert (Hst : (wrs_GetLatestRunStatusForWorkload (wo_sim w) (200 * Second) (workload_id o)).2 =
                Ok RunStatusSucceeded) by (vm_compute; reflexivity).
  assert (Hal : sim_allocations (wrs_Release (wrs_GetLatestRunStatusForWorkload (wo_sim w)
    (200 * Second) (workload_id o)).1 (workload_id o)).1 = ∅) by (vm_compute; reflexivity).
  unfold poll_result in Hres. change (with_api w (wo_api w)) with w in Hres.
  destruct (wrs_GetLatestRunStatusForWorkload _ _ _) as [s st]. cbn [fst snd] in Hst, Hal. subst st.
  destruct (proj1 Hres _ end_succeeded) as [(e & -> & _)|(_ & Hw & Hs)].
  - rewrite Ho in Hout. discriminate Hout.
  - split; [exact Ho|]. split; [exact Hw|]. rewrite Hs. exact Hal.
Defined.

Lemma terminal_reconciled_witness :
  let o := object GPUWorkloadPhaseSucceeded None in
  (after o).2 = finished ∧ completions (wo_log (after o).1) = 1%nat.
Proof.
  simpl. destruct (terminal_reconciled r req 100 _ _ _
    (reconcile_pair (object GPUWorkloadPhaseSucceeded None))
    (wo_api (world (object GPUWorkloadPhaseSucceeded None))) (object GPUWorkloadPhaseSucceeded None))
    as (Ho & _ & Hc & _); try (by vm_compute); try (by left).
Defined.

Lemma deletion_releases_witness :
  let o := object GPUWorkloadPhaseQueued (Some 7) in
  ¬ holds (wo_sim (after o).1) (workload_id o).
Proof.
  simpl. pose proof (deletion_releases r req 100 _ _ _
    (reconcile_pair (object GPUWorkloadPhaseQueued (Some 7)))
    (wo_api (world (object GPUWorkloadPhaseQueued (Some 7))))
    (object GPUWorkloadPhaseQueued (Some 7)) ltac:(by vm_compute) ltac:(by vm_compute)
    ltac:(by vm_compute)) as Hd.
  assert (Hi : sim_inv (wo_sim (world (object GPUWorkloadPhaseQueued (Some 7)))))
    by exact (proj1 (sim_reach_wf 1 SimExample.s1 SimExample.reach1)).
  specialize (Hd Hi).
  assert (E : oc_err (after (object GPUWorkloadPhaseQueued (Some 7))).2 = None) by (by vm_compute).
  rewrite E in Hd. apply Hd.
Defined.
End witness.
