(* ===== verification/PoolReconciler.v ===== *)
(** * The pool reconciler and the fleet registrar
    (internal/controller/gpunodepool_controller.go, fleet_registrar.go, tenantquota_controller.go)

    A pool resource is registered in the simulator (and mirrored to the remote one), and the usage
    the simulator reports is written back to the status of the resource. *)

From stdpp Require Import prelude gmap strings pretty.
From S2P Require Import Prelude GoFloat SimModel SchedInputs Runtime Simulator Resources Cluster.
From S2P Require Import Reconciler.

Local Open Scope Z_scope.
Local Open Scope go_scope.

(** ** The registrar *)

(** The interface of the reconciler. *)
Class FleetRegistrar (R : Type) := {
  fr_RegisterFleet : R → string → GPUNodePoolSpec → R * option error;
  fr_DeleteFleet : R → string → R;
  fr_FleetUsageForPool : R → string → FleetUsageSnapshot * bool;
}.

(** What a POST ends in: an error of the transport, or a response with its status code, its status
    line and the error text of its body. *)
Inductive httpResult :=
| HttpErr (e : error)
| HttpResponse (statusCode : Z) (status errText : string).

Record registerFleetRequest := { rf_PoolKey : string; rf_Spec : GPUNodePoolSpec }.

(** [net/http]: the requests of the registrar against a remote simulator. *)
Class RemoteSimulator (H : Type) := {
  postRegister : H → string → registerFleetRequest → H * httpResult;
  postDeregister : H → string → string → H * httpResult;
}.

Record MultiFleetRegistrar {H : Type} := {
  mf_Local : option Simulator;
  mf_RemoteBase : string;
  mf_StrictRemote : bool;
  mf_httpClient : H;
}.

(** [strings.TrimSuffix(s, "/")] *)
Definition TrimSuffixSlash (s : string) : string :=
  match rev (bytes s) with
  | c :: l => if decide (c = slash) then of_bytes (rev l) else s
  | [] => s
  end.

Definition StatusOK : Z := 200.

Section registrar.
Context {H : Type} `{RemoteSimulator H, MapIter}.
Local Notation registrar := (@MultiFleetRegistrar H).

Definition NewMultiFleetRegistrar (local : option Simulator) (remoteBase : string)
    (strictRemote : bool) (httpClient : H) : registrar :=
  {| mf_Local := local; mf_RemoteBase := TrimSuffixSlash remoteBase;
     mf_StrictRemote := strictRemote; mf_httpClient := httpClient |}.

Definition with_local (m : registrar) (l : option Simulator) : registrar :=
  {| mf_Local := l; mf_RemoteBase := mf_RemoteBase m; mf_StrictRemote := mf_StrictRemote m;
     mf_httpClient := mf_httpClient m |}.
Definition with_http (m : registrar) (h : H) : registrar :=
  {| mf_Local := mf_Local m; mf_RemoteBase := mf_RemoteBase m;
     mf_StrictRemote := mf_StrictRemote m; mf_httpClient := h |}.

(** The part of [RegisterFleet] after the local update. *)
Definition mirrorFleet (m : registrar) (poolKey : string) (spec : GPUNodePoolSpec)
    : registrar * option error :=
  if decide (mf_RemoteBase m = "") then (m, None)
  else
  let '(h, res) := postRegister (mf_httpClient m) (mf_RemoteBase m +:+ "/v1/fleet/register")
                     {| rf_PoolKey := poolKey; rf_Spec := spec |} in
  let m := with_http m h in
  match res with
  | HttpErr e =>
      (m, if mf_StrictRemote m
          then Some (Wrapf ("remote simulator unreachable (" +:+ mf_RemoteBase m +:+ ")") e) else None)
  | HttpResponse code status errText =>
      if code =? StatusOK then (m, None)
      else
        let msg := if decide (errText ≠ "") then status +:+ ": " +:+ errText else status in
        (m, if mf_StrictRemote m then Some (Errorf ("remote simulator returned " +:+ msg)) else None)
  end.

Definition MultiRegisterFleet (m : registrar) (poolKey : string) (spec : GPUNodePoolSpec)
    : registrar * option error :=
  match mf_Local m with
  | Some s =>
      match RegisterFleet s poolKey spec with
      | (s', Some e) => (with_local m (Some s'), Some e)
      | (s', None) => mirrorFleet (with_local m (Some s')) poolKey spec
      end
  | None => mirrorFleet m poolKey spec
  end.

Definition MultiDeleteFleet (m : registrar) (poolKey : string) : registrar :=
  let m := match mf_Local m with
           | Some s => with_local m (Some (DeleteFleet s poolKey))
           | None => m
           end in
  if decide (mf_RemoteBase m = "" ∨ poolKey = "") then m
  else with_http m (postDeregister (mf_httpClient m)
                      (mf_RemoteBase m +:+ "/v1/fleet/deregister") poolKey).1.

Definition MultiFleetUsageForPool (m : registrar) (poolKey : string) : FleetUsageSnapshot * bool :=
  match mf_Local m with
  | None => (zeroUsage, false)
  | Some s => FleetUsageForPool s poolKey
  end.

#[export] Instance multi_registrar : FleetRegistrar registrar := {|
  fr_RegisterFleet := MultiRegisterFleet;
  fr_DeleteFleet := MultiDeleteFleet;
  fr_FleetUsageForPool := MultiFleetUsageForPool;
|}.
End registrar.

(** ** The reconciler *)

(** The client, on pools. *)
Class PoolClient (W : Type) := {
  GetPool : W → NamespacedName → W * Result GPUNodePool;
  UpdatePoolStatus : W → GPUNodePool → W * Result GPUNodePool;
}.

(** [int32(math.Round(x))] of a finite value: to the nearest integer, halves away from zero. *)
Definition roundInt32 (x : float64) : Z :=
  match x with
  | SpecFloat.S754_finite s m e =>
      let t := if 0 <=? e then Zpos m * 2 ^ e
               else let d := 2 ^ (- e) in (2 * Zpos m + d) / (2 * d) in
      wrap32 (if s : bool then - t else t)
  | _ => 0
  end.

Definition poolSimSpec (pool : GPUNodePool) : GPUNodePoolSpec :=
  {| sp_NodeCount := ps_NodeCount (p_Spec pool); sp_DevicesPerNode := ps_DevicesPerNode (p_Spec pool);
     sp_MemoryMiBPerDevice := ps_MemoryMiBPerDevice (p_Spec pool);
     sp_DeviceType := default "" (ps_DeviceType (p_Spec pool)); sp_Profile := ps_Profile (p_Spec pool) |}.

Definition desiredStatus (usage : FleetUsageSnapshot) : GPUNodePoolStatus :=
  {| pst_TotalDevices := wrap32 (fu_TotalDevices usage);
     pst_AllocatedDevices := wrap32 (fu_AllocatedDevices usage);
     pst_AvailableDevices := wrap32 (fu_AvailableDevices usage);
     pst_UtilizationPct := roundInt32 (fu_Utilization usage * of_int 100)%F |}.

#[export] Instance GPUNodePoolStatus_eq_dec : EqDecision GPUNodePoolStatus.
Proof. solve_decision. Defined.

Definition with_pool_status (p : GPUNodePool) (s : GPUNodePoolStatus) : GPUNodePool :=
  {| p_Meta := p_Meta p; p_Spec := p_Spec p; p_Status := s |}.

Section reconciler.
Context {W R : Type} `{PoolClient W, FleetRegistrar R}.

(** The registrar is [None] when the field is nil; the result is [None] for the call of a method on
    it in the branch for deleted pools. *)
Definition ReconcilePool (req : NamespacedName) (a : W) (fleetRegistrar : option R)
    : option (W * option R * outcome) :=
  let '(a, res) := GetPool a req in
  match res with
  | Err e =>
      if IsNotFound e then
        match fleetRegistrar with
        | None => None
        | Some r => Some (a, Some (fr_DeleteFleet r (nn_String req)), finished)
        end
      else Some (a, fleetRegistrar, failed e)
  | Ok pool =>
  match fleetRegistrar with
  | None => Some (a, None, failed (Errorf "fleet registrar is not configured"))
  | Some r =>
  let poolKey := nn_String req in
  match fr_RegisterFleet r poolKey (poolSimSpec pool) with
  | (r, Some e) => Some (a, Some r, failed e)
  | (r, None) =>
  let '(usage, ok) := fr_FleetUsageForPool r poolKey in
  let usage := if ok : bool then usage else zeroUsage in
  let again := {| oc_RequeueAfter := 120 * Second; oc_err := None |} in
  if decide (p_Status pool = desiredStatus usage) then Some (a, Some r, again)
  else match UpdatePoolStatus a (with_pool_status pool (desiredStatus usage)) with
       | (a, Err e) => Some (a, Some r, failed e)
       | (a, Ok _) => Some (a, Some r, again)
       end
  end end end.
End reconciler.

(** The quota reconciler does nothing: the scheduler loop reads the quotas from its informer. *)
Definition ReconcileQuota (req : NamespacedName) : outcome := finished.

(** ** Proofs *)

Section proofs.
Context {H : Type} `{RemoteSimulator H, MapIter}.
Implicit Types m : @MultiFleetRegistrar H.

Lemma mirrorFleet_spec m key spec m' err :
  mirrorFleet m key spec = (m', err) →
  mf_Local m' = mf_Local m ∧ (err ≠ None → mf_StrictRemote m = true) ∧
  (mf_RemoteBase m = "" → m' = m ∧ err = None).
Proof.
  unfold mirrorFleet. case_decide; [by intros [= <- <-]|].
  destruct (postRegister _ _ _) as [h [e|code status errText]].
  - intros [= <- <-]. split_and!; try done. simpl. by destruct (mf_StrictRemote m).
  - destruct (code =? StatusOK); [by intros [= <- <-]|]. intros [= <- <-].
    split_and!; try done. simpl. by destruct (mf_StrictRemote m).
Qed.

Lemma MultiRegisterFleet_local m s key spec m' :
  mf_Local m = Some s → MultiRegisterFleet m key spec = (m', None) →
  ∃ s', RegisterFleet s key spec = (s', None) ∧ mf_Local m' = Some s'.
Proof.
  intros Hl. unfold MultiRegisterFleet. rewrite Hl.
  destruct (RegisterFleet s key spec) as [s' [e|]]; [done|].
  intros (E & _ & _)%mirrorFleet_spec. by exists s'.
Qed.

Lemma build_count spec key nodes :
  buildNodesWithPoolKey spec key = Ok nodes →
  Z.of_nat (length (node_ids nodes)) = sp_NodeCount spec * sp_DevicesPerNode spec.
Proof.
  intros Hb. pose proof Hb as Hids%build_ids. rewrite Hids.
  unfold buildNodesWithPoolKey in Hb. destruct (sp_NodeCount spec <=? 0) eqn:E1; [done|].
  destruct (sp_DevicesPerNode spec <=? 0) eqn:E2; [done|]. clear Hb Hids.
  assert (Hn : ∀ a n (f : nat → list string) k, (∀ i, length (f i) = k) →
    length (seq a n ≫= f) = (n * k)%nat).
  { intros a n f k Hf. revert a. induction n as [|n IH]; intros a; [done|].
    csimpl. rewrite length_app, Hf, IH. lia. }
  rewrite (Hn _ _ _ (Z.to_nat (sp_DevicesPerNode spec))); [lia|].
  intros i. by rewrite length_fmap, length_seq.
Qed.

Lemma RegisterFleet_nodes s key spec s' :
  key ≠ "" → RegisterFleet s key spec = (s', None) →
  sim_allocations s' = sim_allocations s ∧
  ∃ nodes, sim_pools s' !! key = Some nodes ∧
    Z.of_nat (length (node_ids nodes)) = sp_NodeCount spec * sp_DevicesPerNode spec ∧
    (0 < length (node_ids nodes))%nat.
Proof.
  intros Hk. unfold RegisterFleet. rewrite decide_False by done.
  destruct (buildNodesWithPoolKey spec key) as [nodes|] eqn:Hb; [|done]. intros [= <-].
  split; [done|]. exists nodes. simpl. pose proof (build_count _ _ _ Hb) as Hc.
  split; [apply lookup_insert_eq|]. split; [done|]. unfold buildNodesWithPoolKey in Hb.
  destruct (sp_NodeCount spec <=? 0) eqn:E1; [done|].
  destruct (sp_DevicesPerNode spec <=? 0) eqn:E2; [done|]. nia.
Qed.

Lemma nn_String_nonempty k : nn_String k ≠ "".
Proof. unfold nn_String. by destruct (nn_Namespace k). Qed.

Lemma nn_String_default k : nn_String k ≠ DefaultPoolKey.
Proof.
  intros E%(f_equal slashes). unfold nn_String in E. rewrite !slashes_app in E.
  change (slashes "/") with 1%nat in E. change (slashes DefaultPoolKey) with 0%nat in E. lia.
Qed.

(** The ids that allocations hold and that begin like the ids of the pool, in number. *)
Definition held_under (s : Simulator) (key : string) : Z :=
  Z.of_nat (length (filter (λ id, HasPrefix id (key +:+ "/") = true) (allocated_ids s))).

(** The status that says so, in the 32-bit fields it has. *)
Definition status_of (total held : Z) : GPUNodePoolStatus :=
  {| pst_TotalDevices := wrap32 total;
     pst_AllocatedDevices := wrap32 held;
     pst_AvailableDevices := wrap32 (total - held);
     pst_UtilizationPct := roundInt32 (of_int held / of_int total * of_int 100)%F |}.

Lemma held_under_filter s key :
  key ≠ DefaultPoolKey →
  held_under s key = Z.of_nat (length (filter (λ id, inPool key id = true) (allocated_ids s))).
Proof.
  intros Hk. unfold held_under. do 2 f_equal. apply list_filter_iff. intros id. unfold inPool.
  by rewrite decide_False by done.
Qed.

Lemma desiredStatus_counted s key nodes :
  sim_wf s → sim_pools s !! key = Some nodes → key ≠ DefaultPoolKey →
  (0 < length (node_ids nodes))%nat →
  (FleetUsageForPool s key).2 = true ∧
  desiredStatus (FleetUsageForPool s key).1 =
    status_of (Z.of_nat (length (node_ids nodes))) (held_under s key).
Proof.
  intros Hwf Hk Hdef Hpos. rewrite (pool_usage_counted s key nodes) by done. split; [done|].
  rewrite held_under_filter by done. unfold desiredStatus, usageOf, status_of. simpl.
  by rewrite (proj2 (Z.ltb_lt 0 _)) by lia.
Qed.

Lemma held_under_exact s key nodes :
  sim_wf s → backed s → sim_pools s !! key = Some nodes → key ≠ DefaultPoolKey →
  (∀ k ns, sim_pools s !! k = Some ns → namespaced k ∨ k = DefaultPoolKey) →
  Z.of_nat (length (node_ids nodes)) - held_under s key =
    Z.of_nat (length (filter (λ id, id ∉ allocated_ids s) (node_ids nodes))).
Proof.
  intros Hwf Hb Hk Hdef Hns. rewrite <- (pool_free s key nodes), held_under_filter by done.
  by rewrite (pool_usage s key nodes).
Qed.

(** Up to 64 devices the percentage is checked case by case: it is a nearest integer, halves being
    rounded either way (57.5 becomes 57, as 23/40*100 is a little less in floating point). *)
Definition nearest (total held : Z) : bool :=
  2 * Z.abs (roundInt32 (of_int held / of_int total * of_int 100)%F * total - 100 * held) <=? total.

Lemma nearest_checked :
  forallb (λ t, forallb (λ h, nearest (Z.of_nat t) (Z.of_nat h)) (seq 0 (S t))) (seq 1 64) = true.
Proof. vm_compute. reflexivity. Qed.

Lemma percentage_nearest total held :
  0 < total ≤ 64 → 0 ≤ held ≤ total →
  2 * Z.abs (pst_UtilizationPct (status_of total held) * total - 100 * held) ≤ total.
Proof.
  intros Ht Hh. pose proof nearest_checked as Hc. rewrite forallb_forall in Hc.
  assert (In (Z.to_nat total) (seq 1 64)) as Hin by (apply in_seq; lia).
  specialize (Hc _ Hin). rewrite forallb_forall in Hc.
  assert (In (Z.to_nat held) (seq 0 (S (Z.to_nat total)))) as Hin' by (apply in_seq; lia).
  specialize (Hc _ Hin'). rewrite !Z2Nat.id in Hc by lia. by apply Z.leb_le in Hc.
Qed.

End proofs.

(** ** Theorems *)

Section theorems.
Context {W H : Type} `{PoolClient W, RemoteSimulator H, MapIter}.

(** C23: the status of a pool against the simulator.  When the operator has a local simulator and the
    reconciliation of a pool succeeds, the pool is registered with the devices of its spec, allocations
    are untouched, the pool is looked at again in two minutes, and the status (written, unless it was
    there already) has, as 32-bit numbers: the size of the pool; the number of allocated ids that begin
    with the key of the pool; their difference, which is negative when the pool was shrunk under its
    allocations; and the utilization, the quotient of the first two times 100, rounded.  If moreover
    every allocated device belongs to a registered pool, all keys are namespace/name or the default and
    the size fits 32 bits, then total, allocated and available are the true numbers: available are
    exactly the devices of the pool that nobody holds; and for pools of up to 64 devices the
    utilization is the percentage to the nearest integer. *)
Theorem pool_status_exact (req : NamespacedName) (a a1 a' : W) (m m' : @MultiFleetRegistrar H)
    (s : Simulator) (pool : GPUNodePool) (out : outcome) :
  mf_Local m = Some s → sim_wf s → GetPool a req = (a1, Ok pool) →
  ReconcilePool req a (Some m) = Some (a', Some m', out) → oc_err out = None →
  let total := ps_NodeCount (p_Spec pool) * ps_DevicesPerNode (p_Spec pool) in
  ∃ s' nodes st,
    mf_Local m' = Some s' ∧ sim_wf s' ∧ sim_allocations s' = sim_allocations s ∧
    sim_pools s' !! nn_String req = Some nodes ∧ Z.of_nat (length (node_ids nodes)) = total ∧
    (p_Status pool = st ∧ a' = a1 ∨
     ∃ p', UpdatePoolStatus a1 (with_pool_status pool st) = (a', Ok p')) ∧
    oc_RequeueAfter out = 120 * Second ∧
    st = status_of total (held_under s' (nn_String req)) ∧
    (backed s' → (∀ k ns, sim_pools s' !! k = Some ns → namespaced k ∨ k = DefaultPoolKey) →
     total ≤ int32_max →
     let free := Z.of_nat (length (filter (λ id, id ∉ allocated_ids s') (node_ids nodes))) in
     pst_TotalDevices st = total ∧ pst_AvailableDevices st = free ∧
     pst_AllocatedDevices st = total - free ∧
     (total ≤ 64 → 2 * Z.abs (pst_UtilizationPct st * total - 100 * (total - free)) ≤ total)).
Proof.
  intros Hl Hwf Hg. unfold ReconcilePool. rewrite Hg. simpl.
  destruct (MultiRegisterFleet m (nn_String req) (poolSimSpec pool)) as [m1 [e|]] eqn:Hr;
    [by intros [= _ _ <-]|].
  destruct (MultiRegisterFleet_local _ _ _ _ _ Hl Hr) as (s' & Hs' & Hl').
  pose proof (RegisterFleet_preserves _ _ _ _ _ Hwf Hs') as Hwf'.
  destruct (RegisterFleet_nodes _ _ _ _ (nn_String_nonempty req) Hs') as (Hal & nodes & Hn & Hc & Hpos).
  simpl in Hc. unfold MultiFleetUsageForPool. rewrite Hl'.
  destruct (desiredStatus_counted s' _ _ Hwf' Hn (nn_String_default req) Hpos) as [Hok Hst].
  destruct (FleetUsageForPool s' (nn_String req)) as [usage ok]. simpl in Hok, Hst. subst ok.
  rewrite Hst, Hc. set (st := status_of _ _). intros Ho Herr. exists s', nodes, st.
  assert (Hexact := λ Hb Hns, held_under_exact s' _ _ Hwf' Hb Hn (nn_String_default req) Hns).
  rewrite Hc in Hexact.
  assert (m' = m1 ∧ oc_RequeueAfter out = 120 * Second ∧ (p_Status pool = st ∧ a' = a1 ∨
    ∃ p', UpdatePoolStatus a1 (with_pool_status pool st) = (a', Ok p'))) as (-> & Hreq & Hw).
  { destruct (decide (p_Status pool = st));
      [|destruct (UpdatePoolStatus a1 _) as [a2 [p'|e]] eqn:HU]; simplify_eq/=; eauto. }
  split_and!; try done.
  intros Hb Hns Hmax. specialize (Hexact Hb Hns).
  set (free := Z.of_nat (length (filter _ (node_ids nodes)))) in *.
  assert (held_under s' (nn_String req) = ps_NodeCount (p_Spec pool) * ps_DevicesPerNode (p_Spec pool)
      - free) as Hheld by lia.
  assert (0 ≤ free) by (unfold free; lia).
  assert (0 ≤ held_under s' (nn_String req)) by (unfold held_under; lia).
  subst st. unfold status_of. cbn [pst_TotalDevices pst_AvailableDevices pst_AllocatedDevices].
  rewrite !wrap32_id by (unfold in_int32, int32_min, int32_max in *; lia).
  split_and!; [done|lia|lia|]. intros Hsmall. rewrite <- Hheld. apply percentage_nearest; lia.
Qed.

(** The registrar is local first and best effort remotely: an error of the local simulator is
    returned and nothing is sent; otherwise the local simulator has the pool whatever the remote
    does, an error is returned only in strict mode, and nothing is sent when no remote is set. *)
Theorem registrar_local_first (m m' : @MultiFleetRegistrar H) key spec err s s' lerr :
  mf_Local m = Some s → RegisterFleet s key spec = (s', lerr) →
  MultiRegisterFleet m key spec = (m', err) →
  mf_Local m' = Some s' ∧
  (∀ e, lerr = Some e → err = Some e ∧ mf_httpClient m' = mf_httpClient m) ∧
  (lerr = None → (err ≠ None → mf_StrictRemote m = true) ∧
                 (mf_RemoteBase m = "" → err = None ∧ mf_httpClient m' = mf_httpClient m)).
Proof.
  intros Hl Hs. unfold MultiRegisterFleet. rewrite Hl, Hs. destruct lerr as [e|].
  - intros [= <- <-]. by split_and!; [|intros ? [= <-]|].
  - intros (El & Hstrict & Hbase)%mirrorFleet_spec. simpl in *. split_and!; try done.
    intros _. split; [done|]. intros [-> ->]%Hbase. done.
Qed.
End theorems.

(** ** Witnesses *)

Module PoolExample.
#[export] Existing Instance map_iter_canonical.
(** One pool resource; a status update replaces it.  The remote simulator is down. *)
#[export] Instance one_pool : PoolClient (option GPUNodePool) := {|
  GetPool := λ a _, (a, match a with Some p => Ok p
                                   | None => Err (StatusError NotFound "not found") end);
  UpdatePoolStatus := λ _ p, (Some p, Ok p);
|}.
#[export] Instance down : RemoteSimulator (list string) := {|
  postRegister := λ h url _, (h ++ [url], HttpErr (Errorf "connection refused"));
  postDeregister := λ h url _, (h ++ [url], HttpErr (Errorf "connection refused"));
|}.
Definition req : NamespacedName := {| nn_Namespace := "ns"; nn_Name := "pool" |}.
Definition pool (nodes : Z) : GPUNodePool :=
  {| p_Meta := ResourceExample.meta "ns" "pool";
     p_Spec := {| ps_NodeCount := nodes; ps_DevicesPerNode := 2; ps_MemoryMiBPerDevice := 81920;
                  ps_Profile := "h100_sxm"; ps_DeviceType := Some "gpu" |};
     p_Status := {| pst_TotalDevices := 0; pst_AllocatedDevices := 0; pst_AvailableDevices := 0;
                    pst_UtilizationPct := 0 |} |}.
(** The simulator of the earlier example: three of the four devices of the pool are taken. *)
Definition m (strict : bool) : @MultiFleetRegistrar (list string) :=
  NewMultiFleetRegistrar (Some SimExample.s2) "http://sim/" strict [].
Definition reconciled (nodes : Z) : option (GPUNodePoolStatus * Z) :=
  match ReconcilePool req (Some (pool nodes)) (Some (m false)) with
  | Some (Some p, _, out) => Some (p_Status p, oc_RequeueAfter out)
  | _ => None
  end.
End PoolExample.

Section witness.
Import PoolExample.

Lemma s2_wf : sim_wf SimExample.s2.
Proof. exact (proj1 (sim_reach_wf 2 SimExample.s2 SimExample.reach2)). Qed.

Example reconciled_pool :
  reconciled 2 = Some ({| pst_TotalDevices := 4; pst_AllocatedDevices := 3;
                          pst_AvailableDevices := 1; pst_UtilizationPct := 75 |}, 120 * Second).
Proof. vm_compute. reflexivity. Qed.

(** The simulator after the pool is registered again. *)
Definition again : Simulator := (RegisterFleet SimExample.s2 "ns/pool" (poolSimSpec (pool 2))).1.

Lemma again_backed : backed again.
Proof. apply (pool_backs again "ns/pool"). by vm_compute. Qed.

Lemma again_pools k ns : sim_pools again !! k = Some ns → k = "ns/pool".
Proof. apply only_key. by vm_compute. Qed.

(** The pool of the example: three of its four devices are held, 75 percent. *)
Lemma pool_status_exact_witness :
  ∃ a' m' out s' nodes st,
    ReconcilePool req (Some (pool 2)) (Some (m false)) = Some (a', Some m', out) ∧
    mf_Local m' = Some s' ∧ sim_pools s' !! "ns/pool" = Some nodes ∧
    st = {| pst_TotalDevices := 4; pst_AllocatedDevices := 3; pst_AvailableDevices := 1;
            pst_UtilizationPct := 75 |} ∧
    pst_AvailableDevices st = Z.of_nat (length (filter (λ id, id ∉ allocated_ids s') (node_ids nodes))).
Proof.
  destruct (ReconcilePool req (Some (pool 2)) (Some (m false))) as [[[a' [m'|]] out]|] eqn:E;
    [|by vm_compute in E..].
  assert (Hx : (λ x, (oc_err x.2, x.1.2 ≫= mf_Local)) <$>
    ReconcilePool req (Some (pool 2)) (Some (m false)) =
    Some (None, Some (RegisterFleet SimExample.s2 "ns/pool" (poolSimSpec (pool 2))).1))
    by (vm_compute; reflexivity).
  rewrite E in Hx. apply (inj Some) in Hx. pose proof (f_equal fst Hx) as He.
  pose proof (f_equal snd Hx) as Hs. cbn [fst snd] in He, Hs. cbn in Hs.
  assert (Hg : GetPool (Some (pool 2)) req = (Some (pool 2), Ok (pool 2))) by reflexivity.
  destruct (pool_status_exact req (Some (pool 2)) (Some (pool 2)) a' (m false) m' SimExample.s2
    (pool 2) out eq_refl s2_wf Hg E He) as (s' & nodes & st & Hl & _ & _ & Hn & Hc & _ & _ & Hst & Hex).
  exists a', m', out, s', nodes, st. split; [reflexivity|]. split; [exact Hl|]. split; [exact Hn|].
  rewrite Hs in Hl. apply (inj Some) in Hl. subst s'. split.
  - rewrite Hst. vm_compute. reflexivity.
  - refine (proj1 (proj2 (Hex again_backed _ _))).
    + intros k ns Hk. left. by rewrite (again_pools k ns Hk).
    + vm_compute. discriminate.
Defined.

Lemma registrar_local_first_witness :
  (MultiRegisterFleet (m true) "ns/pool" SimExample.spec).2 ≠ None ∧
  mf_Local (MultiRegisterFleet (m true) "ns/pool" SimExample.spec).1 =
    Some (RegisterFleet SimExample.s2 "ns/pool" SimExample.spec).1.
Proof.
  split; [by vm_compute|].
  exact (proj1 (registrar_local_first (m true) _ "ns/pool" SimExample.spec _ SimExample.s2 _ _
    eq_refl (surjective_pairing _) (surjective_pairing _))).
Defined.

(** Shrinking a pool below its allocations reports a negative number of available devices, ... *)
Example shrunk_pool_negative :
  (λ x, pst_AvailableDevices x.1) <$> reconciled 1 = Some (-1).
Proof. vm_compute. reflexivity. Qed.

(** ... and with it no input of the namespace is valid: nothing is scheduled there, on other pools
    neither, until enough of the allocations are gone. *)
Example shrunk_pool_blocks_namespace :
  (λ x, Validate {| in_QueuedWorkloads := []; in_ScheduledWorkloads := [];
                    in_RunningWorkloads := [];
                    in_FleetFreeCapacity :=
                      aggregateFleetFromPools [with_pool_status (pool 1) x.1];
                    in_TenantQuotas := ∅ |}) <$> reconciled 1 =
  Some (Some (Errorf "fleetFreeCapacity.totalFreeDevices must be >= 0, got -1")).
Proof. vm_compute. reflexivity. Qed.
End witness.
