(* ===== verification/SimHttp.v ===== *)
(** * The simulator over HTTP (internal/sim/http.go, internal/worker/simclient.go)

    The server that exposes the operations of the simulator, the client the workers use, and the two
    together: a remote simulator behaves as the local one. *)

From stdpp Require Import prelude gmap strings pretty.
From S2P Require Import Prelude GoFloat SimModel Placement Runtime Simulator SimErrors Resources.
From S2P Require Import Cluster RunMetrics Reconciler PoolReconciler.

Local Open Scope Z_scope.
Local Open Scope go_scope.

(** ** Paths *)

(** [strings.Split] at a byte, and [strings.Join]. *)
Fixpoint split_byte (sep : Ascii.ascii) (l : list Ascii.ascii) : list (list Ascii.ascii) :=
  match l with
  | [] => [[]]
  | c :: l =>
      if decide (c = sep) then [] :: split_byte sep l
      else match split_byte sep l with
           | h :: t => (c :: h) :: t
           | [] => [[c]]
           end
  end.

Fixpoint join_byte (sep : Ascii.ascii) (l : list (list Ascii.ascii)) : list Ascii.ascii :=
  match l with
  | [] => []
  | [h] => h
  | h :: t => h ++ sep :: join_byte sep t
  end.

Definition Split (s : string) : list string := of_bytes <$> split_byte slash (bytes s).
Definition Join (l : list string) : string := of_bytes (join_byte slash (bytes <$> l)).

Fixpoint strip_prefix (pre s : string) : option string :=
  match pre, s with
  | EmptyString, _ => Some s
  | String c pre', String d s' => if Ascii.eqb c d then strip_prefix pre' s' else None
  | String _ _, EmptyString => None
  end.
Definition TrimPrefix (s pre : string) : string := default s (strip_prefix pre s).

(** Whether [net/http]'s [cleanPath] leaves a path alone; the multiplexer redirects any other. *)
Definition clean_path (path : string) : bool :=
  match Split path with
  | root :: rest =>
      bool_decide (root = "") &&
      bool_decide (Forall (λ p, p ≠ "." ∧ p ≠ "..") rest) &&
      match rev rest with
      | _ :: init => bool_decide (Forall (λ p, p ≠ "") init)
      | [] => false
      end
  | [] => false
  end.

(** ** Messages *)

Record Request := { rq_Method : string; rq_Path : string; rq_Body : string }.
Record Response := { rs_StatusCode : Z; rs_Body : string }.

Record allocateRequest := {
  al_WorkloadID : string; al_GPUCount : Z; al_MemMiB : Z; al_Options : AllocationOptions;
}.
Record deregisterFleetRequest := { df_PoolKey : string }.
Record okResponse := { okr_OK : bool }.
Record startResponse := { sr_RunID : string }.
Record runStatusResponse := { rsr_RunID : string; rsr_Status : RunStatus }.
Record healthResponse := { hr_Status : string }.
Record errorResponse := { er_Error : string }.

(** [encoding/json] for a type. *)
Class Json (A : Type) := {
  Marshal : A → Result string;
  Decode : string → Result A;
}.

(** The types that are sent. *)
Class Codec := {
  json_register :: Json registerFleetRequest;
  json_deregister :: Json deregisterFleetRequest;
  json_allocate :: Json allocateRequest;
  json_start :: Json RuntimeInput;
  json_allocation :: Json Allocation;
  json_ok :: Json okResponse;
  json_started :: Json startResponse;
  json_status :: Json runStatusResponse;
  json_health :: Json healthResponse;
  json_error :: Json errorResponse;
}.

Definition StatusMovedPermanently : Z := 301.
Definition StatusBadRequest : Z := 400.
Definition StatusNotFound : Z := 404.
Definition StatusMethodNotAllowed : Z := 405.
Definition StatusConflict : Z := 409.

Definition StatusText (code : Z) : string :=
  if code =? 200 then "OK" else if code =? 301 then "Moved Permanently"
  else if code =? 400 then "Bad Request" else if code =? 404 then "Not Found"
  else if code =? 405 then "Method Not Allowed" else if code =? 409 then "Conflict" else "".

(** ** The server *)

Section server.
Context `{MapIter, RunEnv, Codec}.

Definition writeJSON `{Json A} (code : Z) (v : A) : Response :=
  {| rs_StatusCode := code;
     rs_Body := match Marshal v with Ok b => b +:+ of_bytes [Ascii.ascii_of_nat 10] | Err _ => "" end |}.
Definition writeError (code : Z) (err : error) : Response :=
  writeJSON code {| er_Error := Error err |}.
Definition NotFoundPage : Response :=
  {| rs_StatusCode := StatusNotFound;
     rs_Body := "404 page not found" +:+ of_bytes [Ascii.ascii_of_nat 10] |}.

(** The decoder, with unknown fields and further values disallowed. *)
Definition decodeJSON `{Json A} (r : Request) : Result A :=
  match Decode (rq_Body r) with
  | Err e => Err (Wrapf "invalid JSON body" e)
  | Ok v => Ok v
  end.

Definition statusForError (err : error) : Z :=
  let msg := ToLower (Error err) in
  if Contains msg "not found" then StatusNotFound
  else if Contains msg "already has an allocation" then StatusConflict
  else if Contains msg "already has a running run" then StatusConflict
  else if Contains msg "already exists" then StatusConflict
  else StatusBadRequest.

(** [requireMethod], with the handler as the rest. *)
Definition requireMethod (s : Simulator) (r : Request) (method : string)
    (k : Simulator * Response * list effect) : Simulator * Response * list effect :=
  if decide (rq_Method r ≠ method)
  then (s, writeError StatusMethodNotAllowed
             (Errorf ("method " +:+ rq_Method r +:+ " not allowed")), [])
  else k.

Definition handleRegisterFleet (s : Simulator) (r : Request) : Simulator * Response * list effect :=
  requireMethod s r "POST"
    match decodeJSON (A := registerFleetRequest) r with
    | Err e => (s, writeError StatusBadRequest e, [])
    | Ok req =>
        let key := if decide (rf_PoolKey req = "") then DefaultPoolKey else rf_PoolKey req in
        match RegisterFleet s key (rf_Spec req) with
        | (s, Some e) => (s, writeError StatusBadRequest e, [])
        | (s, None) => (s, writeJSON StatusOK {| okr_OK := true |}, [])
        end
    end.

Definition handleDeregisterFleet (s : Simulator) (r : Request) : Simulator * Response * list effect :=
  requireMethod s r "POST"
    match decodeJSON (A := deregisterFleetRequest) r with
    | Err e => (s, writeError StatusBadRequest e, [])
    | Ok req => (DeleteFleet s (df_PoolKey req), writeJSON StatusOK {| okr_OK := true |}, [])
    end.

Definition handleAllocate (s : Simulator) (r : Request) : Simulator * Response * list effect :=
  requireMethod s r "POST"
    match decodeJSON (A := allocateRequest) r with
    | Err e => (s, writeError StatusBadRequest e, [])
    | Ok req =>
        match AllocateWithOptions s (al_WorkloadID req) (al_GPUCount req) (al_MemMiB req)
                (al_Options req) with
        | (s, Err e) => (s, writeError (statusForError e) e, [Inc "allocation_failures_total" []])
        | (s, Ok alloc) => (s, writeJSON StatusOK alloc, [])
        end
    end.

Definition handleStart (s : Simulator) (now : Time) (r : Request)
    : Simulator * Response * list effect :=
  requireMethod s r "POST"
    match decodeJSON (A := RuntimeInput) r with
    | Err e => (s, writeError StatusBadRequest e, [])
    | Ok req =>
        match StartWithRuntimeInput s now req with
        | (s, Err e) => (s, writeError (statusForError e) e, [])
        | (s, Ok runID) => (s, writeJSON StatusOK {| sr_RunID := runID |}, [])
        end
    end.

Definition handleRunStatus (s : Simulator) (now : Time) (r : Request)
    : Simulator * Response * list effect :=
  requireMethod s r "GET"
    match Split (TrimPrefix (rq_Path r) "/v1/runs/") with
    | [runID; action] =>
        if decide (runID = "" ∨ action ≠ "status") then (s, NotFoundPage, [])
        else let observed := GetStatusObserved s now runID in
             match GetStatus s now runID with
             | (s, Err e) => (s, writeError (statusForError e) e, observed)
             | (s, Ok status) =>
                 (s, writeJSON StatusOK {| rsr_RunID := runID; rsr_Status := status |}, observed)
             end
    | _ => (s, NotFoundPage, [])
    end.

Definition handleWorkloadAction (s : Simulator) (r : Request) : Simulator * Response * list effect :=
  requireMethod s r "POST"
    (let parts := Split (TrimPrefix (rq_Path r) "/v1/workloads/") in
     match rev parts with
     | action :: ((_ :: _) as init) =>
         let workloadID := Join (rev init) in
         if decide (action = "" ∨ workloadID = "") then (s, NotFoundPage, [])
         else
         let finish (res : Simulator * option error) (observed : list effect) :=
           match res with
           | (s, Some e) => (s, writeError (statusForError e) e, observed)
           | (s, None) => (s, writeJSON StatusOK {| okr_OK := true |}, observed)
           end in
         if decide (action = "preempt")
         then finish (Preempt s workloadID) (PreemptObserved s workloadID)
         else if decide (action = "release") then finish (Release s workloadID) []
         else (s, NotFoundPage, [])
     | _ => (s, NotFoundPage, [])
     end).

Definition handleHealthz (s : Simulator) (r : Request) : Simulator * Response * list effect :=
  requireMethod s r "GET" (s, writeJSON StatusOK {| hr_Status := "ok" |}, []).

(** [promhttp]'s handler, after the gauges were set. *)
Context (promhttp : Request → Response).

Definition handleMetrics (s : Simulator) (r : Request) : Simulator * Response * list effect :=
  requireMethod s r "GET"
    (let totalDevices := int64_sum (λ n, Z.of_nat (length (n_Devices n))) 0 (allNodes s) in
     let allocatedDevices :=
       int64_sum (λ a, Z.of_nat (length (a_DeviceIDs a))) 0 (map_iter (sim_allocations s)).*2 in
     (s, promhttp r, [SetGauge "devices_total" totalDevices;
                      SetGauge "devices_allocated" allocatedDevices])).

(** The multiplexer: a path that is not clean and a subtree without its slash are redirected, an exact
    path or the subtree it lies in has a handler, anything else has none. *)
Definition ServeHTTP (s : Simulator) (now : Time) (r : Request) : Simulator * Response * list effect :=
  let path := rq_Path r in
  let redirect := {| rs_StatusCode := StatusMovedPermanently; rs_Body := "" |} in
  if negb (clean_path path) then (s, redirect, [])
  else if decide (path = "/healthz") then handleHealthz s r
  else if decide (path = "/metrics") then handleMetrics s r
  else if decide (path = "/v1/fleet/register") then handleRegisterFleet s r
  else if decide (path = "/v1/fleet/deregister") then handleDeregisterFleet s r
  else if decide (path = "/v1/allocate") then handleAllocate s r
  else if decide (path = "/v1/start") then handleStart s now r
  else if HasPrefix path "/v1/runs/" then handleRunStatus s now r
  else if HasPrefix path "/v1/workloads/" then handleWorkloadAction s r
  else if decide (path = "/v1/runs" ∨ path = "/v1/workloads") then (s, redirect, [])
  else (s, NotFoundPage, []).
End server.

(** ** The client of the workers *)

(** The interface the workers call. *)
Class SimulatorClient (N : Type) := {
  sc_Allocate : N → string → Z → Z → string → N * option error;
  sc_Start : N → RuntimeInput → N * Result string;
  sc_GetRunStatus : N → string → N * Result RunStatus;
  sc_Release : N → string → N * option error;
}.

(** [http.Client]: the network, and the answer to a request or the error of the transport. *)
Class HTTPTransport (N : Type) := {
  httpPost : N → string → string → N * Result Response;
  httpGet : N → string → N * Result Response;
}.

(** [NewSimClient]: the base URL without a final slash. *)
Record HTTPSimClient := { hc_BaseURL : string }.
Definition NewSimClient (baseURL : string) : HTTPSimClient :=
  {| hc_BaseURL := TrimSuffixSlash baseURL |}.

Section client.
Context {N : Type} `{HTTPTransport N, Codec}.

Definition Status (resp : Response) : string :=
  pretty (rs_StatusCode resp) +:+ " " +:+ StatusText (rs_StatusCode resp).

(** The error made of a response that is no success: its status line, and the error it carries. *)
Definition responseError (what : string) (resp : Response) : error :=
  let text := match Decode (A := errorResponse) (rs_Body resp) with
              | Ok e => er_Error e
              | Err _ => ""
              end in
  if decide (text ≠ "") then Errorf (what +:+ " " +:+ Status resp +:+ ": " +:+ text)
  else Errorf (what +:+ " " +:+ Status resp).

Definition ClientAllocate (c : HTTPSimClient) (n : N) (workloadID : string) (gpuCount memMiB : Z)
    (profile : string) : N * option error :=
  let opts := {| o_PlacementPolicy := PlacementPolicyFirstFit; o_RequireSameNode := false;
                 o_MaxNodes := 0; o_PreferredDeviceType := "";
                 o_PreferredProfile := ToLower (TrimSpace profile) |} in
  let body := match Marshal {| al_WorkloadID := workloadID; al_GPUCount := gpuCount;
                               al_MemMiB := memMiB; al_Options := opts |} with
              | Ok b => b
              | Err _ => ""
              end in
  match httpPost n (hc_BaseURL c +:+ "/v1/allocate") body with
  | (n, Err e) => (n, Some e)
  | (n, Ok resp) =>
      if (rs_StatusCode resp =? StatusOK) || (rs_StatusCode resp =? StatusConflict) then (n, None)
      else (n, Some (responseError "allocate" resp))
  end.

Definition ClientStart (c : HTTPSimClient) (n : N) (input : RuntimeInput) : N * Result string :=
  match Marshal input with
  | Err e => (n, Err e)
  | Ok body =>
      match httpPost n (hc_BaseURL c +:+ "/v1/start") body with
      | (n, Err e) => (n, Err e)
      | (n, Ok resp) =>
          if negb (rs_StatusCode resp =? StatusOK) then (n, Err (responseError "start" resp))
          else match Decode (A := startResponse) (rs_Body resp) with
               | Err e => (n, Err e)
               | Ok out => (n, Ok (sr_RunID out))
               end
      end
  end.

Definition ClientGetRunStatus (c : HTTPSimClient) (n : N) (runID : string) : N * Result RunStatus :=
  match httpGet n (hc_BaseURL c +:+ "/v1/runs/" +:+ runID +:+ "/status") with
  | (n, Err e) => (n, Err e)
  | (n, Ok resp) =>
      if negb (rs_StatusCode resp =? StatusOK) then (n, Err (responseError "get status" resp))
      else match Decode (A := runStatusResponse) (rs_Body resp) with
           | Err e => (n, Err e)
           | Ok out => (n, Ok (rsr_Status out))
           end
  end.

Definition ClientRelease (c : HTTPSimClient) (n : N) (workloadID : string) : N * option error :=
  if decide (workloadID = "") then (n, Some (Errorf "workloadID is required"))
  else match httpPost n (hc_BaseURL c +:+ "/v1/workloads/" +:+ workloadID +:+ "/release") "" with
       | (n, Err e) => (n, Some e)
       | (n, Ok resp) =>
           if rs_StatusCode resp =? StatusOK then (n, None)
           else (n, Some (responseError "release" resp))
       end.

Definition http_sim_client (c : HTTPSimClient) : SimulatorClient N := {|
  sc_Allocate := ClientAllocate c;
  sc_Start := ClientStart c;
  sc_GetRunStatus := ClientGetRunStatus c;
  sc_Release := ClientRelease c;
|}.
End client.

(** ** The two together *)

(** Decoding gives back what was encoded: the documented behaviour for strings that are valid UTF-8
    ([faithful]), also with the newline that an encoder puts after the value. *)
Class JsonLaws (A : Type) `{Json A} := {
  faithful : A → Prop;
  decode_marshal : ∀ v b, faithful v → Marshal v = Ok b → Decode b = Ok v;
  decode_encoded : ∀ v b, faithful v → Marshal v = Ok b →
    Decode (b +:+ of_bytes [Ascii.ascii_of_nat 10]) = Ok v;
}.

Class CodecLaws `{Codec} := {
  laws_register :: JsonLaws registerFleetRequest;
  laws_allocate :: JsonLaws allocateRequest;
  laws_start :: JsonLaws RuntimeInput;
  laws_started :: JsonLaws startResponse;
  laws_status :: JsonLaws runStatusResponse;
  register_marshals : ∀ v : registerFleetRequest, ∃ b, Marshal v = Ok b;
  allocate_marshals : ∀ v : allocateRequest, ∃ b, Marshal v = Ok b;
  started_marshals : ∀ v : startResponse, ∃ b, Marshal v = Ok b;
  status_marshals : ∀ v : runStatusResponse, ∃ b, Marshal v = Ok b;
  started_faithful : ∀ k, faithful {| sr_RunID := run_id k |};
  status_faithful : ∀ k st, live_status st → faithful {| rsr_RunID := run_id k; rsr_Status := st |};
}.

(** A network on which the requests to a base URL reach the handler at once.  It carries URLs of
    letters, digits, dots, dashes and slashes, which need no escaping. *)
Record Net := { net_sim : Simulator; net_now : Time; net_effects : list effect }.

Definition url_byte (c : Ascii.ascii) : bool :=
  let n := Ascii.nat_of_ascii c in
  (((97 <=? n) && (n <=? 122)) || ((45 <=? n) && (n <=? 57)))%nat.

Section direct.
Context `{MapIter, RunEnv, Codec} (promhttp : Request → Response) (base : string).

Definition deliver (n : Net) (method url body : string) : Net * Result Response :=
  match strip_prefix base url with
  | None => (n, Err (Errorf "no such host"))
  | Some path =>
      if negb (forallb url_byte (bytes path)) then (n, Err (Errorf "invalid URL"))
      else
      let '(s, resp, effs) := ServeHTTP promhttp (net_sim n) (net_now n)
                                {| rq_Method := method; rq_Path := path; rq_Body := body |} in
      ({| net_sim := s; net_now := net_now n; net_effects := net_effects n ++ effs |}, Ok resp)
  end.

Definition direct : HTTPTransport Net := {|
  httpPost := λ n url body, deliver n "POST" url body;
  httpGet := λ n url, deliver n "GET" url "";
|}.
End direct.

(** ** Paths and their parts *)

Lemma split_byte_ne sep l : split_byte sep l ≠ [].
Proof. destruct l as [|c l]; simpl; [done|]. case_decide; [done|]. by destruct (split_byte sep l). Qed.

Lemma split_byte_app sep l k :
  split_byte sep (l ++ sep :: k) = split_byte sep l ++ split_byte sep k.
Proof.
  induction l as [|c l IH]; simpl; [by rewrite decide_True|].
  case_decide; simpl; rewrite IH; [done|].
  pose proof (split_byte_ne sep l). by destruct (split_byte sep l).
Qed.

Lemma split_byte_single sep l : sep ∉ l → split_byte sep l = [l].
Proof.
  induction l as [|c l IH]; simpl; [done|]. intros [Hc Hl]%not_elem_of_cons.
  rewrite decide_False by done. by rewrite IH.
Qed.

Lemma join_split sep l : join_byte sep (split_byte sep l) = l.
Proof.
  induction l as [|c l IH]; simpl; [done|]. pose proof (split_byte_ne sep l) as Hn.
  case_decide as Hc; destruct (split_byte sep l) as [|h [|h' t]]; simpl in *; congruence.
Qed.

Lemma Split_app s t : Split (s +:+ "/" +:+ t) = Split s ++ Split t.
Proof. unfold Split. rewrite !bytes_app. simpl. by rewrite split_byte_app, fmap_app. Qed.

Lemma Join_Split s : Join (Split s) = s.
Proof.
  unfold Join, Split. rewrite <- list_fmap_compose.
  assert (bytes ∘ of_bytes <$> split_byte slash (bytes s) = split_byte slash (bytes s)) as ->.
  { rewrite <- list_fmap_id. apply list_fmap_ext. intros i l _. apply bytes_of_bytes. }
  rewrite join_split. apply String.string_of_list_ascii_of_string.
Qed.

Lemma Split_ne s : Split s ≠ [].
Proof. unfold Split. intros E%fmap_nil_inv. by apply split_byte_ne in E. Qed.

Lemma strip_prefix_app p s : strip_prefix p (p +:+ s) = Some s.
Proof. induction p as [|c p IH]; simpl; [by destruct s|]. by rewrite Ascii.eqb_refl. Qed.

Lemma HasPrefix_app p s : HasPrefix (p +:+ s) p = true.
Proof. apply HasPrefix_bytes. rewrite bytes_app. eauto. Qed.

(** Ids that go into a path as they are: letters, digits, dots, dashes and slashes, with no empty part
    and none that the multiplexer would clean away. *)
Definition segment_ok (p : string) : Prop := p ≠ "" ∧ p ≠ "." ∧ p ≠ "..".
#[export] Instance segment_ok_dec p : Decision (segment_ok p).
Proof. apply _. Defined.

Definition plain_id (id : string) : Prop :=
  forallb url_byte (bytes id) = true ∧ Forall segment_ok (Split id).

Lemma plain_id_ne id : plain_id id → id ≠ "".
Proof. intros [_ Hs] ->. inversion_clear Hs as [|?? [? _] _]. done. Qed.

Lemma plain_id_no_space id : plain_id id → no_space id.
Proof.
  intros [Hu _] Hin. rewrite forallb_forall in Hu. apply list_elem_of_In, Hu in Hin. by vm_compute in Hin.
Qed.

(** Below a handler's path. *)
Lemma clean_below pre id suffix :
  plain_id id → Forall segment_ok (Split pre) → Forall segment_ok (Split suffix) →
  clean_path ("/" +:+ pre +:+ "/" +:+ id +:+ "/" +:+ suffix) = true.
Proof.
  intros [_ Hid] Hp Hs. unfold clean_path.
  change ("/" +:+ pre +:+ "/" +:+ id +:+ "/" +:+ suffix)
    with ("" +:+ "/" +:+ pre +:+ "/" +:+ id +:+ "/" +:+ suffix).
  rewrite !Split_app. change (Split "") with [""]. simpl.
  assert (HF : Forall segment_ok (Split pre ++ Split id ++ Split suffix)) by (by rewrite !Forall_app).
  assert (Hl : Split pre ++ Split id ++ Split suffix ≠ [])
    by (intros [E _]%app_eq_nil; by apply Split_ne in E).
  set (l := Split pre ++ Split id ++ Split suffix) in *. clearbody l.
  rewrite bool_decide_true by (eapply Forall_impl; [exact HF|]; by intros p (_ & ? & ?)).
  apply Forall_rev in HF. destruct (rev l) as [|x init] eqn:E.
  - apply (f_equal (@rev _)) in E. by rewrite rev_involutive in E.
  - simpl. apply bool_decide_eq_true. inversion_clear HF. eapply Forall_impl; [eassumption|].
    by intros p (? & _ & _).
Qed.

Lemma TrimPrefix_app p s : TrimPrefix (p +:+ s) p = s.
Proof. unfold TrimPrefix. by rewrite strip_prefix_app. Qed.

Lemma Split_single s : slash ∉ bytes s → Split s = [s].
Proof.
  intros Hs. unfold Split. rewrite split_byte_single by done. simpl. f_equal.
  apply String.string_of_list_ascii_of_string.
Qed.

(** ** The remote simulator *)

Section remote.
Context `{MapIter, RunEnv, CodecLaws} (promhttp : Request → Response) (base : string).
Local Notation client := {| hc_BaseURL := base |}.
Local Instance net_transport : HTTPTransport Net := direct promhttp base.

Lemma deliver_path n method path body :
  forallb url_byte (bytes path) = true →
  deliver promhttp base n method (base +:+ path) body =
  (let '(s, resp, effs) := ServeHTTP promhttp (net_sim n) (net_now n)
                             {| rq_Method := method; rq_Path := path; rq_Body := body |} in
   ({| net_sim := s; net_now := net_now n; net_effects := net_effects n ++ effs |}, Ok resp)).
Proof. intros Hp. unfold deliver. by rewrite strip_prefix_app, Hp. Qed.

Lemma statusForError_allocate s id g m opts s' e :
  no_space id → no_space (policy_of opts) → AllocateWithOptions s id g m opts = (s', Err e) →
  statusForError e = StatusConflict ↔ request_ok id g m ∧ is_Some (sim_allocations s !! id).
Proof.
  intros Hid Hpol HA. destruct (allocate_error_phrases _ _ _ _ _ _ _ Hid Hpol HA) as (Ha & Hn & Hr).
  unfold statusForError. rewrite Hn. unfold already_allocated in Ha.
  destruct (Contains _ "already has an allocation"); [tauto|].
  destruct Hr as [-> ->]; [intros Hx; by apply Ha in Hx|]. split; [done|]. intros Hx. by apply Ha in Hx.
Qed.

Lemma remote_allocate n id g m profile :
  plain_id id →
  let opts := {| o_PlacementPolicy := PlacementPolicyFirstFit; o_RequireSameNode := false;
                 o_MaxNodes := 0; o_PreferredDeviceType := "";
                 o_PreferredProfile := ToLower (TrimSpace profile) |} in
  faithful {| al_WorkloadID := id; al_GPUCount := g; al_MemMiB := m; al_Options := opts |} →
  let '(s', r) := AllocateWithOptions (net_sim n) id g m opts in
  let '(n', err) := ClientAllocate client n id g m profile in
  net_sim n' = s' ∧ net_now n' = net_now n ∧
  (err = None ↔ (∃ a, r = Ok a) ∨ request_ok id g m ∧ is_Some (sim_allocations (net_sim n) !! id)).
Proof.
  intros Hid opts Hf. destruct (AllocateWithOptions (net_sim n) id g m opts) as [s' r] eqn:HA.
  unfold ClientAllocate. fold opts. destruct (allocate_marshals
    {| al_WorkloadID := id; al_GPUCount := g; al_MemMiB := m; al_Options := opts |}) as [b Hb].
  rewrite Hb. cbn [httpPost net_transport direct hc_BaseURL]. rewrite deliver_path by done.
  change (ServeHTTP promhttp (net_sim n) (net_now n)
    {| rq_Method := "POST"; rq_Path := "/v1/allocate"; rq_Body := b |})
    with (handleAllocate (net_sim n) {| rq_Method := "POST"; rq_Path := "/v1/allocate"; rq_Body := b |}).
  unfold handleAllocate, requireMethod, decodeJSON. simpl.
  rewrite (decode_marshal _ _ Hf Hb). simpl. rewrite HA. destruct r as [a|e]; simpl.
  - split_and!; [done..|]. split; [|done]. eauto.
  - apply statusForError_allocate in HA; [|by apply plain_id_no_space|by apply (bool_decide_unpack _)].
    destruct (Z.eqb_spec (statusForError e) StatusConflict) as [E|E].
    + rewrite orb_true_r. simpl. split_and!; [done..|]. split; [|done]. intros _. right. by apply HA.
    + assert (statusForError e =? StatusOK = false) as ->
        by (unfold statusForError; repeat case_match; done).
      simpl. split_and!; [done..|]. split; [done|]. intros [[a ?]|Hx]; [done|]. by apply HA in Hx.
Qed.

Lemma decode_written `{JsonLaws A} (v : A) code :
  faithful v → (∃ b, Marshal v = Ok b) → Decode (rs_Body (writeJSON code v)) = Ok v.
Proof.
  intros Hf [b Hb]. unfold writeJSON. rewrite Hb. by apply decode_encoded.
Qed.

Lemma statusForError_not_ok e : statusForError e =? StatusOK = false.
Proof. unfold statusForError. by repeat case_match. Qed.

Lemma remote_start n input body :
  faithful input → Marshal input = Ok body →
  let '(s', r) := StartWithRuntimeInput (net_sim n) (net_now n) input in
  let '(n', res) := ClientStart client n input in
  net_sim n' = s' ∧ net_now n' = net_now n ∧
  match r with Ok runID => res = Ok runID | Err _ => ∃ e, res = Err e end.
Proof.
  intros Hf Hb. destruct (StartWithRuntimeInput _ _ _) as [s' r] eqn:HS. unfold ClientStart.
  rewrite Hb. cbn [httpPost net_transport direct hc_BaseURL]. rewrite deliver_path by done.
  change (ServeHTTP promhttp (net_sim n) (net_now n)
    {| rq_Method := "POST"; rq_Path := "/v1/start"; rq_Body := body |})
    with (handleStart (net_sim n) (net_now n)
            {| rq_Method := "POST"; rq_Path := "/v1/start"; rq_Body := body |}).
  unfold handleStart, requireMethod, decodeJSON. simpl.
  rewrite (decode_marshal _ _ Hf Hb). simpl. rewrite HS.
  pose proof (StartWithRuntimeInput_inv _ _ _ _ _ HS) as Hinv.
  destruct r as [runID|e]; cbn -[writeJSON statusForError].
  - destruct Hinv as (? & ? & ? & _ & _ & _ & _ & _ & -> & _).
    rewrite decode_written; [|apply started_faithful|apply started_marshals]. done.
  - unfold writeError, writeJSON. cbn [rs_StatusCode]. rewrite statusForError_not_ok. simpl. eauto.
Qed.

Lemma digit_url d : (d < 10)%N → url_byte (pretty_N_char d) = true ∧ pretty_N_char d ≠ slash.
Proof.
  intros Hd. assert (∃ n, d = N.of_nat n ∧ (n < 10)%nat) as (n & -> & Hn) by (exists (N.to_nat d); lia).
  do 10 (destruct n as [|n]; [by vm_compute|]). lia.
Qed.

Lemma plain_run_id k : 0 ≤ k → plain_id (run_id k) ∧ slash ∉ bytes (run_id k).
Proof.
  intros Hk. assert (∀ c, c ∈ bytes (pretty k) → url_byte c = true ∧ c ≠ slash) as Hd.
  { intros c Hc. assert (pretty k = pretty (Z.to_N k)) as E by (by destruct k).
    rewrite E in Hc. apply pretty_N_bytes in Hc as (d & Hd & ->). by apply digit_url. }
  assert (slash ∉ bytes (run_id k)) as Hs.
  { unfold run_id. rewrite bytes_app, elem_of_app. intros [Hc|Hc]; [|by apply Hd in Hc as [_ ?]].
    revert Hc. by apply (bool_decide_unpack _). }
  split; [|done]. split.
  - unfold run_id. rewrite bytes_app, forallb_app. apply andb_true_iff. split; [done|].
    apply forallb_forall. intros c Hc%list_elem_of_In. by apply Hd.
  - rewrite Split_single by done. apply Forall_singleton. by split_and!.
Qed.

Lemma GetStatus_live s now id s' st :
  sim_wf s → GetStatus s now id = (s', Ok st) → live_status st.
Proof.
  unfold GetStatus, refreshRun. intros Hwf. case_decide; [done|].
  destruct (sim_runs s !! id) as [r|] eqn:Hr; [|done].
  destruct (wf_runs s Hwf id r Hr) as (_ & _ & Hl). destruct (_ && _); intros [= _ <-]; [|done].
  unfold live_status. set_solver.
Qed.

Lemma remote_status n k :
  sim_wf (net_sim n) → 0 ≤ k →
  let '(s', r) := GetStatus (net_sim n) (net_now n) (run_id k) in
  let '(n', res) := ClientGetRunStatus client n (run_id k) in
  net_sim n' = s' ∧ net_now n' = net_now n ∧
  match r with Ok st => res = Ok st | Err _ => ∃ e, res = Err e end.
Proof.
  intros Hwf [Hid Hns]%plain_run_id. destruct (GetStatus _ _ _) as [s' r] eqn:HG.
  unfold ClientGetRunStatus. cbn [httpGet net_transport direct hc_BaseURL].
  set (path := "/v1/runs/" +:+ run_id k +:+ "/status"). rewrite deliver_path.
  2:{ unfold path. rewrite !bytes_app, !forallb_app. destruct Hid as [-> _]. done. }
  assert (clean_path path = true) as Hc.
  { apply (clean_below "v1/runs" (run_id k) "status"); [done|..]; by apply (bool_decide_unpack _). }
  assert (HasPrefix path "/v1/runs/" = true) as Hp by apply HasPrefix_app.
  assert (TrimPrefix path "/v1/runs/" = run_id k +:+ "/" +:+ "status") as Ht by apply TrimPrefix_app.
  unfold ServeHTTP. cbn [rq_Path]. rewrite Hc, Hp. cbn [negb].
  rewrite !decide_False by (unfold path; discriminate).
  unfold handleRunStatus, requireMethod. cbn [rq_Path rq_Method].
  rewrite decide_False by (intros E; by apply E). rewrite Ht, Split_app, Split_single by done. 
  change (Split "status") with ["status"]. cbn [app].
  rewrite decide_False by (intros [E|E]; [by apply plain_id_ne in Hid|by apply E]).
  rewrite HG. destruct r as [st|e]; cbn -[writeJSON statusForError].
  - rewrite decode_written; [done| |apply status_marshals].
    by apply status_faithful; eapply GetStatus_live.
  - unfold writeError, writeJSON. cbn [rs_StatusCode]. rewrite statusForError_not_ok. simpl. eauto.
Qed.

Lemma remote_release n id :
  plain_id id →
  let '(n', err) := ClientRelease client n id in
  net_sim n' = (Release (net_sim n) id).1 ∧ net_now n' = net_now n ∧ err = None.
Proof.
  intros Hid. pose proof (plain_id_ne _ Hid) as Hne. unfold ClientRelease.
  rewrite decide_False by done. cbn [httpPost net_transport direct hc_BaseURL].
  set (path := "/v1/workloads/" +:+ id +:+ "/release"). rewrite deliver_path.
  2:{ unfold path. rewrite !bytes_app, !forallb_app. destruct Hid as [-> _]. done. }
  assert (clean_path path = true) as Hc.
  { apply (clean_below "v1/workloads" id "release"); [done|..]; by apply (bool_decide_unpack _). }
  assert (HasPrefix path "/v1/workloads/" = true) as Hp by apply HasPrefix_app.
  assert (TrimPrefix path "/v1/workloads/" = id +:+ "/" +:+ "release") as Ht by apply TrimPrefix_app.
  assert (HasPrefix path "/v1/runs/" = false) as Hr by done.
  unfold ServeHTTP. cbn [rq_Path]. rewrite Hc, Hp, Hr. cbn [negb].
  rewrite !decide_False by (unfold path; discriminate).
  unfold handleWorkloadAction, requireMethod. cbn [rq_Path rq_Method].
  rewrite decide_False by (intros E; by apply E). rewrite Ht, Split_app, rev_app_distr.
  change (rev (Split "release")) with ["release"]. cbn [app].
  destruct (rev (Split id)) as [|x l] eqn:E.
  { apply (f_equal (@rev _)) in E. rewrite rev_involutive in E. by apply Split_ne in E. }
  rewrite <- E, rev_involutive, Join_Split. rewrite decide_False by (by intros [?|?]).
  rewrite decide_False by done. rewrite decide_True by done.
  unfold Release. rewrite decide_False by done. done.
Qed.

(** *** The mirrored fleet *)

(** The requests of the fleet registrar on this network. *)
Definition post_result (res : Net * Result Response) : Net * httpResult :=
  match res with
  | (n, Err e) => (n, HttpErr e)
  | (n, Ok resp) =>
      (n, HttpResponse (rs_StatusCode resp) (Status resp)
            match Decode (A := errorResponse) (rs_Body resp) with Ok e => er_Error e | Err _ => "" end)
  end.

Definition marshalled `{Json A} (v : A) : string := match Marshal v with Ok b => b | Err _ => "" end.

Local Instance net_registrar : RemoteSimulator Net := {|
  postRegister := λ n url req, post_result (httpPost n url (marshalled req));
  postDeregister := λ n url key, post_result (httpPost n url (marshalled {| df_PoolKey := key |}));
|}.

Lemma remote_register n key spec :
  faithful {| rf_PoolKey := key; rf_Spec := spec |} →
  let '(s', err) := RegisterFleet (net_sim n) key spec in
  let '(n', res) := postRegister n (base +:+ "/v1/fleet/register")
                      {| rf_PoolKey := key; rf_Spec := spec |} in
  net_sim n' = s' ∧ ∃ code status text, res = HttpResponse code status text ∧
    (code = StatusOK ↔ err = None).
Proof.
  intros Hf. destruct (register_marshals {| rf_PoolKey := key; rf_Spec := spec |}) as [b Hb].
  cbn [postRegister net_registrar httpPost net_transport direct]. unfold marshalled. rewrite Hb.
  rewrite deliver_path by done.
  change (ServeHTTP promhttp (net_sim n) (net_now n)
    {| rq_Method := "POST"; rq_Path := "/v1/fleet/register"; rq_Body := b |})
    with (handleRegisterFleet (net_sim n)
            {| rq_Method := "POST"; rq_Path := "/v1/fleet/register"; rq_Body := b |}).
  unfold handleRegisterFleet, requireMethod, decodeJSON. simpl.
  rewrite (decode_marshal _ _ Hf Hb). simpl.
  assert (RegisterFleet (net_sim n) (if decide (key = "") then DefaultPoolKey else key) spec
          = RegisterFleet (net_sim n) key spec) as ->.
  { unfold RegisterFleet. destruct (decide (key = "")) as [->|Hk]; [done|].
    by rewrite decide_False. }
  destruct (RegisterFleet (net_sim n) key spec) as [s' [e|]]; simpl; split; try done; by do 3 eexists.
Qed.

(** C26: Over HTTP the simulator behaves as it does locally.  For ids that need no escaping, each call of
    the workers' client against the server changes the simulator as the operation does and returns its
    result: an allocation is reported as made exactly if it was made or the workload has one already,
    which the server recognises by the text of the error; a started run gives its id, its status is
    that of the simulator, and a release succeeds. *)
Theorem remote_simulator_exact n id :
  plain_id id → sim_wf (net_sim n) →
  (∀ g m profile,
    let opts := {| o_PlacementPolicy := PlacementPolicyFirstFit; o_RequireSameNode := false;
                   o_MaxNodes := 0; o_PreferredDeviceType := "";
                   o_PreferredProfile := ToLower (TrimSpace profile) |} in
    faithful {| al_WorkloadID := id; al_GPUCount := g; al_MemMiB := m; al_Options := opts |} →
    let '(s', r) := AllocateWithOptions (net_sim n) id g m opts in
    let '(n', err) := ClientAllocate client n id g m profile in
    net_sim n' = s' ∧ net_now n' = net_now n ∧
    (err = None ↔ (∃ a, r = Ok a) ∨
                  request_ok id g m ∧ is_Some (sim_allocations (net_sim n) !! id))) ∧
  (∀ input body,
    faithful input → Marshal input = Ok body →
    let '(s', r) := StartWithRuntimeInput (net_sim n) (net_now n) input in
    let '(n', res) := ClientStart client n input in
    net_sim n' = s' ∧ net_now n' = net_now n ∧
    match r with Ok runID => res = Ok runID | Err _ => ∃ e, res = Err e end) ∧
  (∀ k, 0 ≤ k →
    let '(s', r) := GetStatus (net_sim n) (net_now n) (run_id k) in
    let '(n', res) := ClientGetRunStatus client n (run_id k) in
    net_sim n' = s' ∧ net_now n' = net_now n ∧
    match r with Ok st => res = Ok st | Err _ => ∃ e, res = Err e end) ∧
  (let '(n', err) := ClientRelease client n id in
   net_sim n' = (Release (net_sim n) id).1 ∧ net_now n' = net_now n ∧ err = None).
Proof.
  intros Hid Hwf. split_and!.
  - intros g m profile. by apply remote_allocate.
  - apply remote_start.
  - intros k. by apply remote_status.
  - by apply remote_release.
Qed.

(** C30: The fleet registrar keeps the remote simulator in step: when a registration succeeds with
    [StrictRemote] set, the local and the remote simulator have the same nodes under the pool's key,
    and neither changed anything else. *)
Theorem fleet_mirrored (m m' : @MultiFleetRegistrar Net) s key spec :
  mf_Local m = Some s → mf_RemoteBase m = base → base ≠ "" → mf_StrictRemote m = true →
  faithful {| rf_PoolKey := key; rf_Spec := spec |} →
  MultiRegisterFleet m key spec = (m', None) →
  ∃ nodes,
    let key' := if decide (key = "") then DefaultPoolKey else key in
    mf_Local m' = Some (with_pools s (<[key' := nodes]> (sim_pools s))) ∧
    net_sim (mf_httpClient m') =
      with_pools (net_sim (mf_httpClient m)) (<[key' := nodes]> (sim_pools (net_sim (mf_httpClient m)))).
Proof.
  intros Hl Hbase Hne Hstrict Hf. unfold MultiRegisterFleet. rewrite Hl.
  destruct (RegisterFleet s key spec) as [s' [e|]] eqn:HR; [done|].
  unfold mirrorFleet. cbn [mf_RemoteBase with_local mf_httpClient]. rewrite Hbase, decide_False by done.
  pose proof (remote_register (mf_httpClient m) key spec Hf) as Hr. revert HR Hr. unfold RegisterFleet.
  destruct (buildNodesWithPoolKey spec _) as [nodes|e]; [|done]. intros [= <-].
  destruct (postRegister _ _ _) as [n' res]. intros (Hn & code & status & text & -> & Hcode).
  rewrite (proj2 Hcode eq_refl). cbn. intros [= <-]. exists nodes. by rewrite <- Hn.
Qed.
End remote.

(** ** A codec for the example *)

Module HttpExample.
Import SimExample.
Definition newline : Ascii.ascii := Ascii.ascii_of_nat 10.
Definition plain (s : string) : string := of_bytes (filter (λ c, c ≠ newline) (bytes s)).

Lemma plain_newline b : plain (b +:+ of_bytes [newline]) = plain b.
Proof.
  unfold plain. rewrite bytes_app, filter_app. change (filter _ (bytes (of_bytes [newline]))) with
    (@nil Ascii.ascii). by rewrite (right_id_L [] (++)).
Qed.

Lemma plain_id_bytes s : newline ∉ bytes s → plain s = s.
Proof.
  intros Hs. unfold plain. rewrite filter_all; [apply String.string_of_list_ascii_of_string|].
  intros c Hc ->. done.
Qed.

(** Types of which one value is sent are coded by one string. *)
Definition constant {A} (v : A) : Json A := {| Marshal := λ _, Ok "x"; Decode := λ _, Ok v |}.
Definition constant_laws {A} (v : A) : @JsonLaws A (constant v).
Proof. by refine (@Build_JsonLaws A (constant v) (λ v', v' = v) _ _); intros v' b ->. Defined.

Definition status_char (st : RunStatus) : string :=
  match st with RunStatusRunning => "r" | RunStatusSucceeded => "s" | RunStatusPreempted => "p"
  | _ => "o" end.
Definition char_status (c : Ascii.ascii) : RunStatus :=
  if Ascii.eqb c (Ascii.ascii_of_nat 114) then RunStatusRunning
  else if Ascii.eqb c (Ascii.ascii_of_nat 115) then RunStatusSucceeded else RunStatusPreempted.

Definition request : allocateRequest :=
  {| al_WorkloadID := "ns/w"; al_GPUCount := 3; al_MemMiB := 40000;
     al_Options := {| o_PlacementPolicy := PlacementPolicyFirstFit; o_RequireSameNode := false;
                      o_MaxNodes := 0; o_PreferredDeviceType := "";
                      o_PreferredProfile := "h100_sxm" |} |}.

#[export] Instance codec : Codec := {|
  json_register := constant {| rf_PoolKey := "ns/pool"; rf_Spec := spec |};
  json_deregister := constant {| df_PoolKey := "" |};
  json_allocate := constant request;
  json_start := constant input;
  json_allocation := constant {| a_WorkloadID := ""; a_DeviceIDs := [] |};
  json_ok := constant {| okr_OK := true |};
  json_started := {| Marshal := λ v, Ok (sr_RunID v); Decode := λ b, Ok {| sr_RunID := plain b |} |};
  json_status :=
    {| Marshal := λ v, Ok (status_char (rsr_Status v) +:+ rsr_RunID v);
       Decode := λ b, match plain b with
                      | String c id => Ok {| rsr_RunID := id; rsr_Status := char_status c |}
                      | EmptyString => Err (Errorf "EOF")
                      end |};
  json_health := constant {| hr_Status := "ok" |};
  json_error := {| Marshal := λ v, Ok (er_Error v); Decode := λ b, Ok {| er_Error := plain b |} |};
|}.

Lemma run_id_no_newline k : newline ∉ bytes (run_id k).
Proof.
  assert (∀ n : N, newline ∉ bytes (pretty n)) as Hn.
  { intros n (d & Hd & E)%pretty_N_bytes. destruct (digit_url d Hd) as [Hu _]. by rewrite <- E in Hu. }
  unfold run_id. rewrite bytes_app, elem_of_app. intros [Hc|Hc].
  - revert Hc. by apply (bool_decide_unpack _).
  - destruct k as [|p|p]; [by apply (Hn 0%N)|by apply (Hn (N.pos p))|].
    apply elem_of_cons in Hc as [?|Hc]; [done|]. by apply (Hn (N.pos p)).
Qed.

Definition started_laws : JsonLaws startResponse.
Proof.
  refine {| faithful := λ v : startResponse, newline ∉ bytes (sr_RunID v) |}.
  all: intros v b Hv [= <-]; simpl; rewrite ?plain_newline, plain_id_bytes by done; by destruct v.
Defined.

Definition status_laws : JsonLaws runStatusResponse.
Proof.
  refine {| faithful := λ v : runStatusResponse,
              newline ∉ bytes (rsr_RunID v) ∧ live_status (rsr_Status v) |}.
  all: intros [id st] b [Hv Hst] [= <-]; simpl in *; rewrite ?plain_newline, plain_id_bytes.
  1,3: unfold live_status in Hst; rewrite !elem_of_cons in Hst;
    by destruct Hst as [->|[->|[->|?%elem_of_nil]]].
  all: rewrite bytes_app, elem_of_app; intros [Hc|Hc]; [|done];
    destruct st; by apply elem_of_cons in Hc as [?|?%elem_of_nil].
Defined.

#[export] Instance codec_laws : CodecLaws.
Proof.
  refine {| laws_register := constant_laws {| rf_PoolKey := "ns/pool"; rf_Spec := spec |};
            laws_allocate := constant_laws request; laws_start := constant_laws input;
            laws_started := started_laws; laws_status := status_laws |}.
  - intros v. by eexists.
  - intros v. by eexists.
  - intros v. by eexists.
  - intros v. by eexists.
  - apply run_id_no_newline.
  - intros k st Hst. split; [apply run_id_no_newline|done].
Defined.

Definition net (s : Simulator) : Net := {| net_sim := s; net_now := 100; net_effects := [] |}.
Definition base : string := "http://simulator:8080".
Definition page (r : Request) : Response := {| rs_StatusCode := StatusOK; rs_Body := "" |}.
#[export] Instance transport : HTTPTransport Net := direct page base.
Definition sim_client : HTTPSimClient := NewSimClient (base +:+ "/").

Lemma sim_client_base : sim_client = {| hc_BaseURL := base |}.
Proof. by vm_compute. Qed.
End HttpExample.

Section witness.
Import SimExample HttpExample.

Lemma remote_simulator_exact_witness :
  (ClientAllocate sim_client (net s1) "ns/w" 3 40000 "H100_SXM").2 = None ∧
  (ClientStart sim_client (net s2) input).2 = Ok "run-1" ∧
  (ClientGetRunStatus sim_client (net s3) "run-1").2 = Ok RunStatusRunning ∧
  (ClientRelease sim_client (net s3) "ns/w").2 = None.
Proof.
  assert (Hid : plain_id "ns/w") by (split; [by vm_compute|by apply (bool_decide_unpack _); vm_compute]).
  destruct (remote_simulator_exact page base (net s1) "ns/w" Hid
    (proj1 (sim_reach_wf 1 s1 reach1))) as (Ha & _).
  destruct (remote_simulator_exact page base (net s2) "ns/w" Hid
    (proj1 (sim_reach_wf 2 s2 reach2))) as (_ & Hs & _).
  destruct (remote_simulator_exact page base (net s3) "ns/w" Hid
    (proj1 (sim_reach_wf 3 s3 reach3))) as (_ & _ & Hg & Hr).
  rewrite sim_client_base. split_and!.
  - specialize (Ha 3 40000 "H100_SXM" eq_refl). revert Ha.
    destruct (AllocateWithOptions _ _ _ _ _) as [s' r] eqn:E, (ClientAllocate _ _ _ _ _ _) as [n' err].
    intros (_ & _ & Ha). apply Ha. left.
    apply (f_equal (λ x, match x.2 with Ok _ => true | Err _ => false end)) in E.
    vm_compute in E. destruct r; [by eexists|done].
  - specialize (Hs input "x" eq_refl eq_refl). revert Hs. change (StartWithRuntimeInput _ _ input) with (StartWithRuntimeInput s2 100 input).
    rewrite started.
    destruct (ClientStart _ _ _) as [n' res]. by intros (_ & _ & ->).
  - specialize (Hg 1 ltac:(done)). revert Hg.
    destruct (GetStatus _ _ _) as [s' r] eqn:E, (ClientGetRunStatus _ _ _) as [n' res].
    intros (_ & _ & Hg). apply (f_equal snd) in E. vm_compute in E. rewrite <- E in Hg. exact Hg.
  - revert Hr. destruct (ClientRelease _ _ _) as [n' err]. by intros (_ & _ & ->).
Defined.

Definition registrar : @MultiFleetRegistrar Net :=
  NewMultiFleetRegistrar (Some NewSimulator) (base +:+ "/") true (net NewSimulator).

Lemma fleet_mirrored_witness :
  ∃ m' nodes,
    MultiRegisterFleet (H0 := net_registrar page base) registrar "ns/pool" spec
      = (m', None) ∧
    mf_Local m' = Some (with_pools NewSimulator {["ns/pool" := nodes]}) ∧
    net_sim (mf_httpClient m') = with_pools NewSimulator {["ns/pool" := nodes]}.
Proof.
  destruct (MultiRegisterFleet (H0 := net_registrar page base) registrar "ns/pool" spec)
    as [m' err] eqn:E.
  assert (err = None) as -> by (apply (f_equal snd) in E; vm_compute in E; by symmetry).
  destruct (fleet_mirrored page base registrar m' NewSimulator "ns/pool" spec eq_refl eq_refl
    ltac:(discriminate) eq_refl eq_refl E) as (nodes & Hl & Hr).
  by exists m', nodes.
Defined.
End witness.
