(* ===== verification/Submitter.v ===== *)
(** * The submitter (internal/submitter, internal/kafka/workload_request.go)

    Requests from Kafka are decoded, validated, mapped to workload resources with a name derived from
    their id, and created; what cannot be used goes to the dead-letter topic. *)

From stdpp Require Import prelude gmap strings pretty.
From S2P Require Import Prelude GoFloat SimModel SchedInputs Resources SchedState Cluster.

Local Open Scope Z_scope.
Local Open Scope go_scope.

(** ** Messages *)

Record TrainingPayload := {
  tp_GlobalBatchSize : Z;
  tp_MicroBatchSize : Z;
  tp_GradAccumSteps : Z;
  tp_SequenceLength : Z;
}.
Record InferencePayload := { ip_BatchSize : Z }.
Record EvalPayload := {
  ep_BatchSize : Z;
  ep_MetricOverheadPct : float64;
  ep_ValidationOverheadPct : float64;
}.
Record FineTunePayload := {
  fp_GlobalBatchSize : Z;
  fp_MicroBatchSize : Z;
  fp_GradAccumSteps : Z;
  fp_WarmStartOverheadPct : float64;
  fp_CheckpointLoadOverheadPct : float64;
}.
Record RLHFPayload := {
  rp_RolloutBatchSize : Z;
  rp_RewardBatchSize : Z;
  rp_UpdateBatchSize : Z;
  rp_PolicyUpdateSteps : Z;
}.
Record EmbeddingPayload := {
  mp_BatchSize : Z;
  mp_VectorDimension : Z;
  mp_AvgTokenLength : Z;
}.
Record DataPreprocessPayload := {
  pp_InputBytes : Z;
  pp_TokenizationOverheadPct : float64;
  pp_AugmentationOverheadPct : float64;
}.
Record DistillationPayload := {
  dp_TeacherProfile : string;
  dp_BatchSize : Z;
  dp_TeacherForwardOverheadPct : float64;
}.

Record WorkloadRequest := {
  wr_RequestID : string;
  wr_Tenant : string;
  wr_Priority : Z;
  wr_GPUCount : Z;
  wr_GPUMemoryMiB : Z;
  wr_Tokens : Z;
  wr_MaxRuntimeSeconds : option Z;
  wr_ModelProfile : string;
  wr_Kind : string;
  wr_Training : option TrainingPayload;
  wr_Inference : option InferencePayload;
  wr_Eval : option EvalPayload;
  wr_FineTune : option FineTunePayload;
  wr_RLHF : option RLHFPayload;
  wr_Embedding : option EmbeddingPayload;
  wr_DataPreprocess : option DataPreprocessPayload;
  wr_Distillation : option DistillationPayload;
}.

(** ** Validation *)

Definition validKinds : list string :=
  ["training"; "inference"; "eval"; "fine_tune"; "rlhf"; "embedding"; "data_preprocess";
   "distillation"].

Definition isNil {A} (o : option A) : bool := match o with None => true | Some _ => false end.

(** Whether the payload of the kind is missing, and the name of its field. *)
Definition missingPayload (req : WorkloadRequest) (kind : string) : option string :=
  let check (k : string) (nil : bool) (field : string) (rest : option string) :=
    if decide (kind = k) then if nil then Some field else None else rest in
  check "training" (isNil (wr_Training req)) "training"
  (check "inference" (isNil (wr_Inference req)) "inference"
  (check "eval" (isNil (wr_Eval req)) "eval"
  (check "fine_tune" (isNil (wr_FineTune req)) "fineTune"
  (check "rlhf" (isNil (wr_RLHF req)) "rlhf"
  (check "embedding" (isNil (wr_Embedding req)) "embedding"
  (check "data_preprocess" (isNil (wr_DataPreprocess req)) "dataPreprocess"
  (check "distillation" (isNil (wr_Distillation req)) "distillation" None))))))).

(** [Validate]; its caller passes the address of a local variable, so the request is never nil. *)
Definition ValidateRequest (req : WorkloadRequest) : option error :=
  if decide (TrimSpace (wr_RequestID req) = "")
  then Some (Errorf "request_id is required and must be non-empty")
  else if decide (TrimSpace (wr_Tenant req) = "")
  then Some (Errorf "tenant is required and must be non-empty")
  else if wr_GPUCount req <? 1 then Some (Errorf "gpuCount must be at least 1")
  else if wr_GPUMemoryMiB req <? 0 then Some (Errorf "gpuMemoryMiB must be non-negative")
  else if wr_Tokens req <? 1 then Some (Errorf "tokens must be at least 1")
  else if match wr_MaxRuntimeSeconds req with Some n => n <? 1 | None => false end
  then Some (Errorf "maxRuntimeSeconds must be at least 1 when set")
  else if decide (TrimSpace (wr_ModelProfile req) = "")
  then Some (Errorf "modelProfile is required and must be non-empty")
  else
  let kind := TrimSpace (ToLower (wr_Kind req)) in
  if decide (kind = "") then Some (Errorf "kind is required")
  else if decide (kind ∉ validKinds)
  then Some (Errorf ("kind " +:+ Quote (wr_Kind req) +:+ " is not valid; must be one of: training, "
    +:+ "inference, eval, fine_tune, rlhf, embedding, data_preprocess, distillation"))
  else match missingPayload req kind with
  | Some field => Some (Errorf ("kind is " +:+ kind +:+ " but " +:+ field +:+ " config is missing"))
  | None => None
  end.

(** ** Names *)

Definition maxCRNameLength : nat := 253.
Definition dash : Ascii.ascii := Ascii.ascii_of_nat 45.
Definition is_dash (c : Ascii.ascii) : bool := bool_decide (c = dash).

(** The complement of the pattern [[^a-z0-9-]]. *)
Definition dns1123Valid (c : Ascii.ascii) : bool :=
  let n := Ascii.nat_of_ascii c in
  (((97 <=? n) && (n <=? 122)) || ((48 <=? n) && (n <=? 57)) || (n =? 45))%nat.

(** [ReplaceAllString(s, "-")], byte by byte: a character of several bytes gives several dashes where
    Go gives one, which trimming and collapsing make the same.  The two letters outside ASCII whose
    lower case is an ASCII letter (U+212A, U+0130) become a letter in Go and dashes here. *)
Definition sanitize (l : list Ascii.ascii) : list Ascii.ascii :=
  (λ c, if dns1123Valid c then c else dash) <$> l.

(** [strings.Contains(s, "--")] and [strings.ReplaceAll(s, "--", "-")] *)
Fixpoint hasDouble (l : list Ascii.ascii) : bool :=
  match l with
  | c :: ((d :: _) as t) => (is_dash c && is_dash d) || hasDouble t
  | _ => false
  end.

Fixpoint replaceDouble (l : list Ascii.ascii) : list Ascii.ascii :=
  match l with
  | c :: ((d :: l') as t) =>
      if is_dash c && is_dash d then dash :: replaceDouble l' else c :: replaceDouble t
  | _ => l
  end.

(** The loop; [None] when [fuel] passes are not enough.  Each pass shortens the string, so its
    length is enough ([collapse_spec]). *)
Fixpoint collapse (fuel : nat) (l : list Ascii.ascii) : option (list Ascii.ascii) :=
  if hasDouble l then
    match fuel with
    | O => None
    | S fuel' => collapse fuel' (replaceDouble l)
    end
  else Some l.

(** [strings.TrimRight(s, "-")] *)
Definition trimRightDash (l : list Ascii.ascii) : list Ascii.ascii :=
  rev (drop_while is_dash (rev l)).

(** [crypto/sha256]: the 32 bytes of the digest. *)
Class Sha256 := {
  Sum256 : string → list Ascii.ascii;
  sum256_length : ∀ s, length (Sum256 s) = 32%nat;
}.

(** [hex.EncodeToString] *)
Definition hexEncode (l : list Ascii.ascii) : list Ascii.ascii :=
  l ≫= λ c, let n := Ascii.nat_of_ascii c in [hex_digit (n / 16)%nat; hex_digit (n mod 16)%nat].

Section submitter.
Context `{Sha256}.

Definition CRNameFromRequestID (requestID : string) : option string :=
  if decide (requestID = "") then Some ""
  else
  let s := trim_list is_dash (sanitize (bytes (ToLower (TrimSpace requestID)))) in
  match collapse (length s) s with
  | None => None
  | Some s =>
      let s := if (maxCRNameLength <? length s)%nat then trimRightDash (take maxCRNameLength s) else s in
      Some (of_bytes (if decide (s = []) then take 16 (hexEncode (Sum256 requestID)) else s))
  end.

(** ** Mapping *)

Definition emptyMeta (namespace name : string) : ObjectMeta :=
  {| om_Namespace := namespace; om_Name := name; om_Generation := 0; om_ResourceVersion := "";
     om_CreationTimestamp := 0; om_DeletionTimestamp := None; om_Annotations := None;
     om_Finalizers := [] |}.

Definition requestSpec (req : WorkloadRequest) : GPUWorkloadSpec :=
  {| ws_Tenant := wr_Tenant req; ws_Priority := wr_Priority req; ws_GPUCount := wr_GPUCount req;
     ws_GPUMemoryMiB := wr_GPUMemoryMiB req; ws_Tokens := wr_Tokens req;
     ws_Profile := wr_ModelProfile req; ws_MaxRuntimeSeconds := wr_MaxRuntimeSeconds req;
     ws_Kind := wr_Kind req;
     ws_Training :=
       (λ t, {| trs_GlobalBatchSize := tp_GlobalBatchSize t; trs_MicroBatchSize := tp_MicroBatchSize t;
                trs_GradAccumSteps := tp_GradAccumSteps t; trs_SequenceLength := tp_SequenceLength t |})
         <$> wr_Training req;
     ws_Inference := (λ i, {| infs_BatchSize := ip_BatchSize i |}) <$> wr_Inference req;
     ws_Eval :=
       (λ e, {| evs_BatchSize := ep_BatchSize e; evs_MetricOverheadPct := ep_MetricOverheadPct e;
                evs_ValidationOverheadPct := ep_ValidationOverheadPct e |}) <$> wr_Eval req;
     ws_FineTune :=
       (λ f, {| fts_GlobalBatchSize := fp_GlobalBatchSize f; fts_MicroBatchSize := fp_MicroBatchSize f;
                fts_GradAccumSteps := fp_GradAccumSteps f;
                fts_WarmStartOverheadPct := fp_WarmStartOverheadPct f;
                fts_CheckpointLoadOverheadPct := fp_CheckpointLoadOverheadPct f |})
         <$> wr_FineTune req;
     ws_RLHF :=
       (λ r, {| rls_RolloutBatchSize := rp_RolloutBatchSize r;
                rls_RewardBatchSize := rp_RewardBatchSize r;
                rls_UpdateBatchSize := rp_UpdateBatchSize r;
                rls_PolicyUpdateSteps := rp_PolicyUpdateSteps r |}) <$> wr_RLHF req;
     ws_Embedding :=
       (λ e, {| ems_BatchSize := mp_BatchSize e; ems_VectorDimension := mp_VectorDimension e;
                ems_AvgTokenLength := mp_AvgTokenLength e |}) <$> wr_Embedding req;
     ws_DataPreprocess :=
       (λ d, {| dps_InputBytes := pp_InputBytes d;
                dps_TokenizationOverheadPct := pp_TokenizationOverheadPct d;
                dps_AugmentationOverheadPct := pp_AugmentationOverheadPct d |})
         <$> wr_DataPreprocess req;
     ws_Distillation :=
       (λ d, {| dis_TeacherProfile := dp_TeacherProfile d; dis_BatchSize := dp_BatchSize d;
                dis_TeacherForwardOverheadPct := dp_TeacherForwardOverheadPct d |})
         <$> wr_Distillation req;
     ws_Jitter := None |}.

(** The outer [option] is the fuel of the name; the inner [None] is the nil result. *)
Definition ToGPUWorkload (req : WorkloadRequest) (namespace : string) : option (option GPUWorkload) :=
  name ← CRNameFromRequestID (wr_RequestID req);
  Some (if decide (name = "") then None
        else Some {| w_Meta := emptyMeta namespace name; w_Spec := requestSpec req;
                     w_Status := {| wst_Phase := PhaseNone; wst_QueuedAt := None;
                                    wst_Conditions := [] |} |}).

(** ** Consuming *)

(** What the consumer reads of a message of the topic. *)
Record Message := { km_Partition : Z; km_Offset : Z; km_Value : string }.

(** The Kafka reader, [json.Unmarshal] of a message, [Client.Create] and the writer of the dead-letter
    topic. *)
Class SubmitterEnv (W : Type) := {
  FetchMessage : W → W * Result Message;
  CommitMessages : W → Message → W * option error;
  Unmarshal : string → Result WorkloadRequest;
  Create : W → GPUWorkload → W * option error;
  WriteDLQ : W → string → string → string → W * option error;
}.

Context {W : Type} `{SubmitterEnv W}.

(** [sendToDLQ]: the value with the headers [dlq_reason] and [dlq_detail]. *)
Definition sendToDLQ (w : W) (value reason detail : string) : W * list effect * option error :=
  let '(w, err) := WriteDLQ w value reason detail in (w, [], err).

Definition processMessage (namespace : string) (msg : Message) (w : W) :
    option (W * list effect * option error) :=
  let value := km_Value msg in
  let dlq reason detail := Some (sendToDLQ w value reason detail) in
  match Unmarshal value with
  | Err e => dlq "invalid_json" (Error e)
  | Ok req =>
  match ValidateRequest req with
  | Some e => dlq "validation_failed" (Error e)
  | None =>
  ocr ← ToGPUWorkload req namespace;
  match ocr with
  | None => dlq "mapper_error" "CR name derived to empty"
  | Some cr =>
      match Create w cr with
      | (w, Some e) => if IsAlreadyExists e then Some (w, [], None) else Some (w, [], Some e)
      | (w, None) => Some (w, [Inc "workload_creations_total" []], None)
      end
  end end end.

(** One iteration of the loop of [Run] while the context is live: the new state, the effects and
    whether the message was committed. *)
Definition runIteration (namespace : string) (w : W) : option (W * list effect * bool) :=
  match FetchMessage w with
  | (w, Err _) => Some (w, [], false)
  | (w, Ok msg) =>
      '(w, effs, err) ← processMessage namespace msg w;
      match err with
      | Some _ => Some (w, effs, false)
      | None =>
          match CommitMessages w msg with
          | (w, Some _) => Some (w, effs, false)
          | (w, None) => Some (w, effs ++ [Inc "messages_consumed_total" []], true)
          end
      end
  end.

Fixpoint runIterations (namespace : string) (n : nat) (w : W) : option W :=
  match n with
  | O => Some w
  | S n => '(w, _, _) ← runIteration namespace w; runIterations namespace n w
  end.
End submitter.

(** ** The derived name *)

(** Lower-case letters, digits and single inner dashes, at most 253 bytes: a DNS-1123 label as far as
    its characters go, and a subdomain as far as its length goes. *)
Definition edges_ok (l : list Ascii.ascii) : Prop :=
  (∀ c, head l = Some c → is_dash c = false) ∧ (∀ c, last l = Some c → is_dash c = false).

Definition name_bytes_ok (l : list Ascii.ascii) : Prop :=
  Forall (λ c, dns1123Valid c = true) l ∧ edges_ok l ∧ hasDouble l = false.

Definition valid_name (s : string) : Prop :=
  s ≠ "" ∧ (length (bytes s) ≤ maxCRNameLength)%nat ∧ name_bytes_ok (bytes s).

Lemma two_step_ind (P : list Ascii.ascii → Prop) :
  P [] → (∀ c, P [c]) → (∀ c d l, P l → P (d :: l) → P (c :: d :: l)) → ∀ l, P l.
Proof.
  intros Hnil Hone Htwo l. cut (P l ∧ ∀ c, P (c :: l)); [tauto|]. induction l as [|d l [IH IHc]]; auto.
Qed.

Lemma replaceDouble_shrinks l :
  (length (replaceDouble l) ≤ length l)%nat ∧
  (hasDouble l = true → length (replaceDouble l) < length l)%nat.
Proof.
  induction l as [|c|c d l IHl IHd] using two_step_ind; [done|done|].
  cbn [replaceDouble hasDouble]. destruct (is_dash c && is_dash d); simpl in *; [lia|].
  destruct IHd as [? IHd]. split; [lia|]. intros E. specialize (IHd E). lia.
Qed.

Lemma replaceDouble_valid l :
  Forall (λ c, dns1123Valid c = true) l → Forall (λ c, dns1123Valid c = true) (replaceDouble l).
Proof.
  induction l as [|c|c d l IHl IHd] using two_step_ind; [done|done|]. intros H.
  inversion_clear H as [|?? Hc Hd]. cbn [replaceDouble].
  destruct (is_dash c && is_dash d); constructor; auto. apply IHl. by inversion Hd.
Qed.

Lemma replaceDouble_head l c :
  head (replaceDouble l) = Some c → ∃ d, head l = Some d ∧ is_dash c = is_dash d.
Proof.
  destruct l as [|x [|y l]]; simpl; [done|eauto|].
  destruct (is_dash x) eqn:Hx, (is_dash y); simpl; intros [= <-]; exists x; by rewrite Hx.
Qed.

Lemma last_cons_ne {A} (x : A) l : l ≠ [] → last (x :: l) = last l.
Proof. by destruct l. Qed.

Lemma replaceDouble_nil l : replaceDouble l = [] → l = [].
Proof. destruct l as [|c [|d l]]; simpl; try done. by destruct (is_dash c && is_dash d). Qed.

Lemma replaceDouble_last l c :
  last (replaceDouble l) = Some c → ∃ d, last l = Some d ∧ is_dash c = is_dash d.
Proof.
  induction l as [|x|x y l IHl IHd] using two_step_ind; [done|simpl; eauto|].
  cbn [replaceDouble]. destruct (is_dash x && is_dash y) eqn:E.
  - apply andb_true_iff in E as [Ex Ey]. destruct (decide (l = [])) as [->|Hl].
    + simpl. intros [= <-]. exists y. by rewrite Ey.
    + rewrite (last_cons_ne dash) by (by intros ?%replaceDouble_nil).
      by rewrite (last_cons_ne x), (last_cons_ne y) by done.
  - change (match l with [] => _ | _ => _ end) with (replaceDouble (y :: l)).
    rewrite (last_cons_ne x) by (by intros ?%replaceDouble_nil). by rewrite (last_cons_ne x) by done.
Qed.

Lemma replaceDouble_edges l : edges_ok l → edges_ok (replaceDouble l).
Proof.
  intros [Hh Hl]. split; intros c Hc.
  - apply replaceDouble_head in Hc as (d & Hd & ->). eauto.
  - apply replaceDouble_last in Hc as (d & Hd & ->). eauto.
Qed.

(** The loop ends within as many passes as the string has bytes. *)
Lemma collapse_spec fuel l :
  (length l ≤ fuel)%nat → Forall (λ c, dns1123Valid c = true) l → edges_ok l →
  ∃ l', collapse fuel l = Some l' ∧ name_bytes_ok l' ∧ (length l' ≤ length l)%nat.
Proof.
  revert l. induction fuel as [|fuel IH]; intros l Hlen Hv He; simpl.
  - destruct l; [|simpl in Hlen; lia]. exists []. split_and!; [done..|lia].
  - destruct (hasDouble l) eqn:E; [|exists l; split_and!; [done..|lia]].
    destruct (replaceDouble_shrinks l) as [? Hs]. specialize (Hs E).
    destruct (IH (replaceDouble l)) as (l' & ? & ? & ?);
      [lia|by apply replaceDouble_valid|by apply replaceDouble_edges|].
    exists l'. split_and!; [done|done|lia].
Qed.

(** *** Trimming and truncation *)

Lemma sanitize_valid l : Forall (λ c, dns1123Valid c = true) (sanitize l).
Proof. apply Forall_fmap, Forall_true. intros c. simpl. by destruct (dns1123Valid c) eqn:?. Qed.

Lemma hasDouble_app_l l k : hasDouble (l ++ k) = false → hasDouble l = false.
Proof.
  induction l as [|c [|d l] IH]; [done|done|]. simpl app. cbn [hasDouble].
  rewrite !orb_false_iff. intros [-> ?]. auto.
Qed.

Lemma trimRightDash_prefix l : ∃ k, l = trimRightDash l ++ k.
Proof.
  unfold trimRightDash. destruct (drop_while_suffix is_dash (rev l)) as (k & Hk & _). exists (rev k).
  apply (f_equal (@rev _)) in Hk. by rewrite rev_involutive, rev_app_distr in Hk.
Qed.

(** A prefix without its trailing dashes is as good as the whole. *)
Lemma truncate_ok n l : name_bytes_ok l → name_bytes_ok (trimRightDash (take n l)).
Proof.
  intros (Hv & [Hh _] & Hd). destruct (trimRightDash_prefix (take n l)) as [k Hk].
  assert (l = trimRightDash (take n l) ++ (k ++ drop n l)) as Hl
    by (by rewrite (assoc_L (++)), <- Hk, take_drop).
  assert (Hlast : ∀ c, last (trimRightDash (take n l)) = Some c → is_dash c = false)
    by (intros c; unfold trimRightDash; rewrite last_rev; apply drop_while_head).
  set (t := trimRightDash (take n l)) in *. clearbody t. split_and!.
  - rewrite Hl in Hv. by apply Forall_app in Hv as [? _].
  - split.
    + intros c Hc. apply Hh. rewrite Hl. by destruct t.
    + exact Hlast.
  - rewrite Hl in Hd. by apply hasDouble_app_l in Hd.
Qed.

Lemma truncate_length n l : (length (trimRightDash (take n l)) ≤ n)%nat.
Proof.
  destruct (trimRightDash_prefix (take n l)) as [k Hk]. apply (f_equal length) in Hk.
  rewrite length_app, length_take in Hk. lia.
Qed.

(** *** The hash *)

Definition is_hex (c : Ascii.ascii) : bool := dns1123Valid c && negb (is_dash c).

Lemma hex_digit_ok n : (n < 16)%nat → is_hex (hex_digit n) = true.
Proof. intros Hn. do 16 (destruct n as [|n]; [by vm_compute|]). lia. Qed.

Lemma hexEncode_ok l : Forall (λ c, is_hex c = true) (hexEncode l).
Proof.
  induction l as [|c l IH]; [done|]. unfold hexEncode. rewrite bind_cons. fold (hexEncode l).
  pose proof (Ascii.nat_ascii_bounded c). apply Forall_app. split; [|done].
  apply Forall_cons; split; [|apply Forall_singleton]; apply hex_digit_ok.
  - apply Nat.Div0.div_lt_upper_bound. lia.
  - apply Nat.mod_upper_bound. lia.
Qed.

Lemma hexEncode_length l : length (hexEncode l) = (2 * length l)%nat.
Proof.
  induction l as [|c l IH]; [done|]. unfold hexEncode. rewrite bind_cons, length_app.
  fold (hexEncode l). rewrite IH. simpl. lia.
Qed.

Lemma no_dash_ok l : Forall (λ c, is_hex c = true) l → name_bytes_ok l.
Proof.
  intros Hl. assert (Hn : ∀ c, c ∈ l → dns1123Valid c = true ∧ is_dash c = false).
  { intros c Hc. rewrite Forall_forall in Hl. specialize (Hl c Hc). unfold is_hex in Hl.
    by apply andb_true_iff in Hl as [? ?%negb_true_iff]. }
  split_and!.
  - apply Forall_forall. naive_solver.
  - split; intros c Hc; apply Hn; [by destruct l; simplify_eq/=; left|by apply last_Some_elem_of].
  - clear Hl. induction l as [|c [|d l] IH]; [done|done|]. cbn [hasDouble].
    destruct (Hn c) as [_ ->]; [left|]. apply IH. intros e He. apply Hn. by right.
Qed.

(** *** Names that are already valid *)

Lemma dns1123Valid_plain c : dns1123Valid c = true → ascii_lower c = c ∧ is_space c = false.
Proof. destruct c as [[] [] [] [] [] [] [] []]; vm_compute; by intros. Qed.

Lemma plain_string s :
  Forall (λ c, dns1123Valid c = true) (bytes s) →
  ToLower (TrimSpace s) = s ∧ sanitize (bytes s) = bytes s.
Proof.
  intros Hv. rewrite Forall_forall in Hv.
  assert (He : ∀ c, c ∈ bytes s → is_space c = false ∧ ascii_lower c = c)
    by (intros c Hc; by destruct (dns1123Valid_plain c (Hv c Hc))).
  assert (TrimSpace s = s) as ->.
  { unfold TrimSpace. rewrite trim_list_id; [apply String.string_of_list_ascii_of_string|..];
      intros c Hc; apply He; [by destruct (bytes s); simplify_eq/=; left|by apply last_Some_elem_of]. }
  split.
  - unfold ToLower. rewrite <- (String.string_of_list_ascii_of_string s) at 2. f_equal.
    rewrite <- list_fmap_id. apply list_fmap_ext. intros i c Hc. by apply He, list_elem_of_lookup_2 with i.
  - unfold sanitize. rewrite <- list_fmap_id. apply list_fmap_ext. intros i c Hc.
    by rewrite Hv by (by apply list_elem_of_lookup_2 with i).
Qed.

Lemma validKinds_workloadKinds k : k ∈ validKinds → k ∈ workloadKinds.
Proof. revert k. apply Forall_forall, (bool_decide_unpack _). by vm_compute. Qed.

Section theorems.
Context `{Sha256}.

Lemma name_of_request requestID :
  requestID ≠ "" → ∃ name, CRNameFromRequestID requestID = Some name ∧ valid_name name.
Proof.
  intros Hid. unfold CRNameFromRequestID. rewrite decide_False by done.
  set (s := trim_list is_dash _).
  destruct (collapse_spec (length s) s) as (l & -> & Hl & _);
    [lia|apply trim_list_Forall, sanitize_valid|apply trim_list_edges|].
  set (t := if (_ <? _)%nat then _ else l).
  assert (name_bytes_ok t ∧ length t ≤ maxCRNameLength)%nat as [Ht Hlen].
  { unfold t. destruct (Nat.ltb_spec maxCRNameLength (length l)); [|done].
    split; [by apply truncate_ok|apply truncate_length]. }
  clearbody t. eexists. split; [done|]. unfold valid_name. rewrite of_bytes_nil, bytes_of_bytes.
  destruct (decide (t = [])) as [_|Hne]; [|by split_and!].
  assert (length (take 16 (hexEncode (Sum256 requestID))) = 16%nat) as Hx
    by (rewrite length_take, hexEncode_length, sum256_length; lia).
  split_and!.
  - intros E. by rewrite E in Hx.
  - rewrite Hx. unfold maxCRNameLength. lia.
  - apply no_dash_ok, Forall_take, hexEncode_ok.
Qed.

Lemma valid_name_fixed s : valid_name s → CRNameFromRequestID s = Some s.
Proof.
  intros (Hne & Hlen & Hv & [Hh Hl] & Hd). destruct (plain_string s Hv) as [E1 E2].
  unfold CRNameFromRequestID. rewrite decide_False by done. rewrite E1, E2, trim_list_id by done.
  assert (collapse (length (bytes s)) (bytes s) = Some (bytes s)) as ->
    by (destruct (length (bytes s)); simpl; by rewrite Hd).
  destruct (Nat.ltb_spec maxCRNameLength (length (bytes s))); [lia|].
  rewrite decide_False; [by rewrite <- (String.string_of_list_ascii_of_string s) at 2|].
  by destruct s.
Qed.

(** C32: Every request id but the empty one has a name, which Kubernetes accepts: 1 to 253 bytes of
    [a-z0-9-], with no dash at either end nor two in a row (so the loop that removes them ends, within
    as many passes as the id has bytes); a name of this form stands for itself. *)
Theorem request_name_valid requestID :
  requestID ≠ "" →
  (∃ name, CRNameFromRequestID requestID = Some name ∧ valid_name name) ∧
  (valid_name requestID → CRNameFromRequestID requestID = Some requestID).
Proof. intros Hid. split; [by apply name_of_request|]. apply valid_name_fixed. Qed.

(** *** Requests that pass the validation *)

(** The runtime configuration of the kind is there. *)
Definition has_payload (spec : GPUWorkloadSpec) (kind : string) : Prop :=
  (kind = "training" → ws_Training spec ≠ None) ∧ (kind = "inference" → ws_Inference spec ≠ None) ∧
  (kind = "eval" → ws_Eval spec ≠ None) ∧ (kind = "fine_tune" → ws_FineTune spec ≠ None) ∧
  (kind = "rlhf" → ws_RLHF spec ≠ None) ∧ (kind = "embedding" → ws_Embedding spec ≠ None) ∧
  (kind = "data_preprocess" → ws_DataPreprocess spec ≠ None) ∧
  (kind = "distillation" → ws_Distillation spec ≠ None).

Lemma missingPayload_None req kind :
  missingPayload req kind = None → has_payload (requestSpec req) kind.
Proof.
  unfold missingPayload, has_payload, requestSpec; simpl. intros Hm.
  split_and!; intros ->; simplify_eq/=; intros E%fmap_None; by rewrite E in Hm.
Qed.

(** What the submitter creates for a request. *)
Definition submitted (namespace : string) (req : WorkloadRequest) (cr : GPUWorkload) : Prop :=
  let kind := TrimSpace (ToLower (wr_Kind req)) in
  om_Namespace (w_Meta cr) = namespace ∧ valid_name (om_Name (w_Meta cr)) ∧
  CRNameFromRequestID (wr_RequestID req) = Some (om_Name (w_Meta cr)) ∧
  w_Spec cr = requestSpec req ∧ kind ∈ validKinds ∧ has_payload (w_Spec cr) kind ∧
  wst_Phase (w_Status cr) = PhaseNone ∧
  (wr_Kind req = kind → 0 < wr_GPUMemoryMiB req → served_workload cr).

Lemma request_submitted namespace req :
  ValidateRequest req = None →
  ∃ cr, ToGPUWorkload req namespace = Some (Some cr) ∧ submitted namespace req cr.
Proof.
  unfold ValidateRequest. intros Hv.
  repeat match type of Hv with
  | (if decide ?P then _ else _) = None => destruct (decide P); [done|]
  | (if ?b then _ else _) = None => destruct b eqn:?; [done|]
  end.
  destruct (missingPayload req _) eqn:Hp in Hv; [done|]. apply missingPayload_None in Hp.
  destruct (name_of_request (wr_RequestID req)) as (name & Hn & Hname).
  { intros E. by rewrite E in *. }
  unfold ToGPUWorkload. rewrite Hn. simpl. rewrite decide_False by (apply Hname).
  eexists. split; [done|]. unfold submitted. simpl.
  assert (TrimSpace (ToLower (wr_Kind req)) ∈ validKinds) as Hkind by (by apply dec_stable).
  split_and!; try done.
  intros Hk Hm. unfold served_workload, sound_request. simpl. split_and!; try done; try lia.
  rewrite Hk. by apply validKinds_workloadKinds.
Qed.

Context {W : Type} `{SubmitterEnv W}.

(** Processing a message always ends, in one of three ways.  A message that does not decode, or
    whose request is not valid, goes to the dead-letter topic as it came, with the reason; the result
    of that write is the result.  A valid request is created as a resource under its derived, valid
    name with its specification and the configuration of its kind; that it exists already is a
    success, without counting a creation; any other error is returned.  The case of an empty name
    does not arise.  If the kind was written in lower case without spaces and memory is requested,
    the created workload is one that the scheduler accepts. *)
Theorem message_outcome namespace msg w :
  ∃ w' effs err, processMessage namespace msg w = Some (w', effs, err) ∧
  match Unmarshal (km_Value msg) with
  | Err e => WriteDLQ w (km_Value msg) "invalid_json" (Error e) = (w', err) ∧ effs = []
  | Ok req =>
      match ValidateRequest req with
      | Some e => WriteDLQ w (km_Value msg) "validation_failed" (Error e) = (w', err) ∧ effs = []
      | None =>
          ∃ cr cerr, submitted namespace req cr ∧ Create w cr = (w', cerr) ∧
            match cerr with
            | None => effs = [Inc "workload_creations_total" []] ∧ err = None
            | Some e => effs = [] ∧ err = if IsAlreadyExists e then None else Some e
            end
      end
  end.
Proof.
  unfold processMessage, sendToDLQ. destruct (Unmarshal (km_Value msg)) as [req|e].
  2:{ destruct (WriteDLQ _ _ _ _) as [w' err]. by exists w', [], err. }
  destruct (ValidateRequest req) as [e|] eqn:Hv.
  { destruct (WriteDLQ _ _ _ _) as [w' err]. by exists w', [], err. }
  destruct (request_submitted namespace req Hv) as (cr & -> & Hs). simpl.
  destruct (Create w cr) as [w' [e|]] eqn:Hc.
  - destruct (IsAlreadyExists e) eqn:He; eexists w', [], _; (split; [done|]);
      exists cr, (Some e); by rewrite He.
  - eexists w', _, None. split; [done|]. by exists cr, None.
Qed.
End theorems.

(** ** A small environment: the example of a message, and what is easy to miss *)

Module SubmitExample.
Instance sha : Sha256 :=
  {| Sum256 := λ _, replicate 32 (Ascii.ascii_of_nat 171); sum256_length := λ _, eq_refl |}.

(** A valid request for a training workload. *)
Definition request (id kind : string) (mem : Z) : WorkloadRequest :=
  {| wr_RequestID := id; wr_Tenant := "team"; wr_Priority := 0; wr_GPUCount := 1;
     wr_GPUMemoryMiB := mem; wr_Tokens := 100; wr_MaxRuntimeSeconds := None;
     wr_ModelProfile := "h100_sxm"; wr_Kind := kind;
     wr_Training := Some {| tp_GlobalBatchSize := 8; tp_MicroBatchSize := 2; tp_GradAccumSteps := 4;
                            tp_SequenceLength := 128 |};
     wr_Inference := None; wr_Eval := None; wr_FineTune := None; wr_RLHF := None;
     wr_Embedding := None; wr_DataPreprocess := None; wr_Distillation := None |}.

(** One partition: the log, the position of the reader, the committed offset; and the API server:
    the names it has, and how many of the next creations time out. *)
Record TopicWorld := {
  wo_log : list string; wo_position : nat; wo_committed : nat;
  wo_names : list string; wo_timeouts : nat;
}.

Instance env : SubmitterEnv TopicWorld := {|
  FetchMessage w :=
    match wo_log w !! wo_position w with
    | None => (w, Err (Errorf "no message"))
    | Some v => ({| wo_log := wo_log w; wo_position := S (wo_position w);
                    wo_committed := wo_committed w; wo_names := wo_names w;
                    wo_timeouts := wo_timeouts w |},
                 Ok {| km_Partition := 0; km_Offset := Z.of_nat (wo_position w); km_Value := v |})
    end;
  CommitMessages w msg :=
    ({| wo_log := wo_log w; wo_position := wo_position w;
        wo_committed := Z.to_nat (km_Offset msg + 1); wo_names := wo_names w;
        wo_timeouts := wo_timeouts w |}, None);
  Unmarshal v := Ok (request v "training" 1024);
  Create w cr :=
    let name := om_Name (w_Meta cr) in
    match wo_timeouts w with
    | S n => ({| wo_log := wo_log w; wo_position := wo_position w; wo_committed := wo_committed w;
                 wo_names := wo_names w; wo_timeouts := n |}, Some (Errorf "timeout"))
    | O => if decide (name ∈ wo_names w) then (w, Some (StatusError AlreadyExists "exists"))
           else ({| wo_log := wo_log w; wo_position := wo_position w; wo_committed := wo_committed w;
                    wo_names := name :: wo_names w; wo_timeouts := 0 |}, None)
    end;
  WriteDLQ w _ _ _ := (w, None);
|}.

Definition start (log : list string) (timeouts : nat) : TopicWorld :=
  {| wo_log := log; wo_position := 0; wo_committed := 0; wo_names := []; wo_timeouts := timeouts |}.
End SubmitExample.

Section examples.
Import SubmitExample.

Lemma request_name_valid_witness :
  (∃ name, CRNameFromRequestID " Req__42! " = Some name ∧ valid_name name) ∧
  CRNameFromRequestID " Req__42! " = Some "req-42".
Proof.
  split; [|vm_compute; reflexivity].
  exact (proj1 (request_name_valid " Req__42! " ltac:(discriminate))).
Defined.

(** An id without usable characters is named by its hash. *)
Example hashed_name : CRNameFromRequestID "!!" = Some "abababababababab".
Proof. vm_compute. reflexivity. Qed.

(** Two request ids can have one name: the second request counts as submitted and no resource is made
    for it. *)
Example colliding_request_dropped :
  (λ w, (wo_names w, wo_committed w)) <$> runIterations "ns" 2 (start ["job_1"; "job.1"] 0)
  = Some (["job-1"], 2%nat).
Proof. vm_compute. reflexivity. Qed.

(** A message whose creation failed is not committed; the next message that is committed moves the
    offset past it, and a reader that resumes there never sees it again. *)
Example failed_message_skipped :
  (λ w, (wo_names w, wo_committed w)) <$> runIterations "ns" 2 (start ["a"; "b"] 1)
  = Some (["b"], 2%nat).
Proof. vm_compute. reflexivity. Qed.

(** The kind is checked without regard to case and spaces and passed on as it was written, so a
    request can be valid and its workload have a kind that no other part of the program knows. *)
Example raw_kind_mapped :
  ValidateRequest (request "a" " Training" 1024) = None ∧
  option_map (option_map (ws_Kind ∘ w_Spec)) (ToGPUWorkload (request "a" " Training" 1024) "ns")
    = Some (Some " Training") ∧
  bool_decide (" Training" ∈ workloadKinds) = false.
Proof. vm_compute. split_and!; reflexivity. Qed.
End examples.
