(* ===== verification/Worker.v ===== *)
(** * The worker deployment (internal/worker)

    A worker pod finds a workload in phase Scheduled (by listing, from an informer's cache, or from the
    claimable topic), claims it by an annotation and the phase Running, runs it on the remote simulator,
    polls the run until it ends, reports the result and releases the devices.

    A response of the API server is taken to replace the worker's copy of the object.  (In Go a field
    absent from the response keeps its value; of such fields the worker reads the annotations only,
    which it copies into its patch.) *)

From stdpp Require Import prelude gmap strings pretty.
From S2P Require Import Prelude GoFloat SimModel SchedInputs Placement Runtime Simulator SimErrors.
From S2P Require Import Resources Cluster SimHttp.

Local Open Scope Z_scope.
Local Open Scope go_scope.

(** ** The runtime input (runtimeinput.go) *)

Definition WorkloadToRuntimeInput (workload : GPUWorkload) : RuntimeInput :=
  let spec := w_Spec workload in
  {| ri_WorkloadID := om_Namespace (w_Meta workload) +:+ "/" +:+ om_Name (w_Meta workload);
     ri_Tokens := ws_Tokens spec;
     ri_Profile := ToLower (TrimSpace (ws_Profile spec));
     ri_Kind := ws_Kind spec;
     ri_Training := option_map
       (λ t, {| tr_GlobalBatchSize := trs_GlobalBatchSize t; tr_MicroBatchSize := trs_MicroBatchSize t;
                tr_GradAccumSteps := trs_GradAccumSteps t; tr_SequenceLength := trs_SequenceLength t |})
       (ws_Training spec);
     ri_Inference := option_map (λ i, {| inf_BatchSize := infs_BatchSize i |}) (ws_Inference spec);
     ri_Eval := option_map
       (λ e, {| ev_BatchSize := evs_BatchSize e; ev_MetricOverheadPct := evs_MetricOverheadPct e;
                ev_ValidationOverheadPct := evs_ValidationOverheadPct e |}) (ws_Eval spec);
     ri_FineTune := option_map
       (λ f, {| ft_GlobalBatchSize := fts_GlobalBatchSize f; ft_MicroBatchSize := fts_MicroBatchSize f;
                ft_GradAccumSteps := fts_GradAccumSteps f;
                ft_WarmStartOverheadPct := fts_WarmStartOverheadPct f;
                ft_CheckpointLoadOverheadPct := fts_CheckpointLoadOverheadPct f |}) (ws_FineTune spec);
     ri_RLHF := option_map
       (λ r, {| rl_RolloutBatchSize := rls_RolloutBatchSize r; rl_RewardBatchSize := rls_RewardBatchSize r;
                rl_UpdateBatchSize := rls_UpdateBatchSize r;
                rl_PolicyUpdateSteps := rls_PolicyUpdateSteps r |}) (ws_RLHF spec);
     ri_Embedding := option_map
       (λ e, {| em_BatchSize := ems_BatchSize e; em_VectorDimension := ems_VectorDimension e;
                em_AvgTokenLength := ems_AvgTokenLength e |}) (ws_Embedding spec);
     ri_DataPreprocess := option_map
       (λ d, {| dp_InputBytes := dps_InputBytes d;
                dp_TokenizationOverheadPct := dps_TokenizationOverheadPct d;
                dp_AugmentationOverheadPct := dps_AugmentationOverheadPct d |}) (ws_DataPreprocess spec);
     ri_Distillation := option_map
       (λ d, {| di_TeacherProfile := ToLower (TrimSpace (dis_TeacherProfile d));
                di_BatchSize := dis_BatchSize d;
                di_TeacherForwardOverheadPct := dis_TeacherForwardOverheadPct d |})
       (ws_Distillation spec);
     ri_Jitter := option_map
       (λ j, {| j_Enabled := js_Enabled j; j_Pct := js_Pct j; j_Seed := default 0 (js_Seed j) |})
       (ws_Jitter spec) |}.

(** ** Metrics (metrics.go) *)

Definition workerLabel (s : string) : string := if decide (s = "") then "unknown" else s.

Definition RecordWorkloadClaimed (workerID : string) : list effect :=
  [Inc "workloads_claimed_total" [workerLabel workerID]].
Definition RecordRunStarted (workerID : string) : list effect :=
  [Inc "runs_started_total" [workerLabel workerID]].
Definition RecordRunCompleted (workerID outcome : string) (startTime : Time) : list effect :=
  [ObserveSince "run_duration_seconds" [workerLabel workerID; workerLabel outcome] startTime;
   Inc "runs_completed_total" [workerLabel workerID; workerLabel outcome]].
Definition RecordError (workerID reason : string) : list effect :=
  [Inc "errors_total" [workerLabel workerID; workerLabel reason]].

(** ** The environment *)

Definition AnnotationClaimedBy : string := "scheduler.ishanchopra.dev/claimed-by".
Definition AllocateStartFailureBackoff : Time := 10 * Second.

(** [DeploymentLoopConfig]; the clients are part of the world, and the maximal number of concurrent
    workloads is not used. *)
Record DeploymentLoopConfig := {
  dl_Namespace : string;
  dl_WorkerID : string;
  dl_PollInterval : Time;
}.

(** The calls besides those of [ApiClient]: the list of a namespace, and a merge patch of the
    annotations, which carries no version. *)
Class WorkerApi (W : Type) := {
  ListWorkloads : W → string → W * Result (list GPUWorkload);
  PatchAnnotations : W → GPUWorkload → gmap string string → W * Result GPUWorkload;
}.

(** [time.Now] and [time.Sleep]: time passes for the simulator. *)
Class Clock (N : Type) := {
  Now : N → Time;
  Sleep : N → Time → N;
}.

Definition claimed (o : GPUWorkload) : bool :=
  match om_Annotations (w_Meta o) with
  | Some a => bool_decide (is_Some (a !! AnnotationClaimedBy))
  | None => false
  end.

(** Phase Scheduled and no claim. *)
Definition claimable (o : GPUWorkload) : bool :=
  bool_decide (phase_of o = GPUWorkloadPhaseScheduled) && negb (claimed o).

Section worker.
Context {W N : Type} `{ApiClient W, WorkerApi W, SimulatorClient N, Clock N}.
Local Notation World := (@Cluster.World W N).

(** ** Claiming *)

(** The whole of [claimWorkload]: the world, the worker's copy of the workload, the error.  A workload
    that is not Scheduled any more is no error. *)
Definition claimWorkload (cfg : DeploymentLoopConfig) (workload : GPUWorkload) (w : World)
    : World * GPUWorkload * option error :=
  let key := key_of (w_Meta workload) in
  match Get (wo_api w) key with
  | (a, Err e) => (with_api w a, workload, Some e)
  | (a, Ok workload) =>
  if decide (phase_of workload ≠ GPUWorkloadPhaseScheduled) then (with_api w a, workload, None)
  else
  let annotations := <[AnnotationClaimedBy := dl_WorkerID cfg]>
                       (default ∅ (om_Annotations (w_Meta workload))) in
  match PatchAnnotations a workload annotations with
  | (a, Err e) => (with_api w a, workload, Some e)
  | (a, Ok workload) =>
  match Get a key with
  | (a, Err e) => (with_api w a, workload, Some e)
  | (a, Ok workload) =>
  let workload := with_phase workload GPUWorkloadPhaseRunning in
  match StatusUpdate a workload with
  | (a, Err e) => (with_api w a, workload, Some e)
  | (a, Ok workload) =>
      (emit (with_api w a) (RecordWorkloadClaimed (dl_WorkerID cfg)), workload, None)
  end end end end.

(** The loop of [findAndClaimScheduledWorkload] over the items of the list. *)
Fixpoint claimFirst (cfg : DeploymentLoopConfig) (items : list GPUWorkload) (w : World)
    : World * Result (option GPUWorkload) :=
  match items with
  | [] => (w, Ok None)
  | o :: items =>
      if negb (claimable o) then claimFirst cfg items w
      else match claimWorkload cfg o w with
           | (w, _, Some e) => if IsConflict e then claimFirst cfg items w else (w, Err e)
           | (w, o, None) => (w, Ok (Some o))
           end
  end.

Definition findAndClaimScheduledWorkload (cfg : DeploymentLoopConfig) (w : World)
    : World * Result (option GPUWorkload) :=
  match ListWorkloads (wo_api w) (dl_Namespace cfg) with
  | (a, Err e) => (with_api w a, Err e)
  | (a, Ok items) => claimFirst cfg items (with_api w a)
  end.

(** ** Running *)

Definition setWorkloadPhase (workload : GPUWorkload) (phase : GPUWorkloadPhase) (w : World) : World :=
  match Get (wo_api w) (key_of (w_Meta workload)) with
  | (a, Err _) => with_api w a
  | (a, Ok latest) => with_api w (StatusUpdate a (with_phase latest phase)).1
  end.

(** Errors are logged and ignored. *)
Definition releaseRemoteAllocation (workloadID : string) (w : World) : World :=
  with_sim w (sc_Release (wo_sim w) workloadID).1.

Definition sleep (d : Time) (w : World) : World := with_sim w (Sleep (wo_sim w) d).

(** How a run of [runOneWorkload] ends; [Polling] when the fuel was not enough. *)
Inductive RunEnd := AllocateFailed | StartFailed | Cancelled | Ended (status : RunStatus) | Polling.

(** The end of a run: count it, report the phase (none for a preempted run), release. *)
Definition completeRun (cfg : DeploymentLoopConfig) (workload : GPUWorkload) (startTime : Time)
    (outcome : string) (phase : option GPUWorkloadPhase) (w : World) : World :=
  let w := emit w (RecordRunCompleted (dl_WorkerID cfg) outcome startTime) in
  let w := match phase with Some p => setWorkloadPhase workload p w | None => w end in
  releaseRemoteAllocation (workload_id workload) w.

(** The polling loop; [done i] says whether the context is done at the [i]-th poll. *)
Fixpoint pollRun (done : nat → bool) (cfg : DeploymentLoopConfig) (workload : GPUWorkload)
    (runID : string) (startTime : Time) (fuel i : nat) (w : World) : World * RunEnd :=
  match fuel with
  | O => (w, Polling)
  | S fuel =>
      if done i then (w, Cancelled)
      else
      let '(n, status) := sc_GetRunStatus (wo_sim w) runID in
      let w := with_sim w n in
      let again := pollRun done cfg workload runID startTime fuel (S i) (sleep (2 * Second) w) in
      match status with
      | Err _ => again
      | Ok RunStatusRunning => again
      | Ok RunStatusSucceeded =>
          (completeRun cfg workload startTime "succeeded" (Some GPUWorkloadPhaseSucceeded) w,
           Ended RunStatusSucceeded)
      | Ok RunStatusFailed =>
          (completeRun cfg workload startTime "failed" (Some GPUWorkloadPhaseFailed) w,
           Ended RunStatusFailed)
      | Ok RunStatusPreempted =>
          (completeRun cfg workload startTime "preempted" None w, Ended RunStatusPreempted)
      | Ok (RunStatusOther _) => again
      end
  end.

Definition runOneWorkload (done : nat → bool) (fuel : nat) (cfg : DeploymentLoopConfig)
    (workload : GPUWorkload) (w : World) : World * RunEnd :=
  let workloadID := workload_id workload in
  let input := WorkloadToRuntimeInput workload in
  let '(n, err) := sc_Allocate (wo_sim w) workloadID (ws_GPUCount (w_Spec workload))
                     (ws_GPUMemoryMiB (w_Spec workload)) (ws_Profile (w_Spec workload)) in
  let w := with_sim w n in
  match err with
  | Some _ =>
      let w := emit w (RecordError (dl_WorkerID cfg) "allocate_failed") in
      let w := setWorkloadPhase workload GPUWorkloadPhaseFailed w in
      (sleep AllocateStartFailureBackoff w, AllocateFailed)
  | None =>
      let '(n, run) := sc_Start (wo_sim w) input in
      let w := with_sim w n in
      match run with
      | Err _ =>
          let w := emit w (RecordError (dl_WorkerID cfg) "start_failed") in
          let w := setWorkloadPhase workload GPUWorkloadPhaseFailed w in
          let w := releaseRemoteAllocation workloadID w in
          (sleep AllocateStartFailureBackoff w, StartFailed)
      | Ok runID =>
          let startTime := Now (wo_sim w) in
          let w := emit w (RecordRunStarted (dl_WorkerID cfg)) in
          pollRun done cfg workload runID startTime fuel 0 w
      end
  end.

(** ** Finding work *)

(** [if cfg.PollInterval <= 0 { cfg.PollInterval = 5 * time.Second }] *)
Definition withPollInterval (cfg : DeploymentLoopConfig) : DeploymentLoopConfig :=
  {| dl_Namespace := dl_Namespace cfg; dl_WorkerID := dl_WorkerID cfg;
     dl_PollInterval := if dl_PollInterval cfg <=? 0 then 5 * Second else dl_PollInterval cfg |}.

(** One iteration of [RunDeploymentLoop], with how the run ended if there was one. *)
Definition deploymentIteration (done : nat → bool) (fuel : nat) (cfg : DeploymentLoopConfig)
    (w : World) : World * option RunEnd :=
  let cfg := withPollInterval cfg in
  match findAndClaimScheduledWorkload cfg w with
  | (w, Err e) =>
      (sleep (dl_PollInterval cfg) (emit w (RecordError (dl_WorkerID cfg) "claim_failed")), None)
  | (w, Ok None) => (sleep (dl_PollInterval cfg) w, None)
  | (w, Ok (Some workload)) =>
      let '(w, e) := runOneWorkload done fuel cfg workload w in (w, Some e)
  end.

(** An object of the informer's cache: not an unstructured object, or one with its namespace and its
    conversion to the typed object. *)
Inductive storeItem :=
| OtherObject
| Unstructured (namespace : string) (typed : Result GPUWorkload).

Fixpoint findClaimableFromStore (store : list storeItem) (namespace : string) : option GPUWorkload :=
  match store with
  | [] => None
  | OtherObject :: store => findClaimableFromStore store namespace
  | Unstructured ns typed :: store =>
      if decide (ns ≠ namespace) then findClaimableFromStore store namespace
      else match typed with
           | Err _ => findClaimableFromStore store namespace
           | Ok o => if claimable o then Some o else findClaimableFromStore store namespace
           end
  end.

(** The handlers of the informer put a token into the trigger channel, which holds one, for an object
    that can be claimed; [isScheduledAndUnclaimedUnstructured] is [claimable] of it. *)
Definition informerEvent (trigger : bool) (o : GPUWorkload) : bool :=
  if claimable o then true else trigger.

(** One iteration of [RunDeploymentLoopWatch] after a token was taken from the channel; the cache
    is read as it is then.  The result has the world, whether the iteration leaves a token in the
    channel, and how the run ended if there was one.  (Tokens the informer puts there meanwhile come
    on top.) *)
Definition watchIteration (done : nat → bool) (fuel : nat) (cfg : DeploymentLoopConfig)
    (store : list storeItem) (w : World) : World * bool * option RunEnd :=
  match findClaimableFromStore store (dl_Namespace cfg) with
  | None => (w, false, None)
  | Some workload =>
      match claimWorkload cfg workload w with
      | (w, _, Some e) =>
          if IsConflict e then (w, true, None)
          else (emit w (RecordError (dl_WorkerID cfg) "claim_failed"), false, None)
      | (w, workload, None) =>
          let '(w, e) := runOneWorkload done fuel cfg workload w in (w, true, Some e)
      end
  end.

(** One iteration of [RunDeploymentLoopQueue] for what the reader returned: an error, or a message
    with its decoding into namespace and name. *)
Definition queueIteration (done : nat → bool) (fuel : nat) (cfg : DeploymentLoopConfig)
    (message : Result (Result (string * string))) (w : World) : World * option RunEnd :=
  match message with
  | Err _ => (sleep (2 * Second) w, None)
  | Ok (Err _) => (w, None)
  | Ok (Ok (namespace, name)) =>
      let ns := if decide (namespace = "") then dl_Namespace cfg else namespace in
      let name := TrimSpace name in
      if decide (ns = "" ∨ name = "") then (w, None)
      else match Get (wo_api w) {| nn_Namespace := ns; nn_Name := name |} with
           | (a, Err _) => (with_api w a, None)
           | (a, Ok workload) =>
               let w := with_api w a in
               if negb (claimable workload) then (w, None)
               else match claimWorkload cfg workload w with
                    | (w, _, Some e) =>
                        (if IsNotFound e then w
                         else emit w (RecordError (dl_WorkerID cfg) "claim_failed"), None)
                    | (w, workload, None) =>
                        let '(w, e) := runOneWorkload done fuel cfg workload w in (w, Some e)
                    end
           end
  end.
End worker.

(** ** The remote simulator of the worker *)

(** The network of [SimHttp] as the client and the clock of a worker. *)
#[export] Instance net_clock : Clock Net := {|
  Now := net_now;
  Sleep := λ n d, {| net_sim := net_sim n; net_now := net_now n + d; net_effects := net_effects n |};
|}.

Definition remote_client `{MapIter, RunEnv, Codec} (promhttp : Request → Response) (base : string)
    : SimulatorClient Net :=
  http_sim_client (H := direct promhttp base) {| hc_BaseURL := base |}.

(** ** The two runtime inputs agree *)

(** A worker asks the remote simulator for the same run as the reconciler asks the local one: the
    two translations of a workload into the simulator's input, written separately, are equal on every
    workload. *)
Theorem runtime_inputs_agree (workload : GPUWorkload) :
  WorkloadToRuntimeInput workload = buildRuntimeInput (workload_id workload) workload.
Proof.
  unfold WorkloadToRuntimeInput, buildRuntimeInput. rewrite MapWorkloadKind_id. done.
Qed.

(** ** Laws of the calls, and what a claim writes *)

(** The documented behaviour of a list and of a merge patch: the patch is applied to whatever is
    stored, the given annotations over those that are there. *)
Class WorkerApiLaws (W : Type) `{ApiLaws W, WorkerApi W} := {
  list_keeps : ∀ w ns, history (ListWorkloads w ns).1 = history w ∧
    ∀ o, was_stored w o → was_stored (ListWorkloads w ns).1 o;
  list_ok : ∀ w ns w' items o, ListWorkloads w ns = (w', Ok items) → o ∈ items →
    was_stored w' o ∧ om_Namespace (w_Meta o) = ns;
  patch_keeps : ∀ w o a o', was_stored w o' → was_stored (PatchAnnotations w o a).1 o';
  patch_ok : ∀ w o a w' o', PatchAnnotations w o a = (w', Ok o') →
    ∃ before after, history w' = history w ++ [ObjectWrite before after] ∧
      was_stored w' before ∧ was_stored w' after ∧ answered o after o' ∧
      key_of (w_Meta before) = key_of (w_Meta o) ∧
      w_Status after = w_Status before ∧ w_Spec after = w_Spec before ∧
      om_Annotations (w_Meta after) = Some (a ∪ default ∅ (om_Annotations (w_Meta before)));
  patch_err : ∀ w o a w' e, PatchAnnotations w o a = (w', Err e) → history w' = history w;
}.

Section claim.
Context {W N : Type} `{WorkerApiLaws W}.
Local Notation World := (@Cluster.World W N).

(** A write of the phase of one workload, and of nothing else. *)
Definition phase_write (key : NamespacedName) (p : GPUWorkloadPhase) (wr : apiWrite) : Prop :=
  ∃ b a, wr = StatusWrite b a ∧ key_of (w_Meta b) = key ∧ w_Status a = w_Status (with_phase b p) ∧
    w_Spec a = w_Spec b ∧ om_Annotations (w_Meta a) = om_Annotations (w_Meta b).

(** A write of the claim of a worker on one workload.  The worker read the workload in phase Scheduled
    and sends back the annotations it read with its claim among them; the patch carries no version, so
    they are put over the annotations that are stored by then, [b], whose status and specification
    stay. *)
Definition claim_write (workerID : string) (key : NamespacedName) (wr : apiWrite) : Prop :=
  ∃ b a (s s' : W) read, wr = ObjectWrite b a ∧ key_of (w_Meta b) = key ∧
    Get s key = (s', Ok read) ∧ phase_of read = GPUWorkloadPhaseScheduled ∧
    w_Status a = w_Status b ∧ w_Spec a = w_Spec b ∧
    om_Annotations (w_Meta a) =
      Some (<[AnnotationClaimedBy := workerID]> (default ∅ (om_Annotations (w_Meta read)))
            ∪ default ∅ (om_Annotations (w_Meta b))).

Lemma claimWorkload_spec cfg o (w w' : World) o' err :
  claimWorkload cfg o w = (w', o', err) →
  wo_sim w' = wo_sim w ∧
  ∃ l, history (wo_api w') = history (wo_api w) ++ l ∧
  match err with
  | None =>
      key_of (w_Meta o') = key_of (w_Meta o) ∧
      ((l = [] ∧ wo_log w' = wo_log w ∧ was_stored (wo_api w') o' ∧
        phase_of o' ≠ GPUWorkloadPhaseScheduled) ∨
       (∃ cw b a, l = [cw; StatusWrite b a] ∧
          claim_write (dl_WorkerID cfg) (key_of (w_Meta o)) cw ∧
          phase_write (key_of (w_Meta o)) GPUWorkloadPhaseRunning (StatusWrite b a) ∧
          phase_of o' = GPUWorkloadPhaseRunning ∧ w_Spec o' = w_Spec b ∧
          wo_log w' = wo_log w ++ RecordWorkloadClaimed (dl_WorkerID cfg)))
  | Some _ =>
      wo_log w' = wo_log w ∧
      (l = [] ∨ ∃ cw, l = [cw] ∧ claim_write (dl_WorkerID cfg) (key_of (w_Meta o)) cw)
  end.
Proof.
  unfold claimWorkload. destruct (Get (wo_api w) _) as [a0 [o1|e]] eqn:HG.
  2:{ intros [= <- <- <-]. split; [done|]. exists []. rewrite app_nil_r.
      pose proof (get_keeps (wo_api w) (key_of (w_Meta o))) as [Hh _]. rewrite HG in Hh. auto. }
  pose proof (get_keeps (wo_api w) (key_of (w_Meta o))) as [Hh0 _]. rewrite HG in Hh0. simpl in Hh0.
  pose proof HG as [Hs1 Hk1]%get_ok. case_decide as Hph.
  { intros [= <- <- <-]. split; [done|]. exists []. rewrite app_nil_r. simpl. auto 10. }
  destruct (PatchAnnotations a0 o1 _) as [a1 [o2|e]] eqn:HP.
  2:{ intros [= <- <- <-]. split; [done|]. exists []. rewrite app_nil_r. simpl.
      apply patch_err in HP. rewrite HP. auto. }
  apply patch_ok in HP as (b1 & af1 & Hh1 & _ & _ & _ & Hkb & Hst & Hsp & Han).
  assert (claim_write (dl_WorkerID cfg) (key_of (w_Meta o)) (ObjectWrite b1 af1)) as Hcw.
  { eexists b1, af1, (wo_api w), a0, o1. split_and!; try done; try congruence; by apply dec_stable. }
  destruct (Get a1 _) as [a2 [o3|e]] eqn:HG2.
  2:{ intros [= <- <- <-]. split; [done|]. exists [ObjectWrite b1 af1]. simpl.
      pose proof (get_keeps a1 (key_of (w_Meta o))) as [Hh _]. rewrite HG2 in Hh. simpl in Hh.
      rewrite Hh, Hh1, Hh0. split; [done|]. eauto. }
  pose proof (get_keeps a1 (key_of (w_Meta o))) as [Hh2 _]. rewrite HG2 in Hh2. simpl in Hh2.
  apply get_ok in HG2 as [Hs3 Hk3].
  destruct (StatusUpdate a2 _) as [a3 [o4|e]] eqn:HU; intros [= <- <- <-]; (split; [done|]).
  - eapply status_write_exact in HU as (af2 & Hh3 & _ & Hans & Hst2 & Hsp2 & _ & Han2); [|exact Hs3|done|done].
    exists [ObjectWrite b1 af1; StatusWrite o3 af2]. simpl.
    rewrite Hh3, Hh2, Hh1, Hh0, <- (assoc_L (++)). split; [done|].
    destruct Hans as (_ & Hk4 & _ & _ & Hst4 & Hsp4). simpl in Hk4. split; [congruence|]. right.
    exists (ObjectWrite b1 af1), o3, af2. split_and!; try done.
    + exists o3, af2. by split_and!.
    + unfold phase_of. by rewrite Hst4, Hst2.
    + congruence.
  - exists [ObjectWrite b1 af1]. simpl. apply status_err in HU. rewrite HU, Hh2, Hh1, Hh0. eauto 10.
Qed.

(** What a claim does, on every branch.  A claim that reports success either wrote nothing, because
    the workload had left Scheduled when it was read again, or wrote the annotation with the worker's
    id and then the phase Running against the version read after that, and nothing else; it is counted
    in the second case only.  A claim that reports an error wrote the annotation at most. *)
Theorem claim_exact cfg o (w w' : World) o' err :
  claimWorkload cfg o w = (w', o', err) →
  ∃ l, history (wo_api w') = history (wo_api w) ++ l ∧
  match err with
  | None =>
      (l = [] ∧ wo_log w' = wo_log w ∧ phase_of o' ≠ GPUWorkloadPhaseScheduled) ∨
      (∃ cw pw, l = [cw; pw] ∧ claim_write (dl_WorkerID cfg) (key_of (w_Meta o)) cw ∧
         phase_write (key_of (w_Meta o)) GPUWorkloadPhaseRunning pw ∧
         phase_of o' = GPUWorkloadPhaseRunning ∧
         wo_log w' = wo_log w ++ RecordWorkloadClaimed (dl_WorkerID cfg))
  | Some _ =>
      wo_log w' = wo_log w ∧
      (l = [] ∨ ∃ cw, l = [cw] ∧ claim_write (dl_WorkerID cfg) (key_of (w_Meta o)) cw)
  end.
Proof.
  intros HC. destruct (claimWorkload_spec _ _ _ _ _ _ HC) as (_ & l & Hl & Hx).
  exists l. split; [done|]. destruct err as [e|]; [done|]. destruct Hx as (_ & [(? & ? & _ & ?)|Hx]).
  - by left.
  - right. destruct Hx as (cw & b & a & ? & ? & ? & ? & _ & ?). by exists cw, (StatusWrite b a).
Qed.
End claim.

(** ** What a run reports *)

Definition outcome_of (st : RunStatus) : string :=
  match st with
  | RunStatusSucceeded => "succeeded" | RunStatusFailed => "failed" | RunStatusPreempted => "preempted"
  | _ => ""
  end.

(** The phase that is reported for the end of a run. *)
Definition reported_phase (st : RunStatus) : option GPUWorkloadPhase :=
  match st with
  | RunStatusSucceeded => Some GPUWorkloadPhaseSucceeded
  | RunStatusFailed => Some GPUWorkloadPhaseFailed
  | _ => None
  end.

Definition final_status (st : RunStatus) : Prop :=
  st ∈ [RunStatusSucceeded; RunStatusFailed; RunStatusPreempted].

Section polls.
Context {W N : Type} `{ApiClient W, SimulatorClient N, Clock N}.
Local Notation World := (@Cluster.World W N).

(** The remote simulator before the [k]-th poll, and what that poll answers. *)
Fixpoint polled (runID : string) (k : nat) (n : N) : N :=
  match k with
  | O => n
  | S k => polled runID k (Sleep (sc_GetRunStatus n runID).1 (2 * Second))
  end.
Definition answer (runID : string) (k : nat) (n : N) : Result RunStatus :=
  (sc_GetRunStatus (polled runID k n) runID).2.

Lemma pollRun_closed done cfg o runID t fuel i k (w : World) st :
  (k < fuel)%nat → (∀ j, (j ≤ k)%nat → done (i + j)%nat = false) →
  (∀ j st', (j < k)%nat → answer runID j (wo_sim w) = Ok st' → ¬ final_status st') →
  answer runID k (wo_sim w) = Ok st → final_status st →
  pollRun done cfg o runID t fuel i w =
  (completeRun cfg o t (outcome_of st) (reported_phase st)
     (with_sim w (sc_GetRunStatus (polled runID k (wo_sim w)) runID).1), Ended st).
Proof.
  revert fuel i w. induction k as [|k IH]; intros fuel i w Hfuel Hdone Hbefore Hst Hfin;
    (destruct fuel as [|fuel]; [lia|]); cbn [pollRun].
  all: pose proof (Hdone 0%nat ltac:(lia)) as Hd0; rewrite Nat.add_0_r in Hd0; rewrite Hd0.
  - unfold answer in Hst. cbn [polled] in *. destruct (sc_GetRunStatus (wo_sim w) runID) as [n r].
    simpl in Hst. subst r. unfold final_status in Hfin. rewrite !elem_of_cons in Hfin.
    by destruct Hfin as [->|[->|[->|?%elem_of_nil]]].
  - pose proof (λ st', Hbefore 0%nat st' ltac:(lia)) as Hb. unfold answer in Hb. cbn [polled] in *.
    assert (Hrec : pollRun done cfg o runID t fuel (S i)
      (sleep (2 * Second) (with_sim w (sc_GetRunStatus (wo_sim w) runID).1)) =
      (completeRun cfg o t (outcome_of st) (reported_phase st)
        (with_sim w (sc_GetRunStatus (polled runID k
           (Sleep (sc_GetRunStatus (wo_sim w) runID).1 (2 * Second))) runID).1), Ended st)).
    { rewrite IH; [done|lia| | |done|done].
      - intros j Hj. rewrite Nat.add_succ_comm. apply Hdone. lia.
      - intros j st' Hj. apply (Hbefore (S j)). lia. }
    destruct (sc_GetRunStatus (wo_sim w) runID) as [n r]. cbn [fst snd] in *.
    destruct r as [[]|]; try exact Hrec; exfalso; eapply Hb; try reflexivity; unfold final_status; set_solver.
Qed.
End polls.

Section report.
Context {W N : Type} `{ApiLaws W, SimulatorClient N, Clock N}.
Local Notation World := (@Cluster.World W N).

Lemma setWorkloadPhase_spec o p (w : World) :
  wo_sim (setWorkloadPhase o p w) = wo_sim w ∧ wo_log (setWorkloadPhase o p w) = wo_log w ∧
  ∃ l, history (wo_api (setWorkloadPhase o p w)) = history (wo_api w) ++ l ∧
    (length l ≤ 1)%nat ∧ Forall (phase_write (key_of (w_Meta o)) p) l.
Proof.
  unfold setWorkloadPhase. pose proof (get_keeps (wo_api w) (key_of (w_Meta o))) as [Hh _].
  destruct (Get _ _) as [a [latest|e]] eqn:HG; simpl in Hh |- *.
  2:{ split_and!; [done..|]. exists []. rewrite Hh, app_nil_r. split_and!; [done|simpl; lia|by constructor]. }
  apply get_ok in HG as [Hs Hk]. split_and!; [done..|].
  destruct (StatusUpdate a _) as [a' [o'|e]] eqn:HU; simpl.
  - eapply status_write_exact in HU as (after & Hh2 & _ & _ & Hst & Hsp & _ & Han); [|exact Hs|done|done].
    exists [StatusWrite latest after]. rewrite Hh2, Hh. split_and!; [done|done|].
    apply Forall_singleton. by exists latest, after.
  - apply status_err in HU. exists []. rewrite HU, Hh, app_nil_r.
    split_and!; [done|simpl; lia|by constructor].
Qed.

(** A run is reported as it ended.  If the remote simulator answers with a final status at some poll
    and with none before, and the worker is not stopped meanwhile, the loop ends there: the run is
    counted with its outcome, the phase of the workload is set accordingly by at most one write that
    leaves everything else alone (none for a preempted run), and the devices are released, after that
    write. *)
Theorem run_reported done cfg o runID t fuel k (w : World) st :
  (k < fuel)%nat → (∀ j, (j ≤ k)%nat → done j = false) →
  (∀ j st', (j < k)%nat → answer runID j (wo_sim w) = Ok st' → ¬ final_status st') →
  answer runID k (wo_sim w) = Ok st → final_status st →
  ∃ w' l, pollRun done cfg o runID t fuel 0 w = (w', Ended st) ∧
    wo_sim w' = (sc_Release (sc_GetRunStatus (polled runID k (wo_sim w)) runID).1 (workload_id o)).1 ∧
    wo_log w' = wo_log w ++ RecordRunCompleted (dl_WorkerID cfg) (outcome_of st) t ∧
    history (wo_api w') = history (wo_api w) ++ l ∧ (length l ≤ 1)%nat ∧
    match reported_phase st with
    | Some p => Forall (phase_write (key_of (w_Meta o)) p) l
    | None => l = []
    end.
Proof.
  intros Hk Hd Hb Hst Hf. rewrite (pollRun_closed done cfg o runID t fuel 0 k w st) by done.
  unfold completeRun, releaseRemoteAllocation.
  destruct (reported_phase st) as [p|].
  - destruct (setWorkloadPhase_spec o p
      (emit (with_sim w (sc_GetRunStatus (polled runID k (wo_sim w)) runID).1)
         (RecordRunCompleted (dl_WorkerID cfg) (outcome_of st) t))) as (Hs & Hl & l & Hh & Hlen & HF).
    eexists _, l. split; [reflexivity|]. simpl. rewrite Hs, Hl, Hh. by split_and!.
  - eexists _, []. split; [reflexivity|]. simpl. rewrite app_nil_r. split_and!; try done. lia.
Qed.
End report.

(** ** A worker on the remote simulator *)

Section remote_run.
Context `{MapIter, RunEnv, CodecLaws} (promhttp : Request → Response) (base : string).
Local Instance worker_client : SimulatorClient Net := remote_client promhttp base.

(** A poll of a run that is in progress. *)
Lemma poll_running n q r :
  sim_wf (net_sim n) → 0 ≤ q → sim_runs (net_sim n) !! run_id q = Some r →
  run_Status r = RunStatusRunning →
  ∃ n', sc_GetRunStatus n (run_id q) =
          (n', Ok (if net_now n <? run_EndsAt r then RunStatusRunning else RunStatusSucceeded)) ∧
    net_now n' = net_now n ∧
    net_sim n' = if net_now n <? run_EndsAt r then net_sim n
                 else with_runs (net_sim n)
                        (<[run_id q := with_status r RunStatusSucceeded]> (sim_runs (net_sim n))).
Proof.
  intros Hwf Hq Hr Hst. pose proof (remote_status promhttp base n q Hwf Hq) as Hrs.
  change (sc_GetRunStatus n (run_id q))
    with (ClientGetRunStatus (H := direct promhttp base) {| hc_BaseURL := base |} n (run_id q)).
  assert (run_id q ≠ "") as Hne by done.
  revert Hrs. unfold GetStatus. rewrite decide_False by done. rewrite Hr. unfold refreshRun, Before.
  rewrite bool_decide_true by done. destruct (net_now n <? run_EndsAt r); simpl;
    destruct (ClientGetRunStatus _ _ _) as [n' res]; intros (Hs & Hn & ->); exists n'; by rewrite ?Hst.
Qed.

(** While the run is in progress the polls change nothing but the time; the poll after its end, at most
    [d / 2s] later, sees it. *)
Lemma polls_until_end d n q r :
  sim_wf (net_sim n) → 0 ≤ q → sim_runs (net_sim n) !! run_id q = Some r →
  run_Status r = RunStatusRunning → run_EndsAt r - net_now n ≤ 2 * Second * Z.of_nat d →
  ∃ k, (k ≤ d)%nat ∧ (∀ j, (j < k)%nat → answer (run_id q) j n = Ok RunStatusRunning) ∧
    answer (run_id q) k n = Ok RunStatusSucceeded ∧
    net_sim (sc_GetRunStatus (polled (run_id q) k n) (run_id q)).1 =
      with_runs (net_sim n) (<[run_id q := with_status r RunStatusSucceeded]> (sim_runs (net_sim n))).
Proof.
  revert n. induction d as [|d IH]; intros n Hwf Hq Hr Hst Hd;
    destruct (poll_running n q r Hwf Hq Hr Hst) as (n' & Hg & Hn & Hs).
  - destruct (Z.ltb_spec (net_now n) (run_EndsAt r)); [lia|]. exists 0%nat.
    unfold answer. cbn [polled]. rewrite Hg. split_and!; [lia|intros; lia|done|done].
  - destruct (Z.ltb_spec (net_now n) (run_EndsAt r)) as [Hlt|Hge].
    + assert (net_sim (Sleep n' (2 * Second)) = net_sim n) as Hs' by exact Hs.
      assert (net_now (Sleep n' (2 * Second)) = net_now n + 2 * Second) as Hn' by (cbn; by rewrite Hn).
      destruct (IH (Sleep n' (2 * Second))) as (k & Hk & Hb & Ha & He); rewrite ?Hs', ?Hn'; try done; [lia|].
      exists (S k). unfold answer. cbn [polled]. rewrite Hg. cbn [fst]. rewrite Hs' in He.
      split_and!; [lia| |done|done]. intros [|j] Hj; cbn [polled]; rewrite Hg; [done|]. apply Hb. lia.
    + exists 0%nat. unfold answer. cbn [polled]. rewrite Hg. split_and!; [lia|intros; lia|done|done].
Qed.

Context {W : Type} `{ApiClient W}.
Local Notation World := (@Cluster.World W Net).

Definition worker_options (o : GPUWorkload) : AllocationOptions :=
  {| o_PlacementPolicy := PlacementPolicyFirstFit; o_RequireSameNode := false; o_MaxNodes := 0;
     o_PreferredDeviceType := ""; o_PreferredProfile := ToLower (TrimSpace (ws_Profile (w_Spec o))) |}.
Definition worker_request (o : GPUWorkload) : allocateRequest :=
  {| al_WorkloadID := workload_id o; al_GPUCount := ws_GPUCount (w_Spec o);
     al_MemMiB := ws_GPUMemoryMiB (w_Spec o); al_Options := worker_options o |}.

(** A worker finishes what the remote simulator can run: if the simulator has the devices for a workload
    and accepts its run, which takes at most [d] times two seconds, then the worker, unless it is
    stopped, sees the run succeed within [d] polls and completes it; the simulator then has the run as
    succeeded and, after the release, the allocations it had before. *)
Lemma remote_completes done cfg o (w : World) s1 s2 a runID r (d : nat) :
  let n := wo_sim w in
  let input := WorkloadToRuntimeInput o in
  plain_id (workload_id o) → sim_wf (net_sim n) → 0 ≤ sim_nextRunID (net_sim n) < int64_max →
  faithful (worker_request o) → faithful input → (∃ body, Marshal input = Ok body) →
  (∀ j, done j = false) →
  AllocateWithOptions (net_sim n) (workload_id o) (ws_GPUCount (w_Spec o))
    (ws_GPUMemoryMiB (w_Spec o)) (worker_options o) = (s1, Ok a) →
  StartWithRuntimeInput s1 (net_now n) input = (s2, Ok runID) →
  sim_runs s2 !! runID = Some r → run_EndsAt r - net_now n ≤ 2 * Second * Z.of_nat d →
  ∃ n' t,
    runOneWorkload done (S d) cfg o w =
      (completeRun cfg o t "succeeded" (Some GPUWorkloadPhaseSucceeded)
         (emit (with_sim w n') (RecordRunStarted (dl_WorkerID cfg))), Ended RunStatusSucceeded) ∧
    let after := net_sim (sc_Release n' (workload_id o)).1 in
    sim_allocations after = sim_allocations (net_sim n) ∧
    (run_Status <$> sim_runs after !! runID) = Some RunStatusSucceeded.
Proof.
  intros n input Hid Hwf Hnext Hfa Hfi [body Hbody] Hdone HA HS Hr Hd.
  unfold runOneWorkload. fold n input.
  pose proof (remote_allocate promhttp base n (workload_id o) (ws_GPUCount (w_Spec o))
    (ws_GPUMemoryMiB (w_Spec o)) (ws_Profile (w_Spec o)) Hid Hfa) as Hra.
  fold (worker_options o) in Hra. rewrite HA in Hra.
  change (sc_Allocate n) with (ClientAllocate (H := direct promhttp base) {| hc_BaseURL := base |} n).
  destruct (ClientAllocate _ _ _ _ _ _) as [n1 err]. destruct Hra as (Hs1 & Hn1 & Herr).
  rewrite (proj2 Herr) by eauto. cbn [wo_sim with_sim].
  pose proof (remote_start promhttp base n1 input body Hfi Hbody) as Hrs.
  rewrite Hs1, Hn1, HS in Hrs.
  change (sc_Start n1) with (ClientStart (H := direct promhttp base) {| hc_BaseURL := base |} n1).
  destruct (ClientStart _ _ _) as [n2 res]. destruct Hrs as (Hs2 & Hn2 & ->).
  destruct (started_run (net_sim n) s1 s2 _ _ _ _ _ _ _ _ r Hwf Hnext HA HS Hr)
    as (q & -> & Hq & Hwf2 & Hst & Hal1 & Hal2).
  rewrite <- Hs2 in Hwf2, Hr. rewrite <- Hn2 in Hd.
  destruct (polls_until_end d n2 q r Hwf2 Hq Hr Hst Hd) as (k & Hk & Hb & Ha & He).
  set (n3 := (sc_GetRunStatus (polled (run_id q) k n2) (run_id q)).1) in *. exists n3, (Now n2). split.
  - rewrite (pollRun_closed done cfg o (run_id q) (Now n2) (S d) 0 k _ RunStatusSucceeded); [done|lia|..].
    + intros j _. apply Hdone.
    + intros j st' Hj. cbn [wo_sim emit with_sim]. rewrite Hb by done. intros [= <-].
      unfold final_status. set_solver.
    + done.
    + unfold final_status. set_solver.
  - pose proof (remote_release promhttp base n3 (workload_id o) Hid) as Hrel. cbv zeta.
    change (sc_Release n3) with (ClientRelease (H := direct promhttp base) {| hc_BaseURL := base |} n3).
    destruct (ClientRelease _ _ _) as [n4 err4]. destruct Hrel as (Hs4 & _ & _). cbn [fst].
    rewrite Hs4, He. unfold Release. rewrite decide_False by (by apply plain_id_ne). simpl.
    rewrite lookup_insert_eq, Hs2, Hal2. done.
Qed.
End remote_run.

(** ** Every write of a worker *)

Section writes.
Context {W N : Type} `{WorkerApiLaws W, SimulatorClient N, Clock N}.
Local Notation World := (@Cluster.World W N).
Implicit Types w : World.

(** What the simulator tells a worker about one workload, how the run of the workload ends with it, and
    the phase there is to report. *)
Inductive run_story (o : GPUWorkload) (n : N) : RunEnd → option GPUWorkloadPhase → Prop :=
| story_no_devices n1 e :
    sc_Allocate n (workload_id o) (ws_GPUCount (w_Spec o)) (ws_GPUMemoryMiB (w_Spec o))
      (ws_Profile (w_Spec o)) = (n1, Some e) →
    run_story o n AllocateFailed (Some GPUWorkloadPhaseFailed)
| story_no_run n1 n2 e :
    sc_Allocate n (workload_id o) (ws_GPUCount (w_Spec o)) (ws_GPUMemoryMiB (w_Spec o))
      (ws_Profile (w_Spec o)) = (n1, None) →
    sc_Start n1 (WorkloadToRuntimeInput o) = (n2, Err e) →
    run_story o n StartFailed (Some GPUWorkloadPhaseFailed)
| story_ended n1 n2 runID k st p :
    sc_Allocate n (workload_id o) (ws_GPUCount (w_Spec o)) (ws_GPUMemoryMiB (w_Spec o))
      (ws_Profile (w_Spec o)) = (n1, None) →
    sc_Start n1 (WorkloadToRuntimeInput o) = (n2, Ok runID) →
    answer runID k n2 = Ok st →
    (st, p) ∈ [(RunStatusSucceeded, Some GPUWorkloadPhaseSucceeded);
               (RunStatusFailed, Some GPUWorkloadPhaseFailed);
               (RunStatusPreempted, None)] →
    run_story o n (Ended st) p
| story_cancelled : run_story o n Cancelled None
| story_polling : run_story o n Polling None.

(** At most one write of the phase there is to report. *)
Definition reports (key : NamespacedName) (p : option GPUWorkloadPhase) (l : list apiWrite) : Prop :=
  match p with
  | Some p => (length l ≤ 1)%nat ∧ Forall (phase_write key p) l
  | None => l = []
  end.

(** Scheduled, and no worker's. *)
Definition unclaimed (o : GPUWorkload) : Prop :=
  phase_of o = GPUWorkloadPhaseScheduled ∧
  ∀ ann, om_Annotations (w_Meta o) = Some ann → ann !! AnnotationClaimedBy = None.

(** The claims a worker tried and gave up: the annotation of a workload it saw unclaimed. *)
Definition tried (cfg : DeploymentLoopConfig) (seen : GPUWorkload → Prop) (wr : apiWrite) : Prop :=
  ∃ o, seen o ∧ unclaimed o ∧ claim_write (W := W) (dl_WorkerID cfg) (key_of (w_Meta o)) wr.

(** A workload the worker saw unclaimed, [o], and its copy [run] of it with the writes of the claim:
    the annotation and the phase Running, or none since the workload had left Scheduled. *)
Definition took (cfg : DeploymentLoopConfig) (seen : GPUWorkload → Prop) (run : GPUWorkload)
    (l : list apiWrite) : Prop :=
  ∃ o, seen o ∧ unclaimed o ∧ key_of (w_Meta run) = key_of (w_Meta o) ∧
    (l = [] ∧ phase_of run ≠ GPUWorkloadPhaseScheduled ∨
     ∃ cw pw, l = [cw; pw] ∧ phase_of run = GPUWorkloadPhaseRunning ∧
       claim_write (W := W) (dl_WorkerID cfg) (key_of (w_Meta run)) cw ∧
       phase_write (key_of (w_Meta run)) GPUWorkloadPhaseRunning pw).

(** The writes of an iteration that ended as [e]. *)
Definition iteration (cfg : DeploymentLoopConfig) (seen : GPUWorkload → Prop) (w w' : World)
    (e : option RunEnd) : Prop :=
  ∃ l0 l1 l2, history (wo_api w') = history (wo_api w) ++ l0 ++ l1 ++ l2 ∧
    Forall (tried cfg seen) l0 ∧
    match e with
    | None => l1 = [] ∧ l2 = []
    | Some e => ∃ run p, took cfg seen run l1 ∧ run_story run (wo_sim w) e p ∧
                         reports (key_of (w_Meta run)) p l2
    end.

Lemma claimable_unclaimed o : claimable o = true → unclaimed o.
Proof.
  unfold claimable, claimed, unclaimed. intros [Hp%bool_decide_eq_true Hc]%andb_true_iff.
  split; [done|]. intros ann Ha. rewrite Ha in Hc. apply negb_true_iff, bool_decide_eq_false in Hc.
  by apply eq_None_not_Some.
Qed.

Lemma completeRun_reports cfg o t outcome p w :
  ∃ l, history (wo_api (completeRun cfg o t outcome p w)) = history (wo_api w) ++ l ∧
    reports (key_of (w_Meta o)) p l.
Proof.
  unfold completeRun, releaseRemoteAllocation. destruct p as [p|].
  - destruct (setWorkloadPhase_spec o p (emit w (RecordRunCompleted (dl_WorkerID cfg) outcome t)))
      as (_ & _ & l & Hl & ?). by exists l.
  - exists []. by rewrite app_nil_r.
Qed.

Lemma pollRun_story done cfg o runID t fuel i w w' e :
  pollRun done cfg o runID t fuel i w = (w', e) →
  ∃ p l, history (wo_api w') = history (wo_api w) ++ l ∧ reports (key_of (w_Meta o)) p l ∧
    match e with
    | Ended st => (∃ k, answer runID k (wo_sim w) = Ok st) ∧
        (st, p) ∈ [(RunStatusSucceeded, Some GPUWorkloadPhaseSucceeded);
                   (RunStatusFailed, Some GPUWorkloadPhaseFailed); (RunStatusPreempted, None)]
    | Cancelled | Polling => p = None
    | _ => False
    end.
Proof.
  assert (Hnone : history (wo_api w) = history (wo_api w) ++ []) by (by rewrite app_nil_r).
  revert i w Hnone. induction fuel as [|fuel IH]; intros i w Hnone; cbn [pollRun].
  { intros [= <- <-]. by exists None, []. }
  destruct (done i); [intros [= <- <-]; by exists None, []|].
  destruct (sc_GetRunStatus (wo_sim w) runID) as [n st] eqn:Hg.
  assert (Hagain : pollRun done cfg o runID t fuel (S i) (sleep (2 * Second) (with_sim w n)) = (w', e) →
    ∃ p l, history (wo_api w') = history (wo_api w) ++ l ∧ reports (key_of (w_Meta o)) p l ∧
    match e with
    | Ended st => (∃ k, answer runID k (wo_sim w) = Ok st) ∧
        (st, p) ∈ [(RunStatusSucceeded, Some GPUWorkloadPhaseSucceeded);
                   (RunStatusFailed, Some GPUWorkloadPhaseFailed); (RunStatusPreempted, None)]
    | Cancelled | Polling => p = None
    | _ => False
    end).
  { intros Hp. apply IH in Hp as (p & l & Hl & Hr & He); [|done]. exists p, l. split_and!; [done..|].
    destruct e; try done. destruct He as [(k & Hk) He]. split; [|done]. exists (S k).
    unfold answer in *. cbn [polled]. by rewrite Hg. }
  assert (Hend : ∀ st' p, st = Ok st' →
    (st', p) ∈ [(RunStatusSucceeded, Some GPUWorkloadPhaseSucceeded);
                (RunStatusFailed, Some GPUWorkloadPhaseFailed); (RunStatusPreempted, None)] →
    (completeRun cfg o t (outcome_of st') p (with_sim w n), Ended st') = (w', e) →
    ∃ p l, history (wo_api w') = history (wo_api w) ++ l ∧ reports (key_of (w_Meta o)) p l ∧
      match e with
      | Ended st => (∃ k, answer runID k (wo_sim w) = Ok st) ∧
          (st, p) ∈ [(RunStatusSucceeded, Some GPUWorkloadPhaseSucceeded);
                     (RunStatusFailed, Some GPUWorkloadPhaseFailed); (RunStatusPreempted, None)]
      | Cancelled | Polling => p = None
      | _ => False
      end).
  { intros st' p -> Hin [= <- <-].
    destruct (completeRun_reports cfg o t (outcome_of st') p (with_sim w n)) as (l & Hl & Hr).
    exists p, l. split_and!; [done..| |done]. exists 0%nat. unfold answer. cbn [polled]. by rewrite Hg. }
  destruct st as [[]|]; try exact Hagain.
  - apply (Hend RunStatusSucceeded); [done|set_solver].
  - apply (Hend RunStatusFailed); [done|set_solver].
  - apply (Hend RunStatusPreempted); [done|set_solver].
Qed.

Lemma runOneWorkload_story done fuel cfg o w w' e :
  runOneWorkload done fuel cfg o w = (w', e) →
  ∃ p l, history (wo_api w') = history (wo_api w) ++ l ∧ run_story o (wo_sim w) e p ∧
    reports (key_of (w_Meta o)) p l.
Proof.
  unfold runOneWorkload. destruct (sc_Allocate _ _ _ _ _) as [n1 [err|]] eqn:HA.
  { intros [= <- <-]. set (w1 := emit _ _).
    destruct (setWorkloadPhase_spec o GPUWorkloadPhaseFailed w1) as (_ & _ & l & Hl & Hr).
    exists (Some GPUWorkloadPhaseFailed), l. split_and!; [done|by econstructor|done..]. }
  destruct (sc_Start _ _) as [n2 [runID|err]] eqn:HS.
  - intros (p & l & Hl & Hr & He)%pollRun_story. exists p, l. split_and!; [done| |done].
    destruct e; try done; subst; try constructor. destruct He as [(k & Hk) He]. by eapply story_ended.
  - intros [= <- <-]. set (w1 := emit _ _).
    destruct (setWorkloadPhase_spec o GPUWorkloadPhaseFailed w1) as (_ & _ & l & Hl & Hr).
    exists (Some GPUWorkloadPhaseFailed), l. split_and!; [done|by eapply story_no_run|done..].
Qed.

(** The claim of a workload that was seen unclaimed. *)
Lemma claim_took cfg (seen : GPUWorkload → Prop) o w w' o' err :
  seen o → unclaimed o → claimWorkload cfg o w = (w', o', err) →
  wo_sim w' = wo_sim w ∧ ∃ l, history (wo_api w') = history (wo_api w) ++ l ∧
    match err with None => took cfg seen o' l | Some _ => Forall (tried cfg seen) l end.
Proof.
  intros Hs Hu (Hsim & l & Hl & Hx)%claimWorkload_spec. split; [done|]. exists l. split; [done|].
  destruct err as [e|].
  - destruct Hx as (_ & [->|(cw & -> & Hcw)]); [done|]. apply Forall_singleton. by exists o.
  - destruct Hx as (Hk & Hx). exists o. split_and!; [done..|]. rewrite Hk.
    destruct Hx as [(-> & _ & _ & ?)|(cw & b & a & -> & ? & ? & ? & _)]; [by left|right].
    by exists cw, (StatusWrite b a).
Qed.

Lemma claimFirst_took cfg (seen : GPUWorkload → Prop) items w w' res :
  Forall seen items → claimFirst cfg items w = (w', res) →
  wo_sim w' = wo_sim w ∧ ∃ l0 l1, history (wo_api w') = history (wo_api w) ++ l0 ++ l1 ∧
    Forall (tried cfg seen) l0 ∧
    match res with Ok (Some o) => took cfg seen o l1 | _ => l1 = [] end.
Proof.
  intros Hseen. revert w. induction Hseen as [|o items Ho _ IH]; intros w; cbn [claimFirst].
  { intros [= <- <-]. split; [done|]. exists [], []. by rewrite !app_nil_r. }
  destruct (claimable o) eqn:Hc; cbn [negb]; [|apply IH].
  destruct (claimWorkload cfg o w) as [[w1 o1] err] eqn:HC.
  destruct (claim_took cfg seen o w w1 o1 err Ho (claimable_unclaimed o Hc) HC) as (Hs & l & Hl & Hx).
  destruct err as [e|]; [destruct (IsConflict e)|].
  - intros (Hs' & l0 & l1 & Hl' & Ht & Hr)%IH. split; [congruence|]. exists (l ++ l0), l1.
    rewrite Hl', Hl, <- !(assoc_L (++)). split_and!; [done|by apply Forall_app|done].
  - intros [= <- <-]. split; [done|]. exists l, []. by rewrite app_nil_r.
  - intros [= <- <-]. split; [done|]. by exists [], l.
Qed.

(** A run after a claim, and no run. *)
Lemma iteration_run done fuel cfg seen w w1 o w' e l0 l1 :
  wo_sim w1 = wo_sim w → history (wo_api w1) = history (wo_api w) ++ l0 ++ l1 →
  Forall (tried cfg seen) l0 → took cfg seen o l1 →
  runOneWorkload done fuel cfg o w1 = (w', e) → iteration cfg seen w w' (Some e).
Proof.
  intros Hs Hl Ht Htook (p & l & Hl' & Hstory & Hr)%runOneWorkload_story. rewrite Hs in Hstory.
  exists l0, l1, l. rewrite Hl', Hl, <- !(assoc_L (++)). split_and!; [done..|]. by exists o, p.
Qed.

Lemma iteration_idle cfg seen w w' l0 :
  history (wo_api w') = history (wo_api w) ++ l0 → Forall (tried cfg seen) l0 →
  iteration cfg seen w w' None.
Proof. intros Hl Ht. exists l0, [], []. by rewrite !app_nil_r. Qed.

Lemma store_claimable store ns o :
  findClaimableFromStore store ns = Some o → Unstructured ns (Ok o) ∈ store ∧ claimable o = true.
Proof.
  induction store as [|x store IH]; [done|]. cbn [findClaimableFromStore].
  assert (findClaimableFromStore store ns = Some o →
    Unstructured ns (Ok o) ∈ x :: store ∧ claimable o = true) as Hnext
    by (intros [? ?]%IH; split; [by right|done]).
  destruct x as [|ns' [o'|]]; [done| |by case_decide]. case_decide as Hns; [done|].
  destruct (claimable o') eqn:Hc; [|done]. intros [= <-]. subst ns'.
  split; [left|done].
Qed.

(** C27: Every write of a worker, in each of its three modes and however its iteration ends.  First come
    claims that were given up (a conflict or another error followed): the annotation of a workload that
    the worker saw Scheduled and unclaimed (in the list, in the cache, or by reading what the message
    names) and then read in phase Scheduled; the patch carries no version and puts the annotations read,
    with the worker's id, over those stored, leaving status and specification.  An iteration without a
    run writes nothing else.  One with a run claimed the workload of the run the same way and set its
    phase to Running, or found that it had left Scheduled and wrote nothing; and when the run is over
    there is at most one more write, to the same workload: phase Failed if the simulator refused the
    devices or the run, the phase Succeeded or Failed that the simulator answered for that run, and none
    for a preempted run or a worker that was stopped.  Phase writes change the phase of the stored object
    and nothing else. *)
Theorem worker_writes_legal done fuel cfg store message (w : World) :
  (let '(w', e) := deploymentIteration done fuel cfg w in
   iteration cfg (λ o, ∃ items, (ListWorkloads (wo_api w) (dl_Namespace cfg)).2 = Ok items ∧ o ∈ items)
     w w' e) ∧
  (let '(w', _, e) := watchIteration done fuel cfg store w in
   iteration cfg (λ o, Unstructured (dl_Namespace cfg) (Ok o) ∈ store) w w' e) ∧
  (let '(w', e) := queueIteration done fuel cfg message w in
   iteration cfg (λ o, ∃ ns name, message = Ok (Ok (ns, name)) ∧
     (Get (wo_api w) {| nn_Namespace := if decide (ns = "") then dl_Namespace cfg else ns;
                        nn_Name := TrimSpace name |}).2 = Ok o) w w' e).
Proof.
  split_and!.
  - unfold deploymentIteration, findAndClaimScheduledWorkload.
    set (cfg' := withPollInterval cfg). change (dl_Namespace cfg) with (dl_Namespace cfg').
    set (seen := λ o, _). change (iteration cfg) with (iteration cfg').
    pose proof (list_keeps (wo_api w) (dl_Namespace cfg')) as [Hh _].
    destruct (ListWorkloads _ _) as [a [items|e]] eqn:HL; simpl in Hh.
    2:{ apply (iteration_idle _ _ _ _ []); [by rewrite app_nil_r|done]. }
    destruct (claimFirst cfg' items (with_api w a)) as [w1 res] eqn:HC.
    apply (claimFirst_took cfg' seen) in HC as (Hs & l0 & l1 & Hl & Ht & Hr).
    2:{ apply Forall_forall. intros o Ho. by exists items. }
    cbn [with_api wo_api wo_sim] in Hl, Hs. rewrite Hh in Hl. destruct res as [[o|]|e].
    + destruct (runOneWorkload done fuel cfg' o w1) as [w' e] eqn:HR. by eapply iteration_run.
    + subst l1. rewrite app_nil_r in Hl. by apply (iteration_idle _ _ _ _ l0).
    + subst l1. rewrite app_nil_r in Hl. by apply (iteration_idle _ _ _ _ l0).
  - unfold watchIteration. destruct (findClaimableFromStore _ _) as [o|] eqn:HF.
    2:{ apply (iteration_idle _ _ _ _ []); [by rewrite app_nil_r|done]. }
    apply store_claimable in HF as [Hin Hc]. set (seen := λ o, _).
    destruct (claimWorkload cfg o w) as [[w1 o1] err] eqn:HC.
    destruct (claim_took cfg seen o w w1 o1 err Hin (claimable_unclaimed o Hc) HC) as (Hs & l & Hl & Hx).
    destruct err as [e|]; [destruct (IsConflict e); by apply (iteration_idle _ _ _ _ l)|].
    destruct (runOneWorkload done fuel cfg o1 w1) as [w' e] eqn:HR.
    by apply (iteration_run done fuel cfg seen w w1 o1 w' e [] l).
  - unfold queueIteration. set (seen := λ o, _).
    assert (iteration cfg seen w w None) as Hidle
      by (apply (iteration_idle _ _ _ _ []); [by rewrite app_nil_r|done]).
    destruct message as [[[ns name]|]|]; [|done..]. case_decide; [done|].
    set (key := {| nn_Namespace := _; nn_Name := _ |}).
    pose proof (get_keeps (wo_api w) key) as [Hh _].
    destruct (Get (wo_api w) key) as [a [o|e]] eqn:HG; simpl in Hh.
    2:{ apply (iteration_idle _ _ _ _ []); [by rewrite app_nil_r|done]. }
    destruct (claimable o) eqn:Hc; cbn [negb].
    2:{ apply (iteration_idle _ _ _ _ []); [by rewrite app_nil_r|done]. }
    assert (seen o) as Hin by (exists ns, name; fold key; by rewrite ?HG).
    destruct (claimWorkload cfg o (with_api w a)) as [[w1 o1] err] eqn:HC.
    destruct (claim_took cfg seen o _ w1 o1 err Hin (claimable_unclaimed o Hc) HC) as (Hs & l & Hl & Hx).
    cbn [with_api wo_api wo_sim] in Hl, Hs. rewrite Hh in Hl.
    destruct err as [e|]; [destruct (IsNotFound e); by apply (iteration_idle _ _ _ _ l)|].
    destruct (runOneWorkload done fuel cfg o1 w1) as [w' e] eqn:HR.
    by apply (iteration_run done fuel cfg seen w w1 o1 w' e [] l).
Qed.
End writes.

(** ** Workers on the small server *)

Module WorkerServer.
Import SmallServer.

Definition set_annotations (a : gmap string string) (cur : GPUWorkload) : GPUWorkload :=
  let m := w_Meta cur in
  with_meta cur
    {| om_Namespace := om_Namespace m; om_Name := om_Name m; om_Generation := om_Generation m;
       om_ResourceVersion := om_ResourceVersion m; om_CreationTimestamp := om_CreationTimestamp m;
       om_DeletionTimestamp := om_DeletionTimestamp m;
       om_Annotations := Some (a ∪ default ∅ (om_Annotations m)); om_Finalizers := om_Finalizers m |}.

(** The patch is written against the version that is current. *)
Definition patch (s : server) (o : GPUWorkload) (a : gmap string string)
    : server * Result GPUWorkload :=
  match get s (key_of (w_Meta o)) with
  | None => (s, Err not_found)
  | Some cur => write s cur (set_annotations a) ObjectWrite
  end.

Definition list_objects (s : server) (ns : string) : list GPUWorkload :=
  omap (λ k : string * string, get s {| nn_Namespace := k.1; nn_Name := k.2 |})
    (filter (λ k, k.1 = ns) (map_to_list (sv_current s)).*1).

#[export] Instance small_worker_api : WorkerApi server := {|
  ListWorkloads := λ s ns, (s, Ok (list_objects s ns));
  PatchAnnotations := patch;
|}.

#[export] Instance small_worker_laws : WorkerApiLaws server.
Proof.
  split.
  - done.
  - intros s ns s' items o [= <- <-] Ho. apply list_elem_of_omap in Ho as (k & Hk & Hg).
    apply list_elem_of_filter in Hk as [<- _]. apply get_Some in Hg as [? Hkey].
    split; [done|]. by apply (f_equal nn_Namespace) in Hkey.
  - intros s o a o' Hs. simpl. unfold patch. destruct (get s _); [by apply write_keeps|done].
  - intros s o a s' new. simpl. unfold patch. destruct (get s _) as [cur0|] eqn:Hg; [|done].
    apply get_Some in Hg as [_ Hk0].
    intros (cur & ? & ? & ? & Hk & Hk' & ? & Hn)%write_Ok. exists cur, new. unfold answered.
    split_and!; try done; try congruence; by rewrite Hn.
  - intros s o a s' e. simpl. unfold patch. destruct (get s _); [|by intros [= <- _]].
    by intros ->%write_Err.
Qed.
End WorkerServer.

Module WorkerExample.
Import SimExample HttpExample SmallServer WorkerServer.

(** A scheduled workload that fits the pool of [SimExample]. *)
Definition workload (name : string) (phase : GPUWorkloadPhase) : GPUWorkload :=
  {| w_Meta := ResourceExample.meta "ns" name;
     w_Spec := {| ws_Tenant := "team"; ws_Priority := 0; ws_GPUCount := 3; ws_GPUMemoryMiB := 40000;
                  ws_Tokens := 1000000; ws_Profile := "h100_sxm"; ws_MaxRuntimeSeconds := None;
                  ws_Kind := "training"; ws_Training := None; ws_Inference := None; ws_Eval := None;
                  ws_FineTune := None; ws_RLHF := None; ws_Embedding := None;
                  ws_DataPreprocess := None; ws_Distillation := None; ws_Jitter := None |};
     w_Status := {| wst_Phase := phase; wst_QueuedAt := Some 5; wst_Conditions := [] |} |}.
Definition o : GPUWorkload := workload "w" GPUWorkloadPhaseScheduled.
Definition config (id : string) : DeploymentLoopConfig :=
  {| dl_Namespace := "ns"; dl_WorkerID := id; dl_PollInterval := 0 |}.

#[export] Instance client : SimulatorClient Net := remote_client page base.
Definition start : @World server Net :=
  {| wo_api := init [o]; wo_sim := net s1; wo_log := [] |}.
Definition never (i : nat) : bool := false.

Definition stored_phase (w : @World server Net) (name : string) : option GPUWorkloadPhase :=
  phase_of <$> get (wo_api w) {| nn_Namespace := "ns"; nn_Name := name |}.

(** The server with another client on it, that preempts a workload right after it is first patched. *)
Definition lift {A} (b : bool) (res : server * A) : (server * bool) * A := ((res.1, b), res.2).

#[export] Instance preempting_client : ApiClient (server * bool) := {|
  Get := λ s k, lift s.2 (Get s.1 k);
  StatusUpdate := λ s x, lift s.2 (StatusUpdate s.1 x);
  Update := λ s x, lift s.2 (Update s.1 x);
|}.
#[export] Instance preempting : WorkerApi (server * bool) := {|
  ListWorkloads := λ s ns, lift s.2 (ListWorkloads s.1 ns);
  PatchAnnotations := λ s x a,
    match PatchAnnotations s.1 x a with
    | (s', Ok x') =>
        (((if s.2 then (StatusUpdate s' (with_phase x' GPUWorkloadPhasePreempted)).1 else s'), false),
         Ok x')
    | res => lift s.2 res
    end;
|}.
End WorkerExample.

Section worker_examples.
Import SimExample HttpExample SmallServer WorkerServer WorkerExample.

(** A worker alone: the workload is claimed, its run on three devices takes 25 seconds and is seen to
    have ended at the fourteenth poll, after 26 seconds. *)
Example lone_worker :
  let '(w, e) := deploymentIteration never 20 (config "a") start in
  e = Some (Ended RunStatusSucceeded) ∧ stored_phase w "w" = Some GPUWorkloadPhaseSucceeded ∧
  net_now (wo_sim w) = 100 + 26 * Second ∧ sim_allocations (net_sim (wo_sim w)) = ∅.
Proof. vm_compute. split_and!; reflexivity. Qed.

(** A claim of a workload that another worker has claimed meanwhile is a success that wrote nothing.
    The second worker then runs it too: its allocation counts as made since there is one, its start
    fails since there is a run, and on that it marks the workload Failed and releases the devices of
    the first worker, whose run goes on. *)
Example stolen_run :
  let '(w1, oA, errA) := claimWorkload (config "a") o start in
  let '(w2, endA) := runOneWorkload never 1 (config "a") oA w1 in
  let '(w3, oB, errB) := claimWorkload (config "b") o w2 in
  let '(w4, endB) := runOneWorkload never 1 (config "b") oB w3 in
  errA = None ∧ endA = Polling ∧ stored_phase w3 "w" = Some GPUWorkloadPhaseRunning ∧
  errB = None ∧ endB = StartFailed ∧ stored_phase w4 "w" = Some GPUWorkloadPhaseFailed ∧
  sim_allocations (net_sim (wo_sim w4)) = ∅ ∧
  (run_Status <$> sim_runs (net_sim (wo_sim w4)) !! "run-1") = Some RunStatusRunning.
Proof. vm_compute. split_and!; reflexivity. Qed.

(** The phase is not looked at again after the claim was written: a workload that is preempted just then
    (by [preempting], the first time an annotation is patched) is set to Running. *)
Example preempted_revived :
  let '(w, o', err) := claimWorkload (config "a") o
    {| wo_api := (init [o], true); wo_sim := net s1; wo_log := [] |} in
  err = None ∧
  ((λ wr, match wr with StatusWrite _ a => Some (phase_of a) | _ => None end)
     <$> sv_history (wo_api w).1) =
  [None; Some GPUWorkloadPhasePreempted; Some GPUWorkloadPhaseRunning].
Proof. vm_compute. split_and!; reflexivity. Qed.

(** In watch mode an error of the API server on one workload (here it is gone, and the cache does not
    know yet) leaves no token in the channel: the other workload waits for the next event. *)
Example watch_stops_after_error :
  let store := [Unstructured "ns" (Ok (workload "gone" GPUWorkloadPhaseScheduled));
                Unstructured "ns" (Ok o)] in
  let '(w, token, e) := watchIteration never 1 (config "a") store start in
  token = false ∧ e = None ∧ stored_phase w "w" = Some GPUWorkloadPhaseScheduled.
Proof. vm_compute. split_and!; reflexivity. Qed.

(** Nor is it looked at when a run is reported: a workload that was preempted while its run went on is
    reported as succeeded. *)
Example preempted_reported_succeeded :
  let w0 := {| wo_api := init [workload "w" GPUWorkloadPhasePreempted]; wo_sim := net s3; wo_log := [] |} in
  let '(w, e) := pollRun never (config "a") o "run-1" 100 20 0 w0 in
  e = Ended RunStatusSucceeded ∧ stored_phase w "w" = Some GPUWorkloadPhaseSucceeded.
Proof. vm_compute. split_and!; reflexivity. Qed.

(** *** Witnesses *)

Lemma claim_exact_witness :
  ∃ w' o' cw pw, claimWorkload (config "a") o start = (w', o', None) ∧
    sv_history (wo_api w') = [cw; pw] ∧ claim_write (W := server) "a" (key_of (w_Meta o)) cw ∧
    phase_write (key_of (w_Meta o)) GPUWorkloadPhaseRunning pw.
Proof.
  destruct (claimWorkload (config "a") o start) as [[w' o'] err] eqn:E.
  pose proof (claim_exact (config "a") o start w' o' err E) as (l & Hl & Hx).
  assert (Hc : (λ x, (x.2, length (sv_history (wo_api x.1.1))))
                 (claimWorkload (config "a") o start) = (None, 2%nat)) by (vm_compute; reflexivity).
  rewrite E in Hc. simpl in Hc. injection Hc as -> Hlen.
  change (sv_history (wo_api w') = [] ++ l) in Hl. rewrite Hl in Hlen.
  destruct Hx as [(-> & _)|(cw & pw & -> & Hc' & Hw & _)]; [done|]. exists w', o', cw, pw.
  split; [reflexivity|]. split; [exact Hl|]. split; [exact Hc'|exact Hw].
Defined.

Definition running : @World server Net :=
  {| wo_api := init [workload "w" GPUWorkloadPhaseRunning]; wo_sim := net s3; wo_log := [] |}.

Lemma run_reported_witness :
  ∃ w' l, pollRun never (config "a") o "run-1" 100 20 0 running = (w', Ended RunStatusSucceeded) ∧
    sv_history (wo_api w') = l ∧ (length l ≤ 1)%nat ∧
    Forall (phase_write (key_of (w_Meta o)) GPUWorkloadPhaseSucceeded) l.
Proof.
  destruct (run_reported never (config "a") o "run-1" 100 20 13 running RunStatusSucceeded)
    as (w' & l & Hp & _ & _ & Hl & Hlen & HF).
  - lia.
  - done.
  - intros j st' Hj. do 13 (destruct j as [|j]; [vm_compute; intros [= <-]; set_solver|]). lia.
  - vm_compute. reflexivity.
  - unfold final_status. set_solver.
  - exists w', l. split; [exact Hp|]. split; [exact Hl|]. by split.
Defined.

Definition is_status (wr : apiWrite) : bool :=
  match wr with StatusWrite _ _ => true | ObjectWrite _ _ => false end.

(** The lone worker: a claim, the phase Running, and the phase the simulator answered. *)
Lemma worker_writes_legal_witness :
  ∃ w' e cw pw rw,
    deploymentIteration never 20 (config "a") start = (w', Some e) ∧ e = Ended RunStatusSucceeded ∧
    sv_history (wo_api w') = [cw; pw; rw] ∧
    claim_write (W := server) "a" (key_of (w_Meta o)) cw ∧
    phase_write (key_of (w_Meta o)) GPUWorkloadPhaseRunning pw ∧
    phase_write (key_of (w_Meta o)) GPUWorkloadPhaseSucceeded rw.
Proof.
  pose proof (proj1 (worker_writes_legal never 20 (config "a") [] (Err (Errorf "EOF")) start)) as Hx.
  assert (Hc : (λ x, (x.2, is_status <$> sv_history (wo_api x.1)))
    (deploymentIteration never 20 (config "a") start) =
    (Some (Ended RunStatusSucceeded), [false; true; true])) by (vm_compute; reflexivity).
  assert (Hl : (ListWorkloads (wo_api start) "ns").2 = Ok [o]) by (vm_compute; reflexivity).
  destruct (deploymentIteration never 20 (config "a") start) as [w' e].
  cbn [fst snd] in Hc. injection Hc as -> Hk.
  destruct Hx as (l0 & l1 & l2 & Hh & H0 & run & p & (o1 & (items & Hi & Ho1) & _ & Hkey & Htook) & Hs & Hr).
  change (dl_Namespace (config "a")) with "ns" in Hi. rewrite Hl in Hi. injection Hi as <-.
  apply list_elem_of_singleton in Ho1 as ->. rewrite Hkey in *.
  change (sv_history (wo_api w') = l0 ++ l1 ++ l2) in Hh. rewrite Hh in Hk.
  inversion Hs as [| |n1 n2 runID k st p' _ _ _ Hp| |]; subst.
  rewrite !elem_of_cons in Hp.
  destruct Hp as [E|[E|[E|Hp%elem_of_nil]]]; [|discriminate E..|destruct Hp]. injection E as ->. destruct Hr as [Hlen Hr].
  destruct l0 as [|x l0].
  2:{ exfalso. destruct l0 as [|y l0].
      - destruct Htook as [[-> _]|(cw & pw & -> & _ & (b & a & s & s' & rd & -> & _) & _)].
        + destruct l2 as [|? [|]]; [discriminate Hk|discriminate Hk|simpl in Hlen; lia].
        + discriminate Hk.
      - apply Forall_cons in H0 as [_ H0]. apply Forall_cons in H0 as [(? & _ & _ & (b & a & s & s' & rd & -> & _)) _].
        discriminate Hk. }
  destruct Htook as [[-> _]|(cw & pw & -> & _ & Hcw & Hpw)].
  { destruct l2 as [|? [|]]; [discriminate Hk|discriminate Hk|simpl in Hlen; lia]. }
  destruct l2 as [|rw [|]]; [discriminate Hk| |simpl in Hlen; lia].
  exists w', (Ended RunStatusSucceeded), cw, pw, rw. split; [reflexivity|]. split; [reflexivity|].
  split; [exact Hh|]. split; [exact Hcw|]. split; [exact Hpw|].
  exact (proj1 (Forall_singleton _ _) Hr).
Defined.
End worker_examples.
