(* ===== verification/Backlog.v ===== *)
(** * The backlog metrics (internal/metrics/backlog.go)

    A loop that lists workloads and pools and sets gauges; those of tenants that have nothing queued any
    more are reset. *)

From stdpp Require Import prelude gmap strings.
From S2P Require Import Prelude GoFloat SimModel SchedInputs Runtime Simulator Resources.

Local Open Scope Z_scope.
Local Open Scope go_scope.

(** ** Counting *)

Record phaseCounts := {
  pc_queued : Z;
  pc_scheduled : Z;
  pc_queuedByTenant : gmap string Z;
}.

Definition tenantLabel (t : string) : string := if decide (t = "") then "_empty" else t.

Definition countWorkload (c : phaseCounts) (w : GPUWorkload) : phaseCounts :=
  match phase_of w with
  | GPUWorkloadPhaseQueued =>
      let t := tenantLabel (ws_Tenant (w_Spec w)) in
      {| pc_queued := pc_queued c [+] 1; pc_scheduled := pc_scheduled c;
         pc_queuedByTenant :=
           <[t := default 0 (pc_queuedByTenant c !! t) [+] 1]> (pc_queuedByTenant c) |}
  | GPUWorkloadPhaseScheduled =>
      {| pc_queued := pc_queued c; pc_scheduled := pc_scheduled c [+] 1;
         pc_queuedByTenant := pc_queuedByTenant c |}
  | _ => c
  end.

Definition noCounts : phaseCounts :=
  {| pc_queued := 0; pc_scheduled := 0; pc_queuedByTenant := ∅ |}.

Definition countWorkloadsByPhase (items : list GPUWorkload) : phaseCounts :=
  foldl countWorkload noCounts items.

Definition aggregatePoolDevices (list_ : Result (list GPUNodePool)) : Z * Z :=
  match list_ with
  | Err _ => (0, 0)
  | Ok items => (int64_sum (λ p, pst_TotalDevices (p_Status p)) 0 items,
                 int64_sum (λ p, pst_AllocatedDevices (p_Status p)) 0 items)
  end.

(** ** The loop *)

(** The gauges (integers stand for their [float64]) and the tenants of the last poll. *)
Record backlogState := {
  bl_queued : Z;
  bl_scheduled : Z;
  bl_utilization : float64;
  bl_byTenant : gmap string Z;
  bl_lastTenants : gmap string unit;
}.

Definition initialBacklog : backlogState :=
  {| bl_queued := 0; bl_scheduled := 0; bl_utilization := fzero; bl_byTenant := ∅;
     bl_lastTenants := ∅ |}.

(** The two loops over tenants: on the gauges and the last tenants. *)
Definition resetTenant (queuedByTenant : gmap string Z)
    (acc : gmap string Z * gmap string unit) (e : string * unit) : gmap string Z * gmap string unit :=
  if decide (is_Some (queuedByTenant !! e.1)) then acc
  else (<[e.1 := 0]> acc.1, delete e.1 acc.2).

Definition setTenant (acc : gmap string Z * gmap string unit) (e : string * Z)
    : gmap string Z * gmap string unit :=
  (<[e.1 := e.2]> acc.1, <[e.1 := tt]> acc.2).

(** One iteration, for what the two lists returned. *)
Definition pollBacklog `{MapIter} (st : backlogState)
    (lists : Result (list GPUWorkload) * Result (list GPUNodePool)) : backlogState :=
  let '(total, allocated) := aggregatePoolDevices lists.2 in
  let utilization := if 0 <? total then (of_int allocated / of_int total)%F else fzero in
  match lists.1 with
  | Err _ => {| bl_queued := 0; bl_scheduled := 0; bl_utilization := utilization;
                bl_byTenant := bl_byTenant st; bl_lastTenants := bl_lastTenants st |}
  | Ok items =>
      let c := countWorkloadsByPhase items in
      let acc := foldl (resetTenant (pc_queuedByTenant c)) (bl_byTenant st, bl_lastTenants st)
                   (map_iter (bl_lastTenants st)) in
      let '(byTenant, lastTenants) := foldl setTenant acc (map_iter (pc_queuedByTenant c)) in
      {| bl_queued := pc_queued c; bl_scheduled := pc_scheduled c; bl_utilization := utilization;
         bl_byTenant := byTenant; bl_lastTenants := lastTenants |}
  end.

Definition runBacklog `{MapIter}
    (polls : list (Result (list GPUWorkload) * Result (list GPUNodePool))) : backlogState :=
  foldl pollBacklog initialBacklog polls.

(** ** Exactness *)

Definition queued_for (t : string) (items : list GPUWorkload) : list GPUWorkload :=
  filter (λ w, phase_of w = GPUWorkloadPhaseQueued ∧ tenantLabel (ws_Tenant (w_Spec w)) = t) items.
Definition in_phase (p : GPUWorkloadPhase) (items : list GPUWorkload) : list GPUWorkload :=
  filter (λ w, phase_of w = p) items.

Definition len {A} (l : list A) : Z := Z.of_nat (length l).

Lemma filter_counted (sel : GPUWorkload → Prop) `{Hsel : ∀ w, Decision (sel w)} items w :
  filter sel (items ++ [w]) = filter sel items ++ if decide (sel w) then [w] else [].
Proof. by rewrite filter_app. Qed.

Lemma len_filter {A} (P : A → Prop) `{∀ x, Decision (P x)} (l : list A) : 0 ≤ len (filter P l) ≤ len l.
Proof. unfold len. pose proof (length_filter P l). lia. Qed.

Lemma len_snoc {A} (l : list A) x : len (l ++ [x]) = len l + 1.
Proof. unfold len. rewrite length_app. simpl. lia. Qed.

(** The counts are exact, and a tenant has an entry exactly when it has something queued. *)
Lemma count_exact items :
  len items ≤ int64_max →
  let c := countWorkloadsByPhase items in
  pc_queued c = len (in_phase GPUWorkloadPhaseQueued items) ∧
  pc_scheduled c = len (in_phase GPUWorkloadPhaseScheduled items) ∧
  ∀ t, pc_queuedByTenant c !! t =
       if decide (queued_for t items = []) then None else Some (len (queued_for t items)).
Proof.
  induction items as [|w items IH] using rev_ind; intros Hlen; [done|]. rewrite len_snoc in Hlen.
  destruct IH as (Hq & Hs & Ht); [lia|]. unfold countWorkloadsByPhase in *. rewrite foldl_snoc.
  set (c := foldl countWorkload noCounts items) in *. clearbody c.
  pose proof (len_filter (λ w, phase_of w = GPUWorkloadPhaseQueued) items).
  pose proof (len_filter (λ w, phase_of w = GPUWorkloadPhaseScheduled) items).
  assert (∀ z, 0 ≤ z ≤ len items → z [+] 1 = z + 1) as Hadd
    by (intros z Hz; apply int64_add_id; unfold in_int64, int64_min; lia).
  unfold in_phase, queued_for in *. cbn zeta. rewrite !filter_counted.
  assert (phase_of w ≠ GPUWorkloadPhaseQueued →
    ∀ t, filter (λ w, phase_of w = GPUWorkloadPhaseQueued ∧ tenantLabel (ws_Tenant (w_Spec w)) = t)
           (items ++ [w])
         = filter (λ w, phase_of w = GPUWorkloadPhaseQueued ∧ tenantLabel (ws_Tenant (w_Spec w)) = t)
             items) as Hother.
  { intros Hne t. rewrite filter_counted, decide_False by tauto. apply app_nil_r. }
  unfold countWorkload. destruct (decide (phase_of w = GPUWorkloadPhaseQueued)) as [Hp|Hp].
  - rewrite Hp. rewrite decide_False, app_nil_r by done. cbn.
    rewrite len_snoc, Hq, Hadd by lia. split_and!; [done|done|]. intros t. rewrite filter_counted.
    destruct (decide (tenantLabel (ws_Tenant (w_Spec w)) = t)) as [<-|Hne].
    + rewrite lookup_insert_eq.
      destruct (decide (phase_of w = _ ∧ _ = tenantLabel _)) as [_|[]]; [|done].
      rewrite decide_False by (intros [_ E]%app_eq_nil; done). rewrite len_snoc, Ht. f_equal. case_decide as Hnil.
      * by rewrite Hnil.
      * cbn. apply Hadd. apply len_filter.
    + rewrite lookup_insert_ne by done.
      destruct (decide (phase_of w = _ ∧ _ = t)) as [[_ ?]|_]; [done|]. rewrite app_nil_r. apply Ht.
  - destruct (decide (phase_of w = GPUWorkloadPhaseScheduled)) as [Hp'|Hp'].
    + rewrite Hp'. cbn. rewrite app_nil_r, len_snoc, Hs, Hadd by lia. split_and!; [done|done|].
      intros t. rewrite Hother by done. apply Ht.
    + rewrite !app_nil_r. destruct (phase_of w); try done; split_and!; try done; intros t;
        (rewrite Hother by done; apply Ht).
Qed.

(** *** The loops over tenants *)

Lemma reset_spec q l acc t :
  let acc' := foldl (resetTenant q) acc l in
  (acc'.1 !! t = if decide (t ∈ l.*1 ∧ q !! t = None) then Some 0 else acc.1 !! t) ∧
  (acc'.2 !! t = if decide (t ∈ l.*1 ∧ q !! t = None) then None else acc.2 !! t).
Proof.
  revert acc. induction l as [|[k []] l IH]; intros acc; cbn [foldl fmap list_fmap].
  { destruct (decide _) as [[?%elem_of_nil _]|]; done. }
  destruct (IH (resetTenant q acc (k, ()))) as [-> ->].
  destruct (decide (t ∈ l.*1 ∧ q !! t = None)) as [[Ht Hq]|Hn].
  { destruct (decide (_ ∧ _)) as [|[]]; [done|]. split; [by right|done]. }
  unfold resetTenant. cbn [fst snd].
  destruct (decide (t ∈ k :: l.*1 ∧ q !! t = None)) as [[[->|Ht]%elem_of_cons Hq]|Hn'].
  - rewrite Hq. destruct (decide (is_Some None)) as [[]|_]; [done|]. cbn.
    by rewrite lookup_insert_eq, lookup_delete_eq.
  - tauto.
  - destruct (decide (is_Some (q !! k))) as [|Hk%eq_None_not_Some]; [done|]. cbn.
    destruct (decide (t = k)) as [->|Hne]; [destruct Hn'; split; [left|done]|].
    by rewrite lookup_insert_ne, lookup_delete_ne by done.
Qed.

Lemma set_spec (l : list (string * Z)) acc t :
  NoDup l.*1 →
  let acc' := foldl setTenant acc l in
  (∀ c, (t, c) ∈ l → acc'.1 !! t = Some c ∧ acc'.2 !! t = Some tt) ∧
  (t ∉ l.*1 → acc'.1 !! t = acc.1 !! t ∧ acc'.2 !! t = acc.2 !! t).
Proof.
  revert acc. induction l as [|[k c] l IH]; intros acc; cbn [foldl fmap list_fmap].
  { intros _. split; [by intros c ?%elem_of_nil|done]. }
  intros [Hk Hl]%NoDup_cons. destruct (IH (setTenant acc (k, c)) Hl) as [IHin IHout]. split.
  - intros c' [[= -> ->]|Hin]%elem_of_cons; [|by apply IHin]. destruct (IHout Hk) as [-> ->].
    cbn. by rewrite !lookup_insert_eq.
  - intros [Hne Hout]%not_elem_of_cons. destruct (IHout Hout) as [-> ->]. cbn.
    by rewrite !lookup_insert_ne by done.
Qed.

(** *** The invariant of the loop *)

(** A gauge that is not zero belongs to a tenant of the last successful poll. *)
Definition backlog_inv (st : backlogState) : Prop :=
  ∀ t c, bl_byTenant st !! t = Some c → c ≠ 0 → is_Some (bl_lastTenants st !! t).

Lemma poll_tenants `{MapIter} st items pools :
  len items ≤ int64_max → backlog_inv st →
  let st' := pollBacklog st (Ok items, pools) in
  backlog_inv st' ∧ ∀ t, default 0 (bl_byTenant st' !! t) = len (queued_for t items).
Proof.
  intros Hlen Hinv. destruct (count_exact items Hlen) as (_ & _ & Ht).
  unfold pollBacklog. destruct (aggregatePoolDevices _) as [total allocated]. cbn [fst snd].
  set (q := pc_queuedByTenant (countWorkloadsByPhase items)) in *.
  set (acc := foldl (resetTenant q) _ _).
  assert (∀ t, (∀ c, q !! t = Some c →
      (foldl setTenant acc (map_iter q)).1 !! t = Some c ∧
      (foldl setTenant acc (map_iter q)).2 !! t = Some tt) ∧
    (q !! t = None →
      (foldl setTenant acc (map_iter q)).1 !! t = acc.1 !! t ∧
      (foldl setTenant acc (map_iter q)).2 !! t = acc.2 !! t)) as Hset.
  { intros t. destruct (set_spec (map_iter q) acc t) as [Hin Hout]; [rewrite map_iter_perm; apply NoDup_fst_map_to_list|]. split.
    - intros c Hc. apply Hin. by apply map_iter_lookup.
    - intros Hn. apply Hout. intros ((k & c) & -> & Hc)%list_elem_of_fmap.
      apply map_iter_lookup in Hc. cbn in Hn. congruence. }
  assert (∀ t, q !! t = None →
    default 0 (acc.1 !! t) = 0 ∧ (∀ c, acc.1 !! t = Some c → c = 0)) as Hzero.
  { intros t Hn. unfold acc.
    destruct (reset_spec q (map_iter (bl_lastTenants st)) (bl_byTenant st, bl_lastTenants st) t)
      as [-> _]. case_decide as Hd; [by split; [|intros c [= <-]]|].
    cbn. destruct (bl_byTenant st !! t) as [c|] eqn:Hc; [|done].
    assert (c = 0) as ->; [|split; [done|by intros c [= <-]]].
    destruct (decide (c = 0)) as [|Hne]; [done|]. exfalso. apply Hd. split; [|done].
    destruct (Hinv t c Hc Hne) as [[] Hu]. apply list_elem_of_fmap. exists (t, ()).
    split; [done|]. by apply map_iter_lookup. }
  clearbody acc. destruct (foldl setTenant acc (map_iter q)) as [byT last]. cbn [fst snd] in *.
  split.
  - intros t c. cbn. intros Hc Hne. destruct (Hset t) as [Hs Hn]. destruct (q !! t) as [c'|] eqn:Hq.
    + destruct (Hs c' eq_refl) as [_ ->]. by eexists.
    + destruct (Hn eq_refl) as [E _]. rewrite E in Hc. destruct (Hzero t Hq) as [_ Hz]. destruct Hne. by apply Hz.
  - intros t. cbn. destruct (Hset t) as [Hs Hn]. specialize (Ht t). destruct (q !! t) as [c'|] eqn:Hq.
    + destruct (Hs c' eq_refl) as [-> _]. case_decide; [done|]. by injection Ht as ->.
    + destruct (Hn eq_refl) as [-> _]. destruct (Hzero t Hq) as [-> _]. case_decide as Hnil; [|done].
      by rewrite Hnil.
Qed.

Lemma poll_inv `{MapIter} st lists :
  (∀ items, lists.1 = Ok items → len items ≤ int64_max) →
  backlog_inv st → backlog_inv (pollBacklog st lists).
Proof.
  destruct lists as [[items|e] pools]; cbn [fst]; intros Hlen Hinv.
  - by apply (poll_tenants st items pools (Hlen items eq_refl) Hinv).
  - unfold pollBacklog. by destruct (aggregatePoolDevices _).
Qed.

Lemma run_inv `{MapIter} polls :
  Forall (λ lists, ∀ items, lists.1 = Ok items → len items ≤ int64_max) polls →
  backlog_inv (runBacklog polls).
Proof.
  induction polls as [|lists polls IH] using rev_ind; intros Hall; [by intros t c|].
  apply Forall_app in Hall as [Hall Hlast]. unfold runBacklog. rewrite foldl_snoc.
  apply poll_inv; [by inversion Hlast|by apply IH].
Qed.

(** What the pools add up to, in integers. *)
Definition pool_sum (f : GPUNodePoolStatus → Z) (pools : list GPUNodePool) : Z :=
  Zsum (λ p, f (p_Status p)) pools.

Lemma pool_devices_exact pools :
  in_int64 (pool_sum pst_TotalDevices pools) → in_int64 (pool_sum pst_AllocatedDevices pools) →
  aggregatePoolDevices (Ok pools)
  = (pool_sum pst_TotalDevices pools, pool_sum pst_AllocatedDevices pools).
Proof. intros Ht Ha. unfold aggregatePoolDevices. by rewrite !int64_sum_id. Qed.

Lemma poll_counts `{MapIter} st items pools :
  len items ≤ int64_max →
  let st' := pollBacklog st (Ok items, pools) in
  bl_queued st' = len (in_phase GPUWorkloadPhaseQueued items) ∧
  bl_scheduled st' = len (in_phase GPUWorkloadPhaseScheduled items).
Proof.
  intros Hlen. destruct (count_exact items Hlen) as (Hq & Hs & _). unfold pollBacklog.
  destruct (aggregatePoolDevices _). cbn [fst]. by destruct (foldl setTenant _ _).
Qed.

Lemma poll_utilization `{MapIter} st list_ pools :
  in_int64 (pool_sum pst_TotalDevices pools) → in_int64 (pool_sum pst_AllocatedDevices pools) →
  bl_utilization (pollBacklog st (list_, Ok pools))
  = if 0 <? pool_sum pst_TotalDevices pools
    then (of_int (pool_sum pst_AllocatedDevices pools) / of_int (pool_sum pst_TotalDevices pools))%F
    else fzero.
Proof.
  intros Ht Ha. unfold pollBacklog. cbn [snd]. rewrite pool_devices_exact by done.
  destruct list_ as [items|e]; [|done]. cbn [fst]. by destruct (foldl setTenant _ _).
Qed.

(** C34: whatever the earlier polls returned, errors included, and in whatever order the maps were
    walked: after a poll whose lists both succeed the queued and scheduled gauges are the numbers of
    workloads in those phases, the gauge of every tenant, reported before or not, is the number of
    workloads that tenant has queued (so a tenant whose last workload left the queue reads 0), and the
    utilization is the allocated over the total devices of all pools. *)
Theorem backlog_exact `{MapIter} polls items pools :
  Forall (λ lists, ∀ items, lists.1 = Ok items → len items ≤ int64_max) polls →
  len items ≤ int64_max →
  in_int64 (pool_sum pst_TotalDevices pools) → in_int64 (pool_sum pst_AllocatedDevices pools) →
  let st := runBacklog (polls ++ [(Ok items, Ok pools)]) in
  bl_queued st = len (in_phase GPUWorkloadPhaseQueued items) ∧
  bl_scheduled st = len (in_phase GPUWorkloadPhaseScheduled items) ∧
  (∀ t, default 0 (bl_byTenant st !! t) = len (queued_for t items)) ∧
  bl_utilization st =
    if 0 <? pool_sum pst_TotalDevices pools
    then (of_int (pool_sum pst_AllocatedDevices pools) / of_int (pool_sum pst_TotalDevices pools))%F
    else fzero.
Proof.
  intros Hpolls Hlen Ht Ha. unfold runBacklog. rewrite foldl_snoc. fold (runBacklog polls).
  split_and!.
  - by apply poll_counts.
  - by apply poll_counts.
  - by apply poll_tenants; [|apply run_inv].
  - by apply poll_utilization.
Qed.

(** ** Witness and an example *)

Module BacklogExample.
Import ResourceExample.
#[export] Instance I : MapIter := map_iter_canonical.
Definition busy : list GPUWorkload :=
  [workload "a" "acme" 1 100 GPUWorkloadPhaseQueued; workload "b" "" 1 100 GPUWorkloadPhaseQueued;
   workload "c" "acme" 1 100 GPUWorkloadPhaseScheduled].
Definition calm : list GPUWorkload := [workload "b" "" 1 100 GPUWorkloadPhaseQueued].
Definition failed : Result (list GPUWorkload) * Result (list GPUNodePool) := (Err (Errorf "timeout"), Ok pools).
End BacklogExample.

Section examples.
Import BacklogExample ResourceExample.

Lemma backlog_exact_witness :
  let st := runBacklog ([(Ok busy, Err (Errorf "timeout")); failed]
                        ++ [(Ok calm, Ok pools)]) in
  bl_queued st = 1 ∧ default 0 (bl_byTenant st !! "acme") = 0 ∧
  default 0 (bl_byTenant st !! "_empty") = 1 ∧
  bl_utilization st = (of_int 15 / of_int 24)%F.
Proof.
  destruct (backlog_exact [(Ok busy, Err (Errorf "timeout")); failed]
              calm pools) as (Hq & _ & Ht & Hu).
  - repeat constructor; intros items [= <-]; vm_compute; discriminate.
  - by vm_compute.
  - by vm_compute.
  - by vm_compute.
  - split_and!; [exact Hq|exact (Ht "acme")|exact (Ht "_empty")|exact Hu].
Defined.

(** A poll whose workload list fails zeroes the two totals and leaves the gauges of the tenants as they
    were: until the next poll succeeds they add up to more than the total next to them. *)
Example failed_list_keeps_tenants :
  let st := runBacklog [(Ok busy, Ok pools); failed] in
  bl_queued st = 0 ∧ bl_byTenant st !! "acme" = Some 1 ∧ bl_byTenant st !! "_empty" = Some 1.
Proof. by vm_compute. Qed.
End examples.
