(* ===== verification/Producer.v ===== *)
(** * The producer (internal/producer/generator.go, cmd/producer/main.go)

    The load generator draws requests from [math/rand], a parameter with its documented ranges; the
    program sends them to the submit topic, one after the other or from several goroutines that share
    them out by stride. *)

From stdpp Require Import prelude gmap strings pretty.
From Stdlib Require Import SpecFloat.
From S2P Require Import Prelude GoFloat SimModel SchedInputs Resources SchedState Cluster Submitter.

Local Open Scope Z_scope.
Local Open Scope go_scope.

(** ** math/rand *)

Class Rand := {
  rand : Type;
  newRand : Z → rand;
  Int63 : rand → Z * rand;
  Intn : Z → rand → Z * rand;
  Int63n : Z → rand → Z * rand;
  Float32 : rand → spec_float * rand;
  Float64 : rand → float64 * rand;
}.

(** The documented ranges of the integers; [Intn] and [Int63n] panic for [n <= 0]. *)
Class RandLaws `{Rand} : Prop := {
  Int63_range : ∀ r, 0 ≤ (Int63 r).1 < 2 ^ 63;
  Intn_range : ∀ n r, 0 < n → 0 ≤ (Intn n r).1 < n;
  Int63n_range : ∀ n r, 0 < n → 0 ≤ (Int63n n r).1 < n;
}.

(** The constant [0.3] as a [float32]. *)
Definition float32_0_3 : spec_float :=
  SFdiv 24 128 (binary_normalize 24 128 3 0 false) (binary_normalize 24 128 10 0 false).

(** ** The generator *)

Section generator.
Context `{Rand}.

Record Generator := {
  g_Tenants : list string;
  g_Profiles : list string;
  g_Kinds : list string;
  g_Counter : Z;
  g_Rand : rand;
}.

Definition Kinds : list string :=
  ["training"; "inference"; "eval"; "fine_tune"; "rlhf"; "embedding"; "data_preprocess";
   "distillation"].
Definition Profiles : list string := ["h100_sxm"; "a100_80gb"; "tpu_v5e_chip"].

Definition NewGenerator (tenants : list string) (seed : Z) : Generator :=
  {| g_Tenants := match tenants with [] => ["tenant-a"; "tenant-b"; "tenant-c"] | _ => tenants end;
     g_Profiles := Profiles; g_Kinds := Kinds; g_Counter := 0; g_Rand := newRand seed |}.

(** The loop of [SetProfiles] and [SetKinds]. *)
Definition cleaned (l : list string) : list string := filter (.≠ "") (TrimSpace <$> l).

Definition SetProfiles (profiles : list string) (g : Generator) : Generator :=
  match cleaned profiles with
  | [] => g
  | l => {| g_Tenants := g_Tenants g; g_Profiles := l; g_Kinds := g_Kinds g;
            g_Counter := g_Counter g; g_Rand := g_Rand g |}
  end.

Definition SetKinds (kinds : list string) (g : Generator) : Generator :=
  match cleaned kinds with
  | [] => g
  | l => {| g_Tenants := g_Tenants g; g_Profiles := g_Profiles g; g_Kinds := l;
            g_Counter := g_Counter g; g_Rand := g_Rand g |}
  end.

(** *** Operations on the generator, [None] for a panic *)

Definition Gen (A : Type) : Type := Generator → option (A * Generator).

#[export] Instance gen_ret : MRet Gen := λ A a g, Some (a, g).
#[export] Instance gen_bind : MBind Gen := λ A B k m g, '(a, g) ← m g; k a g.

Definition field {A} (f : Generator → A) : Gen A := λ g, Some (f g, g).

Definition with_rand (g : Generator) (r : rand) : Generator :=
  {| g_Tenants := g_Tenants g; g_Profiles := g_Profiles g; g_Kinds := g_Kinds g;
     g_Counter := g_Counter g; g_Rand := r |}.

Definition draw {A} (f : rand → A * rand) : Gen A :=
  λ g, let '(a, r) := f (g_Rand g) in Some (a, with_rand g r).

Definition drawN (f : Z → rand → Z * rand) (n : Z) : Gen Z :=
  if n <=? 0 then λ _, None else draw (f n).

(** [l[i]] *)
Definition index {A} (l : list A) (i : Z) : Gen A :=
  λ g, if i <? 0 then None else (., g) <$> (l !! Z.to_nat i).

(** [l[g.Rand.Intn(len(l))]] *)
Definition pick {A} (l : list A) : Gen A :=
  i ← drawN Intn (Z.of_nat (length l)); index l i.

Definition count_up : Gen () := λ g,
  Some ((), {| g_Tenants := g_Tenants g; g_Profiles := g_Profiles g; g_Kinds := g_Kinds g;
               g_Counter := g_Counter g [+] 1; g_Rand := g_Rand g |}).

Definition gRand (min max : Z) : Gen Z :=
  if max <=? min then mret min
  else n ← drawN Intn (max [-] min [+] 1); mret (min [+] n).

Definition gRandFloat (min max : float64) : Gen float64 :=
  x ← draw Float64; mret (min + x * (max - min))%F.

(** [int32(gRand(g, min, max))] *)
Definition gRand32 (min max : Z) : Gen Z := n ← gRand min max; mret (wrap32 n).

Definition with_payload (req : WorkloadRequest) (training : option TrainingPayload)
    (inference : option InferencePayload) (eval : option EvalPayload)
    (fineTune : option FineTunePayload) (rlhf : option RLHFPayload)
    (embedding : option EmbeddingPayload) (dataPreprocess : option DataPreprocessPayload)
    (distillation : option DistillationPayload) : WorkloadRequest :=
  {| wr_RequestID := wr_RequestID req; wr_Tenant := wr_Tenant req; wr_Priority := wr_Priority req;
     wr_GPUCount := wr_GPUCount req; wr_GPUMemoryMiB := wr_GPUMemoryMiB req;
     wr_Tokens := wr_Tokens req; wr_MaxRuntimeSeconds := wr_MaxRuntimeSeconds req;
     wr_ModelProfile := wr_ModelProfile req; wr_Kind := wr_Kind req;
     wr_Training := training; wr_Inference := inference; wr_Eval := eval; wr_FineTune := fineTune;
     wr_RLHF := rlhf; wr_Embedding := embedding; wr_DataPreprocess := dataPreprocess;
     wr_Distillation := distillation |}.

(** The request comes from [Next], which leaves the payloads unset. *)
Definition setKindPayload (req : WorkloadRequest) : Gen WorkloadRequest :=
  let kind := wr_Kind req in
  if decide (kind = "training") then
    gb ← gRand32 8 256; mb ← gRand32 1 32; ga ← gRand32 1 8; sl ← gRand32 512 4096;
    mret (with_payload req
      (Some {| tp_GlobalBatchSize := gb; tp_MicroBatchSize := mb; tp_GradAccumSteps := ga;
               tp_SequenceLength := sl |}) None None None None None None None)
  else if decide (kind = "inference") then
    b ← gRand32 1 64;
    mret (with_payload req None (Some {| ip_BatchSize := b |}) None None None None None None)
  else if decide (kind = "eval") then
    b ← gRand32 1 32; m ← gRandFloat fzero (lit 2 10); v ← gRandFloat fzero (lit 15 100);
    mret (with_payload req None None
      (Some {| ep_BatchSize := b; ep_MetricOverheadPct := m; ep_ValidationOverheadPct := v |})
      None None None None None)
  else if decide (kind = "fine_tune") then
    gb ← gRand32 4 128; mb ← gRand32 1 16; ga ← gRand32 1 8;
    ws ← gRandFloat fzero (lit 1 10); cl ← gRandFloat fzero (lit 5 100);
    mret (with_payload req None None None
      (Some {| fp_GlobalBatchSize := gb; fp_MicroBatchSize := mb; fp_GradAccumSteps := ga;
               fp_WarmStartOverheadPct := ws; fp_CheckpointLoadOverheadPct := cl |})
      None None None None)
  else if decide (kind = "rlhf") then
    ro ← gRand32 4 32; rw ← gRand32 4 64; up ← gRand32 2 16; ps ← gRand32 1 10;
    mret (with_payload req None None None None
      (Some {| rp_RolloutBatchSize := ro; rp_RewardBatchSize := rw; rp_UpdateBatchSize := up;
               rp_PolicyUpdateSteps := ps |}) None None None)
  else if decide (kind = "embedding") then
    b ← gRand32 8 128; vd ← pick [384; 768; 1024; 1536]; al ← gRand32 32 512;
    mret (with_payload req None None None None None
      (Some {| mp_BatchSize := b; mp_VectorDimension := vd; mp_AvgTokenLength := al |}) None None)
  else if decide (kind = "data_preprocess") then
    ib ← drawN Int63n 10000000000;
    tk ← gRandFloat fzero (lit 2 10); au ← gRandFloat fzero (lit 1 10);
    mret (with_payload req None None None None None None
      (Some {| pp_InputBytes := ib [+] 1000000; pp_TokenizationOverheadPct := tk;
               pp_AugmentationOverheadPct := au |}) None)
  else if decide (kind = "distillation") then
    b ← gRand32 2 32; tf ← gRandFloat fzero (lit 3 10);
    mret (with_payload req None None None None None None None
      (Some {| dp_TeacherProfile := "a100_80gb"; dp_BatchSize := b;
               dp_TeacherForwardOverheadPct := tf |}))
  else mret req.

Definition memorySizes : list Z := [4096; 8192; 16384; 32768; 40960; 81920].

(** The optional limit of the runtime. *)
Definition maxRuntime : Gen (option Z) :=
  f ← draw Float32;
  if SFltb f float32_0_3 then n ← drawN Intn 3600; mret (Some (n [+] 60)) else mret None.

Definition Next : Gen WorkloadRequest :=
  _ ← count_up;
  counter ← field g_Counter;
  salt ← draw Int63;
  tenants ← field g_Tenants; tenant ← pick tenants;
  priority ← drawN Intn 10;
  gpus ← drawN Intn 4;
  mem ← pick memorySizes;
  tokens ← drawN Int63n 5000000;
  profiles ← field g_Profiles; profile ← pick profiles;
  kinds ← field g_Kinds; kind ← pick kinds;
  limit ← maxRuntime;
  setKindPayload
    {| wr_RequestID := "loadgen-" +:+ pretty counter +:+ "-" +:+ pretty salt; wr_Tenant := tenant;
       wr_Priority := wrap32 (priority [+] 1); wr_GPUCount := wrap32 (gpus [+] 1);
       wr_GPUMemoryMiB := mem; wr_Tokens := tokens [+] 10000; wr_MaxRuntimeSeconds := limit;
       wr_ModelProfile := profile; wr_Kind := kind;
       wr_Training := None; wr_Inference := None; wr_Eval := None; wr_FineTune := None;
       wr_RLHF := None; wr_Embedding := None; wr_DataPreprocess := None; wr_Distillation := None |}.

(** The loop of the program over [gen.Next()]. *)
Fixpoint generate (n : nat) : Gen (list WorkloadRequest) :=
  match n with
  | O => mret []
  | S n => req ← Next; reqs ← generate n; mret (req :: reqs)
  end.
End generator.

(** ** What the generator draws *)

#[local] Arguments int64_add : simpl never.

Section draws.
Context `{RandLaws}.

(** [m] returns from [g], moves nothing but the random source, and its result satisfies [Q]. *)
Definition gsat {A} (g : Generator) (m : Gen A) (Q : A → Prop) : Prop :=
  ∃ a r, m g = Some (a, with_rand g r) ∧ Q a.

Lemma gsat_ret {A} g (a : A) (Q : A → Prop) : Q a → gsat g (mret a) Q.
Proof. intros HQ. exists a, (g_Rand g). split; [by destruct g|done]. Qed.

Lemma gsat_bind {A B} g (m : Gen A) (k : A → Gen B) P (Q : B → Prop) :
  gsat g m P → (∀ a r, P a → gsat (with_rand g r) (k a) Q) → gsat g (m ≫= k) Q.
Proof.
  intros (a & r & Hm & HP) Hk. destruct (Hk a r HP) as (b & r' & Hb & HQ).
  exists b, r'. split; [|done]. unfold mbind, gen_bind. rewrite Hm. simpl. by rewrite Hb.
Qed.

Lemma gsat_mono {A} g (m : Gen A) (P Q : A → Prop) :
  gsat g m P → (∀ a, P a → Q a) → gsat g m Q.
Proof. intros (a & r & Hm & HP) HPQ. exists a, r. eauto. Qed.

Lemma gsat_field {A} g (f : Generator → A) : gsat g (field f) (λ a, a = f g).
Proof. exists (f g), (g_Rand g). split; [by destruct g|done]. Qed.

Lemma gsat_draw {A} g (f : rand → A * rand) (Q : A → Prop) :
  (∀ r, Q (f r).1) → gsat g (draw f) Q.
Proof.
  intros HQ. specialize (HQ (g_Rand g)). destruct (f (g_Rand g)) as [a r] eqn:E.
  exists a, r. unfold draw. by rewrite E.
Qed.

Lemma gsat_any {A} g (f : rand → A * rand) : gsat g (draw f) (λ _, True).
Proof. by apply gsat_draw. Qed.

Lemma gsat_Intn g n : 0 < n → gsat g (drawN Intn n) (λ i, 0 ≤ i < n).
Proof.
  intros Hn. unfold drawN. destruct (Z.leb_spec n 0); [lia|]. apply gsat_draw. intros r.
  by apply Intn_range.
Qed.

Lemma gsat_Int63n g n : 0 < n → gsat g (drawN Int63n n) (λ i, 0 ≤ i < n).
Proof.
  intros Hn. unfold drawN. destruct (Z.leb_spec n 0); [lia|]. apply gsat_draw. intros r.
  by apply Int63n_range.
Qed.

Lemma gsat_pick {A} g (l : list A) : l ≠ [] → gsat g (pick l) (λ x, x ∈ l).
Proof.
  intros Hl. unfold pick. eapply gsat_bind; [apply gsat_Intn; destruct l; [done|simpl; lia]|].
  intros i r Hi. cbv beta in Hi. destruct (lookup_lt_is_Some_2 l (Z.to_nat i)) as [x Hx]; [lia|]. exists x, r.
  unfold index. destruct (Z.ltb_spec i 0); [lia|]. rewrite Hx. split; [done|].
  by eapply list_elem_of_lookup_2.
Qed.

Lemma gsat_gRand32 g lo hi :
  0 ≤ lo ≤ hi → hi ≤ int32_max → gsat g (gRand32 lo hi) (λ n, lo ≤ n ≤ hi).
Proof.
  unfold int32_max. intros Hlo Hhi. unfold gRand32.
  eapply (gsat_bind _ _ _ (λ n, lo ≤ n ≤ hi)).
  - unfold gRand. destruct (Z.leb_spec hi lo); [apply gsat_ret; lia|].
    rewrite int64_sub_id, int64_add_id by (unfold in_int64, int64_min, int64_max; lia).
    eapply gsat_bind; [apply gsat_Intn; lia|]. intros n r Hn. cbv beta in Hn. apply gsat_ret.
    rewrite int64_add_id by (unfold in_int64, int64_min, int64_max; lia). lia.
  - intros n r Hn. cbv beta in Hn. apply gsat_ret.
    rewrite wrap32_id by (unfold in_int32, int32_min, int32_max; lia). done.
Qed.

Lemma gsat_gRandFloat g lo hi : gsat g (gRandFloat lo hi) (λ _, True).
Proof. eapply gsat_bind; [apply gsat_any|]. intros x r _. by apply gsat_ret. Qed.

Lemma gsat_maxRuntime g :
  gsat g maxRuntime (λ o, match o with Some n => 60 ≤ n < 3660 | None => True end).
Proof.
  eapply gsat_bind; [apply gsat_any|]. intros f r _. cbv beta.
  destruct (SFltb f float32_0_3); [|by apply gsat_ret].
  eapply gsat_bind; [apply gsat_Intn; lia|]. intros n r' Hn. cbv beta in Hn. apply gsat_ret.
  rewrite int64_add_id by (unfold in_int64, int64_min, int64_max; lia). lia.
Qed.

(** One draw. *)
Ltac gen_step :=
  eapply gsat_bind;
  [ first [ apply gsat_gRand32; unfold int32_max; lia | apply gsat_gRandFloat | by apply gsat_pick
          | apply gsat_Int63n; lia | apply gsat_Intn; lia | apply gsat_field ]
  | intros ? ? ?; cbv beta in * ].

(** The ranges of the payloads; at most the one of the kind is set. *)
Definition payloads_in_range (req : WorkloadRequest) : Prop :=
  (∀ t, wr_Training req = Some t →
     8 ≤ tp_GlobalBatchSize t ≤ 256 ∧ 1 ≤ tp_MicroBatchSize t ≤ 32 ∧
     1 ≤ tp_GradAccumSteps t ≤ 8 ∧ 512 ≤ tp_SequenceLength t ≤ 4096) ∧
  (∀ i, wr_Inference req = Some i → 1 ≤ ip_BatchSize i ≤ 64) ∧
  (∀ e, wr_Eval req = Some e → 1 ≤ ep_BatchSize e ≤ 32) ∧
  (∀ f, wr_FineTune req = Some f →
     4 ≤ fp_GlobalBatchSize f ≤ 128 ∧ 1 ≤ fp_MicroBatchSize f ≤ 16 ∧ 1 ≤ fp_GradAccumSteps f ≤ 8) ∧
  (∀ r, wr_RLHF req = Some r →
     4 ≤ rp_RolloutBatchSize r ≤ 32 ∧ 4 ≤ rp_RewardBatchSize r ≤ 64 ∧
     2 ≤ rp_UpdateBatchSize r ≤ 16 ∧ 1 ≤ rp_PolicyUpdateSteps r ≤ 10) ∧
  (∀ m, wr_Embedding req = Some m →
     8 ≤ mp_BatchSize m ≤ 128 ∧ mp_VectorDimension m ∈ [384; 768; 1024; 1536] ∧
     32 ≤ mp_AvgTokenLength m ≤ 512) ∧
  (∀ p, wr_DataPreprocess req = Some p → 1000000 ≤ pp_InputBytes p < 10001000000) ∧
  (∀ d, wr_Distillation req = Some d →
     dp_TeacherProfile d = "a100_80gb" ∧ 2 ≤ dp_BatchSize d ≤ 32).

(** The payloads aside, as [Next] builds it. *)
Definition same_request (req req' : WorkloadRequest) : Prop :=
  ∃ a b c d e f g h, req' = with_payload req a b c d e f g h.

Definition no_payload (req : WorkloadRequest) : Prop :=
  req = with_payload req None None None None None None None None.

Lemma gsat_payload g req :
  no_payload req →
  gsat g (setKindPayload req) (λ req', same_request req req' ∧ payloads_in_range req' ∧
    missingPayload req' (wr_Kind req) = None).
Proof.
  intros Hno. unfold setKindPayload. cbv zeta.
  repeat case_decide; repeat gen_step; apply gsat_ret;
    (split; [first [by do 8 eexists | rewrite Hno; by do 8 eexists]|]).
  all: split; [|first [match goal with Hk : wr_Kind _ = _ |- _ => by rewrite Hk end
                      |unfold missingPayload; by rewrite !decide_False by done]].
  all: unfold payloads_in_range; try rewrite Hno; cbn; split_and!; intros ? [= <-]; cbn.
  all: try solve [split_and!; first [lia|done]].
  rewrite int64_add_id by (unfold in_int64, int64_min, int64_max; lia). lia.
Qed.

(** *** Requests *)

Definition not_blank (s : string) : Prop := TrimSpace s ≠ "".

(** The lists to pick from are as [NewGenerator] sets them, up to their names. *)
Record gen_ok (g : Generator) : Prop := {
  go_tenants : g_Tenants g ≠ [] ∧ Forall not_blank (g_Tenants g);
  go_profiles : g_Profiles g ≠ [] ∧ Forall not_blank (g_Profiles g);
  go_kinds : g_Kinds g ≠ [] ∧ Forall (.∈ validKinds) (g_Kinds g);
}.

(** A request of the generator [g]. *)
Record generated (g : Generator) (req : WorkloadRequest) : Prop := {
  gd_id : ∃ salt, 0 ≤ salt < 2 ^ 63 ∧
    wr_RequestID req = "loadgen-" +:+ pretty (g_Counter g [+] 1) +:+ "-" +:+ pretty salt;
  gd_tenant : wr_Tenant req ∈ g_Tenants g;
  gd_profile : wr_ModelProfile req ∈ g_Profiles g;
  gd_kind : wr_Kind req ∈ g_Kinds g;
  gd_priority : 1 ≤ wr_Priority req ≤ 10;
  gd_gpus : 1 ≤ wr_GPUCount req ≤ 4;
  gd_memory : wr_GPUMemoryMiB req ∈ memorySizes;
  gd_tokens : 10000 ≤ wr_Tokens req < 5010000;
  gd_limit : match wr_MaxRuntimeSeconds req with Some n => 60 ≤ n < 3660 | None => True end;
  gd_payload : payloads_in_range req ∧ missingPayload req (wr_Kind req) = None;
}.

Definition counted (g : Generator) (r : rand) : Generator :=
  {| g_Tenants := g_Tenants g; g_Profiles := g_Profiles g; g_Kinds := g_Kinds g;
     g_Counter := g_Counter g [+] 1; g_Rand := r |}.

Lemma gen_bind_count {A} g (k : () → Gen A) : (count_up ≫= k) g = k () (counted g (g_Rand g)).
Proof. done. Qed.

Lemma Next_spec g :
  gen_ok g → ∃ req r, Next g = Some (req, counted g r) ∧ generated g req.
Proof.
  intros [[] [] []]. unfold Next. rewrite gen_bind_count.
  match goal with |- ∃ req r, ?m (counted g _) = _ ∧ _ =>
    cut (gsat (counted g (g_Rand g)) m (generated g)) end.
  { intros (req & r & Hm & Hq). by exists req, r. }
  eapply gsat_bind; [apply gsat_field|]. intros ? r1 ->.
  eapply (gsat_bind _ _ _ (λ n, 0 ≤ n < 2 ^ 63)); [apply gsat_draw, Int63_range|]. intros salt r2 Hsalt.
  repeat (gen_step; simplify_eq/=).
  eapply gsat_bind; [apply gsat_maxRuntime|]. intros limit r11 Hlimit.
  eapply gsat_mono; [by apply gsat_payload|].
  intros req ((? & ? & ? & ? & ? & ? & ? & ? & ->) & Hrange & Hmissing).
  assert (∀ a n, 0 ≤ a < n → n ≤ 5000000 → wrap32 (a [+] 1) = a + 1 ∧ a [+] 10000 = a + 10000) as Hadd.
  { intros n m Hn Hm. rewrite !int64_add_id by (unfold in_int64, int64_min, int64_max; lia).
    by rewrite wrap32_id by (unfold in_int32, int32_min, int32_max; lia). }
  split; try done; cbn; [by exists salt|..].
  all: repeat match goal with H : 0 ≤ ?a < ?n |- context [?a [+] _] =>
    destruct (Hadd a n H ltac:(lia)) as [-> ->] || destruct (Hadd a n H ltac:(lia)) as [-> _]
    || destruct (Hadd a n H ltac:(lia)) as [_ ->] end; lia.
Qed.

End draws.

(** ** Names made of parts joined by dashes *)

Lemma pretty_N_go_length k x s :
  (x < 10 ^ N.of_nat k)%N → (length (bytes (pretty_N_go x s)) ≤ k + length (bytes s))%nat.
Proof.
  revert x s. induction k as [|k IH]; intros x s Hx.
  - assert (x = 0%N) as -> by (simpl in Hx; lia). by rewrite pretty_N_go_0.
  - destruct (decide (x = 0%N)) as [->|Hne]; [rewrite pretty_N_go_0; lia|].
    rewrite pretty_N_go_step by lia. etrans; [apply IH|simpl; lia].
    apply N.Div0.div_lt_upper_bound. rewrite Nat2N.inj_succ, N.pow_succ_r' in Hx. lia.
Qed.

Lemma pretty_N_go_nonempty x s : bytes s ≠ [] → bytes (pretty_N_go x s) ≠ [].
Proof.
  revert s. induction (N.lt_wf_0 x) as [x _ IH]; intros s Hs.
  destruct (decide (x = 0%N)) as [->|Hne]; [by rewrite pretty_N_go_0|].
  rewrite pretty_N_go_step by lia. apply IH; [apply N.div_lt; lia|done].
Qed.

(** A non-negative [int64] prints as 1 to 19 digits. *)
Lemma pretty_digits (z : Z) :
  0 ≤ z < 2 ^ 63 →
  Forall (λ c, is_hex c = true) (bytes (pretty z)) ∧ bytes (pretty z) ≠ [] ∧
  (length (bytes (pretty z)) ≤ 19)%nat.
Proof.
  intros Hz. assert (pretty z = pretty (Z.to_N z)) as ->.
  { destruct z as [|p|p]; [done|done|lia]. }
  assert (Z.to_N z < 10 ^ N.of_nat 19)%N as Hlt by lia.
  generalize dependent (Z.to_N z). clear z Hz. intros n Hn. split_and!.
  - apply Forall_forall. intros c (d & Hd & ->)%pretty_N_bytes.
    assert (d = 0 ∨ d = 1 ∨ d = 2 ∨ d = 3 ∨ d = 4 ∨ d = 5 ∨ d = 6 ∨ d = 7 ∨ d = 8 ∨ d = 9)%N by lia.
    naive_solver.
  - unfold pretty, pretty_N. case_decide; [done|]. rewrite pretty_N_go_step by lia.
    by apply pretty_N_go_nonempty.
  - unfold pretty, pretty_N. case_decide; [simpl; lia|].
    etrans; [by apply (pretty_N_go_length 19)|simpl; lia].
Qed.

Lemma is_hex_no_dash l : Forall (λ c, is_hex c = true) l → dash ∉ l.
Proof. intros Hl Hd. rewrite Forall_forall in Hl. by specialize (Hl dash Hd). Qed.

Lemma hasDouble_join l k :
  hasDouble l = false → (∀ c, last l = Some c → is_dash c = false) →
  hasDouble k = false → (∀ c, head k = Some c → is_dash c = false) →
  hasDouble (l ++ dash :: k) = false.
Proof.
  intros Hl Hlast Hk Hhead. induction l as [|c [|d l] IH].
  - destruct k as [|d k]; [done|]. change (is_dash d || hasDouble (d :: k) = false).
    by rewrite Hk, (Hhead d).
  - destruct k as [|d k]; simpl; rewrite (Hlast c) by done; simpl; [done|].
    change (is_dash d || hasDouble (d :: k) = false). by rewrite Hk, (Hhead d).
  - cbn [hasDouble] in Hl. apply orb_false_iff in Hl as [Hcd Hl].
    change ((is_dash c && is_dash d) || hasDouble ((d :: l) ++ dash :: k) = false).
    rewrite Hcd. apply IH; [done|]. intros b Hb. apply Hlast. by rewrite last_cons_ne.
Qed.

(** Two good parts joined by a dash are good. *)
Lemma name_join l k :
  l ≠ [] → k ≠ [] → name_bytes_ok l → name_bytes_ok k → name_bytes_ok (l ++ dash :: k).
Proof.
  intros Hl Hk (Hv & [Hh Hla] & Hd) (Hv' & [Hh' Hla'] & Hd'). split_and!.
  - apply Forall_app. split; [done|]. by apply Forall_cons.
  - split; intros c; [destruct l; naive_solver|]. rewrite last_app, last_cons_ne by done.
    destruct (last k) eqn:E; [intros [= <-]; by apply Hla'|]. by apply last_None in E.
  - by apply hasDouble_join.
Qed.

(** The ids of the generator and of the seeded requests. *)
Lemma loadgen_name counter salt :
  0 ≤ counter < 2 ^ 63 → 0 ≤ salt < 2 ^ 63 →
  valid_name ("loadgen-" +:+ pretty counter +:+ "-" +:+ pretty salt).
Proof.
  intros (Hc & Hcn & Hcl)%pretty_digits (Hs & Hsn & Hsl)%pretty_digits.
  assert (bytes ("loadgen-" +:+ pretty counter +:+ "-" +:+ pretty salt)
          = (bytes "loadgen" ++ dash :: bytes (pretty counter)) ++ dash :: bytes (pretty salt)) as Hb
    by (rewrite !bytes_app; change (bytes "loadgen-") with (bytes "loadgen" ++ [dash]);
        change (bytes "-") with [dash]; by rewrite <- !app_assoc).
  unfold valid_name. rewrite Hb. split_and!; [done| |].
  - rewrite !length_app. simpl. unfold maxCRNameLength. lia.
  - apply name_join; [done|done| |by apply no_dash_ok]. apply name_join; [done|done| |by apply no_dash_ok].
    by apply no_dash_ok, (bool_decide_unpack _).
Qed.

Lemma loadgen_inj (c c' salt salt' : Z) :
  0 ≤ c < 2 ^ 63 → 0 ≤ c' < 2 ^ 63 →
  "loadgen-" +:+ pretty c +:+ "-" +:+ pretty salt = "loadgen-" +:+ pretty c' +:+ "-" +:+ pretty salt' →
  c = c'.
Proof.
  intros (Hc & _)%pretty_digits (Hc' & _)%pretty_digits E%append_inj%(f_equal bytes).
  rewrite !bytes_app in E. apply (app_first_inj dash) in E as [E _]; [|by apply is_hex_no_dash..].
  by apply bytes_inj, (inj pretty) in E.
Qed.

Lemma scale_name i : 0 ≤ i < 2 ^ 63 → valid_name ("scale-wl-" +:+ pretty i).
Proof.
  intros (Hi & Hn & Hl)%pretty_digits. unfold valid_name. rewrite bytes_app.
  change (bytes "scale-wl-") with (bytes "scale-wl" ++ [dash]). rewrite <- app_assoc. split_and!.
  - done.
  - rewrite length_app. unfold maxCRNameLength. simpl. lia.
  - apply name_join; [done|done| |by apply no_dash_ok].
    apply (name_join (bytes "scale") (bytes "wl")); try done;
      by apply no_dash_ok, (bool_decide_unpack _).
Qed.

(** ** Requests the rest of the program accepts *)

Section requests.
Context `{RandLaws} `{Sha256}.

Lemma validKinds_normal k : k ∈ validKinds → TrimSpace (ToLower k) = k ∧ k ≠ "".
Proof. revert k. apply Forall_forall, (bool_decide_unpack _). by vm_compute. Qed.

Lemma memorySizes_positive m : m ∈ memorySizes → 0 < m.
Proof. revert m. apply Forall_forall, (bool_decide_unpack _). by vm_compute. Qed.

Lemma generated_valid g req : gen_ok g → generated g req → ValidateRequest req = None.
Proof.
  intros [[_ Ht] [_ Hp] [_ Hk]] []. rewrite Forall_forall in Ht, Hp, Hk.
  destruct gd_id0 as (salt & _ & Hid), gd_payload0 as [_ Hpay].
  destruct (validKinds_normal (wr_Kind req)) as [Hnorm Hne]; [by apply Hk|].
  pose proof (memorySizes_positive _ gd_memory0).
  unfold ValidateRequest. rewrite Hnorm, Hpay. cbv zeta.
  rewrite decide_False by (rewrite Hid; intros [Hl _]%TrimSpace_blank%Forall_cons; by vm_compute in Hl).
  rewrite decide_False by (by apply Ht).
  destruct (Z.ltb_spec (wr_GPUCount req) 1); [lia|].
  destruct (Z.ltb_spec (wr_GPUMemoryMiB req) 0); [lia|].
  destruct (Z.ltb_spec (wr_Tokens req) 1); [lia|].
  assert (match wr_MaxRuntimeSeconds req with Some n => n <? 1 | None => false end = false) as ->
    by (destruct (wr_MaxRuntimeSeconds req); [apply Z.ltb_ge; lia|done]).
  rewrite decide_False by (by apply Hp). rewrite decide_False by done.
  rewrite decide_False; [done|]. intros Hn. by apply Hn, Hk.
Qed.

Lemma generated_served g req namespace :
  gen_ok g → generated g req →
  ∃ cr, ToGPUWorkload req namespace = Some (Some cr) ∧ w_Spec cr = requestSpec req ∧ served_workload cr.
Proof.
  intros Hok Hg. destruct (request_submitted namespace req (generated_valid g req Hok Hg))
    as (cr & Hcr & _ & _ & _ & Hspec & _ & _ & _ & Hserved).
  exists cr. split_and!; [done|done|]. destruct Hok as [_ _ [_ Hk]], Hg.
  rewrite Forall_forall in Hk. apply Hserved; [|by apply memorySizes_positive].
  by destruct (validKinds_normal _ (Hk _ gd_kind0)) as [-> _].
Qed.

Lemma counted_ok g r : gen_ok g → gen_ok (counted g r).
Proof. by intros []. Qed.

Lemma cleaned_not_blank l : Forall not_blank (cleaned l).
Proof.
  apply Forall_forall. intros x [Hne (y & -> & _)%list_elem_of_fmap]%list_elem_of_filter.
  unfold not_blank. by rewrite TrimSpace_idem_blank.
Qed.

Lemma SetProfiles_ok profiles g : gen_ok g → gen_ok (SetProfiles profiles g).
Proof.
  intros Hok. unfold SetProfiles. pose proof (cleaned_not_blank profiles) as Hc.
  destruct (cleaned profiles) eqn:E; [done|]. by destruct Hok.
Qed.

Lemma SetKinds_ok kinds g :
  Forall (λ k, TrimSpace k = "" ∨ TrimSpace k ∈ validKinds) kinds → gen_ok g →
  gen_ok (SetKinds kinds g).
Proof.
  intros Hk Hok. unfold SetKinds.
  assert (Forall (.∈ validKinds) (cleaned kinds)) as Hc.
  { apply Forall_forall. intros x [Hne (y & -> & Hy)%list_elem_of_fmap]%list_elem_of_filter.
    rewrite Forall_forall in Hk. by destruct (Hk y Hy). }
  destruct (cleaned kinds) eqn:E; [done|]. by destruct Hok.
Qed.

Lemma NewGenerator_ok tenants seed : Forall not_blank tenants → gen_ok (NewGenerator tenants seed).
Proof.
  intros Ht. split; cbn; [|by split; [|apply (bool_decide_unpack _)]..].
  destruct tenants; [|done]. split; [done|]. by apply (bool_decide_unpack _).
Qed.

(** [Next] never panics on a generator whose lists are not empty, whose tenants and profiles are
    not blank and whose kinds are known, and leaves such a generator, whose counter is one higher.  The
    request passes the validation of the submitter, every field and every field of its payload is in
    the documented range, and it maps to a resource that the scheduler accepts.  [NewGenerator] makes
    such a generator unless it is given blank tenants; [SetProfiles] keeps it one, and so does
    [SetKinds] with known kinds, surrounding spaces allowed. *)
Theorem next_request_typed g :
  gen_ok g →
  (∃ req g', Next g = Some (req, g') ∧ gen_ok g' ∧ g_Counter g' = g_Counter g [+] 1 ∧
     generated g req ∧ ValidateRequest req = None ∧
     ∀ namespace, ∃ cr, ToGPUWorkload req namespace = Some (Some cr) ∧
       w_Spec cr = requestSpec req ∧ served_workload cr) ∧
  (∀ profiles, gen_ok (SetProfiles profiles g)) ∧
  (∀ kinds, Forall (λ k, TrimSpace k = "" ∨ TrimSpace k ∈ validKinds) kinds → gen_ok (SetKinds kinds g)) ∧
  (∀ tenants seed, Forall not_blank tenants → gen_ok (NewGenerator tenants seed)).
Proof.
  intros Hok. split_and!.
  - destruct (Next_spec g Hok) as (req & r & Hn & Hg). exists req, (counted g r).
    split_and!; [done|by apply counted_ok|done|done|by apply generated_valid with g|].
    intros namespace. by apply generated_served with g.
  - intros profiles. by apply SetProfiles_ok.
  - intros kinds Hk. by apply SetKinds_ok.
  - intros tenants seed Ht. by apply NewGenerator_ok.
Qed.

(** *** Many requests *)

Definition drawn_from (g : Generator) (req : WorkloadRequest) : Prop :=
  wr_Tenant req ∈ g_Tenants g ∧ wr_ModelProfile req ∈ g_Profiles g ∧ wr_Kind req ∈ g_Kinds g ∧
  payloads_in_range req.

Lemma generate_spec n g :
  gen_ok g → 0 ≤ g_Counter g → g_Counter g + Z.of_nat n ≤ int64_max →
  ∃ reqs g', generate n g = Some (reqs, g') ∧ length reqs = n ∧
    ∀ i req, reqs !! i = Some req →
      ValidateRequest req = None ∧ drawn_from g req ∧ ∃ salt, 0 ≤ salt < 2 ^ 63 ∧
      wr_RequestID req = "loadgen-" +:+ pretty (g_Counter g + 1 + Z.of_nat i) +:+ "-" +:+ pretty salt.
Proof.
  revert g. induction n as [|n IH]; intros g Hok Hc Hb; simpl.
  { exists [], g. split_and!; [done|done|]. intros i req Hi. by rewrite lookup_nil in Hi. }
  destruct (Next_spec g Hok) as (req & r & Hn & Hg).
  assert (g_Counter g [+] 1 = g_Counter g + 1) as Hadd
    by (apply int64_add_id; unfold in_int64, int64_min, int64_max in *; lia).
  destruct (IH (counted g r)) as (reqs & g' & Hgen & Hlen & Hreqs).
  - by apply counted_ok.
  - simpl. lia.
  - simpl. lia.
  - exists (req :: reqs), g'. unfold mbind, gen_bind. rewrite Hn. cbn [option_bind].
    unfold mbind, option_bind. rewrite Hgen. split_and!; [done|simpl; lia|].
    intros [|i] req'; simpl.
    + intros [= <-]. split; [by apply generated_valid with g|]. destruct Hg.
      split; [by destruct gd_payload0|].
      destruct gd_id0 as (salt & Hs & ->). exists salt. rewrite Hadd, Z.add_0_r. done.
    + intros Hi. destruct (Hreqs i req' Hi) as (Hv & Hd & salt & Hs & ->). split_and!; [done|done|].
      exists salt. split; [done|]. simpl. rewrite Hadd. do 3 f_equal. lia.
Qed.
End requests.

(** ** The program *)

(** The values of the flags it reads; intervals are nanoseconds. *)
Record Flags := {
  fl_count : Z;
  fl_interval : Z;
  fl_config : string;
  fl_burst : bool;
  fl_concurrency : Z;
  fl_partitions : Z;
  fl_seedConfig : string;
  fl_seedCount : Z;
}.

(** A message handed to the writer, with its field [Partition], which [publishOne] leaves unset.  The
    field is a label: a writer with a balancer, as this one, chooses the partition itself. *)
Record TopicMessage := { tm_Key : string; tm_Value : string; tm_Partition : nat }.

(** Files, [encoding/json] at the request types, the Kafka writer, which is told whether the context it
    is given was cancelled, and the clock. *)
Class ProducerEnv (W : Type) := {
  ReadFile : W → string → Result string;
  decodeRequests : string → Result (list WorkloadRequest);
  decodeRequest : string → Result WorkloadRequest;
  MarshalRequest : WorkloadRequest → Result string;
  WriteMessages : W → bool → TopicMessage → W * option error;
  UnixNano : W → Z;
}.

(** What a sender did: the index and the message of each write that succeeded, and each pause. *)
Inductive sendEvent :=
| SentMessage (i : nat) (m : TopicMessage)
| Slept (d : Z).

Section program.
Context `{Rand} {W : Type} `{ProducerEnv W}.

Definition publishOneToPartition (cancelled : bool) (w : W) (req : WorkloadRequest) (partition : nat)
    : W * TopicMessage * option error :=
  match MarshalRequest req with
  | Err e => (w, {| tm_Key := ""; tm_Value := ""; tm_Partition := 0 |}, Some (Wrapf "marshal" e))
  | Ok value =>
      let msg := {| tm_Key := wr_RequestID req; tm_Value := value; tm_Partition := partition |} in
      let '(w, err) := WriteMessages w cancelled msg in (w, msg, err)
  end.

Definition publishOne (w : W) (req : WorkloadRequest) : W * TopicMessage * option error :=
  publishOneToPartition false w req 0.

(** The loop of [sendSerial] from index [i] on, [n] the number of all requests. *)
Fixpoint sendSerialFrom (burst : bool) (interval : Z) (n i : nat) (requests : list WorkloadRequest)
    (w : W) : W * list sendEvent * option error :=
  match requests with
  | [] => (w, [], None)
  | req :: requests =>
      match publishOne w req with
      | (w, _, Some e) => (w, [], Some (Wrapf ("publish request_id=" +:+ wr_RequestID req) e))
      | (w, m, None) =>
          let pause := if negb burst && (i <? n - 1)%nat && (0 <? interval)
                       then [Slept interval] else [] in
          let '(w, log, err) := sendSerialFrom burst interval n (S i) requests w in
          (w, SentMessage i m :: pause ++ log, err)
      end
  end.

Definition sendSerial (requests : list WorkloadRequest) (burst : bool) (interval : Z) (w : W)
    : W * list sendEvent * option error :=
  sendSerialFrom burst interval (length requests) 0 requests w.

(** *** Several goroutines

    A goroutine is at the head of its loop with an index, has left the loop with its error, or is gone.
    The group keeps the first error and cancels the context; which goroutine moves next is for the
    scheduler to say, so a run is a list of goroutine numbers.  Indices are counted as [nat]: they stay
    below the number of requests plus the number of goroutines. *)
Inductive senderState := Sending (i : nat) | Returning (err : option error) | Returned.

Record GroupState := {
  gr_world : W;
  gr_senders : list senderState;
  gr_err : option error;
  gr_log : list sendEvent;
}.

Definition with_sender (s : GroupState) (g : nat) (st : senderState) : GroupState :=
  {| gr_world := gr_world s; gr_senders := <[g := st]> (gr_senders s); gr_err := gr_err s;
     gr_log := gr_log s |}.

Definition senderStep (requests : list WorkloadRequest) (producerWorkers : nat) (s : GroupState) (g : nat)
    : GroupState :=
  match gr_senders s !! g with
  | Some (Sending i) =>
      match requests !! i with
      | None => with_sender s g (Returning None)
      | Some req =>
          match publishOneToPartition (negb (isNil (gr_err s))) (gr_world s) req g with
          | (w, _, Some e) =>
              {| gr_world := w;
                 gr_senders := <[g := Returning (Some (Wrapf ("publish request_id=" +:+ wr_RequestID req
                   +:+ " (partition=" +:+ pretty g +:+ ")") e))]> (gr_senders s);
                 gr_err := gr_err s; gr_log := gr_log s |}
          | (w, m, None) =>
              {| gr_world := w; gr_senders := <[g := Sending (i + producerWorkers)]> (gr_senders s);
                 gr_err := gr_err s; gr_log := gr_log s ++ [SentMessage i m] |}
          end
      end
  | Some (Returning err) =>
      {| gr_world := gr_world s; gr_senders := <[g := Returned]> (gr_senders s);
         gr_err := match gr_err s with Some e => Some e | None => err end; gr_log := gr_log s |}
  | _ => s
  end.

Definition groupStart (producerWorkers : nat) (w : W) : GroupState :=
  {| gr_world := w; gr_senders := Sending <$> seq 0 producerWorkers; gr_err := None; gr_log := [] |}.

Definition allReturned (s : GroupState) : bool :=
  forallb (λ st, match st with Returned => true | _ => false end) (gr_senders s).

(** [None] when the goroutines have not all returned at the end of the schedule. *)
Definition sendConcurrent (requests : list WorkloadRequest) (producerWorkers : nat)
    (schedule : list nat) (w : W) : option (W * list sendEvent * option error) :=
  match requests with
  | [] => Some (w, [], None)
  | _ =>
      let s := foldl (senderStep requests producerWorkers) (groupStart producerWorkers w) schedule in
      if allReturned s then Some (gr_world s, gr_log s, gr_err s) else None
  end.

(** *** main *)

Definition with_id (req : WorkloadRequest) (id : string) : WorkloadRequest :=
  {| wr_RequestID := id; wr_Tenant := wr_Tenant req; wr_Priority := wr_Priority req;
     wr_GPUCount := wr_GPUCount req; wr_GPUMemoryMiB := wr_GPUMemoryMiB req;
     wr_Tokens := wr_Tokens req; wr_MaxRuntimeSeconds := wr_MaxRuntimeSeconds req;
     wr_ModelProfile := wr_ModelProfile req; wr_Kind := wr_Kind req;
     wr_Training := wr_Training req; wr_Inference := wr_Inference req; wr_Eval := wr_Eval req;
     wr_FineTune := wr_FineTune req; wr_RLHF := wr_RLHF req; wr_Embedding := wr_Embedding req;
     wr_DataPreprocess := wr_DataPreprocess req; wr_Distillation := wr_Distillation req |}.

Definition seedRequests (seed : WorkloadRequest) (seedCount : Z) : list WorkloadRequest :=
  (λ i, with_id seed ("scale-wl-" +:+ pretty (Z.of_nat i [+] 1))) <$> seq 0 (Z.to_nat seedCount).

(** An array of requests or a single one. *)
Definition decodeOneOrMany (data : string) : Result (list WorkloadRequest) :=
  match decodeRequests data with
  | Ok l => Ok l
  | Err e => match decodeRequest data with Ok req => Ok [req] | Err _ => Err e end
  end.

Definition checkFlags (fl : Flags) : Result nat :=
  if negb (bool_decide (fl_seedConfig fl = "")) && negb (bool_decide (fl_config fl = ""))
  then Err (Errorf ("flags -config and -seed-config cannot be used together; "
                    +:+ "choose one source of workloads"))
  else if negb (bool_decide (fl_seedConfig fl = "")) && (fl_seedCount fl <=? 0)
  then Err (Errorf "when -seed-config is set, -seed-count must be > 0")
  else
  let concurrency := if fl_concurrency fl <? 1 then 1 else fl_concurrency fl in
  let partitions := if fl_partitions fl <? 1 then 1 else fl_partitions fl in
  let producerWorkers := if 1 <? concurrency then Z.min concurrency partitions else 1 in
  if (1 <? producerWorkers) && negb (fl_burst fl) && (0 <? fl_interval fl)
  then Err (Errorf ("interval-based throttling is not supported when -concurrency>1; "
                    +:+ "use -burst for concurrent mode"))
  else Ok (Z.to_nat producerWorkers).

(** The requests to send; [None] for a panic of the generator. *)
Definition loadRequests (fl : Flags) (w : W) : option (Result (list WorkloadRequest)) :=
  if negb (bool_decide (fl_seedConfig fl = "")) && (0 <? fl_seedCount fl) then
    Some match ReadFile w (fl_seedConfig fl) with
    | Err e => Err (Wrapf ("Read seed-config " +:+ fl_seedConfig fl) e)
    | Ok data =>
        match decodeOneOrMany data with
        | Err e => Err (Wrapf "Decode seed-config: expected array or single WorkloadRequest" e)
        | Ok [] => Err (Errorf ("seed-config " +:+ fl_seedConfig fl
                     +:+ " decoded successfully but contained no WorkloadRequest entries"))
        | Ok (seed :: _) => Ok (seedRequests seed (fl_seedCount fl))
        end
    end
  else if negb (bool_decide (fl_config fl = "")) then
    Some match ReadFile w (fl_config fl) with
    | Err e => Err (Wrapf ("Read config " +:+ fl_config fl) e)
    | Ok data =>
        match decodeOneOrMany data with
        | Err e => Err (Wrapf "Decode config: expected array or single WorkloadRequest" e)
        | Ok l => Ok l
        end
    end
  else
    '(reqs, _) ← generate (Z.to_nat (fl_count fl)) (NewGenerator [] (UnixNano w));
    Some (Ok reqs).

(** The whole program: the error it ends with, if any ([log.Fatalf]).  [None] when the generator panics
    or the schedule does not let the goroutines return. *)
Definition producerMain (fl : Flags) (schedule : list nat) (w : W)
    : option (W * list sendEvent * option error) :=
  match checkFlags fl with
  | Err e => Some (w, [], Some e)
  | Ok producerWorkers =>
      match loadRequests fl w with
      | None => None
      | Some (Err e) => Some (w, [], Some e)
      | Some (Ok requests) =>
          let sent := if (producerWorkers <=? 1)%nat
            then Some (sendSerial requests (fl_burst fl) (fl_interval fl) w)
            else sendConcurrent requests producerWorkers schedule w in
          (λ '(w, log, err), (w, log, option_map (Wrapf "Producer failed") err)) <$> sent
      end
  end.
End program.

(** ** Sending *)

Definition sent (log : list sendEvent) : list (nat * TopicMessage) :=
  omap (λ e, match e with SentMessage i m => Some (i, m) | Slept _ => None end) log.

(** What a goroutine sends: the indices of its stride. *)
Definition stride (g k m : nat) : list nat := (λ j, g + j * k)%nat <$> seq 0 m.

Lemma stride_snoc g k m : stride g k (S m) = stride g k m ++ [g + m * k]%nat.
Proof. unfold stride. by rewrite seq_S, fmap_app. Qed.

Lemma elem_of_stride g k m i : i ∈ stride g k m ↔ ∃ j, (j < m)%nat ∧ i = (g + j * k)%nat.
Proof.
  unfold stride. rewrite list_elem_of_fmap. setoid_rewrite elem_of_seq. naive_solver lia.
Qed.

Lemma sent_app l k : sent (l ++ k) = sent l ++ sent k.
Proof. apply omap_app. Qed.

Section sending.
Context `{Rand} {W : Type} `{ProducerEnv W}.

(** The message of a request, with a label. *)
Definition message_for (req : WorkloadRequest) (partition : nat) (m : TopicMessage) : Prop :=
  ∃ value, MarshalRequest req = Ok value ∧
    m = {| tm_Key := wr_RequestID req; tm_Value := value; tm_Partition := partition |}.

Lemma publish_ok cancelled (w : W) req g w' m :
  publishOneToPartition cancelled w req g = (w', m, None) → message_for req g m.
Proof.
  unfold publishOneToPartition. destruct (MarshalRequest req) as [v|e] eqn:Hv; [|done].
  destruct (WriteMessages _ _ _) as [w1 err]. intros [= _ <- _]. by exists v.
Qed.

(** *** One after the other *)

Lemma serial_spec burst interval n i requests (w : W) w' log err :
  sendSerialFrom burst interval n i requests w = (w', log, err) →
  ∃ m, (m ≤ length requests)%nat ∧ (sent log).*1 = seq i m ∧ (err = None ↔ m = length requests) ∧
    ∀ j msg, (j, msg) ∈ sent log → ∃ req, requests !! (j - i)%nat = Some req ∧ message_for req 0 msg.
Proof.
  revert i w w' log err. induction requests as [|req requests IH]; intros i w w' log err; simpl.
  { intros [= <- <- <-]. exists 0%nat. split_and!; [lia|done|done|]. intros j msg []%elem_of_nil. }
  destruct (publishOne w req) as [[w1 m] [e|]] eqn:Hp.
  { intros [= <- <- <-]. exists 0%nat. split_and!; [lia|done|done|]. intros j msg []%elem_of_nil. }
  apply publish_ok in Hp.
  destruct (sendSerialFrom _ _ _ _ _ _) as [[w2 log2] err2] eqn:Hs. intros [= <- <- <-].
  destruct (IH _ _ _ _ _ Hs) as (k & Hk & Hseq & Herr & Hmsg). exists (S k).
  assert (sent (SentMessage i m :: (if negb burst && (i <? n - 1)%nat && (0 <? interval)
            then [Slept interval] else []) ++ log2) = (i, m) :: sent log2) as ->
    by (by destruct (negb burst && (i <? n - 1)%nat && (0 <? interval))).
  split_and!; [lia|csimpl; by rewrite Hseq|rewrite Herr; lia|].
  intros j msg [[= -> ->]|Hin]%elem_of_cons.
  - exists req. by rewrite Nat.sub_diag.
  - assert (i < j)%nat as Hij.
    { assert (j ∈ (sent log2).*1) as Hj by (apply list_elem_of_fmap; by exists (j, msg)).
      rewrite Hseq in Hj. apply elem_of_seq in Hj. lia. }
    destruct (Hmsg j msg Hin) as (req' & Hr & Hm). exists req'. split; [|done].
    by replace (j - i)%nat with (S (j - S i)) by lia.
Qed.

(** *** Several goroutines *)

Section group.
Context (requests : list WorkloadRequest) (k : nat) (Hpos : (0 < k)%nat).
Implicit Types s : GroupState (W := W).
Local Abbreviation n := (length requests).

Definition sent_by (g : nat) (s : GroupState (W := W)) : list nat :=
  (filter (λ e, tm_Partition e.2 = g) (sent (gr_log s))).*1.

Definition sender_inv (s : GroupState (W := W)) (g : nat) (st : senderState) : Prop :=
  ∃ m, sent_by g s = stride g k m ∧
  match st with
  | Sending i => i = (g + m * k)%nat
  | Returning None => (n ≤ g + m * k)%nat
  | Returning (Some _) => (g + m * k < n)%nat
  | Returned => gr_err s = None → (n ≤ g + m * k)%nat
  end.

Record group_inv (s : GroupState) : Prop := {
  gi_length : length (gr_senders s) = k;
  gi_sender : ∀ g st, gr_senders s !! g = Some st → sender_inv s g st;
  gi_messages : ∀ i m, (i, m) ∈ sent (gr_log s) →
    ∃ req, requests !! i = Some req ∧ message_for req (i `mod` k) m;
  gi_nodup : NoDup (sent (gr_log s)).*1;
  gi_err : is_Some (gr_err s) → ∃ g m, gr_senders s !! g = Some Returned ∧
    sent_by g s = stride g k m ∧ (g + m * k < n)%nat;
}.

Lemma group_inv_start w : group_inv (groupStart k w).
Proof.
  split; cbn.
  - by rewrite length_fmap, length_seq.
  - intros g st Hg. rewrite list_lookup_fmap in Hg. apply fmap_Some in Hg as (i & Hi & ->).
    apply lookup_seq in Hi as [-> _]. exists 0%nat. split; [done|lia].
  - intros i m []%elem_of_nil.
  - apply NoDup_nil_2.
  - by intros [].
Qed.

(** A sender that moves without sending. *)
Lemma group_inv_move s s' g st st' :
  group_inv s → gr_senders s !! g = Some st → st ≠ Returned →
  gr_senders s' = <[g := st']> (gr_senders s) → gr_log s' = gr_log s →
  (gr_err s' = None → gr_err s = None) → sender_inv s' g st' →
  (is_Some (gr_err s') → is_Some (gr_err s) ∨
     st' = Returned ∧ ∃ m, sent_by g s = stride g k m ∧ (g + m * k < n)%nat) →
  group_inv s'.
Proof.
  intros [Hlen Hsend Hmsg Hnd Herr] Hg Hst Hs Hlog Hnone Hinv Hsome.
  assert (g < length (gr_senders s))%nat as Hlt by by eapply lookup_lt_Some.
  assert (∀ g, sent_by g s' = sent_by g s) as Hby by (intros g'; unfold sent_by; by rewrite Hlog).
  split.
  - by rewrite Hs, length_insert.
  - intros g' st''. rewrite Hs. intros [(-> & -> & _)|[Hne Hg']]%list_lookup_insert_Some; [done|].
    destruct (Hsend g' st'' Hg') as (m & Hm & Hcase). exists m. split; [by rewrite Hby|].
    destruct st'' as [i|[e|]|]; auto.
  - by rewrite Hlog.
  - by rewrite Hlog.
  - intros [He|[-> (m & Hm & Hlt')]]%Hsome.
    + destruct (Herr He) as (g' & m & Hg' & Hm & Hlt'). exists g', m. rewrite Hs, Hby.
      split_and!; [|done|done]. rewrite list_lookup_insert_ne; [done|]. intros ->. congruence.
    + exists g, m. rewrite Hs, Hby. split_and!; [by apply list_lookup_insert_eq|done|done].
Qed.

Lemma sent_by_snoc s g i m p :
  tm_Partition m = p →
  (filter (λ e, tm_Partition e.2 = g) (sent (gr_log s) ++ [(i, m)])).*1
  = sent_by g s ++ (if decide (p = g) then [i] else []).
Proof.
  intros Hp. rewrite filter_app, fmap_app. f_equal. rewrite filter_cons. cbn. rewrite Hp.
  by destruct (decide (p = g)).
Qed.

(** A sender that sends the next message of its stride. *)
Lemma group_inv_send s g m req msg w :
  group_inv s → gr_senders s !! g = Some (Sending (g + m * k)) → sent_by g s = stride g k m →
  requests !! (g + m * k)%nat = Some req → message_for req g msg → (g < k)%nat →
  group_inv {| gr_world := w; gr_senders := <[g := Sending (g + m * k + k)]> (gr_senders s);
               gr_err := gr_err s; gr_log := gr_log s ++ [SentMessage (g + m * k) msg] |}.
Proof.
  intros [Hlen Hsend Hmsg Hnd Herr] Hg Hby Hreq Hm Hgk.
  assert (g < length (gr_senders s))%nat as Hlt by by eapply lookup_lt_Some.
  assert (tm_Partition msg = g) as Hpart by (by destruct Hm as (v & _ & ->)).
  assert (sent (gr_log s ++ [SentMessage (g + m * k) msg]) = sent (gr_log s) ++ [((g + m * k)%nat, msg)])
    as Hsent by apply sent_app.
  split; cbn [gr_senders gr_log gr_err]; rewrite ?Hsent.
  - by rewrite length_insert.
  - intros g' st. intros [(<- & <- & _)|[Hne Hg']]%list_lookup_insert_Some.
    + exists (S m). split; [|lia]. unfold sent_by. cbn [gr_log]. rewrite Hsent, (sent_by_snoc s g _ _ g) by done.
      by rewrite decide_True, Hby, stride_snoc by done.
    + destruct (Hsend g' st Hg') as (m' & Hm' & Hcase). exists m'. split; [|done].
      unfold sent_by. cbn [gr_log]. rewrite Hsent, (sent_by_snoc s g' _ _ g) by done.
      by rewrite decide_False, app_nil_r by done.
  - intros i m' [Hin|[= -> ->]%list_elem_of_singleton]%elem_of_app; [by apply Hmsg|].
    exists req. split; [done|]. rewrite Nat.Div0.mod_add, Nat.mod_small by done. done.
  - rewrite fmap_app. apply NoDup_app. split_and!; [done| |apply NoDup_singleton].
    intros i Hi ->%list_elem_of_singleton. cbn in Hi.
    apply list_elem_of_fmap in Hi as ([i' m'] & E & Hin). cbn in E. subst i'.
    destruct (Hmsg _ _ Hin) as (req' & _ & v & _ & Hm').
    assert ((g + m * k)%nat ∈ sent_by g s) as Hin'.
    { unfold sent_by. apply list_elem_of_fmap. exists ((g + m * k)%nat, m'). split; [done|].
      apply list_elem_of_filter. split; [|done]. rewrite Hm'. cbn.
      by rewrite Nat.Div0.mod_add, Nat.mod_small. }
    rewrite Hby in Hin'. apply elem_of_stride in Hin' as (j & Hj & E). nia.
  - intros He. destruct (Herr He) as (g' & m' & Hg' & Hm' & Hlt'). exists g', m'.
    assert (g' ≠ g) by congruence. rewrite list_lookup_insert_ne by done. split_and!; [done| |done].
    unfold sent_by. cbn [gr_log]. rewrite Hsent, (sent_by_snoc s g' _ _ g) by done.
    by rewrite decide_False, app_nil_r by done.
Qed.

Lemma group_inv_step s g : group_inv s → group_inv (senderStep requests k s g).
Proof.
  intros Hinv. unfold senderStep. destruct (gr_senders s !! g) as [st|] eqn:Hg; [|done].
  assert (g < k)%nat as Hgk by (rewrite <- (gi_length s Hinv); by eapply lookup_lt_Some).
  destruct (gi_sender s Hinv g st Hg) as (m & Hby & Hcase).
  destruct st as [i|err|]; [|destruct err as [e|]|done].
  - subst i. destruct (requests !! (g + m * k)%nat) as [req|] eqn:Hreq.
    2:{ apply (group_inv_move s _ g (Sending (g + m * k)) (Returning None)); try done; [|by left].
        exists m. split; [done|]. by apply lookup_ge_None. }
    destruct (publishOneToPartition _ _ _ _) as [[w msg] [e|]] eqn:Hp.
    + eapply (group_inv_move s _ g (Sending (g + m * k))); try done; [|by left].
      exists m. split; [done|]. by eapply lookup_lt_Some.
    + apply publish_ok in Hp. by apply (group_inv_send s g m req).
  - eapply (group_inv_move s _ g (Returning (Some e)) Returned); try done; cbn.
    + by destruct (gr_err s).
    + exists m. split; [done|]. cbn. by destruct (gr_err s).
    + intros _. right. eauto.
  - eapply (group_inv_move s _ g (Returning None) Returned); try done; cbn.
    + by destruct (gr_err s).
    + exists m. by split.
    + intros He. left. by destruct (gr_err s).
Qed.

Lemma group_inv_run schedule w : group_inv (foldl (senderStep requests k) (groupStart k w) schedule).
Proof.
  induction schedule as [|g schedule IH] using rev_ind; [apply group_inv_start|].
  rewrite foldl_snoc. by apply group_inv_step.
Qed.

(** What a sender has left to do, at most. *)
Definition rank (s : GroupState (W := W)) (g : nat) : nat :=
  match gr_senders s !! g with
  | Some (Sending i) => n - i + 2
  | Some (Returning _) => 1
  | _ => 0
  end.

Lemma rank_step s g g' :
  (g' ≠ g → rank (senderStep requests k s g) g' = rank s g') ∧
  (rank (senderStep requests k s g) g ≤ rank s g - 1)%nat.
Proof.
  unfold senderStep, rank. destruct (gr_senders s !! g) as [st|] eqn:Hg.
  2:{ rewrite Hg. by split. }
  assert (g < length (gr_senders s))%nat as Hlt by by eapply lookup_lt_Some.
  destruct st as [i|err|]; cbn.
  - destruct (requests !! i) as [req|] eqn:Hreq.
    + apply lookup_lt_Some in Hreq.
      destruct (publishOneToPartition _ _ _ _) as [[w msg] [e|]]; cbn; (split; [intros ?;
        by rewrite list_lookup_insert_ne by done|rewrite list_lookup_insert_eq by done; lia]).
    + cbn. split; [intros ?; by rewrite list_lookup_insert_ne by done|].
      rewrite list_lookup_insert_eq by done. lia.
  - split; [intros ?; by rewrite list_lookup_insert_ne by done|].
    by rewrite list_lookup_insert_eq by done.
  - by rewrite Hg.
Qed.

Definition turns (g : nat) (schedule : list nat) : nat := length (filter (.= g) schedule).

Lemma rank_run schedule s g :
  (rank (foldl (senderStep requests k) s schedule) g ≤ rank s g - turns g schedule)%nat.
Proof.
  revert s. induction schedule as [|g' schedule IH]; intros s; cbn [foldl]; [unfold turns; simpl; lia|].
  etrans; [apply IH|]. unfold turns. rewrite filter_cons. destruct (rank_step s g' g) as [Hne Heq].
  destruct (decide (g' = g)) as [->|Hd]; simpl; [lia|]. rewrite Hne by done. lia.
Qed.

Lemma all_returned s :
  length (gr_senders s) = k → (∀ g, (g < k)%nat → rank s g = 0%nat) → allReturned s = true.
Proof.
  intros Hlen Hr. unfold allReturned. apply forallb_forall. intros st Hin%list_elem_of_In.
  apply list_elem_of_lookup in Hin as [g Hg]. specialize (Hr g). unfold rank in Hr. rewrite Hg in Hr.
  apply lookup_lt_Some in Hg. destruct st; [|discriminate Hr; lia|done]. specialize (Hr ltac:(lia)). lia.
Qed.

Lemma returned_all s g st : allReturned s = true → gr_senders s !! g = Some st → st = Returned.
Proof.
  unfold allReturned. rewrite forallb_forall. intros Hall Hg%list_elem_of_lookup_2%list_elem_of_In.
  specialize (Hall _ Hg). by destruct st.
Qed.

Lemma group_sent_all s :
  group_inv s → allReturned s = true → gr_err s = None ↔ (sent (gr_log s)).*1 ≡ₚ seq 0 n.
Proof.
  intros [Hlen Hsend Hmsg Hnd Herr] Hall. split.
  - intros Hnone. apply NoDup_Permutation; [done|apply NoDup_seq|]. intros i. rewrite elem_of_seq. split.
    + intros ([j m] & -> & Hin)%list_elem_of_fmap. destruct (Hmsg j m Hin) as (req & Hr & _).
      apply lookup_lt_Some in Hr. simpl. lia.
    + intros [_ Hi]. pose proof (Nat.mod_upper_bound i k ltac:(lia)) as Hmod.
      destruct (lookup_lt_is_Some_2 (gr_senders s) (i `mod` k)) as [st Hst]; [lia|].
      destruct (Hsend _ _ Hst) as (m & Hby & Hcase).
      rewrite (returned_all s _ st Hall Hst) in Hcase. specialize (Hcase Hnone).
      assert (i ∈ sent_by (i `mod` k) s) as Hin.
      { rewrite Hby, elem_of_stride. exists (i `div` k)%nat. pose proof (Nat.div_mod i k ltac:(lia)).
        split; [|lia]. assert (i `div` k * k < m * k)%nat by lia. nia. }
      unfold sent_by in Hin. apply list_elem_of_fmap in Hin as (e & -> & [_ He]%list_elem_of_filter).
      apply list_elem_of_fmap. by exists e.
  - intros Hperm. destruct (gr_err s) eqn:He; [|done]. exfalso.
    destruct Herr as (g & m & Hg & Hby & Hlt); [done|].
    assert ((g + m * k)%nat ∈ (sent (gr_log s)).*1) as Hin by (rewrite Hperm, elem_of_seq; lia).
    apply list_elem_of_fmap in Hin as ([i msg] & E & Hin). cbn in E. subst i.
    destruct (Hmsg _ _ Hin) as (req & _ & v & _ & Hv).
    assert (g < k)%nat as Hgk by (rewrite <- Hlen; by eapply lookup_lt_Some).
    assert ((g + m * k)%nat ∈ sent_by g s) as Hin'.
    { unfold sent_by. apply list_elem_of_fmap. exists ((g + m * k)%nat, msg). split; [done|].
      apply list_elem_of_filter. split; [|done]. rewrite Hv. cbn.
      by rewrite Nat.Div0.mod_add, Nat.mod_small. }
    rewrite Hby in Hin'. apply elem_of_stride in Hin' as (j & Hj & E). nia.
Qed.
End group.

(** Labels that follow the index select the same entries. *)
Lemma filter_fst_label (f : nat → nat) (g : nat) (l : list (nat * TopicMessage)) :
  (∀ i m, (i, m) ∈ l → tm_Partition m = f i) →
  filter (λ i, f i = g) l.*1 = (filter (λ e, tm_Partition e.2 = g) l).*1.
Proof.
  induction l as [|[i m] l IH]; intros Hl; [done|]. csimpl. rewrite !filter_cons.
  assert (tm_Partition m = f i) as <- by (apply Hl; left). cbn [snd].
  rewrite IH by (intros i' m' ?; apply Hl; by right). by case_decide.
Qed.

Lemma concurrent_run requests k schedule (w : W) :
  (0 < k)%nat →
  ((∀ g, (g < k)%nat → (length requests + 2 ≤ turns g schedule)%nat) →
     is_Some (sendConcurrent requests k schedule w)) ∧
  ∀ w' log err, sendConcurrent requests k schedule w = Some (w', log, err) →
    NoDup (sent log).*1 ∧
    (∀ i m, (i, m) ∈ sent log → ∃ req, requests !! i = Some req ∧ message_for req (i `mod` k) m) ∧
    (∀ g, (g < k)%nat → ∃ m, (filter (λ e, tm_Partition e.2 = g) (sent log)).*1 = stride g k m) ∧
    (err = None ↔ (sent log).*1 ≡ₚ seq 0 (length requests)).
Proof.
  intros Hk. pose proof (group_inv_run requests k Hk schedule w) as Hinv.
  unfold sendConcurrent. destruct requests as [|req0 rest] eqn:Hr.
  { split; [done|]. intros w' log err [= <- <- <-].
    split_and!; [apply NoDup_nil_2|by intros i m ?%elem_of_nil|intros; by exists 0%nat|done]. }
  rewrite <- Hr in *. set (s := foldl _ _ _) in *. split.
  - intros Hturns. rewrite (all_returned requests k Hk s); [done|apply Hinv|].
    intros g Hg. pose proof (rank_run requests k Hk schedule (groupStart k w) g) as Hrank.
    assert (rank requests (groupStart k w) g ≤ length requests + 2)%nat as H0'.
    { unfold rank. cbn. destruct ((Sending <$> seq 0 k) !! g) as [[]|] eqn:E; try lia. }
    specialize (Hturns g Hg). fold s in Hrank. lia.
  - intros w' log err. destruct (allReturned s) eqn:Hall; [|done]. intros [= <- <- <-].
    split_and!; [apply (gi_nodup _ _ _ Hinv)|apply (gi_messages _ _ _ Hinv)| |by apply (group_sent_all requests k)].
    intros g Hg. destruct (lookup_lt_is_Some_2 (gr_senders s) g) as [st Hst].
    { by rewrite (gi_length _ _ _ Hinv). }
    destruct (gi_sender _ _ _ Hinv g st Hst) as (m & Hby & _). by exists m.
Qed.

(** C31: sending from [k] goroutines, whatever the order in which they run and whichever writes fail.
    It ends: when each goroutine gets two turns more than there are requests, all have returned.  By
    then no request was handed to the writer successfully twice; what was sent for a request is its
    encoding, under its id as the key; each goroutine sent the requests whose index is its number modulo
    [k], in their order and without a gap up to where it stopped; and there is no error exactly when
    every request was sent.  (In which partition a message ends up is the writer's choice and not part
    of this.) *)
Theorem concurrent_send_exact requests k schedule (w : W) :
  (0 < k)%nat →
  ((∀ g, (g < k)%nat → (length requests + 2 ≤ turns g schedule)%nat) →
     is_Some (sendConcurrent requests k schedule w)) ∧
  ∀ w' log err, sendConcurrent requests k schedule w = Some (w', log, err) →
    NoDup (sent log).*1 ∧
    (∀ i m, (i, m) ∈ sent log → ∃ req, requests !! i = Some req ∧
       tm_Key m = wr_RequestID req ∧ MarshalRequest req = Ok (tm_Value m)) ∧
    (∀ g, (g < k)%nat → ∃ n, filter (λ i, i `mod` k = g)%nat (sent log).*1 = stride g k n) ∧
    (err = None ↔ (sent log).*1 ≡ₚ seq 0 (length requests)).
Proof.
  intros Hk. destruct (concurrent_run requests k schedule w Hk) as [Hend Hrun]. split; [done|].
  intros w' log err Hs. destruct (Hrun w' log err Hs) as (Hnd & Hmsg & Hby & Hnone). split_and!; try done.
  - intros i m Him. destruct (Hmsg i m Him) as (req & ? & v & ? & ->). by exists req.
  - intros g Hg. destruct (Hby g Hg) as [n Hn]. exists n. rewrite <- Hn.
    apply filter_fst_label. intros i m Him. by destruct (Hmsg i m Him) as (req & _ & v & _ & ->).
Qed.
End sending.

(** ** A small environment *)

Module ProducerExample.
(** A source of random numbers that counts. *)
#[export] Instance rng : Rand := {|
  rand := Z; newRand seed := seed;
  Int63 r := (r mod 2 ^ 63, r + 1);
  Intn n r := (r mod n, r + 1);
  Int63n n r := (r mod n, r + 1);
  Float32 r := (if Z.even r then fzero else fone, r + 1);
  Float64 r := (fzero, r + 1);
|}.

#[export] Instance rng_laws : RandLaws.
Proof.
  split; intros; cbn; apply Z.mod_pos_bound; lia.
Qed.

(** The requests as text: their fields in binary. *)
Definition request_fields (r : WorkloadRequest) : list positive :=
  [encode (wr_RequestID r); encode (wr_Tenant r); encode (wr_Priority r); encode (wr_GPUCount r);
   encode (wr_GPUMemoryMiB r); encode (wr_Tokens r); encode (wr_MaxRuntimeSeconds r);
   encode (wr_ModelProfile r); encode (wr_Kind r);
   encode ((λ t, (tp_GlobalBatchSize t, tp_MicroBatchSize t, tp_GradAccumSteps t, tp_SequenceLength t))
             <$> wr_Training r);
   encode (ip_BatchSize <$> wr_Inference r);
   encode ((λ e, (ep_BatchSize e, ep_MetricOverheadPct e, ep_ValidationOverheadPct e)) <$> wr_Eval r);
   encode ((λ f, (fp_GlobalBatchSize f, fp_MicroBatchSize f, fp_GradAccumSteps f,
                  fp_WarmStartOverheadPct f, fp_CheckpointLoadOverheadPct f)) <$> wr_FineTune r);
   encode ((λ l, (rp_RolloutBatchSize l, rp_RewardBatchSize l, rp_UpdateBatchSize l,
                  rp_PolicyUpdateSteps l)) <$> wr_RLHF r);
   encode ((λ m, (mp_BatchSize m, mp_VectorDimension m, mp_AvgTokenLength m)) <$> wr_Embedding r);
   encode ((λ d, (pp_InputBytes d, pp_TokenizationOverheadPct d, pp_AugmentationOverheadPct d))
             <$> wr_DataPreprocess r);
   encode ((λ d, (dp_TeacherProfile d, dp_BatchSize d, dp_TeacherForwardOverheadPct d))
             <$> wr_Distillation r)].

Definition fields_request (l : list positive) : option WorkloadRequest :=
  match l with
  | [f1; f2; f3; f4; f5; f6; f7; f8; f9; f10; f11; f12; f13; f14; f15; f16; f17] =>
      id ← decode f1; tenant ← decode f2; priority ← decode f3; gpus ← decode f4; mem ← decode f5;
      tokens ← decode f6; limit ← decode f7; profile ← decode f8; kind ← decode f9;
      training ← decode f10; inference ← decode f11; eval ← decode f12; fineTune ← decode f13;
      rlhf ← decode f14; embedding ← decode f15; dataPreprocess ← decode f16;
      distillation ← decode f17;
      Some {| wr_RequestID := id; wr_Tenant := tenant; wr_Priority := priority; wr_GPUCount := gpus;
        wr_GPUMemoryMiB := mem; wr_Tokens := tokens; wr_MaxRuntimeSeconds := limit;
        wr_ModelProfile := profile; wr_Kind := kind;
        wr_Training := (λ '(gb, mb, ga, sl), Build_TrainingPayload gb mb ga sl) <$> training;
        wr_Inference := Build_InferencePayload <$> inference;
        wr_Eval := (λ '(b, m, v), Build_EvalPayload b m v) <$> eval;
        wr_FineTune := (λ '(gb, mb, ga, ws, cl), Build_FineTunePayload gb mb ga ws cl) <$> fineTune;
        wr_RLHF := (λ '(ro, rw, up, ps), Build_RLHFPayload ro rw up ps) <$> rlhf;
        wr_Embedding := (λ '(b, vd, al), Build_EmbeddingPayload b vd al) <$> embedding;
        wr_DataPreprocess := (λ '(ib, tk, au), Build_DataPreprocessPayload ib tk au) <$> dataPreprocess;
        wr_Distillation := (λ '(tp, b, tf), Build_DistillationPayload tp b tf) <$> distillation |}
  | _ => None
  end.

Lemma fields_round_trip r : fields_request (request_fields r) = Some r.
Proof.
  destruct r as [? ? ? ? ? ? ? ? ? t i e f l m d s]. unfold fields_request, request_fields.
  rewrite !decode_encode. cbn. do 2 f_equal;
    [destruct t as [[]|]|destruct i as [[]|]|destruct e as [[]|]|destruct f as [[]|]
    |destruct l as [[]|]|destruct m as [[]|]|destruct d as [[]|]|destruct s as [[]|]]; reflexivity.
Qed.

Definition marshal (req : WorkloadRequest) : string := digits_of (positives_flatten (request_fields req)).
Definition unmarshal (value : string) : Result WorkloadRequest :=
  match positives_unflatten (of_digits value) ≫= fields_request with
  | Some req => Ok req
  | None => Err (Errorf "invalid")
  end.

Lemma marshal_round_trip req : unmarshal (marshal req) = Ok req.
Proof.
  unfold unmarshal, marshal. rewrite digits_round_trip, positives_unflatten_flatten. unfold mbind, option_bind.
  by rewrite fields_round_trip.
Qed.

(** The topic: the messages written, and how many of the next writes fail. *)
Record Topic := { to_messages : list TopicMessage; to_failures : nat }.

#[export] Instance producer_env : ProducerEnv Topic := {|
  ReadFile _ _ := Err (Errorf "no such file");
  decodeRequests _ := Err (Errorf "not an array");
  decodeRequest data := unmarshal data;
  MarshalRequest req := Ok (marshal req);
  WriteMessages t cancelled m :=
    if cancelled then (t, Some (Errorf "context canceled"))
    else match to_failures t with
    | S n => ({| to_messages := to_messages t; to_failures := n |}, Some (Errorf "no broker"))
    | O => ({| to_messages := to_messages t ++ [m]; to_failures := 0 |}, None)
    end;
  UnixNano _ := 3;
|}.

Definition flags (concurrency : Z) : Flags :=
  {| fl_count := 3; fl_interval := 0; fl_config := ""; fl_burst := true;
     fl_concurrency := concurrency; fl_partitions := 2; fl_seedConfig := ""; fl_seedCount := 0 |}.
Definition topic (failures : nat) : Topic := {| to_messages := []; to_failures := failures |}.
Definition schedule : list nat := [1; 1; 0; 1; 0; 0; 0; 0]%nat.
End ProducerExample.

Section examples.
Import ProducerExample SubmitExample.

Lemma next_request_typed_witness :
  gen_ok (NewGenerator ["team"] 5) ∧
  ∃ req g', Next (NewGenerator ["team"] 5) = Some (req, g') ∧ wr_RequestID req = "loadgen-1-5" ∧
    ValidateRequest req = None ∧ gen_ok (SetKinds [" eval "; ""] (NewGenerator [] 0)).
Proof.
  assert (gen_ok (NewGenerator ["team"] 5)) as Hok
    by (apply NewGenerator_ok, (bool_decide_unpack _); by vm_compute).
  split; [done|]. destruct (next_request_typed _ Hok) as [(req & g' & Hn & _ & _ & _ & Hv & _) (_ & _ & Hnew)].
  exists req, g'. split_and!; [done| |done|].
  - assert (fst <$> Next (NewGenerator ["team"] 5) = Some req) as E by (by rewrite Hn).
    vm_compute in E. by injection E as <-.
  - destruct (next_request_typed (NewGenerator [] 0) (Hnew [] 0 (Forall_nil_2 _))) as (_ & _ & Hk & _).
    apply Hk, (bool_decide_unpack _). by vm_compute.
Defined.

(** Three requests and two goroutines. *)
Definition threeRequests : list WorkloadRequest :=
  [request "a" "training" 8; request "b" "training" 8; request "c" "training" 8].

Lemma concurrent_send_exact_witness :
  is_Some (sendConcurrent threeRequests 2 schedule (topic 0)) ∧
  ∀ w' log err, sendConcurrent threeRequests 2 schedule (topic 0) = Some (w', log, err) →
    err = None ∧ (sent log).*1 ≡ₚ [0; 1; 2]%nat.
Proof.
  destruct (concurrent_send_exact threeRequests 2 schedule (topic 0) ltac:(lia)) as [_ Hrun].
  split; [eexists; by vm_compute|]. intros w' log err Hs. destruct (Hrun w' log err Hs) as (_ & _ & _ & Hnone).
  assert (err = None) as He.
  { apply (f_equal (fmap (M := option) snd)) in Hs. vm_compute in Hs. by injection Hs as <-. }
  split; [done|]. by apply Hnone.
Defined.

(** When a write fails the goroutine stops, the others see the cancelled context, and the requests
    after it are not sent; the error names the request. *)
Example failed_write_reported :
  option_map (λ r, ((sent r.1.2).*1, option_map Error r.2)) (sendConcurrent threeRequests 2 schedule (topic 1))
  = Some ([], Some "publish request_id=b (partition=1): no broker").
Proof. by vm_compute. Qed.
End examples.
