(* ===== verification/Pipeline.v ===== *)
(** * From the producer to the cluster

    The messages of a run of the producer, delivered to the submitter at least once each and in any
    order, give one workload resource per request. *)

From stdpp Require Import prelude gmap strings pretty.
From S2P Require Import Prelude GoFloat SimModel SchedInputs Resources SchedState Cluster Submitter Producer.

Local Open Scope Z_scope.
Local Open Scope go_scope.

(** ** Sources of requests *)

(** Requests that are all accepted, each under a name of its own. *)
Definition distinct_requests (reqs : list WorkloadRequest) : Prop :=
  Forall (λ req, ValidateRequest req = None ∧ valid_name (wr_RequestID req)) reqs ∧
  NoDup (wr_RequestID <$> reqs).

Lemma valid_name_not_blank s : valid_name s → TrimSpace s ≠ "".
Proof.
  intros (Hne & _ & Hv & _) Hb. apply TrimSpace_blank in Hb.
  destruct (bytes s) as [|c l] eqn:E; [by destruct s|].
  apply Forall_cons in Hv as [Hc _], Hb as [Hb _].
  destruct (dns1123Valid_plain c Hc) as [_ Hs]. congruence.
Qed.

Lemma validate_with_id req id :
  ValidateRequest req = None → TrimSpace id ≠ "" → ValidateRequest (with_id req id) = None.
Proof.
  unfold ValidateRequest. cbn. intros Hv Hid. rewrite decide_False by done.
  by destruct (decide (TrimSpace (wr_RequestID req) = "")).
Qed.

Lemma NoDup_ids (reqs : list WorkloadRequest) (f : nat → string → Prop) :
  (∀ i j id, f i id → f j id → (i < length reqs)%nat → (j < length reqs)%nat → i = j) →
  (∀ i req, reqs !! i = Some req → f i (wr_RequestID req)) →
  NoDup (wr_RequestID <$> reqs).
Proof.
  intros Hinj Hf. apply NoDup_alt. intros i j id. rewrite !list_lookup_fmap.
  intros (ri & Hi & ->)%fmap_Some (rj & Hj & E)%fmap_Some.
  pose proof (lookup_lt_Some _ _ _ Hi). pose proof (lookup_lt_Some _ _ _ Hj).
  apply (Hinj i j (wr_RequestID ri)); [by apply Hf|rewrite E; by apply Hf|done|done].
Qed.

(** [encoding/json] at requests: text that is not UTF-8 does not survive it, so the law below is about
    ASCII strings. *)
Definition ascii_request (req : WorkloadRequest) : Prop :=
  ascii_text (wr_RequestID req) ∧ ascii_text (wr_Tenant req) ∧ ascii_text (wr_ModelProfile req) ∧
  ascii_text (wr_Kind req) ∧
  match wr_Distillation req with Some d => ascii_text (dp_TeacherProfile d) | None => True end.

Lemma valid_name_ascii s : valid_name s → ascii_text s.
Proof.
  intros (_ & _ & Hv & _). eapply Forall_impl; [exact Hv|]. intros c Hc. cbn in Hc.
  unfold dns1123Valid in Hc. cbv zeta in Hc. rewrite !orb_true_iff, !andb_true_iff in Hc.
  rewrite !Nat.leb_le, Nat.eqb_eq in Hc. lia.
Qed.

Lemma ascii_member l x : forallb (λ s, bool_decide (ascii_text s)) l = true → x ∈ l → ascii_text x.
Proof.
  rewrite forallb_forall. intros Hl Hx%list_elem_of_In. by apply (bool_decide_unpack _), Is_true_true, Hl.
Qed.

Section sources.
Context `{RandLaws}.

Lemma generated_distinct n g :
  gen_ok g → 0 ≤ g_Counter g → g_Counter g + Z.of_nat n ≤ int64_max →
  ∃ reqs g', generate n g = Some (reqs, g') ∧ length reqs = n ∧ distinct_requests reqs ∧
    Forall (drawn_from g) reqs.
Proof.
  intros Hok Hc Hb. destruct (generate_spec n g Hok Hc Hb) as (reqs & g' & Hg & Hlen & Hreqs).
  exists reqs, g'. split; [done|]. split; [done|].
  assert (∀ i, (i < n)%nat → 0 ≤ g_Counter g + 1 + Z.of_nat i < 2 ^ 63) as Hrange
    by (unfold int64_max in Hb; intros i Hi; lia).
  split; [split|].
  - apply Forall_forall. intros req [i Hi]%list_elem_of_lookup.
    destruct (Hreqs i req Hi) as (Hv & _ & salt & Hs & ->). split; [done|].
    apply lookup_lt_Some in Hi. by apply loadgen_name; [apply Hrange; lia|].
  - apply (NoDup_ids reqs (λ i id, ∃ salt : Z,
      id = "loadgen-" +:+ pretty (g_Counter g + 1 + Z.of_nat i) +:+ "-" +:+ pretty salt)).
    + intros i j id [salt ->] [salt' E] Hi Hj. apply loadgen_inj in E; [lia|apply Hrange; lia..].
    + intros i req Hi. destruct (Hreqs i req Hi) as (_ & _ & salt & _ & ->). by exists salt.
  - apply Forall_forall. intros req [i Hi]%list_elem_of_lookup. by destruct (Hreqs i req Hi) as (_ & Hd & _).
Qed.

Lemma seeded_distinct seed n :
  ValidateRequest seed = None → n < int64_max → distinct_requests (seedRequests seed n).
Proof.
  intros Hv Hn. unfold seedRequests.
  assert (∀ i, (i < Z.to_nat n)%nat →
    Z.of_nat i [+] 1 = Z.of_nat i + 1 ∧ 0 ≤ Z.of_nat i + 1 < 2 ^ 63) as Hi.
  { intros i Hi. unfold int64_max in Hn.
    rewrite int64_add_id by (unfold in_int64, int64_min, int64_max; lia). lia. }
  split.
  - apply Forall_fmap, Forall_forall. intros i [_ Hlt]%elem_of_seq. cbn.
    destruct (Hi i Hlt) as [-> Hr]. pose proof (scale_name _ Hr) as Hname. split; [|done].
    by apply validate_with_id, valid_name_not_blank.
  - apply (NoDup_ids _ (λ i id, id = "scale-wl-" +:+ pretty (Z.of_nat i [+] 1))).
    + intros i j id -> E%append_inj. rewrite length_fmap, length_seq. intros Hli Hlj.
      destruct (Hi i Hli) as [Ei _], (Hi j Hlj) as [Ej _]. rewrite Ei, Ej in E.
      apply (inj pretty) in E. lia.
    + intros i req Hr. rewrite list_lookup_fmap in Hr. apply fmap_Some in Hr as (i' & Hi' & ->).
      by apply lookup_seq in Hi' as [-> _].
Qed.

(** The source of the requests is not a file of arbitrary requests. *)
Definition source_ok {P} `{ProducerEnv P} (fl : Flags) (p : P) : Prop :=
  fl_config fl = "" ∧ fl_count fl ≤ int64_max ∧ fl_seedCount fl < int64_max ∧
  (fl_seedConfig fl ≠ "" → ∀ data seed rest, ReadFile p (fl_seedConfig fl) = Ok data →
     decodeOneOrMany data = Ok (seed :: rest) → ValidateRequest seed = None ∧ ascii_request seed).

Lemma default_source n seed reqs g :
  Z.of_nat n ≤ int64_max → generate n (NewGenerator [] seed) = Some (reqs, g) →
  distinct_requests reqs ∧ Forall ascii_request reqs.
Proof.
  intros Hn Hl.
  destruct (generated_distinct n (NewGenerator [] seed)) as (reqs' & g' & Hg & _ & Hd & Hdrawn);
    [apply NewGenerator_ok; by constructor|done|done|].
  rewrite Hg in Hl. injection Hl as <- <-. split; [done|].
  destruct Hd as [Hval _]. rewrite Forall_forall in Hval, Hdrawn. apply Forall_forall.
  intros req Hin. destruct (Hval req Hin) as [_ Hname].
  destruct (Hdrawn req Hin) as (Ht & Hp & Hk & Hpay).
  unfold ascii_request. split_and!; [by apply valid_name_ascii| | | |].
  - by eapply ascii_member; [|exact Ht]; vm_compute.
  - by eapply ascii_member; [|exact Hp]; vm_compute.
  - by eapply ascii_member; [|exact Hk]; vm_compute.
  - destruct (wr_Distillation req) as [d|] eqn:E; [|done].
    destruct Hpay as (_ & _ & _ & _ & _ & _ & _ & Hdis). destruct (Hdis d E) as [-> _].
    by apply (ascii_member ["a100_80gb"]); [vm_compute|left].
Qed.

Lemma load_distinct {P} `{ProducerEnv P} fl (p : P) reqs :
  source_ok fl p → loadRequests fl p = Some (Ok reqs) →
  distinct_requests reqs ∧ Forall ascii_request reqs.
Proof.
  intros (Hconf & Hcount & Hsc & Hseed). unfold loadRequests.
  rewrite (bool_decide_true (fl_config fl = "")) by done. cbn [negb].
  destruct (negb _ && _) eqn:Hs.
  - apply andb_true_iff in Hs as [Hs%negb_true_iff%bool_decide_eq_false _]. intros [= Hl].
    destruct (ReadFile p (fl_seedConfig fl)) as [data|] eqn:Hr; [|done].
    destruct (decodeOneOrMany data) as [[|seed rest]|] eqn:Hd; [done| |done]. injection Hl as <-.
    destruct (Hseed Hs data seed rest eq_refl Hd) as [Hv (_ & Hb & Hc & He & Hf)].
    pose proof (seeded_distinct seed (fl_seedCount fl) Hv Hsc) as Hdist. split; [done|].
    destruct Hdist as [Hval _]. unfold seedRequests in *. rewrite Forall_fmap in *.
    eapply Forall_impl; [exact Hval|]. intros i [_ Hn]. split_and!; [by apply valid_name_ascii|done..].
  - destruct (generate _ _) as [[reqs' g]|] eqn:Hg; [|done]. cbn. intros [= <-].
    apply default_source in Hg; [done|unfold int64_max in *; lia].
Qed.
End sources.

(** ** Delivery *)

Definition key_of (cr : GPUWorkload) : string * string :=
  (om_Namespace (w_Meta cr), om_Name (w_Meta cr)).

(** The API server, seen through the specifications it stores.  Documented: a creation that is accepted
    adds the object under a name that was free; "already exists" says that the name is taken and changes
    nothing; after any other error (a rejection, a timeout, a lost answer) the object was added or not. *)
Definition create_answer (m m' : gmap (string * string) GPUWorkloadSpec) (cr : GPUWorkload)
    (err : option error) : Prop :=
  let added := m !! key_of cr = None ∧ m' = <[key_of cr := w_Spec cr]> m in
  match err with
  | None => added
  | Some e => if IsAlreadyExists e then is_Some (m !! key_of cr) ∧ m' = m else m' = m ∨ added
  end.

Class CreateLaws (W : Type) `{SubmitterEnv W} (specs : W → gmap (string * string) GPUWorkloadSpec)
    : Prop := {
  create_law : ∀ w cr w' err, Create w cr = (w', err) → create_answer (specs w) (specs w') cr err;
}.

Class RequestCodec (P W : Type) `{ProducerEnv P, SubmitterEnv W} : Prop := {
  request_codec : ∀ req value, ascii_request req → MarshalRequest req = Ok value →
    Unmarshal value = Ok req;
}.

Section delivery.
Context `{Sha256} {W : Type} `{SubmitterEnv W}.

(** The messages one after the other: the effects, and the messages that failed with their errors. *)
Fixpoint deliver (namespace : string) (msgs : list Message) (w : W)
    : option (W * list effect * list (Message * error)) :=
  match msgs with
  | [] => Some (w, [], [])
  | msg :: msgs =>
      '(w, effs, err) ← processMessage namespace msg w;
      '(w, effs', errs) ← deliver namespace msgs w;
      Some (w, effs ++ effs', (pair msg <$> option_list err) ++ errs)
  end.

Context {specs : W → gmap (string * string) GPUWorkloadSpec} `{!CreateLaws W specs}.

(** The resources for the requests. *)
Definition target (namespace : string) (reqs : list WorkloadRequest)
    : gmap (string * string) GPUWorkloadSpec :=
  list_to_map ((λ req, ((namespace, wr_RequestID req), requestSpec req)) <$> reqs).

Lemma target_keys (namespace : string) (reqs : list WorkloadRequest) :
  NoDup (wr_RequestID <$> reqs) →
  NoDup ((λ req, ((namespace, wr_RequestID req), requestSpec req)) <$> reqs).*1.
Proof.
  intros Hnd. assert (((λ req, ((namespace, wr_RequestID req), requestSpec req)) <$> reqs).*1
    = pair namespace <$> (wr_RequestID <$> reqs)) as -> by (by rewrite <- !list_fmap_compose).
  by apply NoDup_fmap_2; [apply _|].
Qed.

Lemma target_size namespace reqs :
  NoDup (wr_RequestID <$> reqs) → size (target namespace reqs) = length reqs.
Proof.
  intros Hnd. unfold target. rewrite map_size_list_to_map by (by apply target_keys).
  apply length_fmap.
Qed.

Lemma target_lookup namespace reqs req :
  NoDup (wr_RequestID <$> reqs) → req ∈ reqs →
  target namespace reqs !! (namespace, wr_RequestID req) = Some (requestSpec req).
Proof.
  intros Hnd Hin. apply elem_of_list_to_map_1.
  - by apply target_keys.
  - apply list_elem_of_fmap. by exists req.
Qed.

(** One message: whatever the server answers, nothing but the workload of the request is added; without
    an error it is there, and a creation that was answered is counted. *)
Lemma deliver_one namespace msg req w m :
  Unmarshal (km_Value msg) = Ok req → ValidateRequest req = None → valid_name (wr_RequestID req) →
  m !! (namespace, wr_RequestID req) = Some (requestSpec req) → specs w ⊆ m →
  ∃ w' effs err, processMessage namespace msg w = Some (w', effs, err) ∧
    specs w ⊆ specs w' ∧ specs w' ⊆ m ∧
    (err = None → is_Some (specs w' !! (namespace, wr_RequestID req)) ∧
                  size (specs w') = (size (specs w) + length effs)%nat) ∧
    (size (specs w) + length effs ≤ size (specs w'))%nat ∧
    ∀ e, err = Some e → IsAlreadyExists e = false.
Proof.
  intros Hun Hval Hname Hm Hsub.
  destruct (request_submitted namespace req Hval) as (cr & Hcr & Hns & _ & Hid & Hspec & _).
  rewrite (valid_name_fixed _ Hname) in Hid. injection Hid as Hid.
  assert (key_of cr = (namespace, wr_RequestID req)) as Hkey by (unfold key_of; by rewrite Hns, <- Hid).
  unfold processMessage. rewrite Hun, Hval, Hcr. cbn.
  destruct (Create w cr) as [w' err] eqn:Hc. apply create_law in Hc. unfold create_answer in Hc.
  rewrite Hkey, Hspec in Hc.
  assert (Hadd : specs w !! (namespace, wr_RequestID req) = None →
    specs w' = <[(namespace, wr_RequestID req) := requestSpec req]> (specs w) →
    specs w ⊆ specs w' ∧ specs w' ⊆ m ∧ is_Some (specs w' !! (namespace, wr_RequestID req)) ∧
    size (specs w') = S (size (specs w))).
  { intros Hn ->. split_and!; [by apply insert_subseteq|by apply insert_subseteq_l|
      rewrite lookup_insert_eq; by eexists|by rewrite map_size_insert_None]. }
  destruct err as [e|]; [destruct (IsAlreadyExists e) eqn:He|].
  - destruct Hc as [Hs E]. exists w', [], None. rewrite E. split_and!; try done; try (simpl; lia).
  - exists w', [], (Some e). destruct Hc as [Hs|[Hn Hs]].
    + rewrite Hs. split_and!; try done; [simpl; lia|by intros ? [= <-]].
    + destruct (Hadd Hn Hs) as (? & ? & _ & Hsz). split_and!; try done; [simpl; lia|by intros ? [= <-]].
  - destruct Hc as [Hn Hs]. destruct (Hadd Hn Hs) as (? & ? & ? & Hsz).
    eexists w', _, None. split_and!; try done; [|simpl; lia]. intros _. split; [done|simpl; lia].
Qed.

Lemma deliver_spec namespace msgs reqs w :
  distinct_requests reqs →
  (∀ msg, msg ∈ msgs → ∃ req, req ∈ reqs ∧ Unmarshal (km_Value msg) = Ok req) →
  specs w ⊆ target namespace reqs →
  ∃ w' effs errs, deliver namespace msgs w = Some (w', effs, errs) ∧
    specs w ⊆ specs w' ∧ specs w' ⊆ target namespace reqs ∧
    (errs = [] → size (specs w') = (size (specs w) + length effs)%nat) ∧
    (size (specs w) + length effs ≤ size (specs w'))%nat ∧
    (∀ msg req, msg ∈ msgs → Unmarshal (km_Value msg) = Ok req → (∀ e, (msg, e) ∉ errs) →
       is_Some (specs w' !! (namespace, wr_RequestID req))) ∧
    ∀ msg e, (msg, e) ∈ errs → msg ∈ msgs ∧ IsAlreadyExists e = false.
Proof.
  intros [Hval Hnd]. rewrite Forall_forall in Hval. revert w.
  induction msgs as [|msg msgs IH]; intros w Hmsgs Hsub; simpl.
  { exists w, [], []. split_and!; try done; try (simpl; lia).
    - by intros ?? ?%elem_of_nil.
    - by intros ?? ?%elem_of_nil. }
  destruct (Hmsgs msg) as (req & Hreq & Hun); [left|]. destruct (Hval req Hreq) as [Hv Hn].
  pose proof (target_lookup namespace reqs req Hnd Hreq) as Htarget.
  destruct (deliver_one namespace msg req w _ Hun Hv Hn Htarget Hsub)
    as (w1 & effs & err & -> & Hsub0 & Hsub' & Hok & Hle & Herr).
  destruct (IH w1) as (w2 & effs2 & errs2 & Hd & Hsub1 & Hsub2 & Hsize2 & Hle2 & Hall & Hfail); [|done|].
  { intros msg' Hin. apply Hmsgs. by right. }
  cbn. rewrite Hd. cbn. exists w2, (effs ++ effs2), ((pair msg <$> option_list err) ++ errs2).
  split_and!; [done|by etrans|done|..].
  - intros [He1 He2]%app_nil. rewrite length_app. destruct err as [e|]; [done|].
    destruct (Hok eq_refl) as [_ ?]. specialize (Hsize2 He2). lia.
  - rewrite length_app. lia.
  - intros msg' req' Hin Hun' Hno. apply elem_of_cons in Hin as [->|Hin].
    + assert (req' = req) as -> by congruence. destruct err as [e|].
      * destruct (Hno e). apply elem_of_app. left. simpl. left.
      * destruct (Hok eq_refl) as [[spec Hspec] _]. exists spec. by eapply lookup_weaken.
    + eapply Hall; [done|done|]. intros e He. apply (Hno e), elem_of_app. by right.
  - intros msg' e [Hin|Hin]%elem_of_app.
    + apply list_elem_of_fmap in Hin as (e' & [= -> ->] & He). destruct err as [e0|]; cbn in He;
        [|by apply elem_of_nil in He]. apply list_elem_of_singleton in He as ->.
      split; [left|by apply Herr].
    + destruct (Hfail msg' e Hin). split; [by right|done].
Qed.
End delivery.

(** ** The whole way *)

Section pipeline.
Context `{RandLaws} `{Sha256} {P : Type} `{ProducerEnv P} {W : Type} `{SubmitterEnv W}.
Context {specs : W → gmap (string * string) GPUWorkloadSpec}.
Context `{!CreateLaws W specs} `{!RequestCodec P W}.

(** Every message of a successful run is that of one of the requests, and none is missing. *)
Lemma producer_sent fl schedule (p : P) p' log reqs :
  loadRequests fl p = Some (Ok reqs) → producerMain fl schedule p = Some (p', log, None) →
  (∀ i m, (i, m) ∈ sent log → ∃ req, req ∈ reqs ∧ MarshalRequest req = Ok (tm_Value m)) ∧
  (∀ req, req ∈ reqs → ∃ i m, (i, m) ∈ sent log ∧ MarshalRequest req = Ok (tm_Value m)).
Proof.
  intros Hload. unfold producerMain. destruct (checkFlags fl) as [k|e]; [|done]. rewrite Hload.
  assert (∀ (f : nat → nat),
    (∀ i m, (i, m) ∈ sent log → ∃ req, reqs !! i = Some req ∧ message_for req (f i) m) →
    (sent log).*1 ≡ₚ seq 0 (length reqs) →
    (∀ i m, (i, m) ∈ sent log → ∃ req, req ∈ reqs ∧ MarshalRequest req = Ok (tm_Value m)) ∧
    (∀ req, req ∈ reqs → ∃ i m, (i, m) ∈ sent log ∧ MarshalRequest req = Ok (tm_Value m))) as Hdone.
  { intros f Hmsg Hall. split.
    - intros i m Hin. destruct (Hmsg i m Hin) as (req & Hr & v & Hv & ->). exists req.
      split; [by eapply list_elem_of_lookup_2|done].
    - intros req [i Hi]%list_elem_of_lookup.
      assert (i ∈ (sent log).*1) as Hin.
      { rewrite Hall. apply elem_of_seq. apply lookup_lt_Some in Hi. lia. }
      apply list_elem_of_fmap in Hin as ([j m] & E & Hin). cbn in E. subst j. exists i, m.
      split; [done|]. destruct (Hmsg i m Hin) as (req' & Hr & v & Hv & ->).
      rewrite Hi in Hr. by injection Hr as ->. }
  destruct (k <=? 1)%nat eqn:Hk; cbn.
  - destruct (sendSerial reqs _ _ p) as [[q l] err] eqn:Hs. cbn. intros [= <- <- Herr].
    apply serial_spec in Hs as (n & _ & Hseq & Hnone & Hmsg).
    apply (Hdone (λ _, 0%nat)).
    + intros i m Hin. specialize (Hmsg i m Hin). by rewrite Nat.sub_0_r in Hmsg.
    + rewrite Hseq. assert (n = length reqs) as -> by (apply Hnone; by destruct err). done.
  - apply Nat.leb_gt in Hk.
    destruct (concurrent_run reqs k schedule p ltac:(lia)) as [_ Hrun].
    destruct (sendConcurrent reqs k schedule p) as [[[q l] err]|] eqn:Hs; [|done]. cbn.
    intros [= <- <- Herr]. destruct (Hrun q l err eq_refl) as (_ & Hmsg & _ & Hnone).
    apply (Hdone (λ i, i `mod` k)%nat); [done|]. apply Hnone. by destruct err.
Qed.

(** C24: from the command line to the cluster.  Take a run of the producer that ends without an error
    and whose requests are generated or copies of a valid seed in ASCII (not read from a [-config] file,
    whose requests may be invalid or collide), sent one after the other or by any number of goroutines
    under any schedule.  Deliver its messages to the submitter in any order, each at least once and
    nothing else, starting with no workloads, while the API server accepts or refuses creations as it
    likes.  Then the submitter gets through all messages.  The cluster has nothing but workloads of the
    requests, each under the id of its request and with its specification, so none twice; no more are
    counted than are there; every request of which no delivery failed has its workload; and when nothing
    failed the cluster has exactly one workload per request and as many are counted, however often
    messages came twice. *)
Theorem pipeline_exact fl schedule (p : P) p' log namespace delivered (w : W) :
  source_ok fl p →
  producerMain fl schedule p = Some (p', log, None) →
  (∀ msg, msg ∈ delivered → ∃ i m, (i, m) ∈ sent log ∧ km_Value msg = tm_Value m) →
  (∀ i m, (i, m) ∈ sent log → ∃ msg, msg ∈ delivered ∧ km_Value msg = tm_Value m) →
  specs w = ∅ →
  ∃ reqs w' effs errs,
    loadRequests fl p = Some (Ok reqs) ∧ distinct_requests reqs ∧
    deliver namespace delivered w = Some (w', effs, errs) ∧
    specs w' ⊆ list_to_map ((λ req, ((namespace, wr_RequestID req), requestSpec req)) <$> reqs) ∧
    (length effs ≤ size (specs w'))%nat ∧
    (∀ req, req ∈ reqs →
       (∀ msg e, (msg, e) ∈ errs → Unmarshal (km_Value msg) ≠ Ok req) →
       specs w' !! (namespace, wr_RequestID req) = Some (requestSpec req)) ∧
    (errs = [] → size (specs w') = length reqs ∧ length effs = length reqs).
Proof.
  intros Hsrc Hmain Hin Hout Hempty.
  assert (∃ reqs, loadRequests fl p = Some (Ok reqs)) as [reqs Hload].
  { unfold producerMain in Hmain. destruct (checkFlags fl); [|done].
    destruct (loadRequests fl p) as [[reqs|]|]; [by exists reqs|done|done]. }
  destruct (load_distinct fl p reqs Hsrc Hload) as [Hdist Hascii].
  destruct (producer_sent fl schedule p p' log reqs Hload Hmain) as [Hfrom Hto].
  rewrite Forall_forall in Hascii.
  assert (∀ req msg m, req ∈ reqs → MarshalRequest req = Ok (tm_Value m) → km_Value msg = tm_Value m →
    Unmarshal (km_Value msg) = Ok req) as Hcodec.
  { intros req msg m Hr Hm ->. by apply request_codec; [apply Hascii|]. }
  destruct (deliver_spec namespace delivered reqs w Hdist)
    as (w' & effs & errs & Hd & _ & Hsub & Hsize & Hle & Hall & _).
  { intros msg (i & m & Him & Hv)%Hin. destruct (Hfrom i m Him) as (req & Hr & Hm).
    exists req. split; [done|]. by apply Hcodec with m. }
  { rewrite Hempty. apply map_empty_subseteq. }
  rewrite Hempty, map_size_empty in Hsize, Hle.
  assert (Hthere : ∀ req, req ∈ reqs → (∀ msg e, (msg, e) ∈ errs → Unmarshal (km_Value msg) ≠ Ok req) →
    specs w' !! (namespace, wr_RequestID req) = Some (requestSpec req)).
  { intros req Hr Hno. destruct (Hto req Hr) as (i & m & Him & Hm).
    destruct (Hout i m Him) as (msg & Hmsg & Hv).
    assert (Unmarshal (km_Value msg) = Ok req) as Hun by (by apply Hcodec with m).
    destruct (Hall msg req Hmsg Hun) as [spec Hspec]; [intros e He; by eapply Hno|].
    rewrite Hspec. pose proof (lookup_weaken _ _ _ _ Hspec Hsub) as Ht.
    rewrite target_lookup in Ht; [congruence|apply Hdist|done]. }
  exists reqs, w', effs, errs. split_and!; [done|done|done|done|simpl in Hle; lia|exact Hthere|].
  intros ->. assert (specs w' = target namespace reqs) as Heq.
  { apply (anti_symm (⊆)); [done|]. apply map_subseteq_spec. intros key spec Hkey.
    apply elem_of_list_to_map_2, list_elem_of_fmap in Hkey as (req & [= -> ->] & Hr).
    apply Hthere; [done|]. by intros ?? ?%elem_of_nil. }
  specialize (Hsize eq_refl). rewrite Heq, target_size in Hsize |- * by apply Hdist. split; [done|].
  simpl in Hsize. lia.
Qed.
End pipeline.

(** ** A small environment *)

Module PipelineExample.
Import ProducerExample.
#[export] Instance sha : Sha256 := SubmitExample.sha.

(** The cluster: the specifications of the workloads. *)
Abbreviation cluster := (gmap (string * string) GPUWorkloadSpec).

#[export] Instance submitter_env : SubmitterEnv cluster := {|
  FetchMessage w := (w, Err (Errorf "no message"));
  CommitMessages w _ := (w, None);
  Unmarshal := unmarshal;
  Create w cr :=
    match w !! key_of cr with
    | Some _ => (w, Some (StatusError AlreadyExists "exists"))
    | None => (<[key_of cr := w_Spec cr]> w, None)
    end;
  WriteDLQ w _ _ _ := (w, None);
|}.

#[export] Instance create_laws : CreateLaws cluster id.
Proof.
  split; cbn; intros w cr w' err. destruct (w !! key_of cr) as [spec|] eqn:E; intros [= <- <-].
  - by split; [eexists|].
  - done.
Qed.

#[export] Instance codec : RequestCodec Topic cluster.
Proof. split. intros req value _ [= <-]. apply marshal_round_trip. Qed.

End PipelineExample.

Section examples.
Import ProducerExample PipelineExample.

Lemma example_source k : source_ok (flags k) (topic 0).
Proof. split_and!; [done|by vm_compute|by vm_compute|]. intros Hne. by destruct Hne. Qed.

(** Two goroutines; one message is delivered twice and they come in another order. *)
Lemma pipeline_exact_witness :
  ∃ p' log reqs w' effs,
    producerMain (flags 2) schedule (topic 0) = Some (p', log, None) ∧
    let msgs := (λ m, {| km_Partition := 0; km_Offset := 0; km_Value := tm_Value m |})
                  <$> (sent log).*2 in
    deliver "ns" (rev msgs ++ msgs) ∅ = Some (w', effs, []) ∧
    loadRequests (flags 2) (topic 0) = Some (Ok reqs) ∧ size w' = length reqs ∧
    length effs = length reqs.
Proof.
  destruct (producerMain (flags 2) schedule (topic 0)) as [[[p' log] err]|] eqn:Hm;
    [|vm_compute in Hm; discriminate Hm].
  assert (err = None) as ->.
  { apply (f_equal (option_map snd)) in Hm. vm_compute in Hm. injection Hm as <-. reflexivity. }
  set (msgs := (λ m, {| km_Partition := 0; km_Offset := 0; km_Value := tm_Value m |})
                 <$> (sent log).*2).
  assert (∀ msg, msg ∈ rev msgs ++ msgs ↔ msg ∈ msgs) as Hin.
  { intros msg. rewrite elem_of_app, !list_elem_of_In, <- in_rev. tauto. }
  destruct (pipeline_exact (flags 2) schedule (topic 0) p' log "ns" (rev msgs ++ msgs) ∅)
    as (reqs & w' & effs & errs & Hl & _ & Hd & _ & _ & _ & Hsize).
  - apply example_source.
  - exact Hm.
  - intros msg (m & -> & ([i m'] & -> & Him)%list_elem_of_fmap)%Hin%list_elem_of_fmap. exists i, m'. split; [exact Him|reflexivity].
  - intros i m Him. exists {| km_Partition := 0; km_Offset := 0; km_Value := tm_Value m |}.
    split; [|reflexivity]. apply Hin, list_elem_of_fmap. exists m. split; [reflexivity|].
    apply list_elem_of_fmap. exists (i, m). split; [reflexivity|exact Him].
  - reflexivity.
  - assert (errs = []) as ->.
    { apply (f_equal (option_map (λ r, snd (fst r)))) in Hm. vm_compute in Hm. injection Hm as <-.
      apply (f_equal (option_map snd)) in Hd. vm_compute in Hd. injection Hd as <-. reflexivity. }
    exists p', log, reqs, w', effs. split; [reflexivity|]. split; [exact Hd|]. split; [exact Hl|].
    exact (Hsize eq_refl).
Defined.
End examples.
