(* ===== verification/WorkerJobs.v ===== *)
(** * One Job per workload (internal/worker/job_template.go and the legacy path of
    internal/controller/gpuworkload_controller.go)

    The reconciler's older way to run workloads outside the operator: a Kubernetes Job for each, whose
    status is carried over to the phase. *)

From stdpp Require Import prelude gmap strings pretty.
From S2P Require Import Prelude GoFloat SimModel SchedInputs Runtime Simulator Resources Cluster Reconciler.

Local Open Scope Z_scope.
Local Open Scope go_scope.

(** ** Jobs *)

Record JobCondition := { jc_Type : string; jc_Status : string }.

(** What the code sets or reads of a [batchv1.Job]. *)
Record Job := {
  jb_Namespace : string;
  jb_Name : string;
  jb_Owner : option NamespacedName;
  jb_BackoffLimit : Z;
  jb_Labels : gmap string string;
  jb_RestartPolicy : string;
  jb_ContainerName : string;
  jb_Image : string;
  jb_Env : list (string * string);
  jb_Succeeded : Z;
  jb_Failed : Z;
  jb_Conditions : list JobCondition;
}.

Definition DefaultWorkerImage : string := "gpu-scheduler-worker:latest".

Record WorkerJobTemplate := { jt_Image : string; jt_BackoffLimit : Z }.

Definition DefaultWorkerJobTemplate : WorkerJobTemplate :=
  {| jt_Image := DefaultWorkerImage; jt_BackoffLimit := 0 |}.

Definition BuildWorkerJob (workload : GPUWorkload) (simulatorURL : string) (tpl : WorkerJobTemplate)
    : Job :=
  let image := if decide (jt_Image tpl = "") then DefaultWorkerImage else jt_Image tpl in
  let name := om_Name (w_Meta workload) in
  let namespace := om_Namespace (w_Meta workload) in
  {| jb_Namespace := namespace; jb_Name := name +:+ "-job"; jb_Owner := None;
     jb_BackoffLimit := jt_BackoffLimit tpl;
     jb_Labels := <["scheduler.ishanchopra.dev/workload" := name]>
       (<["app.kubernetes.io/component" := "worker"]>
         (<["app.kubernetes.io/name" := "gpu-scheduler-worker"]> ∅));
     jb_RestartPolicy := "Never"; jb_ContainerName := "worker"; jb_Image := image;
     jb_Env := [("SIMULATOR_URL", simulatorURL); ("WORKLOAD_NAMESPACE", namespace);
                ("WORKLOAD_NAME", name)];
     jb_Succeeded := 0; jb_Failed := 0; jb_Conditions := [] |}.

Definition isJobFailed (job : Job) : bool :=
  existsb (λ c, bool_decide (jc_Type c = "Failed") && bool_decide (jc_Status c = "True"))
    (jb_Conditions job).

(** [client.Get] and [client.Create] on Jobs, and [controllerutil.SetControllerReference]. *)
Class JobClient (W : Type) := {
  GetJob : W → NamespacedName → W * Result Job;
  CreateJob : W → Job → W * option error;
  SetControllerReference : GPUWorkload → Job → Result Job;
}.

Section jobs.
Context {W S : Type} `{ApiClient W, JobClient W, WorkloadRuntimeSimulator S}.
Context (r : GPUWorkloadReconciler) (simulatorURL : string) (template : WorkerJobTemplate).
Local Notation World := (@Cluster.World W S).

Definition job_key (workload : GPUWorkload) : NamespacedName :=
  {| nn_Namespace := om_Namespace (w_Meta workload);
     nn_Name := om_Name (w_Meta workload) +:+ "-job" |}.

(** The write of the phase Running and its event. *)
Definition setRunning (workload : GPUWorkload) (message : string) (w : World) : World * option error :=
  match updateStatus w (with_phase workload GPUWorkloadPhaseRunning) with
  | (w, Err e) => (w, Some e)
  | (w, Ok o) => (record r w o "Normal" "Running" message, None)
  end.

Definition ensureWorkerJob (workload : GPUWorkload) (w : World) : World * option error :=
  let '(a, got) := GetJob (wo_api w) (job_key workload) in
  let w := with_api w a in
  match got with
  | Ok _ =>
      if decide (phase_of workload = GPUWorkloadPhaseRunning) then (w, None)
      else setRunning workload "Worker Job running" w
  | Err e =>
      if negb (IsNotFound e) then (w, Some e)
      else
      let tpl := if decide (jt_Image template = "") then DefaultWorkerJobTemplate else template in
      match SetControllerReference workload (BuildWorkerJob workload simulatorURL tpl) with
      | Err e => (w, Some (Wrapf "set Job owner reference" e))
      | Ok job =>
          let '(a, err) := CreateJob (wo_api w) job in
          let w := with_api w a in
          match err with
          | Some e => (w, Some e)
          | None =>
              setRunning workload "Worker Job created, workload running"
                (record r w workload "Normal" "WorkerJobCreated" "Created worker Job for workload")
          end
      end
  end.

(** The phase the status of a Job stands for. *)
Definition jobTarget (job : Job) : option GPUWorkloadPhase :=
  if 1 <=? jb_Succeeded job then Some GPUWorkloadPhaseSucceeded
  else if (1 <=? jb_Failed job) || isJobFailed job then Some GPUWorkloadPhaseFailed
  else None.

Definition jobEvent (w : World) (o : GPUWorkload) (p : GPUWorkloadPhase) : World :=
  match p with
  | GPUWorkloadPhaseSucceeded => record r w o "Normal" "Succeeded" "Worker Job completed successfully"
  | GPUWorkloadPhaseFailed => record r w o "Warning" "Failed" "Worker Job failed"
  | _ => w
  end.

Definition syncWorkloadPhaseFromWorkerJob (workload : GPUWorkload) (w : World)
    : World * Result bool :=
  let '(a, got) := GetJob (wo_api w) (job_key workload) in
  let w := with_api w a in
  match got with
  | Err e => if IsNotFound e then (w, Ok true) else (w, Err e)
  | Ok job =>
  match jobTarget job with
  | None => (w, Ok false)
  | Some target =>
  if decide (phase_of workload = target) then (w, Ok true)
  else
  let succeeded := bool_decide (target = GPUWorkloadPhaseSucceeded) in
  let o := if succeeded then countCompletion (with_phase workload target)
           else with_phase workload target in
  match updateStatus w o with
  | (w, Err e) => (w, Err e)
  | (w, Ok o) =>
      let '(w, o) :=
        if succeeded then
          match updateObject (emit w (completionEffects o)) o with
          | (w, Ok o') => (w, o')
          | (w, Err _) => (w, o)
          end
        else (w, o) in
      let w := if rc_RuntimeSimulator r then (release w (workload_id workload)).1 else w in
      (jobEvent w o target, Ok true)
  end end end.
End jobs.

(** ** What they do *)

(** The Jobs this client created, beside the documented behaviour of the calls on workloads. *)
Class JobLaws (W : Type) `{ApiLaws W, JobClient W} := {
  jobs : W → list Job;
  get_job_keeps : ∀ w k, history (GetJob w k).1 = history w ∧ jobs (GetJob w k).1 = jobs w ∧
    ∀ o, was_stored w o → was_stored (GetJob w k).1 o;
  create_job_keeps : ∀ w j, history (CreateJob w j).1 = history w ∧
    ∀ o, was_stored w o → was_stored (CreateJob w j).1 o;
  create_job_jobs : ∀ w j, jobs (CreateJob w j).1 =
    match (CreateJob w j).2 with None => jobs w ++ [j] | Some _ => jobs w end;
  status_jobs : ∀ w o, jobs (StatusUpdate w o).1 = jobs w;
  owner_set : ∀ o j j', SetControllerReference o j = Ok j' →
    j' = {| jb_Namespace := jb_Namespace j; jb_Name := jb_Name j; jb_Owner := Some (key_of (w_Meta o));
            jb_BackoffLimit := jb_BackoffLimit j; jb_Labels := jb_Labels j;
            jb_RestartPolicy := jb_RestartPolicy j; jb_ContainerName := jb_ContainerName j;
            jb_Image := jb_Image j; jb_Env := jb_Env j; jb_Succeeded := jb_Succeeded j;
            jb_Failed := jb_Failed j; jb_Conditions := jb_Conditions j |};
}.

Section proofs.
Context {W S : Type} `{JobLaws W, SimulatorLaws S}.
Context (r : GPUWorkloadReconciler) (simulatorURL : string) (template : WorkerJobTemplate).
Implicit Types w : @World W S.

Lemma setRunning_spec o message w w' err :
  read_as w o o → setRunning r o message w = (w', err) →
  wo_sim w' = wo_sim w ∧ jobs (wo_api w') = jobs (wo_api w) ∧
  match err with
  | Some _ => history (wo_api w') = history (wo_api w)
  | None => ∃ after, history (wo_api w') = history (wo_api w) ++ [StatusWrite o after] ∧
      phase_of after = GPUWorkloadPhaseRunning ∧ w_Spec after = w_Spec o
  end.
Proof.
  intros Hr. unfold setRunning.
  assert (jobs (wo_api (updateStatus w (with_phase o GPUWorkloadPhaseRunning)).1) = jobs (wo_api w)) as Hj.
  { unfold updateStatus. pose proof (status_jobs (wo_api w) (with_phase o GPUWorkloadPhaseRunning)) as E.
    by destruct (StatusUpdate _ _). }
  destruct (updateStatus _ _) as [w1 res] eqn:Hu. cbn in Hj.
  apply (updateStatus_spec _ o) in Hu as (Hsim & _ & Hx); [|exact Hr].
  destruct res as [o'|e]; intros [= <- <-]; [|done].
  destruct (record_api r w1 o' "Normal" "Running" message) as [-> ->].
  split_and!; [done|done|]. destruct Hx as (after & Hh & _ & Hst & _ & Hsp & _). exists after.
  split_and!; try done. unfold phase_of. by rewrite Hst.
Qed.

(** The Job of a workload: it names its workload, which owns it. *)
Definition job_of (o : GPUWorkload) (job : Job) : Prop :=
  {| nn_Namespace := jb_Namespace job; nn_Name := jb_Name job |} = job_key o ∧
  jb_Owner job = Some (key_of (w_Meta o)) ∧
  ("WORKLOAD_NAMESPACE", om_Namespace (w_Meta o)) ∈ jb_Env job ∧
  ("WORKLOAD_NAME", om_Name (w_Meta o)) ∈ jb_Env job ∧
  ("SIMULATOR_URL", simulatorURL) ∈ jb_Env job ∧ jb_Image job ≠ "".

Lemma built_job o tpl job :
  SetControllerReference o (BuildWorkerJob o simulatorURL tpl) = Ok job → job_of o job.
Proof.
  intros ->%owner_set. unfold job_of. cbn. split_and!; try done; [set_solver..|].
  by destruct (decide (jt_Image tpl = "")).
Qed.

(** One Job per workload.  When the workload has a Job, none is created; when it has none, one is,
    which the workload owns and which carries its name and the address of the simulator; any other
    answer creates nothing.  A success leaves the workload Running, by the one write of its phase or
    because it was already; a failure writes nothing, so that the next reconciliation finds the Job that
    may have been created.  The simulator is not touched. *)
Theorem worker_job_exact o w w' err :
  read_as w o o → ensureWorkerJob r simulatorURL template o w = (w', err) →
  wo_sim w' = wo_sim w ∧
  (∃ created, jobs (wo_api w') = jobs (wo_api w) ++ created ∧
     match (GetJob (wo_api w) (job_key o)).2 with
     | Ok _ => created = []
     | Err e => if IsNotFound e then (∃ job, created = [job] ∧ job_of o job) ∨ created = [] ∧ is_Some err
                else created = [] ∧ err = Some e
     end) ∧
  match err with
  | Some _ => history (wo_api w') = history (wo_api w)
  | None =>
      history (wo_api w') = history (wo_api w) ∧ phase_of o = GPUWorkloadPhaseRunning ∨
      ∃ after, history (wo_api w') = history (wo_api w) ++ [StatusWrite o after] ∧
        phase_of after = GPUWorkloadPhaseRunning ∧ w_Spec after = w_Spec o
  end.
Proof.
  intros Hr. unfold ensureWorkerJob.
  destruct (get_job_keeps (wo_api w) (job_key o)) as (Hh & Hj & Hst).
  destruct (GetJob (wo_api w) (job_key o)) as [a [job|e]]; cbn in Hh, Hj, Hst.
  - case_decide as Hp.
    { intros [= <- <-]. cbn. rewrite Hj, Hh. split_and!; [done| |by left]. exists []. by rewrite app_nil_r. }
    intros Hs. apply setRunning_spec in Hs as (Hsim & Hjobs & Hx).
    2:{ destruct Hr as (? & ? & ?). split_and!; [by apply Hst|done|done]. }
    cbn in *. rewrite Hh in Hx. split_and!; [done| |].
    + exists []. by rewrite Hjobs, Hj, app_nil_r.
    + destruct err; [done|]. by right.
  - cbn [snd]. destruct (IsNotFound e) eqn:He; cbn [negb].
    2:{ intros [= <- <-]. cbn. rewrite Hj, Hh. split_and!; [done| |done]. exists []. by rewrite app_nil_r. }
    destruct (SetControllerReference _ _) as [job|e'] eqn:Hown.
    2:{ intros [= <- <-]. cbn. rewrite Hj, Hh. split_and!; [done| |done]. exists []. rewrite app_nil_r.
        split; [done|]. right. by split. }
    apply built_job in Hown. destruct (create_job_keeps a job) as [Hh' Hst'].
    pose proof (create_job_jobs a job) as Hj'. cbn [wo_api with_api]. destruct (CreateJob a job) as [a' [e'|]]; cbn in *.
    + intros [= <- <-]. cbn. split_and!; [done| |congruence]. exists []. rewrite app_nil_r.
      split; [congruence|]. right. by split.
    + set (w1 := record _ _ _ _ _ _).
      assert (wo_api w1 = a' ∧ wo_sim w1 = wo_sim w) as [Ea Es]
        by apply (record_api r (with_api (with_api w a) a')).
      intros Hs. apply setRunning_spec in Hs as (Hsim & Hjobs & Hx).
      2:{ destruct Hr as (? & ? & ?). split_and!; [|done|done]. rewrite Ea. auto. }
      rewrite Ea in Hx, Hjobs. rewrite Hh', Hh in Hx. split_and!; [congruence| |].
      * exists [job]. split; [congruence|]. left. eauto.
      * destruct err; [done|]. by right.
Qed.

(** How a Job ends, and the phase that stands for it: one pod that succeeded is enough; without one, a
    pod that failed or the condition Failed. *)
Inductive job_end (j : Job) : GPUWorkloadPhase → Prop :=
| job_succeeded : 1 ≤ jb_Succeeded j → job_end j GPUWorkloadPhaseSucceeded
| job_pod_failed : jb_Succeeded j < 1 → 1 ≤ jb_Failed j → job_end j GPUWorkloadPhaseFailed
| job_marked_failed c : jb_Succeeded j < 1 → c ∈ jb_Conditions j → jc_Type c = "Failed" →
    jc_Status c = "True" → job_end j GPUWorkloadPhaseFailed.

Lemma isJobFailed_spec j :
  isJobFailed j = true ↔ ∃ c, c ∈ jb_Conditions j ∧ jc_Type c = "Failed" ∧ jc_Status c = "True".
Proof.
  unfold isJobFailed. rewrite existsb_exists. setoid_rewrite andb_true_iff.
  setoid_rewrite bool_decide_eq_true. setoid_rewrite <- list_elem_of_In. done.
Qed.

Lemma jobTarget_spec j p : jobTarget j = Some p ↔ job_end j p.
Proof.
  unfold jobTarget. destruct (Z.leb_spec 1 (jb_Succeeded j)).
  { split; [intros [= <-]; by constructor|]. destruct 1; done || lia. }
  destruct (Z.leb_spec 1 (jb_Failed j)); cbn [orb].
  { split; [intros [= <-]; by constructor|]. destruct 1; done || lia. }
  pose proof (isJobFailed_spec j) as Hf. destruct (isJobFailed j).
  - split; [|by destruct 1; [lia|..]]. intros [= <-]. destruct (proj1 Hf eq_refl) as (c & ? & ? & ?).
    by eapply job_marked_failed.
  - split; [done|]. destruct 1 as [?|?|c ? Hc Ht Hs]; [lia|lia|].
    discriminate (proj2 Hf (ex_intro _ c (conj Hc (conj Ht Hs)))).
Qed.

Lemma jobEvent_world w o p :
  wo_api (jobEvent r w o p) = wo_api w ∧ wo_sim (jobEvent r w o p) = wo_sim w ∧
  completions (wo_log (jobEvent r w o p)) = completions (wo_log w).
Proof.
  unfold jobEvent. destruct p; try done; (split_and!; [apply record_api..|apply record_completions]).
Qed.

(** What comes after the phase was written: the release and the event. *)
Lemma job_finished o p w0 w2 o3 :
  end_written o p w0 w2 → wo_sim w2 = wo_sim w0 →
  let w' := jobEvent r (if rc_RuntimeSimulator r then (release w2 (workload_id o)).1 else w2) o3 p in
  end_written o p w0 w' ∧
  wo_sim w' = if rc_RuntimeSimulator r then (wrs_Release (wo_sim w0) (workload_id o)).1 else wo_sim w0.
Proof.
  intros Hw Hs. cbv zeta. set (w3 := if rc_RuntimeSimulator r then _ else _).
  assert (wo_api w3 = wo_api w2 ∧ wo_log w3 = wo_log w2 ∧
    wo_sim w3 = if rc_RuntimeSimulator r then (wrs_Release (wo_sim w0) (workload_id o)).1
                else wo_sim w0) as (Ea & El & Es).
  { unfold w3. destruct (rc_RuntimeSimulator r); [|done].
    destruct (release_api w2 (workload_id o)) as [-> ->]. unfold release. rewrite Hs.
    by destruct (wrs_Release _ _). }
  destruct (jobEvent_world w3 o3 p) as (Ja & Js & Jc). split; [|congruence].
  apply (end_written_same _ _ _ w2); congruence.
Qed.

(** C35: the outcome of a Job becomes that of its workload.  When the Job cannot be read nothing
    happens: the error is returned, unless it says that there is no Job, which is reported as done.
    While the Job has not ended nothing happens and it is reported as not done.  Once a pod of it
    succeeded the phase becomes Succeeded; failing that, once a pod failed or the Job has the condition
    Failed, it becomes Failed.  A workload that has that phase already is left alone; otherwise the
    phase is written over the workload as it was read: if the server refuses that, its error is
    returned and nothing is counted or released; if not, the devices are released where there is a
    simulator, and a success, and only that, is counted as one completion, after which the object may
    be written once more with its status as it is. *)
Theorem job_outcome_exact o w w' res :
  read_as w o o → syncWorkloadPhaseFromWorkerJob r o w = (w', res) →
  let '(a, got) := GetJob (wo_api w) (job_key o) in
  match got with
  | Err e => w' = with_api w a ∧ res = if IsNotFound e then Ok true else Err e
  | Ok job =>
      (∀ p, job_end job p →
         if decide (phase_of o = p) then w' = with_api w a ∧ res = Ok true
         else (∃ e, res = Err e ∧ end_refused o p (with_api w a) w' e) ∨
              res = Ok true ∧ end_written o p w w' ∧
              wo_sim w' = if rc_RuntimeSimulator r then (wrs_Release (wo_sim w) (workload_id o)).1
                          else wo_sim w) ∧
      ((∀ p, ¬ job_end job p) → w' = with_api w a ∧ res = Ok false)
  end.
Proof.
  intros Hr. unfold syncWorkloadPhaseFromWorkerJob.
  destruct (get_job_keeps (wo_api w) (job_key o)) as (Hh & _ & Hst).
  destruct (GetJob (wo_api w) (job_key o)) as [a [job|e]]; cbn [fst] in *.
  2:{ destruct (IsNotFound e); intros [= <- <-]; done. }
  setoid_rewrite <- jobTarget_spec. destruct (jobTarget job) as [p|].
  2:{ intros [= <- <-]. by split. }
  intros Hrun. split; [|intros Hno; by destruct (Hno p)]. intros ? [= <-].
  destruct (decide (phase_of o = p)) as [Hp|Hp]; [by injection Hrun as <- <-|].
  fold (endedAs o p) in Hrun. destruct (updateStatus _ _) as [w1 res1] eqn:Hu.
  apply write_end in Hu; [|destruct Hr as (? & ? & ?); split_and!; [by apply Hst|done|done]].
  destruct res1 as [o2|e]; [right|left; injection Hrun as <- <-; by exists e].
  fold (markCounted w1 o2 p) in Hrun. destruct Hu as (Hw & Hs & _).
  destruct (markCounted w1 o2 p) as [w2 o3]. cbn [fst] in Hw, Hs. injection Hrun as <- <-.
  split; [done|]. destruct (job_finished o p _ w2 o3 Hw Hs) as [Hw' ->]. split; [|done].
  destruct Hw' as (after & l & Hh' & ?). exists after, l. cbn [wo_api with_api] in Hh'.
  by rewrite Hh' , Hh.
Qed.
End proofs.

(** ** A small server with Jobs *)

Module JobServer.
Import SmallServer.
Record cluster := { cl_server : server; cl_jobs : list Job }.

Definition lift {A} (c : cluster) (x : server * A) : cluster * A :=
  ({| cl_server := x.1; cl_jobs := cl_jobs c |}, x.2).

#[export] Instance job_api : ApiClient cluster := {|
  Get c k := lift c (Get (cl_server c) k);
  StatusUpdate c o := lift c (StatusUpdate (cl_server c) o);
  Update c o := lift c (Update (cl_server c) o);
|}.

Lemma lift_eq {A} c (x : server * A) c' a :
  lift c x = (c', a) → x = (cl_server c', a) ∧ cl_jobs c' = cl_jobs c.
Proof. unfold lift. intros [= <- <-]. by destruct x. Qed.

#[export] Instance job_api_laws : ApiLaws cluster.
Proof.
  refine {| history c := history (cl_server c); was_stored c := was_stored (cl_server c) |}.
  - intros c. apply (version_unique (cl_server c)).
  - intros c k. apply (get_keeps (cl_server c) k).
  - intros c k c' o [Hg _]%lift_eq. by apply (get_ok _ _ _ _ Hg).
  - intros c o o'. apply (status_keeps (cl_server c)).
  - intros c o c' o' [Hu _]%lift_eq. apply (status_ok _ _ _ _ Hu).
  - intros c o c' e [Hu _]%lift_eq. apply (status_err _ _ _ _ Hu).
  - intros c o o'. apply (update_keeps (cl_server c)).
  - intros c o c' o' [Hu _]%lift_eq. apply (update_ok _ _ _ _ Hu).
  - intros c o c' e [Hu _]%lift_eq. apply (update_err _ _ _ _ Hu).
Defined.

Definition key_of_job (j : Job) : NamespacedName :=
  {| nn_Namespace := jb_Namespace j; nn_Name := jb_Name j |}.

Definition with_owner (o : GPUWorkload) (j : Job) : Job :=
  {| jb_Namespace := jb_Namespace j; jb_Name := jb_Name j; jb_Owner := Some (key_of (w_Meta o));
     jb_BackoffLimit := jb_BackoffLimit j; jb_Labels := jb_Labels j;
     jb_RestartPolicy := jb_RestartPolicy j; jb_ContainerName := jb_ContainerName j;
     jb_Image := jb_Image j; jb_Env := jb_Env j; jb_Succeeded := jb_Succeeded j;
     jb_Failed := jb_Failed j; jb_Conditions := jb_Conditions j |}.

#[export] Instance job_client : JobClient cluster := {|
  GetJob c k :=
    (c, match filter (λ j, key_of_job j = k) (cl_jobs c) with j :: _ => Ok j | [] => Err not_found end);
  CreateJob c j :=
    match filter (λ j', key_of_job j' = key_of_job j) (cl_jobs c) with
    | _ :: _ => (c, Some (StatusError AlreadyExists "exists"))
    | [] => ({| cl_server := cl_server c; cl_jobs := cl_jobs c ++ [j] |}, None)
    end;
  SetControllerReference o j := Ok (with_owner o j);
|}.

#[export] Instance job_laws : JobLaws cluster.
Proof.
  refine {| jobs := cl_jobs |}.
  - done.
  - intros c j. cbn. by destruct (filter _ _).
  - intros c j. cbn. by destruct (filter _ _).
  - done.
  - by intros o j j' [= <-].
Defined.
End JobServer.

Module JobExample.
Import JobServer ReconcileExample.
#[export] Existing Instance job_api.
#[export] Existing Instance job_api_laws.
#[export] Existing Instance job_client.
#[export] Existing Instance job_laws.

Definition scheduled : GPUWorkload := object GPUWorkloadPhaseScheduled None.
Definition running : GPUWorkload := object GPUWorkloadPhaseRunning None.
Definition template : WorkerJobTemplate := {| jt_Image := ""; jt_BackoffLimit := 3 |}.

(** The Job of the workload, with this many pods that succeeded and failed. *)
Definition job (succeeded failed : Z) : Job :=
  let j := with_owner running (BuildWorkerJob running "http://sim" template) in
  {| jb_Namespace := jb_Namespace j; jb_Name := jb_Name j; jb_Owner := jb_Owner j;
     jb_BackoffLimit := jb_BackoffLimit j; jb_Labels := jb_Labels j;
     jb_RestartPolicy := jb_RestartPolicy j; jb_ContainerName := jb_ContainerName j;
     jb_Image := jb_Image j; jb_Env := jb_Env j; jb_Succeeded := succeeded; jb_Failed := failed;
     jb_Conditions := [] |}.

Definition world (o : GPUWorkload) (js : list Job) : @World cluster Simulator :=
  {| wo_api := {| cl_server := SmallServer.init [o]; cl_jobs := js |}; wo_sim := SimExample.s1;
     wo_log := [] |}.
Definition ensured : World * option error :=
  ensureWorkerJob r "http://sim" template scheduled (world scheduled []).
Definition synced (js : list Job) : World * Result bool :=
  syncWorkloadPhaseFromWorkerJob r running (world running js).
End JobExample.

Section examples.
Import SmallServer JobServer ReconcileExample JobExample.

Lemma read_as_world o js : read_as (JobExample.world o js) o o.
Proof. split_and!; [|done|done]. apply lookup_insert_eq. Qed.

Lemma worker_job_exact_witness :
  ensured.2 = None ∧
  (∃ created, cl_jobs (wo_api ensured.1) = created ∧ ∃ j, created = [j] ∧ job_of "http://sim" scheduled j) ∧
  ∃ after, sv_history (cl_server (wo_api ensured.1)) = [StatusWrite scheduled after] ∧
    phase_of after = GPUWorkloadPhaseRunning.
Proof.
  assert (ensured.2 = None) as He by (by vm_compute). split; [exact He|].
  destruct (worker_job_exact r "http://sim" template scheduled (JobExample.world scheduled [])
    ensured.1 ensured.2 (read_as_world _ _) (surjective_pairing ensured))
    as (_ & (created & Hc & Hj) & Hw).
  rewrite He in Hj, Hw. split.
  - destruct Hj as [Hj|[_ []]]; [|discriminate]. by exists created.
  - destruct Hw as [[_ Hp]|(after & Hh & Hp & _)]; [by vm_compute in Hp|]. by exists after.
Defined.

Lemma job_outcome_exact_witness :
  (synced [job 1 0]).2 = Ok true ∧
  end_written running GPUWorkloadPhaseSucceeded (JobExample.world running [job 1 0])
    (synced [job 1 0]).1.
Proof.
  pose proof (job_outcome_exact r running (JobExample.world running [job 1 0])
    (synced [job 1 0]).1 (synced [job 1 0]).2 (read_as_world _ _)
    (surjective_pairing (synced [job 1 0]))) as Hs.
  destruct (proj1 Hs GPUWorkloadPhaseSucceeded (job_succeeded (job 1 0) (Z.le_refl 1)))
    as [(e & He & _)|(Hres & Hw & _)].
  - exfalso. vm_compute in He. discriminate He.
  - split; [exact Hres|exact Hw].
Defined.

(** With a backoff limit the Job controller retries failed pods; the workload is marked Failed at the
    first of them. *)
Example retried_job_reported_failed :
  jb_BackoffLimit (job 0 1) = 3 ∧
  (λ x, match x with StatusWrite _ after => phase_of after | _ => PhaseNone end)
    <$> sv_history (cl_server (wo_api (synced [job 0 1]).1)) = [GPUWorkloadPhaseFailed].
Proof. by vm_compute. Qed.

(** A Running workload whose Job is gone stays Running, and the result says that its phase was brought
    up to date. *)
Example missing_job_left_running :
  (synced []).2 = Ok true ∧ sv_history (cl_server (wo_api (synced []).1)) = [].
Proof. by vm_compute. Qed.
End examples.
