(* ===== verification/ProfileTool.v ===== *)
(** * The profile tool (tools/refresh_profiles/main.go)

    It turns the reviewed YAML list of hardware profiles into the JSON file that the simulator embeds,
    and can fetch the pages the profiles cite.  Its [hardwareProfile] has the fields and tags of the
    simulator's [HardwareProfile], which stands for both. *)

From stdpp Require Import prelude gmap strings pretty.
From S2P Require Import Prelude GoFloat SimModel.

Local Open Scope Z_scope.
Local Open Scope go_scope.

(** ** Validation *)

(** [sort.Strings] *)
Definition sortStrings (l : list string) : list string := SliceStable String.ltb l.

(** The closure [add] of [dedupeSourceURLs]; the keys of the map [seen] are the elements of [out]. *)
Definition addURL (out : list string) (u : string) : list string :=
  let u := TrimSpace u in
  if decide (u = "") then out else if decide (u ∈ out) then out else out ++ [u].

Definition dedupeSourceURLs (p : HardwareProfile) : list string :=
  sortStrings (foldl addURL (addURL [] (hp_SourceURL p)) (hp_SourceURLs p)).

Definition canonicalProfile (p : HardwareProfile) : HardwareProfile :=
  {| hp_Name := ToLower (TrimSpace (hp_Name p)); hp_MemoryMiB := hp_MemoryMiB p;
     hp_MemBandwidthGBps := hp_MemBandwidthGBps p; hp_PeakTFLOPSBF16 := hp_PeakTFLOPSBF16 p;
     hp_InterconnectGBps := hp_InterconnectGBps p; hp_Notes := hp_Notes p;
     hp_SourceURL := hp_SourceURL p; hp_SourceURLs := dedupeSourceURLs p |}.

(** Files, the codecs, [net/url] and [net/http] as the tool uses them. *)
Record response := { rs_StatusCode : Z; rs_ContentType : string; rs_Body : Result string }.

Record sourceSnapshot := {
  ss_URL : string;
  ss_StatusCode : Z;
  ss_ContentType : string;
  ss_ContentBytes : Z;
  ss_SHA256 : string;
  ss_Title : string;
  ss_SavedPath : string;
  ss_FetchedAt : Time;
}.

Record profileSnapshot := {
  pn_Name : string;
  pn_MemoryMiB : Z;
  pn_MemBandwidthGBps : float64;
  pn_PeakTFLOPSBF16 : option float64;
  pn_InterconnectGBps : option float64;
  pn_SourceURL : string;
  pn_SourceURLs : list string;
  pn_Sources : list sourceSnapshot;
}.

Record snapshotFile := {
  sf_GeneratedAt : Time;
  sf_InputYAML : string;
  sf_Profiles : list profileSnapshot;
}.

Class ToolEnv (W : Type) := {
  ReadFile : W → string → Result string;
  WriteFile : W → string → string → W * option error;
  MkdirAll : W → string → W * option error;
  unmarshalYAML : string → Result (list HardwareProfile);
  marshalYAML : list HardwareProfile → Result string;
  marshalProfiles : list HardwareProfile → Result string;
  marshalSnapshot : snapshotFile → Result string;
  ParseRequestURI : string → option error;
  (** [url.Parse]: host name and path *)
  urlParse : string → Result (string * string);
  (** [http.NewRequest], and [client.Do] with what [io.ReadAll] gives for the body *)
  newRequest : string → option error;
  clientDo : W → string → W * Result response;
  sha256Hex : string → string;
  filepathJoin : string → string → string;
  filepathClean : string → string;
  toolNow : W → Time;
}.

Section tool.
Context {W : Type} `{ToolEnv W}.

Definition checkProfile (seen : gset string) (i : nat) (p : HardwareProfile) : option error :=
  let key := ToLower (TrimSpace (hp_Name p)) in
  let at_ msg := Some (Errorf ("profile[" +:+ pretty i +:+ "]: " +:+ msg)) in
  let bad msg := Some (Errorf ("profile[" +:+ pretty i +:+ "] " +:+ Quote key +:+ ": " +:+ msg)) in
  if decide (key = "") then at_ "name is required"
  else if decide (key ∈ seen) then at_ ("duplicate name " +:+ Quote key)
  else if hp_MemoryMiB p <=? 0 then bad "memoryMiB must be > 0"
  else if (hp_MemBandwidthGBps p <=? fzero)%F then bad "memBandwidthGBps must be > 0"
  else if decide (TrimSpace (hp_Notes p) = "") then bad "notes is required"
  else if decide (TrimSpace (hp_SourceURL p) = "") then bad "source_url is required"
  else match range_error (λ j u, if decide (TrimSpace u = "")
                                 then bad ("source_urls[" +:+ pretty j +:+ "] is empty")
                                 else None) 0 (hp_SourceURLs p) with
       | Some e => Some e
       | None =>
           match ParseRequestURI (TrimSpace (hp_SourceURL p)) with
           | Some e => Some (Wrapf ("profile[" +:+ pretty i +:+ "] " +:+ Quote key
                                    +:+ ": source_url is invalid") e)
           | None => None
           end
       end.

(** The loop: the profiles in their canonical form. *)
Fixpoint validateFrom (seen : gset string) (i : nat) (profiles : list HardwareProfile)
    : Result (list HardwareProfile) :=
  match profiles with
  | [] => Ok []
  | p :: profiles =>
      match checkProfile seen i p with
      | Some e => Err e
      | None =>
          match validateFrom ({[ToLower (TrimSpace (hp_Name p))]} ∪ seen) (S i) profiles with
          | Err e => Err e
          | Ok l => Ok (canonicalProfile p :: l)
          end
      end
  end.

Definition validateProfiles (profiles : list HardwareProfile) : Result (list HardwareProfile) :=
  match profiles with
  | [] => Err (Errorf "no profiles found in YAML")
  | _ => validateFrom ∅ 0 profiles
  end.

Definition loadProfiles (w : W) (path : string) : Result (list HardwareProfile) :=
  match ReadFile w path with
  | Err e => Err (Wrapf "read input yaml" e)
  | Ok b => match unmarshalYAML b with
            | Err e => Err (Wrapf "unmarshal yaml" e)
            | Ok profiles => Ok profiles
            end
  end.

(** ** Fetching the sources *)

(** The complement of the class of the pattern [[^a-z0-9._-]+], and the runs it replaces. *)
Definition token_char (c : Ascii.ascii) : bool :=
  let n := Ascii.nat_of_ascii c in
  (((97 <=? n) && (n <=? 122)) || ((48 <=? n) && (n <=? 57)) || (n =? 46) || (n =? 95)
   || (n =? 45))%nat.
Definition underscore : Ascii.ascii := Ascii.ascii_of_nat 95.

(** [inRun] when the byte before was replaced too. *)
Fixpoint replaceRuns (inRun : bool) (l : list Ascii.ascii) : list Ascii.ascii :=
  match l with
  | [] => []
  | c :: l =>
      if token_char c then c :: replaceRuns false l
      else if inRun then replaceRuns true l
      else underscore :: replaceRuns true l
  end.

(** [strings.ReplaceAll] of one byte by another. *)
Definition replaceByte (from to : Ascii.ascii) (s : string) : string :=
  of_bytes ((λ c, if decide (c = from) then to else c) <$> bytes s).

Definition trim_token (c : Ascii.ascii) : bool :=
  let n := Ascii.nat_of_ascii c in ((n =? 46) || (n =? 95) || (n =? 45))%nat.

Definition sanitizeToken (s : string) : string :=
  let s := ToLower (TrimSpace s) in
  let s := replaceByte (Ascii.ascii_of_nat 32) underscore s in
  let l := trim_list trim_token (replaceRuns false (bytes s)) in
  if decide (l = []) then "unknown" else of_bytes l.

(** [%02d] of an index *)
Definition twoDigits (n : nat) : string := if (n <? 10)%nat then "0" +:+ pretty n else pretty n.

(** [None] is the panic on a URL that does not parse. *)
Definition buildSourceFilename (profileName : string) (sourceIndex : nat) (rawURL contentType : string)
    : option string :=
  match urlParse rawURL with
  | Err _ => None
  | Ok (host, path) =>
      let host := replaceByte (Ascii.ascii_of_nat 46) underscore host in
      let pathPart := replaceByte (Ascii.ascii_of_nat 47) underscore
        (of_bytes (trim_list (λ c, bool_decide (c = slash)) (bytes path))) in
      let pathPart := if decide (pathPart = "") then "root" else pathPart in
      let ext := if Contains (ToLower contentType) "application/pdf" then ".pdf" else ".html" in
      Some (sanitizeToken profileName +:+ "-" +:+ twoDigits sourceIndex +:+ "-" +:+ sanitizeToken host
            +:+ "-" +:+ sanitizeToken pathPart +:+ ext)
  end.

(** The first match of [(?is)<title[^>]*>(.*?)</title>]: what follows the first [sub], compared without
    case, and what precedes it. *)
Fixpoint cutFold (sub : string) (s : string) : option (string * string) :=
  if HasPrefix (ToLower s) sub then Some ("", of_bytes (drop (String.length sub) (bytes s)))
  else match s with
       | EmptyString => None
       | String c s' => '(before, after) ← cutFold sub s'; Some (String c before, after)
       end.

(** [\s+] replaced by one space *)
Definition regexp_space (c : Ascii.ascii) : bool :=
  let n := Ascii.nat_of_ascii c in
  ((n =? 9) || (n =? 10) || (n =? 12) || (n =? 13) || (n =? 32))%nat.
Fixpoint collapseSpaces (inRun : bool) (l : list Ascii.ascii) : list Ascii.ascii :=
  match l with
  | [] => []
  | c :: l =>
      if regexp_space c
      then if inRun then collapseSpaces true l else Ascii.ascii_of_nat 32 :: collapseSpaces true l
      else c :: collapseSpaces false l
  end.

Definition extractTitle (content : string) : string :=
  match '(_, rest) ← cutFold "<title" content;
        '(_, rest) ← cutFold ">" rest;
        cutFold "</title>" rest with
  | None => ""
  | Some (title, _) => of_bytes (collapseSpaces false (bytes (TrimSpace title)))
  end.

Definition fetchAndStoreSource (profileName : string) (sourceIndex : nat) (rawURL sourcesDirPath : string)
    (w : W) : option (W * Result sourceSnapshot) :=
  match newRequest rawURL with
  | Some e => Some (w, Err (Wrapf ("create request for " +:+ Quote rawURL) e))
  | None =>
  match clientDo w rawURL with
  | (w, Err e) => Some (w, Err (Wrapf ("fetch " +:+ Quote rawURL) e))
  | (w, Ok resp) =>
  match rs_Body resp with
  | Err e => Some (w, Err (Wrapf ("read response body for " +:+ Quote rawURL) e))
  | Ok body =>
      filename ← buildSourceFilename profileName sourceIndex rawURL (rs_ContentType resp);
      let absolutePath := filepathJoin sourcesDirPath filename in
      match WriteFile w absolutePath body with
      | (w, Some e) => Some (w, Err (Wrapf ("write source file " +:+ Quote absolutePath) e))
      | (w, None) =>
          Some (w, Ok {| ss_URL := rawURL; ss_StatusCode := rs_StatusCode resp;
                         ss_ContentType := rs_ContentType resp;
                         ss_ContentBytes := Z.of_nat (String.length body);
                         ss_SHA256 := sha256Hex body; ss_Title := extractTitle body;
                         ss_SavedPath := absolutePath; ss_FetchedAt := toolNow w |})
      end
  end end end.

Fixpoint fetchSources (profileName sourcesDirPath : string) (idx : nat) (urls : list string) (w : W)
    : option (W * Result (list sourceSnapshot)) :=
  match urls with
  | [] => Some (w, Ok [])
  | u :: urls =>
      '(w, res) ← fetchAndStoreSource profileName idx u sourcesDirPath w;
      match res with
      | Err e => Some (w, Err e)
      | Ok ss =>
          '(w, res) ← fetchSources profileName sourcesDirPath (S idx) urls w;
          Some (w, match res with Err e => Err e | Ok l => Ok (ss :: l) end)
      end
  end.

(** The snapshots of the profiles, with the URLs deduplicated. *)
Fixpoint snapshotProfiles (sourcesDirPath : string) (profiles : list HardwareProfile) (w : W)
    : option (W * Result (list profileSnapshot)) :=
  match profiles with
  | [] => Some (w, Ok [])
  | p :: profiles =>
      '(w, res) ← fetchSources (hp_Name p) sourcesDirPath 0 (dedupeSourceURLs p) w;
      match res with
      | Err e => Some (w, Err e)
      | Ok sources =>
          '(w, res) ← snapshotProfiles sourcesDirPath profiles w;
          Some (w, match res with
                   | Err e => Err e
                   | Ok l => Ok ({| pn_Name := hp_Name p; pn_MemoryMiB := hp_MemoryMiB p;
                                    pn_MemBandwidthGBps := hp_MemBandwidthGBps p;
                                    pn_PeakTFLOPSBF16 := hp_PeakTFLOPSBF16 p;
                                    pn_InterconnectGBps := hp_InterconnectGBps p;
                                    pn_SourceURL := hp_SourceURL p;
                                    pn_SourceURLs := dedupeSourceURLs p;
                                    pn_Sources := sources |} :: l)
                   end)
      end
  end.

(** The flags. *)
Record toolFlags := {
  tf_in : string;
  tf_out : string;
  tf_check : bool;
  tf_fetchSources : bool;
  tf_snapshotOut : string;
  tf_sourcesDir : string;
  tf_proposedYAML : string;
}.

Definition newline : string := String (Ascii.ascii_of_nat 10) "".

Definition reviewHeader : string :=
  "# Generated by tools/refresh_profiles with --fetch-sources." +:+ newline
  +:+ "# Manual review required before replacing configs/hardware_profiles.yaml." +:+ newline +:+ newline.

Definition buildSourceSnapshot (fl : toolFlags) (profiles : list HardwareProfile) (w : W)
    : option (W * option error) :=
  match MkdirAll w (filepathClean (tf_sourcesDir fl)) with
  | (w, Some e) => Some (w, Some (Wrapf "create sources dir" e))
  | (w, None) =>
      let generatedAt := toolNow w in
      '(w, res) ← snapshotProfiles (tf_sourcesDir fl) profiles w;
      match res with
      | Err e => Some (w, Some e)
      | Ok snapshots =>
      match marshalSnapshot {| sf_GeneratedAt := generatedAt; sf_InputYAML := tf_in fl;
                               sf_Profiles := snapshots |} with
      | Err e => Some (w, Some (Wrapf "marshal snapshot json" e))
      | Ok b =>
      match WriteFile w (tf_snapshotOut fl) (b +:+ newline) with
      | (w, Some e) => Some (w, Some (Wrapf "write snapshot json" e))
      | (w, None) =>
      match marshalYAML profiles with
      | Err e => Some (w, Some (Wrapf "marshal review yaml" e))
      | Ok y =>
      match WriteFile w (tf_proposedYAML fl) (reviewHeader +:+ y) with
      | (w, Some e) => Some (w, Some (Wrapf "write review yaml" e))
      | (w, None) => Some (w, None)
      end end end end end
  end.

(** The last part of [main]: the JSON is compared or written. *)
Definition emitProfiles (fl : toolFlags) (profiles : list HardwareProfile) (w : W) : W * option error :=
  match marshalProfiles profiles with
  | Err e => (w, Some (Wrapf "marshal json" e))
  | Ok out =>
      let out := out +:+ newline in
      if tf_check fl then
        match ReadFile w (tf_out fl) with
        | Err e => (w, Some (Wrapf "read output for check" e))
        | Ok existing =>
            if decide (existing = out) then (w, None)
            else (w, Some (Errorf "hardware profiles out of date; run: make refresh-profiles"))
        end
      else match WriteFile w (tf_out fl) out with
           | (w, Some e) => (w, Some (Wrapf "write output" e))
           | (w, None) => (w, None)
           end
  end.

(** The error it exits with; [None] outside for a panic. *)
Definition toolMain (fl : toolFlags) (w : W) : option (W * option error) :=
  match loadProfiles w (tf_in fl) with
  | Err e => Some (w, Some e)
  | Ok profiles =>
  match validateProfiles profiles with
  | Err e => Some (w, Some e)
  | Ok profiles =>
      if tf_fetchSources fl then
        '(w, err) ← buildSourceSnapshot fl profiles w;
        Some (match err with Some e => (w, Some e) | None => emitProfiles fl profiles w end)
      else Some (emitProfiles fl profiles w)
  end end.
End tool.

(** ** Deduplication *)

#[export] Instance string_order : StrictWeakOrder String.ltb.
Proof.
  assert (∀ s, String.compare s s = Eq) as Hrefl by (induction s as [|c s IH]; cbn; [done|];
    unfold Ascii.compare; by rewrite N.compare_refl).
  assert (∀ s t, String.compare s t = Eq → s = t) as Heq by apply String.compare_eq_iff.
  assert (∀ x y z, String.compare x y = Lt → String.compare y z = Lt → String.compare x z = Lt) as Htrans.
  { induction x as [|c x IH]; intros [|d y] [|e z]; cbn; try done. unfold Ascii.compare.
    destruct (N.compare_spec (Ascii.N_of_ascii c) (Ascii.N_of_ascii d)) as [E1|E1|E1]; try done;
    destruct (N.compare_spec (Ascii.N_of_ascii d) (Ascii.N_of_ascii e)) as [E2|E2|E2]; try done;
    destruct (N.compare_spec (Ascii.N_of_ascii c) (Ascii.N_of_ascii e)) as [E3|E3|E3]; try done; try lia.
    by apply IH. }
  split; unfold String.ltb.
  - intros x. by rewrite Hrefl.
  - intros x y z. destruct (String.compare x y) eqn:E1; try done.
    destruct (String.compare y z) eqn:E2; try done. by rewrite (Htrans x y z).
  - intros x y z. destruct (String.compare x y) eqn:E1; try done;
      destruct (String.compare y z) eqn:E2; try done; intros _ _.
    + apply Heq in E1, E2. subst. by rewrite Hrefl.
    + apply Heq in E1. subst. by rewrite E2.
    + apply Heq in E2. subst. by rewrite E1.
    + rewrite String.compare_antisym in E1, E2 |- *.
      destruct (String.compare y x) eqn:F1; try done. destruct (String.compare z y) eqn:F2; try done.
      by rewrite (Htrans z y x).
Qed.

Lemma ltb_total x y : String.ltb x y = false → String.ltb y x = false → x = y.
Proof.
  unfold String.ltb. rewrite (String.compare_antisym y x).
  destruct (String.compare x y) eqn:E; try done. intros _ _. by apply String.compare_eq_iff.
Qed.

(** Two sorted lists without duplicates and with the same elements are equal. *)
Lemma sorted_strings_unique l k :
  sorted_less String.ltb l → sorted_less String.ltb k → l ≡ₚ k → l = k.
Proof.
  unfold sorted_less. revert k. induction l as [|x l IH]; intros k Hl Hk Hp.
  { by apply Permutation_nil_l in Hp. }
  destruct k as [|y k]; [by apply Permutation_nil_r in Hp|].
  inversion_clear Hl as [|?? Hl' Hx]. inversion_clear Hk as [|?? Hk' Hy].
  assert (x = y) as ->.
  { rewrite Forall_forall in Hx, Hy.
    assert (x ∈ y :: k) as [->|Hxk]%elem_of_cons by (rewrite <- Hp; left); [done|].
    assert (y ∈ x :: l) as [->|Hyl]%elem_of_cons by (rewrite Hp; left); [done|].
    apply ltb_total; [by apply Hy|by apply Hx]. }
  f_equal. apply IH; [done|done|]. by apply Permutation_cons_inv in Hp.
Qed.

Lemma addURL_spec out u :
  NoDup out → NoDup (addURL out u) ∧
  ∀ x, x ∈ addURL out u ↔ x ∈ out ∨ x = TrimSpace u ∧ TrimSpace u ≠ "".
Proof.
  intros Hnd. unfold addURL. destruct (decide (TrimSpace u = "")) as [He|He]; [naive_solver|].
  destruct (decide (TrimSpace u ∈ out)) as [Hin|Hin]; [naive_solver|]. split.
  - apply NoDup_app. split_and!; [done| |apply NoDup_singleton].
    intros x Hx ->%list_elem_of_singleton. done.
  - intros x. rewrite elem_of_app, list_elem_of_singleton. naive_solver.
Qed.

Lemma addURLs_spec l out :
  NoDup out → NoDup (foldl addURL out l) ∧
  ∀ x, x ∈ foldl addURL out l ↔ x ∈ out ∨ ∃ u, u ∈ l ∧ x = TrimSpace u ∧ TrimSpace u ≠ "".
Proof.
  revert out. induction l as [|u l IH]; intros out Hnd; cbn.
  { split; [done|]. intros x. set_solver. }
  destruct (addURL_spec out u Hnd) as [Hnd' Hin]. destruct (IH _ Hnd') as [Hnd'' Hin'].
  split; [done|]. intros x. rewrite Hin', Hin. set_solver.
Qed.

(** The sources of a profile: sorted, without duplicates, blanks or surrounding spaces. *)
Lemma dedupe_spec p :
  sorted_less String.ltb (dedupeSourceURLs p) ∧ NoDup (dedupeSourceURLs p) ∧
  ∀ x, x ∈ dedupeSourceURLs p ↔
    x ≠ "" ∧ (x = TrimSpace (hp_SourceURL p) ∨ ∃ u, u ∈ hp_SourceURLs p ∧ x = TrimSpace u).
Proof.
  unfold dedupeSourceURLs, sortStrings.
  destruct (addURL_spec [] (hp_SourceURL p) ltac:(apply NoDup_nil_2)) as [Hnd Hin].
  destruct (addURLs_spec (hp_SourceURLs p) _ Hnd) as [Hnd' Hin'].
  split_and!; [apply SliceStable_sorted, _|by rewrite SliceStable_perm|].
  intros x. rewrite SliceStable_elem_of, Hin', Hin, elem_of_nil. naive_solver.
Qed.

Lemma dedupe_canonical p : dedupeSourceURLs (canonicalProfile p) = dedupeSourceURLs p.
Proof.
  destruct (dedupe_spec (canonicalProfile p)) as (Hs1 & Hn1 & Hi1), (dedupe_spec p) as (Hs2 & Hn2 & Hi2).
  apply sorted_strings_unique; [done|done|]. apply NoDup_Permutation; [done|done|].
  intros x. rewrite Hi1, Hi2. cbn [canonicalProfile hp_SourceURL hp_SourceURLs]. setoid_rewrite Hi2. split.
  - intros [Hne [->|(u & [Hu [->|(v & Hv & ->)]] & ->)]]; (split; [done|]).
    + by left.
    + left. apply TrimSpace_idemp.
    + right. exists v. by rewrite TrimSpace_idemp.
  - intros [Hne [->|(u & Hu & ->)]]; (split; [done|]); [by left|]. right. exists (TrimSpace u).
    split; [|by rewrite TrimSpace_idemp]. split; [done|]. eauto.
Qed.

Lemma canonical_idemp p : canonicalProfile (canonicalProfile p) = canonicalProfile p.
Proof.
  unfold canonicalProfile at 1. rewrite dedupe_canonical.
  cbn [canonicalProfile hp_Name hp_MemoryMiB hp_MemBandwidthGBps hp_PeakTFLOPSBF16 hp_InterconnectGBps
       hp_Notes hp_SourceURL]. by rewrite TrimSpace_lower_idemp.
Qed.

(** ** From the tool to the simulator *)

Section load.
Context {W : Type} `{ToolEnv W}.

Definition profile_key (p : HardwareProfile) : string := ToLower (TrimSpace (hp_Name p)).

Lemma range_error_None {A} (f : nat → A → option error) i l :
  (∀ j x, x ∈ l → f j x = None) → range_error f i l = None.
Proof.
  revert i. induction l as [|x l IH]; intros i Hf; [done|]. cbn. rewrite Hf by left. apply IH.
  intros j y Hy. apply Hf. by right.
Qed.

(** What a profile passed. *)
Record profile_ok (p : HardwareProfile) : Prop := {
  po_key : profile_key p ≠ "";
  po_memory : 0 < hp_MemoryMiB p;
  po_bandwidth : (hp_MemBandwidthGBps p <=? fzero)%F = false;
  po_notes : TrimSpace (hp_Notes p) ≠ "";
  po_source : TrimSpace (hp_SourceURL p) ≠ "";
  po_uri : ParseRequestURI (TrimSpace (hp_SourceURL p)) = None;
}.

Lemma checkProfile_ok seen i p :
  checkProfile seen i p = None → profile_ok p ∧ profile_key p ∉ seen.
Proof.
  unfold checkProfile. fold (profile_key p). intros Hc.
  repeat match type of Hc with
  | (if decide ?P then _ else _) = None => destruct (decide P); [done|]
  | (if ?b then _ else _) = None => destruct b eqn:?; [done|]
  end.
  destruct (range_error _ _ _); [done|]. destruct (ParseRequestURI _) eqn:?; [done|].
  split; [|done]. split; try done. lia.
Qed.

Lemma checkProfile_canonical seen i p :
  profile_ok p → profile_key p ∉ seen → checkProfile seen i (canonicalProfile p) = None.
Proof.
  intros [] Hs. unfold checkProfile.
  cbn [canonicalProfile hp_Name hp_MemoryMiB hp_MemBandwidthGBps hp_Notes hp_SourceURL hp_SourceURLs].
  rewrite TrimSpace_lower_idemp. fold (profile_key p).
  rewrite decide_False, decide_False by done. destruct (Z.leb_spec (hp_MemoryMiB p) 0); [lia|].
  rewrite po_bandwidth0, decide_False, decide_False by done.
  rewrite range_error_None, po_uri0; [done|]. intros j u Hu. rewrite decide_False; [done|].
  apply dedupe_spec in Hu as [Hne [->|(v & _ & ->)]]; by rewrite TrimSpace_idemp.
Qed.

Lemma loadProfile_canonical out p :
  profile_ok p → out !! profile_key p = None →
  loadProfile out (canonicalProfile p) = Ok (<[profile_key p := canonicalProfile p]> out).
Proof.
  intros [] Hs. unfold loadProfile.
  cbn [canonicalProfile hp_Name hp_MemoryMiB hp_MemBandwidthGBps hp_PeakTFLOPSBF16 hp_InterconnectGBps
       hp_Notes hp_SourceURL hp_SourceURLs].
  rewrite TrimSpace_lower_idemp. fold (profile_key p).
  rewrite decide_False by done. rewrite decide_False by (rewrite Hs; by intros []).
  destruct (Z.leb_spec (hp_MemoryMiB p) 0); [lia|].
  rewrite po_bandwidth0, decide_False, decide_False by done.
  rewrite range_error_None; [done|]. intros j u Hu. rewrite decide_False; [done|].
  apply dedupe_spec in Hu as [Hne [->|(v & _ & ->)]]; by rewrite TrimSpace_idemp.
Qed.

(** The profiles that passed, in their canonical form, are accepted again and by the simulator. *)
Lemma validateFrom_spec seen i profiles out l :
  validateFrom seen i profiles = Ok l → (∀ k, k ∈ seen ↔ is_Some (out !! k)) →
  l = canonicalProfile <$> profiles ∧
  validateFrom seen i l = Ok l ∧
  ∃ m, mustLoadHardwareProfiles out l = Ok m ∧
    ∀ k q, m !! k = Some q ↔ out !! k = Some q ∨ q ∈ l ∧ hp_Name q = k.
Proof.
  revert seen i out l. induction profiles as [|p profiles IH]; intros seen i out l; cbn [validateFrom].
  { intros [= <-] Hseen. split_and!; [done|done|]. exists out. split; [done|]. intros k q. set_solver. }
  destruct (checkProfile seen i p) as [e|] eqn:Hc; [done|].
  destruct (checkProfile_ok _ _ _ Hc) as [Hok Hnew]. fold (profile_key p).
  destruct (validateFrom _ _ _) as [l'|e] eqn:Hv; [|done]. intros [= <-] Hseen.
  assert (out !! profile_key p = None) as Hout by (apply eq_None_not_Some; by rewrite <- Hseen).
  apply IH with (out := <[profile_key p := canonicalProfile p]> out) in Hv as (-> & Hv & m & Hm & Hlook).
  2:{ intros k. rewrite elem_of_union, elem_of_singleton, Hseen.
      destruct (decide (k = profile_key p)) as [->|Hne].
      - rewrite lookup_insert_eq. naive_solver.
      - rewrite lookup_insert_ne by done. naive_solver. }
  split_and!; [done| |].
  - cbn [validateFrom]. rewrite checkProfile_canonical by done.
    assert (ToLower (TrimSpace (hp_Name (canonicalProfile p))) = profile_key p) as ->
      by apply TrimSpace_lower_idemp.
    by rewrite Hv, canonical_idemp.
  - exists m. cbn [mustLoadHardwareProfiles]. rewrite loadProfile_canonical by done.
    split; [done|]. intros k q. rewrite Hlook, elem_of_cons.
    destruct (decide (k = profile_key p)) as [->|Hne].
    + rewrite lookup_insert_eq, Hout. naive_solver.
    + rewrite lookup_insert_ne by done. naive_solver.
Qed.

(** Strings that survive the JSON. *)
Definition ascii_profile (p : HardwareProfile) : Prop :=
  ascii_text (hp_Name p) ∧ ascii_text (hp_Notes p) ∧ ascii_text (hp_SourceURL p) ∧
  Forall ascii_text (hp_SourceURLs p).

Lemma ascii_canonical p : ascii_profile p → ascii_profile (canonicalProfile p).
Proof.
  intros (Hn & Hnotes & Hs & Hu). rewrite Forall_forall in Hu.
  split_and!; [by apply ascii_text_lower, ascii_text_trim|done|done|].
  apply Forall_forall. intros u [_ [->|(v & Hv & ->)]]%dedupe_spec; by apply ascii_text_trim; auto.
Qed.

(** Files that are written can be read, and the decoder of the simulator reads what the tool encodes. *)
Class ToolLaws (unmarshalProfiles : string → Result (list HardwareProfile)) : Prop := {
  written_file : ∀ w path data w', WriteFile w path data = (w', None) → ReadFile w' path = Ok data;
  profile_codec : ∀ l out, Forall ascii_profile l → marshalProfiles l = Ok out →
    unmarshalProfiles (out +:+ newline) = Ok l;
}.

Context {unmarshalProfiles : string → Result (list HardwareProfile)} `{!ToolLaws unmarshalProfiles}.

Definition with_check (fl : toolFlags) : toolFlags :=
  {| tf_in := tf_in fl; tf_out := tf_out fl; tf_check := true; tf_fetchSources := false;
     tf_snapshotOut := tf_snapshotOut fl; tf_sourcesDir := tf_sourcesDir fl;
     tf_proposedYAML := tf_proposedYAML fl |}.

Lemma emit_spec fl profiles w w' :
  tf_check fl = false → emitProfiles fl profiles w = (w', None) →
  ∃ out, marshalProfiles profiles = Ok out ∧ ReadFile w' (tf_out fl) = Ok (out +:+ newline).
Proof.
  unfold emitProfiles. intros ->. destruct (marshalProfiles profiles) as [out|e]; [|done].
  destruct (WriteFile _ _ _) as [w1 [e|]] eqn:Hw; [done|]. intros [= <-]. exists out.
  split; [done|]. by apply written_file in Hw.
Qed.

(** C33: what the tool writes, the simulator loads.  After a successful run the output file decodes to the
    profiles of the YAML file in their canonical form, the initialiser of the simulator accepts that list
    without a panic, and looking up the canonical name of any profile of the YAML file gives that
    profile, and nothing else is there.  The canonical form is a fixed point of the validation, so the
    reviewed YAML that the tool proposes gives the same output; and while the YAML file stays as it is a
    run with [-check] succeeds and changes nothing. *)
Theorem refreshed_profiles_load fl w w' :
  tf_check fl = false → toolMain fl w = Some (w', None) →
  (∀ profiles, loadProfiles w (tf_in fl) = Ok profiles → Forall ascii_profile profiles) →
  ∃ profiles data l m,
    loadProfiles w (tf_in fl) = Ok profiles ∧ l = canonicalProfile <$> profiles ∧
    ReadFile w' (tf_out fl) = Ok data ∧ unmarshalProfiles data = Ok l ∧
    mustLoadHardwareProfiles ∅ l = Ok m ∧
    (∀ k q, m !! k = Some q ↔ ∃ p, p ∈ profiles ∧ profile_key p = k ∧ q = canonicalProfile p) ∧
    validateProfiles l = Ok l ∧
    (ReadFile w' (tf_in fl) = ReadFile w (tf_in fl) → toolMain (with_check fl) w' = Some (w', None)).
Proof.
  intros Hcheck Hmain Hascii. unfold toolMain in Hmain.
  destruct (loadProfiles w (tf_in fl)) as [profiles|e] eqn:Hload; [|done].
  destruct (validateProfiles profiles) as [l|e] eqn:Hval; [|done].
  assert (∃ w1, emitProfiles fl l w1 = (w', None)) as [w1 Hemit].
  { destruct (tf_fetchSources fl); [|injection Hmain as Hmain; by exists w].
    destruct (buildSourceSnapshot fl l w) as [[w1 [e|]]|]; [done| |done].
    injection Hmain as Hmain. by exists w1. }
  destruct (emit_spec fl l w1 w' Hcheck Hemit) as (out & Hout & Hread).
  assert (validateFrom ∅ 0 profiles = Ok l ∧ profiles ≠ []) as [Hfrom Hne]
    by (by destruct profiles).
  apply (validateFrom_spec _ _ _ ∅) in Hfrom as (Hl & Hfix & m & Hm & Hlook).
  2:{ intros k. rewrite lookup_empty. split; [set_solver|by intros []]. }
  assert (validateProfiles l = Ok l) as Hfix' by (rewrite Hl in Hfix |- *; by destruct profiles).
  exists profiles, (out +:+ newline), l, m. split_and!; try done.
  - apply profile_codec; [|done]. rewrite Hl. apply Forall_fmap.
    eapply Forall_impl; [by apply Hascii|]. apply ascii_canonical.
  - intros k q. rewrite Hlook, lookup_empty, Hl, list_elem_of_fmap. naive_solver.
  - intros Hin. unfold toolMain, loadProfiles in *. cbn [tf_in tf_fetchSources with_check].
    rewrite Hin. destruct (ReadFile w (tf_in fl)); [|done]. destruct (unmarshalYAML _); [|done].
    injection Hload as ->. rewrite Hval. unfold emitProfiles. cbn [tf_check with_check tf_out].
    by rewrite Hout, Hread, decide_True.
Qed.
End load.

(** ** Witness *)

Module ToolExample.
Definition profile_fields (p : HardwareProfile) : list positive :=
  [encode (hp_Name p); encode (hp_MemoryMiB p); encode (hp_MemBandwidthGBps p);
   encode (hp_PeakTFLOPSBF16 p); encode (hp_InterconnectGBps p); encode (hp_Notes p);
   encode (hp_SourceURL p); encode (hp_SourceURLs p)].

Definition fields_profile (l : list positive) : option HardwareProfile :=
  match l with
  | [f1; f2; f3; f4; f5; f6; f7; f8] =>
      name ← decode f1; memory ← decode f2; bandwidth ← decode f3; peak ← decode f4;
      interconnect ← decode f5; notes ← decode f6; url ← decode f7; urls ← decode f8;
      Some {| hp_Name := name; hp_MemoryMiB := memory; hp_MemBandwidthGBps := bandwidth;
              hp_PeakTFLOPSBF16 := peak; hp_InterconnectGBps := interconnect; hp_Notes := notes;
              hp_SourceURL := url; hp_SourceURLs := urls |}
  | _ => None
  end.

Lemma profile_fields_round_trip p : fields_profile (profile_fields p) = Some p.
Proof. destruct p. unfold fields_profile, profile_fields. by rewrite !decode_encode. Qed.

Definition encodeList (l : list HardwareProfile) : string :=
  digits_of (positives_flatten ((positives_flatten ∘ profile_fields) <$> l)).
Definition decodeList (data : string) : Result (list HardwareProfile) :=
  match positives_unflatten (of_digits data)
        ≫= mapM (λ q, positives_unflatten q ≫= fields_profile) with
  | Some l => Ok l
  | None => Err (Errorf "invalid")
  end.
(** The last byte is the newline. *)
Definition decodeFile (data : string) : Result (list HardwareProfile) :=
  decodeList (of_bytes (take (String.length data - 1) (bytes data))).

Lemma decode_encode_list l : decodeList (encodeList l) = Ok l.
Proof.
  unfold decodeList, encodeList. rewrite digits_round_trip, positives_unflatten_flatten.
  unfold mbind at 1, option_bind at 1.
  assert (mapM (λ q, positives_unflatten q ≫= fields_profile)
            ((positives_flatten ∘ profile_fields) <$> l) = Some l) as ->; [|done].
  apply mapM_Some. apply Forall2_fmap_l. apply Forall_Forall2_diag, Forall_true. intros p. cbv beta.
  unfold compose. rewrite positives_unflatten_flatten. apply profile_fields_round_trip.
Qed.

Lemma decode_file l : decodeFile (encodeList l +:+ newline) = Ok l.
Proof.
  unfold decodeFile. set (s := encodeList l).
  assert (String.length (s +:+ newline) = S (length (bytes s))) as ->.
  { clear. induction s as [|c s IH]; [done|]. by apply (f_equal S) in IH. }
  rewrite bytes_app. replace (S (length (bytes s)) - 1)%nat with (length (bytes s)) by lia.
  rewrite take_app_length. unfold of_bytes, bytes. rewrite String.string_of_list_ascii_of_string.
  apply decode_encode_list.
Qed.

(** The input: names and addresses not in their canonical form. *)
Definition input : list HardwareProfile :=
  [ {| hp_Name := " H100_SXM"; hp_MemoryMiB := 81920; hp_MemBandwidthGBps := of_int 3350;
       hp_PeakTFLOPSBF16 := Some (of_int 989); hp_InterconnectGBps := None; hp_Notes := "n";
       hp_SourceURL := "http://b "; hp_SourceURLs := ["http://c"; "http://a"; " http://b"] |} ].

(** Files as a map; every URL answers with the same page. *)
#[export] Instance tool_env : ToolEnv (gmap string string) := {|
  ReadFile w path := match w !! path with Some d => Ok d | None => Err (Errorf "no such file") end;
  WriteFile w path data := (<[path := data]> w, None);
  MkdirAll w _ := (w, None);
  unmarshalYAML data := if decide (data = "yaml") then Ok input else decodeList data;
  marshalYAML l := Ok (encodeList l);
  marshalProfiles l := Ok (encodeList l);
  marshalSnapshot _ := Ok "{}";
  ParseRequestURI u := if HasPrefix u "http" then None else Some (Errorf "invalid URI for request");
  urlParse u := Ok (u, "/");
  newRequest _ := None;
  clientDo w _ := (w, Ok {| rs_StatusCode := 200; rs_ContentType := "text/html";
                            rs_Body := Ok "<TITLE>  A  page </title>" |});
  sha256Hex _ := "";
  filepathJoin d f := d +:+ "/" +:+ f;
  filepathClean d := d;
  toolNow _ := 0;
|}.

#[export] Instance tool_laws : ToolLaws decodeFile.
Proof.
  split.
  - intros w path data w' [= <-]. cbn. by rewrite lookup_insert_eq.
  - intros l out _ [= <-]. apply decode_file.
Qed.

Definition flags (fetch : bool) : toolFlags :=
  {| tf_in := "in"; tf_out := "out"; tf_check := false; tf_fetchSources := fetch;
     tf_snapshotOut := "snapshot"; tf_sourcesDir := "sources"; tf_proposedYAML := "review" |}.
Definition files : gmap string string := {["in" := "yaml"]}.
End ToolExample.

Section examples.
Import ToolExample.

Lemma example_ascii profiles :
  loadProfiles files "in" = Ok profiles → Forall ascii_profile profiles.
Proof.
  intros [= <-]. repeat constructor; apply (bool_decide_unpack _); by vm_compute.
Qed.

Lemma refreshed_profiles_load_witness :
  ∃ w' l m, toolMain (flags true) files = Some (w', None) ∧
    mustLoadHardwareProfiles ∅ l = Ok m ∧
    hp_SourceURLs <$> (m !! "h100_sxm") = Some ["http://a"; "http://b"; "http://c"].
Proof.
  assert (option_map snd (toolMain (flags true) files) = Some None) as Hr
    by (vm_compute; reflexivity).
  assert (loadProfiles files "in" = Ok input) as Hi by reflexivity.
  assert (∃ p, p ∈ input ∧ profile_key p = "h100_sxm" ∧
    hp_SourceURLs (canonicalProfile p) = ["http://a"; "http://b"; "http://c"]) as (p & Hin & Hk & Hu).
  { eexists. split; [left|]. by split; vm_compute. }
  destruct (toolMain (flags true) files) as [[w' err]|] eqn:Hm; [|discriminate Hr].
  injection Hr as ->.
  destruct (refreshed_profiles_load (flags true) files w' eq_refl Hm example_ascii)
    as (profiles & data & l & m & Hl & _ & _ & _ & Hload & Hlook & _).
  change (tf_in (flags true)) with "in" in Hl. rewrite Hi in Hl. injection Hl as <-. clear Hm Hi.
  exists w', l, m. split; [reflexivity|]. split; [exact Hload|].
  rewrite (proj2 (Hlook "h100_sxm" (canonicalProfile p))).
  - cbn [fmap option_fmap option_map]. by rewrite Hu.
  - exists p. split; [exact Hin|]. split; [exact Hk|reflexivity].
Defined.

Example title_found : extractTitle "<html><TITLE lang=en>  A
  page </Title>" = "A page".
Proof. by vm_compute. Qed.

Example token_sanitized :
  sanitizeToken " H100 SXM/80!" = "h100_sxm_80" ∧ sanitizeToken "..." = "unknown" ∧
  buildSourceFilename "H100" 3 "www.nvidia.com" "text/html"
    = Some "h100-03-www_nvidia_com-root.html".
Proof. by vm_compute. Qed.
End examples.
