(* ===== verification/Programs.v ===== *)
(** * The configuration of the operator and of the workers (cmd/main.go, cmd/worker-deployment/main.go)
    and the claimable topic between them (internal/controller/claimable_producer.go)

    Both programs read their environment; what they make of it decides whether they meet at the same
    topic and the same simulator. *)

From stdpp Require Import prelude gmap strings pretty.
From S2P Require Import Prelude GoFloat SimModel Runtime Simulator SchedInputs Resources Cluster.
From S2P Require Import Reconciler PoolReconciler SimHttp SchedulerLoop Worker WorkerJobs.

Local Open Scope Z_scope.
Local Open Scope go_scope.

(** ** strconv.Atoi *)

Definition digit_value (c : Ascii.ascii) : option Z :=
  let n := Z.of_nat (Ascii.nat_of_ascii c) in
  if (48 <=? n) && (n <=? 57) then Some (n - 48) else None.

Fixpoint parseDigits (acc : Z) (l : list Ascii.ascii) : option Z :=
  match l with
  | [] => Some acc
  | c :: l => d ← digit_value c; parseDigits (10 * acc + d) l
  end.

(** An optional sign, at least one digit and nothing else, in the range of [int]; [None] for an error. *)
Definition Atoi (s : string) : option Z :=
  let '(neg, l) :=
    match bytes s with
    | c :: l => if decide (c = Ascii.ascii_of_nat 45) then (true, l)
                else if decide (c = Ascii.ascii_of_nat 43) then (false, l) else (false, c :: l)
    | [] => (false, [])
    end in
  if decide (l = []) then None
  else n ← parseDigits 0 l;
       let n := if neg then - n else n in
       if (int64_min <=? n) && (n <=? int64_max) then Some n else None.

(** ** The claimable topic *)

Definition TopicWorkloadClaimable : string := "gpu.workloads.claimable".

Record ClaimableWorkloadMessage := { cm_Namespace : string; cm_Name : string }.

(** The writer: its brokers and its topic. *)
Record KafkaClaimableProducer := { kp_Brokers : list string; kp_Topic : string }.

Definition comma : Ascii.ascii := Ascii.ascii_of_nat 44.

(** [strings.Split(s, ",")] with every part trimmed *)
Definition brokerList (csv : string) : list string :=
  (λ b, TrimSpace (of_bytes b)) <$> split_byte comma (bytes csv).

Definition NewKafkaClaimableProducer (brokersCSV topic : string) : option KafkaClaimableProducer :=
  let brokersCSV := TrimSpace brokersCSV in
  if decide (brokersCSV = "") then None
  else Some {| kp_Brokers := brokerList brokersCSV;
               kp_Topic := if decide (topic = "") then TopicWorkloadClaimable else topic |}.

(** [encoding/json] at the message and the writer; a message is its key and its value. *)
Class ClaimableEnv (K : Type) := {
  marshalClaimable : ClaimableWorkloadMessage → Result string;
  unmarshalClaimable : string → Result ClaimableWorkloadMessage;
  writeClaimable : K → KafkaClaimableProducer → string * string → K * option error;
}.

Section produce.
Context {K : Type} `{ClaimableEnv K}.

Definition Produce (p : option KafkaClaimableProducer) (namespace name : string) (k : K)
    : K * option error :=
  match p with
  | None => (k, None)
  | Some p =>
      match marshalClaimable {| cm_Namespace := namespace; cm_Name := name |} with
      | Err e => (k, Some e)
      | Ok data => writeClaimable k p (namespace +:+ "/" +:+ name, data)
      end
  end.
End produce.

(** What the worker's loop gets for a message of the topic. *)
Definition decodeClaimable {K} `{ClaimableEnv K} (value : string) : Result (string * string) :=
  match unmarshalClaimable value with
  | Err e => Err e
  | Ok m => Ok (cm_Namespace m, cm_Name m)
  end.

(** ** The operator *)

(** What [main] of the operator makes of the environment, beside the servers and the manager. *)
Record operatorSetup := {
  os_SimulatorURL : string;
  os_Reconciler : GPUWorkloadReconciler;
  os_WorkerJobTemplate : WorkerJobTemplate;
  os_Loop : loopConfig;
  os_Producer : option KafkaClaimableProducer;
  os_StrictRemote : bool;
  os_BacklogInterval : Z;
}.

Definition maxAdmissionsPerCycle (getenv : string → string) : Z :=
  let v := TrimSpace (getenv "MAX_ADMISSIONS_PER_CYCLE") in
  if decide (v = "") then 1
  else match Atoi v with
       | Some n => if 1 <=? n then n else 1
       | None => 1
       end.

Definition operatorMain (getenv : string → string) : operatorSetup :=
  let simulatorURL := TrimSpace (getenv "SIMULATOR_URL") in
  let useWorkerPool := bool_decide (ToLower (TrimSpace (getenv "USE_WORKER_POOL")) = "true") in
  let claimableBrokers := TrimSpace (getenv "KAFKA_BROKERS") in
  let claimableTopic := TrimSpace (getenv "CLAIMABLE_TOPIC") in
  let producer := if decide (claimableBrokers = "") then None
                  else NewKafkaClaimableProducer claimableBrokers claimableTopic in
  {| os_SimulatorURL := simulatorURL;
     os_Reconciler := {| rc_RuntimeSimulator := true; rc_Recorder := true;
                         rc_UseWorkerPool := useWorkerPool |};
     os_WorkerJobTemplate := DefaultWorkerJobTemplate;
     os_Loop := {| lc_MaxAdmissionsPerCycle := maxAdmissionsPerCycle getenv; lc_MinCycleInterval := 0;
                   lc_Recorder := true;
                   lc_ClaimableProducer := match producer with Some _ => true | None => false end |};
     os_Producer := producer; os_StrictRemote := true; os_BacklogInterval := 0 |}.

(** ** The worker *)

Inductive discovery :=
| QueueMode (brokers : list string) (topic groupID : string)
| WatchMode
| PollMode.

Record workerSetup := {
  wk_SimClient : HTTPSimClient;
  wk_Config : DeploymentLoopConfig;
  wk_MaxConcurrentWorkloads : Z;
  wk_LogCompletionTimestamps : bool;
  wk_Mode : discovery;
}.

(** [os.Hostname] and [time.ParseDuration] *)
Class WorkerOS := {
  Hostname : string;
  ParseDuration : string → option Z;
}.

(** The value when it is not blank. *)
Definition orDefault (v d : string) : string := if decide (v = "") then d else v.

(** Whether a flag of the environment has one of two spellings. *)
Definition envIs (getenv : string → string) (key a b : string) : bool :=
  let v := ToLower (TrimSpace (getenv key)) in bool_decide (v = a ∨ v = b).

(** [None] is [os.Exit(1)]; the configuration of the cluster is taken to load. *)
Definition workerMain `{WorkerOS} (getenv : string → string) : option workerSetup :=
  let simulatorURL := orDefault (TrimSpace (getenv "SIMULATOR_URL")) "http://simulator:8080" in
  let namespace := orDefault (TrimSpace (getenv "NAMESPACE")) "default" in
  let workerID := orDefault (orDefault (TrimSpace (getenv "WORKER_ID")) Hostname) "worker-unknown" in
  let pollInterval :=
    let v := getenv "POLL_INTERVAL" in
    if decide (v = "") then 5 * Second
    else match ParseDuration v with
         | Some d => if 0 <? d then d else 5 * Second
         | None => 5 * Second
         end in
  let maxConcurrent :=
    let v := getenv "MAX_CONCURRENT_WORKLOADS" in
    if decide (v = "") then 1
    else match Atoi v with Some n => if 0 <? n then n else 1 | None => 1 end in
  let useQueue := envIs getenv "USE_QUEUE" "true" "1" in
  let useWatch := negb (envIs getenv "USE_WATCH" "false" "0") in
  let setup mode :=
    {| wk_SimClient := NewSimClient simulatorURL;
       wk_Config := {| dl_Namespace := namespace; dl_WorkerID := workerID;
                       dl_PollInterval := pollInterval |};
       wk_MaxConcurrentWorkloads := maxConcurrent;
       wk_LogCompletionTimestamps := envIs getenv "LOG_COMPLETION_TIMESTAMPS" "true" "1";
       wk_Mode := mode |} in
  if useQueue then
    let brokers := TrimSpace (getenv "KAFKA_BROKERS") in
    if decide (brokers = "") then None
    else Some (setup (QueueMode (brokerList brokers)
                        (orDefault (TrimSpace (getenv "CLAIMABLE_TOPIC")) TopicWorkloadClaimable)
                        "gpu-scheduler-worker"))
  else if useWatch then Some (setup WatchMode)
  else Some (setup PollMode).

(** ** What they agree on *)

Lemma digit_of_char d : (d < 10)%N → digit_value (pretty_N_char d) = Some (Z.of_N d).
Proof.
  intros Hd. assert (d = 0 ∨ d = 1 ∨ d = 2 ∨ d = 3 ∨ d = 4 ∨ d = 5 ∨ d = 6 ∨ d = 7 ∨ d = 8 ∨ d = 9)%N
    as Hcases by lia.
  by repeat destruct Hcases as [->|Hcases]; subst.
Qed.

Lemma parseDigits_go x s : parseDigits 0 (bytes (pretty_N_go x s)) = parseDigits (Z.of_N x) (bytes s).
Proof.
  revert s. induction (N.lt_wf_0 x) as [x _ IH]; intros s.
  destruct (decide (x = 0%N)) as [->|Hne]; [by rewrite pretty_N_go_0|].
  rewrite pretty_N_go_step by lia. rewrite IH by (apply N.div_lt; lia).
  change (bytes (String ?c s)) with (c :: bytes s). cbn [parseDigits].
  rewrite digit_of_char by (by apply N.mod_lt). cbn [mbind option_bind]. f_equal.
  pose proof (N.div_mod x 10 ltac:(lia)). lia.
Qed.

(** A printed number that is not negative is read back. *)
Lemma Atoi_pretty n : 0 ≤ n ≤ int64_max → Atoi (pretty n) = Some n.
Proof.
  intros Hn. assert (pretty n = pretty (Z.to_N n)) as ->.
  { destruct n as [|p|p]; [done|done|lia]. }
  assert (parseDigits 0 (bytes (pretty (Z.to_N n))) = Some n) as Hparse.
  { unfold pretty, pretty_N. case_decide as Hz.
    - assert (n = 0) as -> by lia. done.
    - rewrite parseDigits_go. cbn. f_equal. lia. }
  assert (∀ c, c ∈ bytes (pretty (Z.to_N n)) → c ≠ Ascii.ascii_of_nat 45 ∧ c ≠ Ascii.ascii_of_nat 43)
    as Hsign.
  { intros c (d & Hd & ->)%pretty_N_bytes.
    assert (d = 0 ∨ d = 1 ∨ d = 2 ∨ d = 3 ∨ d = 4 ∨ d = 5 ∨ d = 6 ∨ d = 7 ∨ d = 8 ∨ d = 9)%N by lia.
    naive_solver. }
  unfold Atoi. destruct (bytes (pretty (Z.to_N n))) as [|c l] eqn:E.
  - exfalso. revert E. unfold pretty, pretty_N. case_decide; [done|]. intros E.
    pose proof (parseDigits_go (Z.to_N n) "") as Hp. rewrite E in Hp. cbn in Hp. injection Hp. lia.
  - destruct (Hsign c) as [H1 H2]; [left|]. rewrite !decide_False by done.
    rewrite Hparse. cbn [mbind option_bind].
    assert ((int64_min <=? n) && (n <=? int64_max) = true) as ->; [|done].
    apply andb_true_iff. unfold int64_min. lia.
Qed.

Lemma Atoi_range s n : Atoi s = Some n → in_int64 n.
Proof.
  unfold Atoi. destruct (match bytes s with [] => _ | _ => _ end) as [neg l].
  destruct (decide (l = [])); [done|]. destruct (parseDigits 0 l) as [m|]; [|done].
  cbn. set (k := if neg then - m else m).
  destruct ((int64_min <=? k) && (k <=? int64_max)) eqn:E; [|done]. intros [= <-].
  apply andb_true_iff in E. unfold in_int64. lia.
Qed.

(** The operator admits at least one workload per cycle whatever its environment says, and a number
    that an [int] holds; a positive number, spaces around it allowed, is taken as it is. *)
Theorem admission_limit_bounds getenv :
  1 ≤ maxAdmissionsPerCycle getenv ≤ int64_max ∧
  ∀ n, 1 ≤ n ≤ int64_max → TrimSpace (getenv "MAX_ADMISSIONS_PER_CYCLE") = pretty n →
    maxAdmissionsPerCycle getenv = n.
Proof.
  unfold maxAdmissionsPerCycle. split.
  - destruct (decide _) as [|_]; [unfold int64_max; lia|].
    destruct (Atoi _) as [n|] eqn:Ha; [|unfold int64_max; lia]. apply Atoi_range in Ha as [_ Hn].
    destruct (Z.leb_spec 1 n); [done|unfold int64_max; lia].
  - intros n Hn ->. rewrite decide_False.
    + rewrite Atoi_pretty by lia. by destruct (Z.leb_spec 1 n); [|lia].
    + intros E. assert (Atoi "" = Some n) as Hx by (rewrite <- E; apply Atoi_pretty; lia).
      vm_compute in Hx. done.
Qed.

(** The messages survive the encoding. *)
Class ClaimableLaws (K : Type) `{ClaimableEnv K} : Prop := {
  claimable_codec : ∀ m data, ascii_text (cm_Namespace m) → ascii_text (cm_Name m) →
    marshalClaimable m = Ok data → unmarshalClaimable data = Ok m;
}.

(** C36: an operator and a worker with the same brokers, topic and simulator in their environments meet,
    up to spaces, when brokers and simulator (SIMULATOR_URL) are not blank and the worker is told to use
    the queue: the worker reads the topic that the scheduler loop writes, at the same brokers, and
    runs its workloads on the simulator at which the operator registers the fleet.  Every message that
    is written for a workload decodes to that workload. *)
Theorem programs_meet {K} `{ClaimableLaws K, WorkerOS} {Http} (local : option Simulator) (http : Http)
    (getenv getenv' : string → string) :
  (∀ key, key ∈ ["KAFKA_BROKERS"; "CLAIMABLE_TOPIC"; "SIMULATOR_URL"] →
     TrimSpace (getenv' key) = TrimSpace (getenv key)) →
  TrimSpace (getenv "KAFKA_BROKERS") ≠ "" → TrimSpace (getenv "SIMULATOR_URL") ≠ "" →
  envIs getenv' "USE_QUEUE" "true" "1" = true →
  let setup := operatorMain getenv in
  ∃ p wk,
    os_Producer setup = Some p ∧ lc_ClaimableProducer (os_Loop setup) = true ∧
    workerMain getenv' = Some wk ∧
    wk_Mode wk = QueueMode (kp_Brokers p) (kp_Topic p) "gpu-scheduler-worker" ∧
    hc_BaseURL (wk_SimClient wk)
      = mf_RemoteBase (NewMultiFleetRegistrar local (os_SimulatorURL setup) (os_StrictRemote setup) http) ∧
    ∀ namespace name (k k' : K), ascii_text namespace → ascii_text name →
      Produce (os_Producer setup) namespace name k = (k', None) →
      ∃ data, writeClaimable k p (namespace +:+ "/" +:+ name, data) = (k', None) ∧
        decodeClaimable data = Ok (namespace, name).
Proof.
  intros Hsame Hb Hsim Hq setup.
  assert (TrimSpace (getenv' "KAFKA_BROKERS") = TrimSpace (getenv "KAFKA_BROKERS")) as Eb
    by (apply Hsame; set_solver).
  assert (TrimSpace (getenv' "CLAIMABLE_TOPIC") = TrimSpace (getenv "CLAIMABLE_TOPIC")) as Et
    by (apply Hsame; set_solver).
  assert (TrimSpace (getenv' "SIMULATOR_URL") = TrimSpace (getenv "SIMULATOR_URL")) as Es
    by (apply Hsame; set_solver).
  assert (os_Producer setup = Some {| kp_Brokers := brokerList (TrimSpace (getenv "KAFKA_BROKERS"));
    kp_Topic := orDefault (TrimSpace (getenv "CLAIMABLE_TOPIC")) TopicWorkloadClaimable |}) as Hp.
  { unfold setup, operatorMain. cbn [os_Producer]. rewrite decide_False by done.
    unfold NewKafkaClaimableProducer. by rewrite TrimSpace_idemp, decide_False. }
  eexists _, _. split; [exact Hp|]. split_and!.
  - revert Hp. unfold setup, operatorMain. cbn [os_Producer os_Loop lc_ClaimableProducer]. by intros ->.
  - unfold workerMain. rewrite Hq, Eb, decide_False by done. done.
  - cbn [wk_Mode kp_Brokers kp_Topic]. by rewrite Et.
  - cbn [wk_SimClient NewSimClient hc_BaseURL NewMultiFleetRegistrar mf_RemoteBase].
    unfold setup, operatorMain. cbn [os_SimulatorURL]. unfold orDefault. by rewrite Es, decide_False.
  - intros namespace name k k' Hns Hname. rewrite Hp. unfold Produce.
    destruct (marshalClaimable _) as [data|e] eqn:Hm; [|done]. intros Hw. exists data. split; [done|].
    unfold decodeClaimable.
    by rewrite (claimable_codec {| cm_Namespace := namespace; cm_Name := name |} data Hns Hname Hm).
Qed.

(** ** Witnesses *)

Module ProgramsExample.
(** A byte that no name holds separates the two here. *)
Definition sep : Ascii.ascii := Ascii.ascii_of_nat 0.
#[export] Instance kafka : ClaimableEnv (list (string * string)) := {|
  marshalClaimable m :=
    if decide (sep ∈ bytes (cm_Namespace m)) then Err (Errorf "invalid")
    else Ok (cm_Namespace m +:+ String sep (cm_Name m));
  unmarshalClaimable data :=
    match Cut data sep with
    | Some (namespace, name) => Ok {| cm_Namespace := namespace; cm_Name := name |}
    | None => Err (Errorf "invalid")
    end;
  writeClaimable k _ m := (k ++ [m], None);
|}.

#[export] Instance os : WorkerOS := {| Hostname := "pod-1"; ParseDuration _ := None |}.

Definition environment (key : string) : string :=
  if decide (key = "KAFKA_BROKERS") then " a:9092, b:9092 "
  else if decide (key = "SIMULATOR_URL") then "http://sim/"
  else if decide (key = "USE_QUEUE") then " True"
  else if decide (key = "MAX_ADMISSIONS_PER_CYCLE") then "12 "
  else "".
End ProgramsExample.

Section examples.
Import ProgramsExample.

Lemma cut_joined c s t : c ∉ bytes s → Cut (s +:+ String c t) c = Some (s, t).
Proof.
  induction s as [|d s IH]; intros Hs.
  - change (Cut (String c t) c = Some ("", t)). cbn [Cut]. by rewrite Ascii.eqb_refl.
  - change (Cut (String d (s +:+ String c t)) c = Some (String d s, t)). cbn [Cut].
    apply not_elem_of_cons in Hs as [Hc Hs]. rewrite IH by done.
    by destruct (Ascii.eqb_spec d c) as [->|_].
Qed.

#[local] Instance kafka_laws : ClaimableLaws (list (string * string)).
Proof.
  split. intros [namespace name] data _ _. cbn. case_decide as Hs; [done|]. intros [= <-].
  by rewrite cut_joined.
Qed.

Lemma admission_limit_bounds_witness : maxAdmissionsPerCycle environment = 12.
Proof.
  apply (proj2 (admission_limit_bounds environment) 12); [unfold int64_max; lia|by vm_compute].
Defined.

Lemma programs_meet_witness :
  ∃ p wk, os_Producer (operatorMain environment) = Some p ∧ workerMain environment = Some wk ∧
    kp_Brokers p = ["a:9092"; "b:9092"] ∧ kp_Topic p = "gpu.workloads.claimable" ∧
    hc_BaseURL (wk_SimClient wk) = "http://sim" ∧
    (Produce (K := list (string * string)) (Some p) "ns" "w" []).2 = None.
Proof.
  destruct (programs_meet (K := list (string * string)) None () environment environment)
    as (p & wk & Hp & _ & Hw & _ & Hbase & _); [done|by vm_compute|by vm_compute|by vm_compute|].
  exists p, wk. rewrite Hbase. split_and!; [done|done|..]; try (by vm_compute);
    vm_compute in Hp; by injection Hp as <-.
Defined.
End examples.
