(* ===== verification/Metrics.v ===== *)
(** * The Prometheus collectors and their registration (internal/metrics/operator.go,
    internal/metrics/backlog.go, internal/sim/metrics.go, internal/worker/metrics.go,
    internal/submitter/metrics.go)

    Every program registers collectors when it starts: packages in their [init] functions, [main] with
    [RegisterMetrics].  [MustRegister] panics when a collector is refused, which would end the program
    before it does anything.  The client library of Prometheus is a parameter, with its documented
    behaviour as laws. *)

From stdpp Require Import prelude gmap strings.
From Stdlib Require Import QArith.
From S2P Require Import Prelude.

Local Open Scope Z_scope.
Local Open Scope go_scope.

(** ** Collectors *)

Record Opts := { o_Namespace : string; o_Name : string; o_Help : string }.

Inductive buckets :=
| ExponentialBuckets (start factor : Q) (count : Z)
| Buckets (l : list Q).

(** The constructors of the library the packages call, with their arguments. *)
Inductive collector :=
| NewCounter (o : Opts)
| NewCounterVec (o : Opts) (labels : list string)
| NewGauge (o : Opts)
| NewGaugeVec (o : Opts) (labels : list string)
| NewHistogram (o : Opts) (b : buckets)
| NewHistogramVec (o : Opts) (b : buckets) (labels : list string).

Definition opts_of (c : collector) : Opts :=
  match c with
  | NewCounter o | NewCounterVec o _ | NewGauge o | NewGaugeVec o _
  | NewHistogram o _ | NewHistogramVec o _ _ => o
  end.

Definition labels_of (c : collector) : list string :=
  match c with
  | NewCounterVec _ l | NewGaugeVec _ l | NewHistogramVec _ _ l => l
  | _ => []
  end.

Definition buckets_of (c : collector) : option buckets :=
  match c with NewHistogram _ b | NewHistogramVec _ b _ => Some b | _ => None end.

(** *** internal/metrics *)

Module OperatorMetrics.
Local Open Scope Q_scope.
Definition ScheduledWorkloadsGauge : collector :=
  NewGauge
    {| o_Namespace := ""; o_Name := "gpu_scheduler_scheduled_workloads";
      o_Help := "Number of GPUWorkload CRs in Phase=Scheduled (backlog for worker pool scaling)" |}.
Definition QueuedWorkloadsGauge : collector :=
  NewGauge
    {| o_Namespace := "gpu_scheduler"; o_Name := "queued_workloads";
      o_Help := "Number of GPUWorkload CRs in Phase=Queued" |}.
Definition QueueWaitTimeHistogram : collector :=
  NewHistogram
    {| o_Namespace := "gpu_scheduler"; o_Name := "queue_wait_seconds";
      o_Help := "Time from workload Queued to Scheduled (admission latency) in seconds" |}
    (ExponentialBuckets (1 # 10) 2 14).
Definition UtilizationRatioGauge : collector :=
  NewGauge
    {| o_Namespace := "gpu_scheduler"; o_Name := "utilization_ratio";
      o_Help := "Ratio of allocated devices to total devices across all GPUNodePools (0 to 1)" |}.
Definition PreemptionsCounter : collector :=
  NewCounter
    {| o_Namespace := "gpu_scheduler"; o_Name := "preemptions_total";
      o_Help := "Total number of workloads preempted to make capacity" |}.
Definition ScheduleDecisionsCounter : collector :=
  NewCounterVec
    {| o_Namespace := "gpu_scheduler"; o_Name := "schedule_decisions_total";
      o_Help := "Total schedule decisions by result (admitted, no_candidate, error_preempt, error_patch)" |}
    ["result"].
Definition ScheduleDecisionsByKindCounter : collector :=
  NewCounterVec
    {| o_Namespace := "gpu_scheduler"; o_Name := "schedule_decisions_by_kind_total";
      o_Help := "Total admissions by workload kind (training, inference, etc.)" |}
    ["kind"].
Definition WorkloadCompletionsCounter : collector :=
  NewCounter
    {| o_Namespace := "gpu_scheduler"; o_Name := "workload_completions_total";
      o_Help := "Total number of GPUWorkloads that completed successfully (Phase=Succeeded)" |}.
Definition E2ELatencySeconds : collector :=
  NewHistogram
    {| o_Namespace := "gpu_scheduler"; o_Name := "e2e_latency_seconds";
      o_Help := "Time from GPUWorkload creation (submit) to Phase=Succeeded in seconds" |}
    (ExponentialBuckets 1 2 16).
Definition QueuedByTenantGauge : collector :=
  NewGaugeVec
    {| o_Namespace := "gpu_scheduler"; o_Name := "queued_workloads_by_tenant";
      o_Help := "Number of GPUWorkloads in Phase=Queued per tenant" |}
    ["tenant"].
Definition AdmissionsByTenantCounter : collector :=
  NewCounterVec
    {| o_Namespace := "gpu_scheduler"; o_Name := "admissions_by_tenant_total";
      o_Help := "Total number of workloads admitted per tenant" |}
    ["tenant"].
Definition QuotaDeniedCounter : collector :=
  NewCounter
    {| o_Namespace := "gpu_scheduler"; o_Name := "quota_denied_total";
      o_Help := "Total number of scheduling cycles where no workload was admitted due to tenant quota" |}.
Definition AdmissionsPerCycleHistogram : collector :=
  NewHistogram
    {| o_Namespace := "gpu_scheduler"; o_Name := "admissions_per_cycle";
      o_Help := "Number of workloads admitted in one scheduling cycle" |}
    (Buckets [0; 1; 2; 3; 5; 10; 20; 50]).
Definition SchedulingCyclesCounter : collector :=
  NewCounter
    {| o_Namespace := "gpu_scheduler"; o_Name := "scheduling_cycles_total";
      o_Help := "Total number of scheduling cycles executed" |}.
Definition StatusConflict409Counter : collector :=
  NewCounter
    {| o_Namespace := "gpu_scheduler"; o_Name := "status_conflict_409_total";
      o_Help := "Total number of status update conflicts (HTTP 409) when patching workloads" |}.
Definition EventsEmittedTotal : collector :=
  NewCounterVec
    {| o_Namespace := "gpu_scheduler"; o_Name := "events_emitted_total";
      o_Help := "Total Kubernetes Events emitted by the operator by reason" |}
    ["reason"].

(** The [init] functions of backlog.go and operator.go. *)
Definition backlogCollectors : list collector := [ScheduledWorkloadsGauge].
Definition initCollectors : list collector :=
  [QueuedWorkloadsGauge; QueueWaitTimeHistogram; UtilizationRatioGauge; PreemptionsCounter;
   ScheduleDecisionsCounter; ScheduleDecisionsByKindCounter; WorkloadCompletionsCounter;
   E2ELatencySeconds; QueuedByTenantGauge; AdmissionsByTenantCounter; QuotaDeniedCounter;
   AdmissionsPerCycleHistogram; SchedulingCyclesCounter; StatusConflict409Counter;
   EventsEmittedTotal].
End OperatorMetrics.

(** *** internal/sim *)

Module SimulatorMetrics.
Local Open Scope Q_scope.
Definition DevicesTotalGauge : collector :=
  NewGauge
    {| o_Namespace := "sim"; o_Name := "devices_total";
      o_Help := "Total number of simulated GPU devices across all registered pools" |}.
Definition DevicesAllocatedGauge : collector :=
  NewGauge
    {| o_Namespace := "sim"; o_Name := "devices_allocated";
      o_Help := "Number of simulated GPU devices currently allocated to workloads" |}.
Definition RunDurationSeconds : collector :=
  NewHistogramVec
    {| o_Namespace := "sim"; o_Name := "run_duration_seconds";
      o_Help := "Simulated run duration in seconds (from Start to Succeeded/Preempted/Failed)" |}
    (ExponentialBuckets (1 # 10) 2 16) ["kind"].
Definition AllocationFailuresTotal : collector :=
  NewCounter
    {| o_Namespace := "sim"; o_Name := "allocation_failures_total";
      o_Help := "Total number of Allocate requests that failed (no capacity, duplicate, invalid, etc.)" |}.

Definition initCollectors : list collector :=
  [DevicesTotalGauge; DevicesAllocatedGauge; RunDurationSeconds; AllocationFailuresTotal].
End SimulatorMetrics.

(** *** internal/worker *)

Module WorkerMetrics.
Local Open Scope Q_scope.
Definition WorkloadsClaimedTotal : collector :=
  NewCounterVec
    {| o_Namespace := "gpu_scheduler_worker"; o_Name := "workloads_claimed_total";
      o_Help := "Total number of GPUWorkloads successfully claimed by this worker" |}
    ["worker_id"].
Definition RunsStartedTotal : collector :=
  NewCounterVec
    {| o_Namespace := "gpu_scheduler_worker"; o_Name := "runs_started_total";
      o_Help := "Total number of simulator runs started by this worker" |}
    ["worker_id"].
Definition RunsCompletedTotal : collector :=
  NewCounterVec
    {| o_Namespace := "gpu_scheduler_worker"; o_Name := "runs_completed_total";
      o_Help := "Total number of simulator runs completed by this worker" |}
    ["worker_id"; "outcome"].
Definition RunDurationSeconds : collector :=
  NewHistogramVec
    {| o_Namespace := "gpu_scheduler_worker"; o_Name := "run_duration_seconds";
      o_Help := "Time from Start() success to run completion (Succeeded/Failed/Preempted)" |}
    (ExponentialBuckets (1 # 10) 2 16) ["worker_id"; "outcome"].
Definition ErrorsTotal : collector :=
  NewCounterVec
    {| o_Namespace := "gpu_scheduler_worker"; o_Name := "errors_total";
      o_Help := "Total number of worker errors (allocate, start, or claim failures)" |}
    ["worker_id"; "reason"].

(** [RegisterMetrics] *)
Definition RegisterMetrics : list collector :=
  [WorkloadsClaimedTotal; RunsStartedTotal; RunsCompletedTotal; RunDurationSeconds;
   ErrorsTotal].
End WorkerMetrics.

(** *** internal/submitter *)

Module SubmitterMetrics.
Definition MessagesConsumedTotal : collector :=
  NewCounter
    {| o_Namespace := "gpu_scheduler_submitter"; o_Name := "messages_consumed_total";
      o_Help := "Total number of Kafka workload messages successfully consumed and committed" |}.
Definition WorkloadCreationsTotal : collector :=
  NewCounter
    {| o_Namespace := "gpu_scheduler_submitter"; o_Name := "workload_creations_total";
      o_Help := "Total number of GPUWorkload CRs created (idempotent create; excludes AlreadyExists)" |}.

(** [RegisterMetrics] *)
Definition RegisterMetrics : list collector :=
  [MessagesConsumedTotal; WorkloadCreationsTotal].
End SubmitterMetrics.

(** ** The library *)

(** The names of metrics and of labels Prometheus allows. *)
Definition letter (c : Ascii.ascii) : bool :=
  let n := Z.of_nat (Ascii.nat_of_ascii c) in
  ((97 <=? n) && (n <=? 122)) || ((65 <=? n) && (n <=? 90)) || (n =? 95).
Definition letter_or_digit (c : Ascii.ascii) : bool :=
  let n := Z.of_nat (Ascii.nat_of_ascii c) in letter c || ((48 <=? n) && (n <=? 57)).
Definition valid_name (s : string) : bool :=
  match bytes s with [] => false | c :: l => letter c && forallb letter_or_digit l end.

Definition well_described (c : collector) : bool :=
  forallb valid_name (labels_of c) && bool_decide (NoDup (labels_of c)).

(** Buckets the library accepts: its constructors panic for an empty range, a start that is not
    positive, a factor of one or less, and for bounds that do not increase. *)
Fixpoint increasing (l : list Q) : bool :=
  match l with
  | a :: ((b :: _) as l') => negb (Qle_bool b a) && increasing l'
  | _ => true
  end.
Definition valid_buckets (b : buckets) : bool :=
  match b with
  | ExponentialBuckets start factor count =>
      negb (Qle_bool start 0) && negb (Qle_bool factor 1) && (1 <=? count)
  | Buckets l => increasing l
  end.
Definition constructible (c : collector) : bool :=
  match buckets_of c with Some b => valid_buckets b | None => true end.

(** [BuildFQName] and a registry; the error of [Register] is what [MustRegister] panics with. *)
Class Prometheus (R : Type) := {
  BuildFQName : string → string → string;
  Register : R → collector → R * option error;
}.

Definition fqName {R} `{Prometheus R} (c : collector) : string :=
  BuildFQName (o_Namespace (opts_of c)) (o_Name (opts_of c)).

(** Documented: the components of a name are joined by an underscore and empty ones are ignored; a
    collector is accepted when it is well described and its name is not registered yet, and refused
    when the name is. *)
Class PrometheusLaws (R : Type) `{Prometheus R} := {
  registered : R → gset string;
  fq_ignored : ∀ n, BuildFQName "" n = n;
  fq_joined : ∀ ns n, ns ≠ "" → n ≠ "" → BuildFQName ns n = ns +:+ "_" +:+ n;
  register_new : ∀ r c, valid_name (fqName c) = true → well_described c = true →
    fqName c ∉ registered r →
    ∃ r', Register r c = (r', None) ∧ registered r' = {[fqName c]} ∪ registered r;
  register_again : ∀ r c, fqName c ∈ registered r → ∃ e, Register r c = (r, Some e);
}.

(** ** The programs *)

Section programs.
Context {R : Type} `{Prometheus R}.

(** [None] is a panic, here and below. *)
Fixpoint MustRegister (r : R) (cs : list collector) : option R :=
  match cs with
  | [] => Some r
  | c :: cs => match Register r c with (r, None) => MustRegister r cs | (_, Some _) => None end
  end.

(** The default registry of the library, and the one of controller-runtime. *)
Record registries := { default_registry : R; controller_registry : R }.

(** The variables of a package are initialised, then its collectors are registered. *)
Definition register_default (g : registries) (cs : list collector) : option registries :=
  guard (forallb constructible cs = true);;
  r ← MustRegister (default_registry g) cs;
  Some {| default_registry := r; controller_registry := controller_registry g |}.
Definition register_controller (g : registries) (cs : list collector) : option registries :=
  guard (forallb constructible cs = true);;
  r ← MustRegister (controller_registry g) cs;
  Some {| default_registry := default_registry g; controller_registry := r |}.

Inductive program := Operator | SimulatorServer | WorkerDeployment | SubmitterDaemon.

(** What the packages of a program (internal/sim is among those of the operator and of the worker)
    and its [main] register; the files of a package are initialised in the order of their names. *)
Definition startMetrics (p : program) (g : registries) : option registries :=
  match p with
  | Operator =>
      g ← register_default g SimulatorMetrics.initCollectors;
      g ← register_controller g OperatorMetrics.backlogCollectors;
      register_controller g OperatorMetrics.initCollectors
  | SimulatorServer => register_default g SimulatorMetrics.initCollectors
  | WorkerDeployment =>
      g ← register_default g SimulatorMetrics.initCollectors;
      register_default g WorkerMetrics.RegisterMetrics
  | SubmitterDaemon => register_default g SubmitterMetrics.RegisterMetrics
  end.
End programs.
Arguments registries R : clear implicits.

(** The collectors of a program in each registry. *)
Definition default_collectors (p : program) : list collector :=
  match p with
  | Operator | SimulatorServer => SimulatorMetrics.initCollectors
  | WorkerDeployment => SimulatorMetrics.initCollectors ++ WorkerMetrics.RegisterMetrics
  | SubmitterDaemon => SubmitterMetrics.RegisterMetrics
  end.
Definition controller_collectors (p : program) : list collector :=
  match p with
  | Operator => OperatorMetrics.backlogCollectors ++ OperatorMetrics.initCollectors
  | _ => []
  end.

(** ** Registration *)

(** The fully qualified name, computed. *)
Definition full_name (c : collector) : string :=
  let o := opts_of c in
  if decide (o_Namespace o = "") then o_Name o else o_Namespace o +:+ "_" +:+ o_Name o.

(** What there is to check of a list of collectors: it does not depend on the library. *)
Definition registrable (cs : list collector) : Prop :=
  Forall (λ c, o_Name (opts_of c) ≠ "" ∧ valid_name (full_name c) = true ∧ well_described c = true ∧
               constructible c = true) cs ∧
  NoDup (full_name <$> cs).

#[export] Instance registrable_dec cs : Decision (registrable cs) := _.

(** Names of the repository. *)
Definition own_name (n : string) : bool := HasPrefix n "gpu_scheduler_" || HasPrefix n "sim_".

Lemma collectors_registrable p :
  registrable (default_collectors p) ∧ registrable (controller_collectors p).
Proof. destruct p; split; apply (bool_decide_eq_true_1 _); vm_compute; reflexivity. Qed.

Lemma collectors_own p :
  Forall (λ c, own_name (full_name c) = true) (default_collectors p ++ controller_collectors p).
Proof. destruct p; apply (bool_decide_eq_true_1 _); vm_compute; reflexivity. Qed.

Section registration.
Context {R : Type} `{PrometheusLaws R}.

Lemma fqName_full c : o_Name (opts_of c) ≠ "" → fqName c = full_name c.
Proof.
  intros Hn. unfold fqName, full_name. case_decide as E; [by rewrite E, fq_ignored|by apply fq_joined].
Qed.

Lemma MustRegister_ok cs r :
  registrable cs → (∀ c, c ∈ cs → full_name c ∉ registered r) →
  ∃ r', MustRegister r cs = Some r' ∧ registered r' = list_to_set (full_name <$> cs) ∪ registered r.
Proof.
  revert r. induction cs as [|c cs IH]; intros r [Hf Hnd] Hfresh.
  { exists r. split; [done|]. set_solver. }
  apply Forall_cons in Hf as [(Hn & Hv & Hw & _) Hf]. csimpl in *. apply NoDup_cons in Hnd as [Hc Hnd].
  pose proof (fqName_full c Hn) as Hfq.
  destruct (register_new r c) as (r1 & Hr & He); [by rewrite Hfq|done|rewrite Hfq; apply Hfresh; left|].
  rewrite Hr. destruct (IH r1) as (r2 & Hr2 & He2); [done| |].
  - intros c' Hc'. rewrite He, Hfq. apply not_elem_of_union. split.
    + intros E%elem_of_singleton. apply Hc. rewrite <- E. by apply list_elem_of_fmap_2.
    + apply Hfresh. by right.
  - exists r2. split; [done|]. rewrite He2, He, Hfq. set_solver.
Qed.

Lemma MustRegister_app r cs1 cs2 :
  MustRegister r (cs1 ++ cs2) = r1 ← MustRegister r cs1; MustRegister r1 cs2.
Proof.
  revert r. induction cs1 as [|c cs1 IH]; intros r; [done|]. simpl.
  destruct (Register r c) as [r1 [e|]]; [done|apply IH].
Qed.
Lemma MustRegister_again r c cs :
  o_Name (opts_of c) ≠ "" → full_name c ∈ registered r → MustRegister r (c :: cs) = None.
Proof.
  intros Hn Hc. simpl. destruct (register_again r c) as [e ->]; [by rewrite fqName_full|done].
Qed.

Lemma register_default_eq g cs :
  forallb constructible cs = true →
  register_default g cs =
  r ← MustRegister (default_registry g) cs;
  Some {| default_registry := r; controller_registry := controller_registry g |}.
Proof. intros Hc. unfold register_default. by rewrite option_guard_True. Qed.

Lemma register_controller_eq g cs :
  forallb constructible cs = true →
  register_controller g cs =
  r ← MustRegister (controller_registry g) cs;
  Some {| default_registry := default_registry g; controller_registry := r |}.
Proof. intros Hc. unfold register_controller. by rewrite option_guard_True. Qed.

(** The order in which a program registers in one registry does not involve the other. *)
Lemma startMetrics_eq p g :
  startMetrics p g =
  r ← MustRegister (default_registry g) (default_collectors p);
  c ← MustRegister (controller_registry g) (controller_collectors p);
  Some {| default_registry := r; controller_registry := c |}.
Proof.
  destruct p; unfold startMetrics, default_collectors, controller_collectors;
    rewrite ?MustRegister_app, register_default_eq by (vm_compute; reflexivity).
  - destruct (MustRegister (default_registry g) _) as [r|]; [|done]. cbn [mbind option_bind].
    rewrite register_controller_eq by (vm_compute; reflexivity). cbn [controller_registry].
    destruct (MustRegister (controller_registry g) _) as [c|]; [|done]. cbn [mbind option_bind].
    by rewrite register_controller_eq by (vm_compute; reflexivity).
  - by destruct (MustRegister _ _).
  - destruct (MustRegister (default_registry g) _) as [r|]; [|done]. cbn [mbind option_bind].
    rewrite register_default_eq by (vm_compute; reflexivity). cbn [default_registry].
    by destruct (MustRegister _ _).
  - by destruct (MustRegister _ _).
Qed.

(** No program panics while it sets up its metrics: in registries in which no name is taken that
    begins like those of the repository, every package variable is constructed and every collector is
    accepted, and afterwards the registries hold exactly the names of the program on top of what they
    held; registering a second time would panic. *)
Theorem registration_succeeds (p : program) (g : registries R) :
  (∀ n, n ∈ registered (default_registry g) ∪ registered (controller_registry g) →
     own_name n = false) →
  ∃ g', startMetrics p g = Some g' ∧
    registered (default_registry g') =
      list_to_set (full_name <$> default_collectors p) ∪ registered (default_registry g) ∧
    registered (controller_registry g') =
      list_to_set (full_name <$> controller_collectors p) ∪ registered (controller_registry g) ∧
    startMetrics p g' = None.
Proof.
  intros Hown. destruct (collectors_registrable p) as [Hd Hc].
  pose proof (collectors_own p) as Hn. rewrite Forall_forall in Hn.
  assert (Hfresh : ∀ c, c ∈ default_collectors p ++ controller_collectors p →
    full_name c ∉ registered (default_registry g) ∪ registered (controller_registry g)).
  { intros c Hin Hr. specialize (Hn c Hin). by rewrite (Hown _ Hr) in Hn. }
  destruct (MustRegister_ok _ (default_registry g) Hd) as (r & Hr & Er).
  { intros c Hin Hrc. apply (Hfresh c); set_solver. }
  destruct (MustRegister_ok _ (controller_registry g) Hc) as (k & Hk & Ek).
  { intros c Hin Hrc. apply (Hfresh c); set_solver. }
  eexists. rewrite startMetrics_eq, Hr. cbn [mbind option_bind]. rewrite Hk. split_and!; try done.
  rewrite startMetrics_eq. cbn [default_registry]. clear Hfresh Hn Hc Hk Ek.
  destruct (default_collectors p) as [|c cs] eqn:E; [by destruct p|].
  destruct Hd as [Hf _]. apply Forall_cons in Hf as [(? & _) _].
  rewrite MustRegister_again; [done|done|]. rewrite Er. set_solver.
Qed.
End registration.

(** ** A small registry *)

Module SmallRegistry.
Definition join (ns n : string) : string := if decide (ns = "") then n else ns +:+ "_" +:+ n.
#[export] Instance names : Prometheus (gset string) := {|
  BuildFQName := join;
  Register := λ r c,
    let n := join (o_Namespace (opts_of c)) (o_Name (opts_of c)) in
    if decide (n ∈ r) then (r, Some (Errorf "duplicate metrics collector registration attempted"))
    else ({[n]} ∪ r, None);
|}.
#[export] Instance names_laws : PrometheusLaws (gset string).
Proof.
  refine {| registered := λ r, r |}.
  - done.
  - intros ns n Hns _. unfold BuildFQName; simpl. unfold join. by rewrite decide_False.
  - intros r c _ _ Hn. exists ({[fqName c]} ∪ r). split; [|done]. simpl. by rewrite decide_False.
  - intros r c Hn. eexists. simpl. by rewrite decide_True.
Defined.
Definition libraries : registries (gset string) :=
  {| default_registry := {["go_goroutines"]};
     controller_registry := {["controller_runtime_reconcile_total"]} |}.
End SmallRegistry.

Section example.
Import SmallRegistry.

Lemma registration_succeeds_witness :
  ∃ g', startMetrics WorkerDeployment libraries = Some g' ∧
        startMetrics WorkerDeployment g' = None.
Proof.
  destruct (registration_succeeds WorkerDeployment libraries) as (g' & Hs & _ & _ & Ha).
  - intros n Hn. cbn in Hn. apply elem_of_union in Hn as [->%elem_of_singleton| ->%elem_of_singleton];
      reflexivity.
  - exists g'. exact (conj Hs Ha).
Defined.
End example.
