(* ===== verification/Handlers.v ===== *)
(** * The handlers of the operator, call by call

    The workload reconciler and the scheduling cycle reach the outside only through calls of the API
    server, calls of the simulator and effects.  A relation between worlds that holds across each of
    these holds across the handlers, whatever the calls return: it is proved once here, and used for
    the updates of the metrics, the calls of the server and the state of the simulator. *)

From stdpp Require Import prelude gmap strings.
From S2P Require Import Prelude GoFloat SimModel Runtime Simulator SchedInputs Selection Resources.
From S2P Require Import SchedState Cluster SchedulerLoop Reconciler Metrics.

Local Open Scope Z_scope.
Local Open Scope go_scope.

(** ** Updates of metrics *)

Inductive metricKind := CounterKind | GaugeKind | HistogramKind.
#[export] Instance metricKind_eq_dec : EqDecision metricKind.
Proof. solve_decision. Defined.

Definition kind_of (c : collector) : metricKind :=
  match c with
  | NewCounter _ | NewCounterVec _ _ => CounterKind
  | NewGauge _ | NewGaugeVec _ _ => GaugeKind
  | NewHistogram _ _ | NewHistogramVec _ _ _ => HistogramKind
  end.

(** The update an effect makes: the kind of method it calls, the collector and the label values. *)
Definition update_of (e : effect) : option (metricKind * string * list string) :=
  match e with
  | Inc m ls => Some (CounterKind, m, ls)
  | Observe m _ => Some (HistogramKind, m, [])
  | ObserveSince m ls _ | ObserveSpan m ls _ _ => Some (HistogramKind, m, ls)
  | SetGauge m _ => Some (GaugeKind, m, [])
  | Event _ _ _ _ | Produced _ _ | LogAdmitted _ _ => None
  end.

(** The update does not panic: some collector of [cs] has its name, its kind and its labels. *)
Definition declares (cs : list collector) (k : metricKind) (m : string) (ls : list string) : bool :=
  existsb (λ c, bool_decide (o_Name (opts_of c) = m) && bool_decide (kind_of c = k) &&
                bool_decide (length (labels_of c) = length ls)) cs.

Definition declared (cs : list collector) (e : effect) : bool :=
  match update_of e with
  | None => true
  | Some (k, m, ls) => declares cs k m ls
  end.

(** Proves that the effects of a concrete list are declared. *)
Ltac declared_list := repeat (apply List.Forall_cons; [vm_compute; reflexivity|]); apply List.Forall_nil.

Definition operator_effects (l : list effect) : Prop :=
  Forall (λ e, declared OperatorMetrics.initCollectors e = true) l.

(** ** Relations closed under the calls *)

Section closed.
Context {W S : Type} `{ApiClient W, WorkloadRuntimeSimulator S}.
Local Notation World := (@Cluster.World W S).
Implicit Types w : World.

(** [Rel] is kept by every call but the start of a run; [Run] by one start among such calls.  [may_run]
    is what the reconciler knows of a workload before it allocates and starts. *)
Record call_closed (may_run : W → GPUWorkload → Prop) (Rel Run : World → World → Prop) : Prop := {
  cc_preorder : PreOrder Rel;
  cc_run w w' : Rel w w' → Run w w';
  cc_around w1 w2 w3 w4 : Rel w1 w2 → Run w2 w3 → Rel w3 w4 → Run w1 w4;
  cc_get w k : Rel w (with_api w (Get (wo_api w) k).1);
  cc_status w o : Rel w (with_api w (StatusUpdate (wo_api w) o).1);
  cc_update w o : Rel w (with_api w (Update (wo_api w) o).1);
  cc_allocate w o g m opts : may_run (wo_api w) o →
    Rel w (with_sim w (wrs_AllocateWithOptions (wo_sim w) (workload_id o) g m opts).1);
  cc_start w o now : may_run (wo_api w) o →
    Run w (with_sim w (wrs_StartWithRuntimeInput (wo_sim w) now
                         (buildRuntimeInput (workload_id o) o)).1);
  cc_latest w now id : Rel w (with_sim w (wrs_GetLatestRunStatusForWorkload (wo_sim w) now id).1);
  cc_preempt w id : Rel w (with_sim w (wrs_Preempt (wo_sim w) id).1);
  cc_release w id : Rel w (with_sim w (wrs_Release (wo_sim w) id).1);
  cc_emit w l : operator_effects l → Rel w (emit w l);
  cc_read a k b o : Get a k = (b, Ok o) → phase_of o = GPUWorkloadPhaseScheduled →
    deletionIsZero o = true → may_run b o;
  cc_queued a o now b o' : StatusUpdate a (initQueued o now) = (b, Ok o') →
    phase_of o' = GPUWorkloadPhaseScheduled → deletionIsZero o' = true → may_run b o';
}.

Context (may_run : W → GPUWorkload → Prop) (Rel Run : World → World → Prop).
Context (C : call_closed may_run Rel Run).

#[local] Instance Rel_preorder : PreOrder Rel := cc_preorder _ _ _ C.

Lemma Run_after w0 w w' : Rel w0 w → Run w w' → Run w0 w'.
Proof. intros H1 H2. apply (cc_around _ _ _ C w0 w w' w'); [done|done|reflexivity]. Qed.
Lemma Run_before w0 w w' : Run w0 w → Rel w w' → Run w0 w'.
Proof. intros H1 H2. apply (cc_around _ _ _ C w0 w0 w w'); [reflexivity|done|done]. Qed.

Lemma Rel_then w0 w w' : Rel w0 w → Rel w w' → Rel w0 w'.
Proof. intros H1 H2. by etransitivity. Qed.

Lemma recordEvent_closed b w obj ty reason msg : Rel w (recordEvent b w obj ty reason msg).
Proof. unfold recordEvent. destruct b; [|reflexivity]. apply (cc_emit _ _ _ C). declared_list. Qed.

Lemma completion_declared o : operator_effects (completionEffects o).
Proof. unfold completionEffects. destruct (IsZero _); declared_list. Qed.

(** ** The workload reconciler *)

Section reconciler.
Context `{ApiMachinery} (r : GPUWorkloadReconciler).

Lemma updateStatus_closed w o : Rel w (updateStatus w o).1.
Proof. pose proof (cc_status _ _ _ C w o). unfold updateStatus. by destruct (StatusUpdate _ _). Qed.
Lemma updateObject_closed w o : Rel w (updateObject w o).1.
Proof. pose proof (cc_update _ _ _ C w o). unfold updateObject. by destruct (Update _ _). Qed.
Lemma release_closed w id : Rel w (release w id).1.
Proof. pose proof (cc_release _ _ _ C w id). unfold release. by destruct (wrs_Release _ _). Qed.

Lemma markRunning_closed o w : Rel w (markRunning r o w).1.
Proof.
  unfold markRunning. case_decide; [reflexivity|].
  pose proof (updateStatus_closed w (with_phase o GPUWorkloadPhaseRunning)) as Hu.
  destruct (updateStatus _ _) as [w1 [o'|e]]; [|exact Hu].
  eapply Rel_then; [exact Hu|apply recordEvent_closed].
Qed.

Lemma startRun_closed o now w : may_run (wo_api w) o → Run w (startRun r o now w).1.
Proof.
  intros Hm. unfold startRun. pose proof (cc_start _ _ _ C w o now Hm) as Hs.
  destruct (wrs_StartWithRuntimeInput _ _ _) as [s [id|e]]; simpl in Hs.
  - eapply Run_before; [exact Hs|apply markRunning_closed].
  - destruct (isAlreadyRunningErr e); [|exact Hs].
    eapply Run_before; [exact Hs|apply markRunning_closed].
Qed.

Lemma allocateAndStart_closed o now w : may_run (wo_api w) o → Run w (allocateAndStart r o now w).1.
Proof.
  intros Hm. unfold allocateAndStart. cbv zeta. set (opts := {| o_PlacementPolicy := _ |}).
  pose proof (cc_allocate _ _ _ C w o (ws_GPUCount (w_Spec o)) (ws_GPUMemoryMiB (w_Spec o)) opts Hm)
    as Ha.
  destruct (wrs_AllocateWithOptions _ _ _ _ _) as [s [a|e]]; simpl in Ha.
  - eapply Run_after; [exact Ha|by apply startRun_closed].
  - destruct (isAlreadyAllocatedErr e); [|by apply (cc_run _ _ _ C)].
    eapply Run_after; [exact Ha|by apply startRun_closed].
Qed.

Lemma executeAdmission_closed o now w :
  phase_of o = GPUWorkloadPhaseScheduled → may_run (wo_api w) o → Run w (executeAdmission r o now w).1.
Proof.
  intros Hp Hm. unfold executeAdmission. destruct (negb _); [apply (cc_run _ _ _ C); reflexivity|].
  rewrite decide_True by done. by apply allocateAndStart_closed.
Qed.

Lemma completionEvent_closed w o p : Rel w (completionEvent r w o p).
Proof. unfold completionEvent. destruct p; try reflexivity; apply recordEvent_closed. Qed.

Lemma pollRunningStatus_closed o now w : Rel w (pollRunningStatus r o now w).1.1.
Proof.
  unfold pollRunningStatus. destruct (negb _); [reflexivity|].
  pose proof (cc_latest _ _ _ C w now (workload_id o)) as Hl.
  destruct (wrs_GetLatestRunStatusForWorkload _ _ _) as [s [st|e]]; simpl in Hl;
    [|by destruct (Contains _ _)].
  destruct (targetPhase st) as [p|]; [|exact Hl]. case_decide; [exact Hl|]. cbv zeta.
  set (o1 := if bool_decide _ then _ else _). pose proof (updateStatus_closed (with_sim w s) o1) as Hu.
  destruct (updateStatus _ _) as [w1 [o'|e]]; simpl in Hu; [|by eapply Rel_then].
  assert (Hend : ∀ w2 o2, Rel w1 w2 → Rel w (completionEvent r (release w2 (workload_id o)).1 o2 p)).
  { intros w2 o2 Hw2. do 2 (eapply Rel_then; [eassumption|]). eapply Rel_then; [exact Hw2|].
    eapply Rel_then; [apply release_closed|apply completionEvent_closed]. }
  destruct (bool_decide _); [|apply Hend; reflexivity].
  pose proof (updateObject_closed (emit w1 (completionEffects o')) o') as Ho.
  pose proof (cc_emit _ _ _ C w1 _ (completion_declared o')) as He.
  destruct (updateObject _ _) as [w2 [o2|e2]]; apply Hend; by eapply Rel_then.
Qed.

Lemma finishTerminal_closed o w : Rel w (finishTerminal r o w).
Proof.
  unfold finishTerminal. set (w1 := if _ && _ then _ else _).
  assert (Rel w w1) as Hw1.
  { unfold w1. destruct (_ && _); [|reflexivity].
    eapply Rel_then; [apply (cc_emit _ _ _ C), completion_declared|apply updateObject_closed]. }
  destruct (rc_RuntimeSimulator r); [|done]. eapply Rel_then; [exact Hw1|apply release_closed].
Qed.

Lemma finishDeleted_closed o w : Rel w (finishDeleted r o w).1.
Proof.
  unfold finishDeleted.
  assert (Hu : ∀ w1 o1, Rel w w1 → Rel w
    (match updateObject w1 o1 with (w2, Err e) => (w2, failed e) | (w2, Ok _) => (w2, finished) end).1).
  { intros w1 o1 Hw1. pose proof (updateObject_closed w1 o1) as Hl.
    destruct (updateObject _ _) as [w2 [o2|e]]; by eapply Rel_then. }
  destruct (rc_RuntimeSimulator r); [|by apply Hu].
  pose proof (release_closed w (workload_id o)) as Hl.
  destruct (release _ _) as [w1 [e|]]; [exact Hl|]. apply Hu.
  eapply Rel_then; [exact Hl|apply recordEvent_closed].
Qed.

Lemma actuate_closed o now w :
  (phase_of o = GPUWorkloadPhaseScheduled → deletionIsZero o = true → may_run (wo_api w) o) →
  Run w (actuate r o now w).1.
Proof.
  intros Hm. unfold actuate. destruct (_ && _) eqn:Hs.
  { apply andb_true_iff in Hs as [Hz Hp%bool_decide_eq_true_1].
    destruct (rc_UseWorkerPool r); [apply (cc_run _ _ _ C); reflexivity|].
    pose proof (executeAdmission_closed o now w Hp (Hm Hp Hz)) as Hx.
    by destruct (executeAdmission _ _ _ _) as [w1 [e|]]. }
  apply (cc_run _ _ _ C). clear Hs. assert (Hd : ∀ o1 w1, Rel w w1 → Rel w
    (if negb (deletionIsZero o1) then finishDeleted r o1 w1 else (w1, finished)).1).
  { intros o1 w1 Hw1. destruct (negb _); [|exact Hw1].
    eapply Rel_then; [exact Hw1|apply finishDeleted_closed]. }
  destruct (_ && _); [|apply Hd; reflexivity]. destruct (rc_UseWorkerPool r); [reflexivity|].
  pose proof (pollRunningStatus_closed o now w) as Hx.
  destruct (pollRunningStatus _ _ _ _) as [[w1 o1] [[|]|e]]; [by apply Hd|exact Hx|exact Hx].
Qed.

Lemma Reconcile_closed req now w : Run w (Reconcile r req now w).1.
Proof.
  unfold Reconcile. pose proof (cc_get _ _ _ C w req) as Hg.
  destruct (Get _ _) as [a [o|e]] eqn:HG; [|by destruct (IsNotFound e); apply (cc_run _ _ _ C)].
  simpl in Hg. eapply Run_after; [exact Hg|].
  destruct (_ && _); [apply (cc_run _ _ _ C), finishTerminal_closed|]. destruct (_ && _).
  { pose proof (updateObject_closed (with_api w a) (with_finalizers o (AddFinalizer
      (om_Finalizers (w_Meta o)) gpuWorkloadFinalizer))) as Hu.
    by destruct (updateObject _ _) as [w1 [o1|e]]; apply (cc_run _ _ _ C). }
  destruct (_ && _).
  - unfold updateStatus. pose proof (cc_status _ _ _ C (with_api w a) (initQueued o now)) as Hu.
    destruct (StatusUpdate _ _) as [a1 [o1|e]] eqn:HU; simpl in *; [|by apply (cc_run _ _ _ C)].
    eapply Run_after; [exact Hu|]. eapply Run_after; [|apply actuate_closed].
    + apply recordEvent_closed.
    + unfold record, recordEvent. destruct (rc_Recorder r); exact (cc_queued _ _ _ C _ _ _ _ _ HU).
  - apply actuate_closed. exact (cc_read _ _ _ C _ _ _ _ HG).
Qed.
End reconciler.

(** ** The scheduling cycle *)

Section cycle.
Context `{ApiMachinery, MapIter} (cfg : loopConfig).

Lemma retryLoop_closed n op e w : (∀ w, Rel w (op w).1) → Rel w (retryLoop n op e w).1.
Proof.
  intros Hop. revert e w. induction n as [|n IH]; intros e w; [reflexivity|]. simpl.
  pose proof (Hop w) as Hw. destruct (op w) as [w1 [e1|]]; [|exact Hw]. simpl in Hw.
  destruct (IsConflict e1); [|exact Hw]. eapply Rel_then; [exact Hw|]. eapply Rel_then; [|apply IH].
  apply (cc_emit _ _ _ C). declared_list.
Qed.

Lemma markPreempted_closed key id w : Rel w (markPreempted cfg key id w).1.
Proof.
  unfold markPreempted. pose proof (cc_get _ _ _ C w key) as Hg.
  destruct (Get _ _) as [a [o|e]]; simpl in Hg; [|by destruct (IsNotFound e)].
  case_decide; [exact Hg|].
  pose proof (cc_status _ _ _ C (with_api w a) (with_phase o GPUWorkloadPhasePreempted)) as Hs.
  destruct (StatusUpdate _ _) as [a' [o'|e]]; simpl in *; (eapply Rel_then; [exact Hg|]); [|exact Hs].
  eapply Rel_then; [exact Hs|apply recordEvent_closed].
Qed.

Lemma victims_closed vs w : Rel w (markVictimsPreemptedAndRelease cfg vs w).1.
Proof.
  revert w. induction vs as [|v vs IH]; intros w; [reflexivity|]. simpl.
  destruct (splitID _) as [key|]; [|apply IH].
  pose proof (retryLoop_closed maxConflictRetries (markPreempted cfg key (r_WorkloadID v)) None w
    (markPreempted_closed key _)) as Hm. unfold runWithConflictRetry.
  destruct (retryLoop _ _ _ _) as [w1 [e|]]; [exact Hm|]. simpl in Hm. eapply Rel_then; [exact Hm|].
  pose proof (cc_preempt _ _ _ C w1 (r_WorkloadID v)) as Hp.
  destruct (wrs_Preempt _ _) as [s1 [e|]]; [exact Hp|]. eapply Rel_then; [exact Hp|].
  pose proof (cc_release _ _ _ C (with_sim w1 s1) (r_WorkloadID v)) as Hr. simpl in *.
  destruct (wrs_Release _ _) as [s2 [e|]]; [exact Hr|]. eapply Rel_then; [exact Hr|].
  eapply Rel_then; [|apply IH]. apply (cc_emit _ _ _ C). declared_list.
Qed.

Lemma patch_closed id reason msg now w :
  Rel w (patchWorkloadAdmittedAndScheduled cfg id reason msg now w).1.
Proof.
  unfold patchWorkloadAdmittedAndScheduled. destruct (splitID id) as [key|]; [|reflexivity].
  assert (Hp : ∀ w, Rel w (patchOnce cfg key now reason msg w).1).
  { intros w0. unfold patchOnce. pose proof (cc_get _ _ _ C w0 key) as Hg.
    destruct (Get _ _) as [a [o|e]]; simpl in Hg; [|exact Hg]. case_decide; [exact Hg|].
    pose proof (cc_status _ _ _ C (with_api w0 a) (admitPatch o now reason msg)) as Hs.
    destruct (StatusUpdate _ _) as [a' [o'|e]]; simpl in *; (eapply Rel_then; [exact Hg|]); [|exact Hs].
    eapply Rel_then; [exact Hs|apply recordEvent_closed]. }
  pose proof (retryLoop_closed maxConflictRetries _ None w Hp) as Hm. unfold runWithConflictRetry.
  destruct (retryLoop _ _ _ _) as [w1 [e|]]; [exact Hm|]. simpl in *.
  destruct (lc_ClaimableProducer cfg); [|exact Hm]. eapply Rel_then; [exact Hm|].
  apply (cc_emit _ _ _ C). declared_list.
Qed.

Lemma admittedEffects_declared id reason a : operator_effects (admittedEffects id reason a).
Proof. unfold admittedEffects. destruct a; declared_list. Qed.

Lemma batchLoop_closed n now count inp w b :
  batchLoop cfg n now count inp w = Some b → Rel w (br_world b).
Proof.
  revert count inp w. induction n as [|n IH]; intros count inp w; simpl.
  { intros [= <-]. reflexivity. }
  destruct (SelectOneForAdmission inp) as [id victims reason msg why]. simpl.
  case_decide.
  { intros [= <-]. apply (cc_emit _ _ _ C). case_decide; declared_list. }
  set (pre := if decide (0 < length victims)%nat then _ else _).
  assert (Hp : Rel w pre.1) by (unfold pre; case_decide; [apply victims_closed|reflexivity]).
  destruct pre as [w1 [e|]]; simpl in Hp.
  { intros [= <-]. eapply Rel_then; [exact Hp|]. apply (cc_emit _ _ _ C). declared_list. }
  pose proof (patch_closed id reason msg now w1) as Hq.
  destruct (patchWorkloadAdmittedAndScheduled _ _ _ _ _ _) as [w2 [e|]]; simpl in Hq.
  { intros [= <-]. do 2 (eapply Rel_then; [eassumption|]). apply (cc_emit _ _ _ C). declared_list. }
  set (w3 := emit w2 _). assert (Rel w w3) as Hw3.
  { do 2 (eapply Rel_then; [eassumption|]). apply (cc_emit _ _ _ C), admittedEffects_declared. }
  clearbody w3. destruct (QueuedWorkloadByID inp id) as [a|]; [|by intros [= <-]].
  destruct (ApplyVirtualAdmission inp a now) as [[inp' [e|]]|]; [by intros [= <-]| |done].
  intros Hb. eapply Rel_then; [exact Hw3|]. by eapply IH.
Qed.

Lemma reportNoFit_closed inp w : Rel w (reportNoFit cfg inp w).
Proof.
  unfold reportNoFit. destruct (fairOrder inp) as [|q l]; [reflexivity|].
  destruct (splitID _) as [key|]; [|reflexivity]. pose proof (cc_get _ _ _ C w key) as Hg.
  destruct (Get _ _) as [a [o|e]]; [|exact Hg]. eapply Rel_then; [exact Hg|apply recordEvent_closed].
Qed.

Lemma namespaceLoop_closed st now nss w w' : namespaceLoop cfg st now nss w = Some w' → Rel w w'.
Proof.
  revert w. induction nss as [|ns nss IH]; intros w; cbn [namespaceLoop].
  { intros [= <-]. apply (cc_emit _ _ _ C). declared_list. }
  destruct (snapshotForNamespace _ _) as [inp|]; [|apply IH]. case_decide; [apply IH|].
  destruct (Validate inp); [apply IH|].
  destruct (batchLoop _ _ _ _ _ _) as [b|] eqn:Hb; [|done]. apply batchLoop_closed in Hb.
  destruct (0 <? _).
  { intros [= <-]. eapply Rel_then; [exact Hb|]. apply (cc_emit _ _ _ C). declared_list. }
  intros Hn%IH. eapply Rel_then; [exact Hb|]. eapply Rel_then; [|exact Hn].
  repeat case_decide; try reflexivity. destruct (lc_Recorder cfg); [apply reportNoFit_closed|reflexivity].
Qed.

Lemma runSchedulingCycle_closed st0 st now w w' :
  runSchedulingCycle cfg st0 st now w = Some w' → Rel w w'.
Proof.
  intros Hr%namespaceLoop_closed. eapply Rel_then; [|exact Hr]. apply (cc_emit _ _ _ C). declared_list.
Qed.
End cycle.
End closed.
