(* ===== verification/MetricUpdates.v ===== *)
(** * Updates of the metrics

    A collector with labels panics when it is given another number of label values than it declares.
    The effects of the models name a collector by its name within its package; here every update of
    the operator (its backlog loop and its local simulator included), the worker, the simulator's server
    and the submitter is shown to be of a collector its program registers, of the right kind and with the
    right number of labels. *)

From stdpp Require Import prelude gmap strings.
From S2P Require Import Prelude GoFloat SimModel Runtime Simulator SchedInputs Selection Resources.
From S2P Require Import SchedState Cluster RunMetrics SchedulerLoop Reconciler PoolReconciler SimHttp.
From S2P Require Import Submitter Worker WorkerJobs Backlog Metrics Handlers.

Local Open Scope Z_scope.
Local Open Scope go_scope.

(** Effects added to a log, all of them declared. *)
Definition extends (cs : list collector) (l l' : list effect) : Prop :=
  ∃ k, l' = l ++ k ∧ Forall (λ e, declared cs e = true) k.

#[export] Instance extends_preorder cs : PreOrder (extends cs).
Proof.
  split.
  - intros l. exists []. by rewrite app_nil_r.
  - intros l1 l2 l3 (k1 & -> & F1) (k2 & -> & F2). exists (k1 ++ k2).
    rewrite app_assoc. split; [done|by apply Forall_app].
Qed.

Lemma extends_app cs l k : Forall (λ e, declared cs e = true) k → extends cs l (l ++ k).
Proof. by exists k. Qed.

Lemma extends_emit {W S} cs (w : @World W S) l k :
  Forall (λ e, declared cs e = true) k → extends cs l (wo_log w) → extends cs l (wo_log (emit w k)).
Proof. intros Hk Hl. etransitivity; [exact Hl|by apply extends_app]. Qed.

(** ** The operator *)

(** The updates of the reconciler and of the cycle. *)
Definition updates_ok {W S} (w w' : @World W S) : Prop :=
  extends OperatorMetrics.initCollectors (wo_log w) (wo_log w').

Lemma operator_updates {W S} `{ApiClient W, WorkloadRuntimeSimulator S} :
  call_closed (λ _ _, True) (updates_ok (W:=W) (S:=S)) updates_ok.
Proof.
  unfold updates_ok. split; try (intros; reflexivity); try done.
  - split; [intros w; reflexivity|intros w1 w2 w3; apply transitivity].
  - intros w1 w2 w3 w4 H12 H23 H34. by etransitivity; [|etransitivity].
  - intros w l Hl. by apply extends_app.
Qed.

(** *** The path with one Job per workload *)

Section jobs.
Context {W S : Type} `{ApiClient W, JobClient W, WorkloadRuntimeSimulator S}.
Implicit Types w : @World W S.
Local Notation ok := (extends OperatorMetrics.initCollectors).
Context (r : GPUWorkloadReconciler) (simulatorURL : string) (template : WorkerJobTemplate).

Lemma recordEvent_ok b w obj ty reason msg : ok (wo_log w) (wo_log (recordEvent b w obj ty reason msg)).
Proof. exact (recordEvent_closed _ _ _ operator_updates b w obj ty reason msg). Qed.
Lemma updateStatus_same w o : wo_log (updateStatus w o).1 = wo_log w.
Proof. unfold updateStatus. by destruct (StatusUpdate _ _). Qed.
Lemma updateObject_same w o : wo_log (updateObject w o).1 = wo_log w.
Proof. unfold updateObject. by destruct (Update _ _). Qed.
Lemma release_same w id : wo_log (release w id).1 = wo_log w.
Proof. unfold release. by destruct (wrs_Release _ _). Qed.

Lemma setRunning_ok o msg w : ok (wo_log w) (wo_log (setRunning r o msg w).1).
Proof.
  unfold setRunning. pose proof (updateStatus_same w (with_phase o GPUWorkloadPhaseRunning)) as Hl.
  destruct (updateStatus _ _) as [w1 [o'|e]]; simpl in *; [|by rewrite Hl].
  rewrite <- Hl. apply recordEvent_ok.
Qed.

Lemma ensureWorkerJob_ok o w : ok (wo_log w) (wo_log (ensureWorkerJob r simulatorURL template o w).1).
Proof.
  unfold ensureWorkerJob. destruct (GetJob _ _) as [a [j|e]].
  { case_decide; [done|apply (setRunning_ok o _ (with_api w a))]. }
  destruct (negb _); [done|]. cbv zeta. destruct (SetControllerReference _ _) as [j|e']; [|done].
  destruct (CreateJob _ _) as [a' [e'|]]; [done|]. etransitivity; [|apply setRunning_ok].
  apply (recordEvent_ok (rc_Recorder r) (with_api (with_api w a) a')).
Qed.

Lemma syncJob_ok o w : ok (wo_log w) (wo_log (syncWorkloadPhaseFromWorkerJob r o w).1).
Proof.
  unfold syncWorkloadPhaseFromWorkerJob. destruct (GetJob _ _) as [a [j|e]]; [|by destruct (IsNotFound e)].
  destruct (jobTarget j) as [p|]; [|done]. case_decide; [done|]. cbv zeta.
  set (o1 := if bool_decide _ then _ else _). pose proof (updateStatus_same (with_api w a) o1) as Hl.
  destruct (updateStatus _ _) as [w1 [o'|e]]; [|simpl in *; by rewrite Hl]. simpl in Hl.
  assert (Hev : ∀ w2 o2, ok (wo_log w) (wo_log w2) → ok (wo_log w) (wo_log (jobEvent r
    (if rc_RuntimeSimulator r then (release w2 (workload_id o)).1 else w2) o2 p))).
  { intros w2 o2 Hw2. etransitivity; [exact Hw2|]. set (w3 := if _ : bool then _ else _).
    assert (wo_log w3 = wo_log w2) as <- by (unfold w3; destruct (rc_RuntimeSimulator r);
      [apply release_same|done]).
    unfold jobEvent. destruct p; try done; apply recordEvent_ok. }
  destruct (bool_decide _).
  - pose proof (updateObject_same (emit w1 (completionEffects o')) o') as Hu.
    assert (ok (wo_log w) (wo_log (emit w1 (completionEffects o')))).
    { apply extends_emit; [apply completion_declared|]. by rewrite Hl. }
    destruct (updateObject _ _) as [w2 [o2|e2]]; simpl in *; apply Hev; by rewrite Hu.
  - apply Hev. by rewrite Hl.
Qed.
End jobs.

(** ** The worker *)

Section worker.
Context {W N : Type} `{ApiClient W, WorkerApi W, SimulatorClient N, Clock N}.
Implicit Types w : @World W N.
Local Notation ok := (extends WorkerMetrics.RegisterMetrics).
Context (done : nat → bool) (cfg : DeploymentLoopConfig).

Lemma claimWorkload_ok o w : ok (wo_log w) (wo_log (claimWorkload cfg o w).1.1).
Proof.
  unfold claimWorkload. destruct (Get _ _) as [a [o1|e]]; [|reflexivity]. case_decide; [reflexivity|].
  cbv zeta. destruct (PatchAnnotations _ _ _) as [a1 [o2|e]]; [|reflexivity].
  destruct (Get _ _) as [a2 [o3|e]]; [|reflexivity].
  destruct (StatusUpdate _ _) as [a3 [o4|e]]; [|reflexivity].
  apply extends_emit; [declared_list|reflexivity].
Qed.

Lemma claimFirst_ok items w : ok (wo_log w) (wo_log (claimFirst cfg items w).1).
Proof.
  revert w. induction items as [|o items IH]; intros w; [reflexivity|]. simpl.
  destruct (negb _); [apply IH|]. pose proof (claimWorkload_ok o w) as Hc.
  destruct (claimWorkload _ _ _) as [[w1 o1] [e|]]; [|exact Hc]. simpl in Hc.
  destruct (IsConflict e); [|exact Hc]. etransitivity; [exact Hc|apply IH].
Qed.

Lemma setWorkloadPhase_same o p w : wo_log (setWorkloadPhase o p w) = wo_log w.
Proof. unfold setWorkloadPhase. by destruct (Get _ _) as [a [o1|e]]. Qed.

Lemma completeRun_ok o t out p w : ok (wo_log w) (wo_log (completeRun cfg o t out p w)).
Proof.
  unfold completeRun, releaseRemoteAllocation. cbn [with_sim wo_log].
  set (w1 := emit w _). assert (ok (wo_log w) (wo_log w1)) as Hw1.
  { apply extends_emit; [declared_list|reflexivity]. }
  destruct p; [|exact Hw1]. by rewrite setWorkloadPhase_same.
Qed.

Lemma pollRun_ok o id t fuel i w : ok (wo_log w) (wo_log (pollRun done cfg o id t fuel i w).1).
Proof.
  revert i w. induction fuel as [|fuel IH]; intros i w; [reflexivity|]. simpl.
  destruct (done i); [reflexivity|]. destruct (sc_GetRunStatus _ _) as [n [st|e]]; [|apply (IH _ (sleep _ (with_sim w n)))].
  destruct st; try apply (IH _ (sleep _ (with_sim w n))); apply (completeRun_ok _ _ _ _ (with_sim w n)).
Qed.

Lemma runOneWorkload_ok fuel o w : ok (wo_log w) (wo_log (runOneWorkload done fuel cfg o w).1).
Proof.
  assert (He : ∀ w1 reason, wo_log w1 = wo_log w →
    ok (wo_log w) (wo_log (emit w1 (RecordError (dl_WorkerID cfg) reason)))).
  { intros w1 reason Hl. apply extends_emit; [declared_list|by rewrite Hl]. }
  unfold runOneWorkload, releaseRemoteAllocation, sleep. cbv zeta.
  destruct (sc_Allocate _ _ _ _ _) as [n [e|]].
  { cbn [fst with_sim wo_log]. rewrite setWorkloadPhase_same. by apply He. }
  destruct (sc_Start _ _) as [n1 [id|e]].
  - etransitivity; [|apply pollRun_ok]. apply extends_emit; [declared_list|reflexivity].
  - cbn [fst with_sim wo_log]. rewrite setWorkloadPhase_same. by apply He.
Qed.
End worker.

Section modes.
Context {W N : Type} `{ApiClient W, WorkerApi W, SimulatorClient N, Clock N}.
Implicit Types w : @World W N.
Local Notation ok := (extends WorkerMetrics.RegisterMetrics).
Context (done : nat → bool) (fuel : nat) (cfg : DeploymentLoopConfig).

Lemma error_ok w0 w id reason :
  ok (wo_log w0) (wo_log w) → ok (wo_log w0) (wo_log (emit w (RecordError id reason))).
Proof. apply extends_emit. declared_list. Qed.

Lemma deploymentIteration_ok w : ok (wo_log w) (wo_log (deploymentIteration done fuel cfg w).1).
Proof.
  unfold deploymentIteration, findAndClaimScheduledWorkload, sleep. cbv zeta.
  set (c := withPollInterval cfg). clearbody c.
  destruct (ListWorkloads _ _) as [a [items|e]]; [|by apply error_ok].
  pose proof (claimFirst_ok c items (with_api w a)) as Hc.
  destruct (claimFirst _ _ _) as [w1 [[o|]|e]]; [|exact Hc|by apply error_ok].
  pose proof (runOneWorkload_ok done c fuel o w1) as Hr.
  destruct (runOneWorkload _ _ _ _ _) as [w2 e]. by etransitivity.
Qed.

Lemma watchIteration_ok store w : ok (wo_log w) (wo_log (watchIteration done fuel cfg store w).1.1).
Proof.
  unfold watchIteration. destruct (findClaimableFromStore _ _) as [o|]; [|reflexivity].
  pose proof (claimWorkload_ok cfg o w) as Hc.
  destruct (claimWorkload _ _ _) as [[w1 o1] [e|]]; simpl in Hc.
  - destruct (IsConflict e); [exact Hc|by apply error_ok].
  - pose proof (runOneWorkload_ok done cfg fuel o1 w1) as Hr.
    destruct (runOneWorkload _ _ _ _ _) as [w2 e]. by etransitivity.
Qed.

Lemma queueIteration_ok msg w : ok (wo_log w) (wo_log (queueIteration done fuel cfg msg w).1).
Proof.
  unfold queueIteration, sleep. destruct msg as [[[ns name]|e]|e]; [|reflexivity..]. cbv zeta.
  case_decide; [reflexivity|]. destruct (Get _ _) as [a [o|e]]; [|reflexivity].
  destruct (negb _); [reflexivity|]. pose proof (claimWorkload_ok cfg o (with_api w a)) as Hc.
  destruct (claimWorkload _ _ _) as [[w1 o1] [e|]]; simpl in Hc.
  - destruct (IsNotFound e); [exact Hc|by apply error_ok].
  - pose proof (runOneWorkload_ok done cfg fuel o1 w1) as Hr.
    destruct (runOneWorkload _ _ _ _ _) as [w2 e]. by etransitivity.
Qed.
End modes.

(** ** The server of the simulator *)

Section server.
Context `{MapIter, RunEnv, Codec} (promhttp : Request → Response).
Local Notation ok := (Forall (λ e, declared SimulatorMetrics.initCollectors e = true)).

Lemma refreshObserved_ok now run : ok (refreshObserved now run).
Proof. unfold refreshObserved. destruct (_ && _); declared_list. Qed.

Lemma GetStatusObserved_ok s now id : ok (GetStatusObserved s now id).
Proof.
  unfold GetStatusObserved. case_decide; [declared_list|].
  destruct (sim_runs s !! id); [apply refreshObserved_ok|declared_list].
Qed.

Lemma GetLatestObserved_ok s now w : ok (GetLatestObserved s now w).
Proof.
  unfold GetLatestObserved. case_decide; [declared_list|].
  destruct (foldl _ _ _) as [[k run]|]; [apply refreshObserved_ok|declared_list].
Qed.

Lemma PreemptObserved_ok s w : ok (PreemptObserved s w).
Proof.
  unfold PreemptObserved. case_decide; [declared_list|].
  destruct (head _) as [[k run]|]; declared_list.
Qed.

Lemma requireMethod_ok s r m k : ok k.2 → ok (requireMethod s r m k).2.
Proof. unfold requireMethod. case_decide; [intros _; declared_list|done]. Qed.

Lemma ServeHTTP_ok s now r : ok (ServeHTTP promhttp s now r).2.
Proof.
  unfold ServeHTTP. destruct (negb _); [declared_list|].
  case_decide; [apply requireMethod_ok; declared_list|].
  case_decide; [apply requireMethod_ok; declared_list|].
  case_decide; [apply requireMethod_ok; destruct (decodeJSON _) as [q|e]; [|declared_list];
    cbv zeta; destruct (RegisterFleet _ _ _) as [s' [e|]]; declared_list|].
  case_decide; [apply requireMethod_ok; destruct (decodeJSON _) as [q|e]; declared_list|].
  case_decide; [apply requireMethod_ok; destruct (decodeJSON _) as [q|e]; [|declared_list];
    destruct (AllocateWithOptions _ _ _ _ _) as [s' [a|e]]; declared_list|].
  case_decide; [apply requireMethod_ok; destruct (decodeJSON _) as [q|e]; [|declared_list];
    destruct (StartWithRuntimeInput _ _ _) as [s' [a|e]]; declared_list|].
  destruct (HasPrefix _ "/v1/runs/").
  { apply requireMethod_ok. destruct (Split _) as [|id [|action [|? ?]]]; try declared_list.
    case_decide; [declared_list|]. cbv zeta.
    destruct (GetStatus s now id) as [s' [st|e]]; apply GetStatusObserved_ok. }
  destruct (HasPrefix _ "/v1/workloads/").
  { apply requireMethod_ok. cbv zeta. destruct (rev _) as [|action [|x init]]; try declared_list.
    case_decide; [declared_list|]. case_decide.
    - destruct (Preempt _ _) as [s' [e|]]; apply PreemptObserved_ok.
    - case_decide; [|declared_list]. destruct (Release _ _) as [s' [e|]]; declared_list. }
  case_decide; declared_list.
Qed.
End server.

(** ** The submitter *)

Lemma runIteration_ok `{Sha256, SubmitterEnv W} ns (w : W) w' effs b :
  runIteration ns w = Some (w', effs, b) →
  Forall (λ e, declared SubmitterMetrics.RegisterMetrics e = true) effs.
Proof.
  unfold runIteration. destruct (FetchMessage w) as [w1 [msg|e]]; [|intros [= <- <- <-]; declared_list].
  destruct (processMessage ns msg w1) as [[[w2 l] err]|] eqn:Hp; [|done]. cbn [mbind option_bind].
  assert (Hl : Forall (λ e, declared SubmitterMetrics.RegisterMetrics e = true) l).
  { unfold processMessage, sendToDLQ in Hp. cbv zeta in Hp.
    destruct (Unmarshal _) as [q|e]; [|destruct (WriteDLQ _ _ _ _); simplify_eq; declared_list].
    destruct (ValidateRequest q) as [e|]; [destruct (WriteDLQ _ _ _ _); simplify_eq; declared_list|].
    destruct (ToGPUWorkload q ns) as [[cr|]|]; [| |done]; cbn [mbind option_bind] in Hp.
    - destruct (Create w1 cr) as [w3 [e|]]; [destruct (IsAlreadyExists e)|]; simplify_eq; declared_list.
    - destruct (WriteDLQ _ _ _ _); simplify_eq; declared_list. }
  destruct err as [e|]; [by intros [= <- <- <-]|].
  destruct (CommitMessages w2 msg) as [w3 [e|]]; intros [= <- <- <-]; [done|].
  apply Forall_app. split; [done|declared_list].
Qed.

(** The collectors of a package are among those of the programs that use it. *)
Lemma declared_app cs1 cs2 e : declared cs2 e = true → declared (cs1 ++ cs2) e = true.
Proof.
  unfold declared, declares. destruct (update_of e) as [[[k m] ls]|]; [|done].
  rewrite existsb_app. intros ->. by rewrite orb_true_r.
Qed.

Lemma extends_more cs1 cs2 l l' : extends cs2 l l' → extends (cs1 ++ cs2) l l'.
Proof.
  intros (k & -> & Hk). exists k. split; [done|]. eapply Forall_impl; [exact Hk|].
  intros e. apply declared_app.
Qed.

(** ** The backlog loop *)

(** One call of [Set] on a gauge or on a gauge with labels. *)
Inductive gaugeValue := Count (n : Z) | Ratio (f : float64).
Record gaugeSet := { gs_metric : string; gs_labels : list string; gs_value : gaugeValue }.

Definition setQueuedByTenant (t : string) (n : Z) : gaugeSet :=
  {| gs_metric := "queued_workloads_by_tenant"; gs_labels := [t]; gs_value := Count n |}.
Definition setPlain (metric : string) (v : gaugeValue) : gaugeSet :=
  {| gs_metric := metric; gs_labels := []; gs_value := v |}.

(** The calls of one iteration of [BacklogMetrics.Start], in order. *)
Definition pollUpdates `{MapIter} (st : backlogState)
    (lists : Result (list GPUWorkload) * Result (list GPUNodePool)) : list gaugeSet :=
  let '(total, allocated) := aggregatePoolDevices lists.2 in
  match lists.1 with
  | Err _ =>
      [setPlain "queued_workloads" (Count 0); setPlain "gpu_scheduler_scheduled_workloads" (Count 0);
       setPlain "utilization_ratio" (Count 0)]
  | Ok items =>
      let c := countWorkloadsByPhase items in
      [setPlain "queued_workloads" (Count (pc_queued c));
       setPlain "gpu_scheduler_scheduled_workloads" (Count (pc_scheduled c))]
      ++ ((λ e, setQueuedByTenant e.1 0) <$>
            filter (λ e, pc_queuedByTenant c !! e.1 = None) (map_iter (bl_lastTenants st)))
      ++ ((λ e, setQueuedByTenant e.1 e.2) <$> map_iter (pc_queuedByTenant c))
  end ++
  [setPlain "utilization_ratio"
     (if 0 <? total then Ratio (of_int allocated / of_int total)%F else Count 0)].

(** The gauges of the tenants after some calls. *)
Definition applySet (m : gmap string Z) (u : gaugeSet) : gmap string Z :=
  match gs_labels u, gs_value u with
  | [t], Count n => <[t := n]> m
  | _, _ => m
  end.

Lemma applySet_fmap {A} (f : A → string) (g : A → Z) (l : list A) m :
  foldl applySet m ((λ e, setQueuedByTenant (f e) (g e)) <$> l) = foldl (λ m e, <[f e := g e]> m) m l.
Proof. revert m. induction l as [|e l IH]; intros m; [done|]. apply (IH (<[f e := g e]> m)). Qed.

Lemma resetTenant_gauges q l acc :
  (foldl (resetTenant q) acc l).1 =
  foldl (λ m e, <[e.1 := 0]> m) acc.1 (filter (λ e, q !! e.1 = None) l).
Proof.
  revert acc. induction l as [|e l IH]; intros acc; [done|]. cbn [foldl]. rewrite IH. unfold resetTenant.
  rewrite filter_cons. destruct (q !! e.1) as [x|].
  - by rewrite decide_True, decide_False by (done || by eexists).
  - rewrite decide_False by (by intros [? ?]). by rewrite decide_True.
Qed.

Lemma setTenant_gauges l acc : (foldl setTenant acc l).1 = foldl (λ m e, <[e.1 := e.2]> m) acc.1 l.
Proof. revert acc. induction l as [|e l IH]; intros acc; [done|]. apply (IH (setTenant acc e)). Qed.

(** The calls are those behind the gauges of [pollBacklog]: they leave the gauges of the tenants it has. *)
Lemma pollUpdates_gauges `{MapIter} st lists :
  bl_byTenant (pollBacklog st lists) = foldl applySet (bl_byTenant st) (pollUpdates st lists).
Proof.
  unfold pollBacklog, pollUpdates. destruct (aggregatePoolDevices lists.2) as [total allocated].
  assert (∀ m v, applySet m (setPlain "utilization_ratio" v) = m) as Hu by (by intros m []).
  destruct lists.1 as [items|e].
  - rewrite !foldl_app, !applySet_fmap. cbn [foldl]. rewrite Hu. cbv zeta.
    rewrite (surjective_pairing (foldl setTenant _ _)). cbn [bl_byTenant].
    by rewrite setTenant_gauges, resetTenant_gauges.
  - cbn [foldl app]. by rewrite Hu.
Qed.

Lemma pollUpdates_ok `{MapIter} st lists :
  Forall (λ u, declares (controller_collectors Operator) GaugeKind (gs_metric u) (gs_labels u) = true)
    (pollUpdates st lists).
Proof.
  assert (∀ t n, declares (controller_collectors Operator) GaugeKind (gs_metric (setQueuedByTenant t n))
    (gs_labels (setQueuedByTenant t n)) = true) as Ht by (intros t n; vm_compute; reflexivity).
  unfold pollUpdates. destruct (aggregatePoolDevices lists.2) as [total allocated].
  apply Forall_app. split; [|declared_list]. destruct lists.1 as [items|e]; [|declared_list].
  apply Forall_app. split; [declared_list|].
  apply Forall_app. split; apply Forall_fmap, Forall_forall; intros e _; apply Ht.
Qed.

(** C37: no update of a metric panics.  Whatever the server, the simulator and the clients answer, each
    counter, gauge and histogram that is updated by the operator (in a reconciliation, with its path
    over Jobs, in a scheduling cycle, in an iteration of the backlog loop, and by its local simulator
    when a run is looked at or preempted), by an iteration of the three loops of the worker, by a
    request to the server of the simulator and by an iteration of the submitter, is one their program
    has registered, of the kind the update needs and with as many label values as it declares. *)
Theorem updates_declared {W S N X : Type}
    `{ApiClient W, JobClient W, WorkerApi W, WorkloadRuntimeSimulator S, ApiMachinery, MapIter}
    `{SimulatorClient N, Clock N, RunEnv, Codec, Sha256, SubmitterEnv X} :
  (∀ r req now (w : @World W S),
     extends (controller_collectors Operator) (wo_log w) (wo_log (Reconcile r req now w).1)) ∧
  (∀ r url tpl o (w : @World W S),
     extends (controller_collectors Operator) (wo_log w) (wo_log (ensureWorkerJob r url tpl o w).1) ∧
     extends (controller_collectors Operator) (wo_log w)
       (wo_log (syncWorkloadPhaseFromWorkerJob r o w).1)) ∧
  (∀ cfg st0 st now (w : @World W S),
     match runSchedulingCycle cfg st0 st now w with
     | Some w' => extends (controller_collectors Operator) (wo_log w) (wo_log w')
     | None => True
     end) ∧
  (∀ st lists,
     Forall (λ u, declares (controller_collectors Operator) GaugeKind (gs_metric u) (gs_labels u) = true)
       (pollUpdates st lists)) ∧
  (∀ s now id,
     Forall (λ e, declared (default_collectors Operator) e = true)
       (GetStatusObserved s now id ++ GetLatestObserved s now id ++ PreemptObserved s id)) ∧
  (∀ done fuel cfg store msg (w : @World W N),
     let ok w' := extends (default_collectors WorkerDeployment) (wo_log w) (wo_log w') in
     ok (deploymentIteration done fuel cfg w).1 ∧ ok (watchIteration done fuel cfg store w).1.1 ∧
     ok (queueIteration done fuel cfg msg w).1) ∧
  (∀ promhttp s now req,
     Forall (λ e, declared (default_collectors SimulatorServer) e = true)
       (ServeHTTP promhttp s now req).2) ∧
  (∀ ns (x : X),
     match runIteration ns x with
     | Some (_, effs, _) =>
         Forall (λ e, declared (default_collectors SubmitterDaemon) e = true) effs
     | None => True
     end).
Proof.
  split_and!.
  - intros. apply extends_more, (Reconcile_closed _ _ _ operator_updates).
  - intros. split; [apply extends_more, ensureWorkerJob_ok|apply extends_more, syncJob_ok].
  - intros. destruct (runSchedulingCycle _ _ _ _ _) as [w'|] eqn:E; [|exact I].
    apply extends_more. by eapply (runSchedulingCycle_closed _ _ _ operator_updates).
  - intros st lists. apply pollUpdates_ok.
  - intros. apply Forall_app. split; [apply GetStatusObserved_ok|].
    apply Forall_app. split; [apply GetLatestObserved_ok|apply PreemptObserved_ok].
  - intros. unfold ok. split_and!; apply extends_more;
      [apply deploymentIteration_ok|apply watchIteration_ok|apply queueIteration_ok].
  - intros. apply ServeHTTP_ok.
  - intros. destruct (runIteration ns x) as [[[x' effs] b]|] eqn:E; [|exact I].
    by eapply runIteration_ok.
Qed.
