(* ===== verification/Operator.v ===== *)
(** * The operator as a whole

    The scheduler loop, the workload reconciler and the pool reconciler run in one process, over one
    API server and one simulator (cmd/main.go): the loop admits and preempts, the reconciler starts,
    polls and releases, the pool reconciler registers fleets, and other clients write to the server in
    between.  Here their handlers are the steps of one system, in any order and number, and the
    properties of the parts are put together. *)

From stdpp Require Import prelude gmap strings.
From S2P Require Import Prelude GoFloat SimModel Placement Runtime Simulator SchedInputs Selection.
From S2P Require Import Resources SchedState Cluster SchedulerLoop Reconciler Metrics Handlers.

Local Open Scope Z_scope.
Local Open Scope go_scope.

(** ** The system *)

Section system.
Context {W : Type} `{ApiLaws W, ApiMachineryLaws}.
Local Notation World := (@Cluster.World W Simulator).
Implicit Types w : World.

(** One handler runs to its end, or another client writes: then the server knows more versions, and
    this client has written nothing. *)
Inductive operator_step : World → World → Prop :=
| op_reconcile (I : MapIter) (R : RunEnv) r req now w w' out :
    Reconcile r req now w = (w', out) → operator_step w w'
| op_cycle (I : MapIter) (R : RunEnv) cfg st0 st now w w' :
    runSchedulingCycle cfg st0 st now w = Some w' → operator_step w w'
| op_register w k spec : operator_step w (with_sim w (RegisterFleet (wo_sim w) k spec).1)
| op_delete w k : operator_step w (with_sim w (DeleteFleet (wo_sim w) k))
| op_others w a :
    (∀ o, was_stored (wo_api w) o → was_stored a o) → history a = history (wo_api w) →
    operator_step w (with_api w a).

(** So many steps. *)
Definition operator_runs : nat → World → World → Prop := nsteps operator_step.

(** ** What the operator asks of the simulator *)

(** The server has held [id] in the phase Scheduled, not under deletion. *)
Definition was_scheduled (a : W) (id : string) : Prop :=
  ∃ o, was_stored a o ∧ workload_id o = id ∧ phase_of o = GPUWorkloadPhaseScheduled ∧
       deletionIsZero o = true.

(** The calls of the simulator but the start of a run: devices are asked for only for workloads that
    were scheduled. *)
Inductive quiet_call (scheduled : string → Prop) : Simulator → Simulator → Prop :=
| qc_allocate (I : MapIter) s id g m opts :
    scheduled id → quiet_call scheduled s (AllocateWithOptions s id g m opts).1
| qc_latest (I : MapIter) s now id : quiet_call scheduled s (GetLatestRunStatusForWorkload s now id).1
| qc_preempt (I : MapIter) s id : quiet_call scheduled s (Preempt s id).1
| qc_release s id : quiet_call scheduled s (Release s id).1
| qc_register s k spec : quiet_call scheduled s (RegisterFleet s k spec).1
| qc_delete s k : quiet_call scheduled s (DeleteFleet s k).

(** Calls of the simulator with at most [n] starts among them. *)
Inductive calls (scheduled : string → Prop) : nat → Simulator → Simulator → Prop :=
| calls_none n s : calls scheduled n s s
| calls_quiet n s s1 s2 :
    calls scheduled n s s1 → quiet_call scheduled s1 s2 → calls scheduled n s s2
| calls_start (I : MapIter) (R : RunEnv) n s s1 now input :
    calls scheduled n s s1 → calls scheduled (S n) s (StartWithRuntimeInput s1 now input).1.

Lemma calls_mono (P Q : string → Prop) n m s s' :
  (∀ id, P id → Q id) → (n ≤ m)%nat → calls P n s s' → calls Q m s s'.
Proof.
  intros HPQ Hn Hc. revert m Hn.
  induction Hc as [|n s s1 s2 _ IH Hq|I R n s s1 now input _ IH]; intros m Hn; [constructor| |].
  - eapply calls_quiet; [by apply IH|]. destruct Hq; constructor; auto.
  - destruct m as [|m]; [lia|]. apply calls_start. apply IH. lia.
Qed.

Lemma calls_app P n m s1 s2 s3 : calls P n s1 s2 → calls P m s2 s3 → calls P (n + m) s1 s3.
Proof.
  intros H12. induction 1 as [|m s s' s'' _ IH Hq|I R m s s' now input _ IH].
  - eapply calls_mono; [done| |exact H12]. lia.
  - by eapply calls_quiet; [apply IH|].
  - rewrite Nat.add_succ_r. apply calls_start. by apply IH.
Qed.

(** A part of an execution: nothing is forgotten by the server, and the simulator is reached by calls
    with at most [n] starts. *)
Definition goes_on (n : nat) w w' : Prop :=
  (∀ o, was_stored (wo_api w) o → was_stored (wo_api w') o) ∧
  calls (was_scheduled (wo_api w')) n (wo_sim w) (wo_sim w').

Lemma was_scheduled_mono a b :
  (∀ o, was_stored a o → was_stored b o) → ∀ id, was_scheduled a id → was_scheduled b id.
Proof. intros Hk id (o & ? & ? & ? & ?). exists o. eauto. Qed.

Lemma goes_on_app n m w1 w2 w3 : goes_on n w1 w2 → goes_on m w2 w3 → goes_on (n + m) w1 w3.
Proof.
  intros [K1 C1] [K2 C2]. split; [auto|]. eapply calls_app; [|exact C2].
  eapply calls_mono; [|reflexivity|exact C1]. by apply was_scheduled_mono.
Qed.

Lemma goes_on_more w w' : goes_on 0 w w' → goes_on 1 w w'.
Proof. intros [? Hc]. split; [done|]. eapply calls_mono; [done| |exact Hc]. lia. Qed.

Lemma goes_on_call w s :
  quiet_call (was_scheduled (wo_api w)) (wo_sim w) s → goes_on 0 w (with_sim w s).
Proof. intros Hc. split; [done|]. eapply calls_quiet; [constructor|done]. Qed.

Lemma goes_on_api w a :
  (∀ o, was_stored (wo_api w) o → was_stored a o) → goes_on 0 w (with_api w a).
Proof. intros Hk. split; [done|constructor]. Qed.

(** A reconciliation starts at most one run, a cycle none. *)
Lemma handlers_go_on `{MapIter, RunEnv} :
  call_closed (S := Simulator) (λ a o, was_scheduled a (workload_id o)) (goes_on 0) (goes_on 1).
Proof.
  split; intros; simpl.
  - split; [intros w; split; [done|constructor]|]. intros w1 w2 w3. apply (goes_on_app 0 0).
  - by apply goes_on_more.
  - exact (goes_on_app 0 1 _ _ _ H5 (goes_on_app 1 0 _ _ _ H6 H7)).
  - apply goes_on_api. apply get_keeps.
  - apply goes_on_api. intros o'. apply status_keeps.
  - apply goes_on_api. intros o'. apply update_keeps.
  - by apply goes_on_call, qc_allocate.
  - split; [done|]. simpl. apply calls_start. constructor.
  - apply goes_on_call, qc_latest.
  - apply goes_on_call, qc_preempt.
  - apply goes_on_call, qc_release.
  - split; [done|constructor].
  - destruct (get_ok a k b o) as [Hs _]; [done|]. by exists o.
  - exfalso. destruct (status_ok a (initQueued o now) b o') as
      (? & after & _ & _ & _ & (_ & _ & _ & _ & Hst & _) & _ & _ & Ha & _); [done|].
    unfold phase_of in *. rewrite Hst, Ha in *. done.
Qed.

(** ** Every step *)

(** A write of the operator: of the reconciler or of a cycle. *)
Definition operator_write (x : apiWrite) : Prop := legal_write x ∨ cycle_write x.

Lemma writes_by_impl (P Q : apiWrite → Prop) w w' :
  (∀ x, P x → Q x) → writes_by P w w' → writes_by Q w w'.
Proof. intros HPQ (l & E & Hl). exists l. split; [done|]. by eapply Forall_impl. Qed.

Lemma cycle_any_effect `{MapIter, RunEnv} cfg st0 st now w w' :
  runSchedulingCycle cfg st0 st now w = Some w' → cycle_effect w w'.
Proof.
  assert (Hloop : ∀ nss w w', namespaceLoop cfg st now nss w = Some w' → cycle_effect w w').
  { clear w w'. intros nss. induction nss as [|ns nss IH]; intros w w'; cbn [namespaceLoop].
    { intros [= <-]. apply cycle_effect_emit. }
    destruct (snapshotForNamespace _ _) as [inp|]; [|apply IH]. case_decide; [apply IH|].
    destruct (Validate inp); [apply IH|].
    destruct (batchLoop _ _ _ _ _ _) as [b|] eqn:Hb; [|done]. apply batch_effect in Hb.
    destruct (0 <? _).
    { intros [= <-]. etrans; [exact Hb|apply cycle_effect_emit]. }
    intros Hn%IH. etrans; [exact Hb|]. etrans; [|exact Hn].
    repeat case_decide; try reflexivity. destruct (lc_Recorder cfg); [|reflexivity].
    apply reportNoFit_effect. }
  intros Hr%Hloop. etrans; [|exact Hr]. apply cycle_effect_emit.
Qed.

Lemma operator_step_goes_on w w' : operator_step w w' → goes_on 1 w w'.
Proof.
  destruct 1 as [I R r req now w w' out HR|I R cfg st0 st now w w' HC|w k spec|w k|w a Hk Hh].
  - pose proof (Reconcile_closed _ _ _ handlers_go_on r req now w) as Hc. by rewrite HR in Hc.
  - apply goes_on_more. exact (runSchedulingCycle_closed _ _ _ handlers_go_on cfg st0 st now w w' HC).
  - apply goes_on_more, goes_on_call, qc_register.
  - apply goes_on_more, goes_on_call, qc_delete.
  - by apply goes_on_more, goes_on_api.
Qed.

Lemma operator_step_writes w w' : operator_step w w' → writes_by operator_write w w'.
Proof.
  destruct 1 as [I R r req now w w' out HR|I R cfg st0 st now w w' HC|w k spec|w k|w a Hk Hh].
  - eapply writes_by_impl; [|by eapply Reconcile_writes]. by left.
  - eapply writes_by_impl; [|exact (ce_writes _ _ (cycle_any_effect _ _ _ _ _ _ HC))]. by right.
  - by apply writes_same.
  - by apply writes_same.
  - by apply writes_same.
Qed.

Lemma operator_runs_spec n w w' :
  operator_runs n w w' → goes_on n w w' ∧ writes_by operator_write w w'.
Proof.
  induction 1 as [w|n w1 w2 w3 Hs _ [Hg Hw]]; [split; [split; [done|constructor]|reflexivity]|]. split.
  - apply (goes_on_app 1 n _ w2); [by apply operator_step_goes_on|done].
  - etransitivity; [by apply operator_step_writes|done].
Qed.
End system.

(** ** Who holds devices *)

(** The workloads the simulator serves: those with devices and those with a run. *)
Definition served (s : Simulator) (id : string) : Prop := has_allocation s id ∨ has_running_run s id.

Lemma has_running_refresh s now key run s' st id :
  sim_runs s !! key = Some run → refreshRun s now key run = (s', st) →
  has_running_run s' id → has_running_run s id.
Proof.
  unfold refreshRun, has_running_run. intros Hk. destruct (_ && _) eqn:E; intros [= <- <-]; [|done].
  intros (k & r & Hr & Hw & Hs). simpl in Hr.
  apply lookup_insert_Some in Hr as [[<- <-]|[_ Hr]]; [done|]. by exists k, r.
Qed.

(** One call: whoever is served now was served before or has just been scheduled. *)
Lemma quiet_call_served P s s' id :
  sim_wf s → quiet_call P s s' → served s' id → served s id ∨ P id.
Proof.
  unfold served. intros Hwf. destruct 1 as [I s id' g m opts HP|I s now id'|I s id'|s id'|s k spec|s k].
  - destruct (AllocateWithOptions s id' g m opts) as [s' r] eqn:E. simpl.
    apply allocate_holds in E as (_ & Hr & Ha); [|done]. rewrite Hr.
    destruct r as [a|e]; [|rewrite Ha; tauto]. destruct Ha as [_ Ha]. rewrite Ha.
    intros [[->|?]|?]; auto.
  - unfold GetLatestRunStatusForWorkload. case_decide; [tauto|].
    destruct (foldl _ _ _) as [[key run]|] eqn:Hl; [|tauto].
    destruct (refreshRun s now key run) as [s1 st] eqn:Hf. simpl.
    apply GetLatest_record in Hl as [Hl _]. intros [Ha|Hr].
    + left. left. unfold has_allocation, refreshRun in *. by destruct (_ && _); simplify_eq.
    + left. right. by eapply has_running_refresh.
  - destruct (Preempt s id') as [s' r] eqn:E. simpl. apply preempt_runs in E as (_ & Ha & Hr); [|done].
    rewrite Ha. destruct r; rewrite Hr; tauto.
  - destruct (Release s id') as [s' r] eqn:E. simpl. apply release_holds in E as (_ & Hr & Ha); [|done].
    rewrite Hr. destruct r; rewrite Ha; tauto.
  - unfold RegisterFleet. destruct (buildNodesWithPoolKey _ _); tauto.
  - unfold DeleteFleet. case_decide; tauto.
Qed.

Lemma start_served `{MapIter, RunEnv} s now input id :
  served (StartWithRuntimeInput s now input).1 id → served s id.
Proof.
  unfold served. destruct (StartWithRuntimeInput s now input) as [s' r] eqn:E. simpl.
  apply StartWithRuntimeInput_inv in E. destruct r as [rid|e]; [|by subst].
  destruct E as (input' & a & d & _ & Ha & _ & _ & _ & _ & ->).
  unfold has_allocation, has_running_run. simpl. intros [?|(k & r & Hr & Hw & Hst)]; [auto|].
  apply lookup_insert_Some in Hr as [[_ <-]|[_ Hr]]; [|by right; exists k, r].
  simpl in Hw. subst id. left. by eexists.
Qed.

Lemma quiet_call_step P s s' :
  quiet_call P s s' → sim_step s s' ∧ sim_nextRunID s' = sim_nextRunID s.
Proof.
  destruct 1 as [I s id' g m opts HP|I s now id'|I s id'|s id'|s k spec|s k].
  - split; [eapply step_allocate, surjective_pairing|].
    destruct (AllocateWithOptions s id' g m opts) as [s' r] eqn:E. apply AllocateWithOptions_inv in E.
    destruct r; [|by subst]. by destruct E as (_ & _ & _ & _ & _ & -> & _).
  - split; [eapply step_latest, surjective_pairing|].
    unfold GetLatestRunStatusForWorkload, refreshRun. by repeat case_match; simplify_eq.
  - split; [eapply step_preempt, surjective_pairing|]. unfold Preempt. by repeat case_match; simplify_eq.
  - split; [eapply step_release, surjective_pairing|]. unfold Release. by case_decide.
  - split; [eapply step_register, surjective_pairing|]. unfold RegisterFleet. by case_match.
  - split; [apply step_delete|]. unfold DeleteFleet. by case_decide.
Qed.

Lemma quiet_call_wf P s s' : sim_wf s → quiet_call P s s' → sim_wf s'.
Proof.
  intros Hwf. destruct 1.
  - eapply Allocate_preserves, surjective_pairing. done.
  - eapply GetLatest_preserves, surjective_pairing. done.
  - eapply Preempt_preserves, surjective_pairing. done.
  - eapply Release_preserves, surjective_pairing. done.
  - eapply RegisterFleet_preserves, surjective_pairing. done.
  - by apply DeleteFleet_preserves.
Qed.

(** From a new simulator, with as many starts as its counter allows. *)
Lemma calls_spec P n s :
  calls P n NewSimulator s → Z.of_nat n ≤ int64_max →
  sim_wf s ∧ sim_nextRunID s ≤ Z.of_nat n ∧ ∀ id, served s id → P id.
Proof.
  remember NewSimulator as s0 eqn:E0. intros Hc.
  induction Hc as [n s|n s s1 s2 _ IH Hq|I R n s s1 now input _ IH]; intros Hn; subst s.
  - split_and!; [apply NewSimulator_wf|simpl; lia|]. intros id [[a Ha]|(key & r & Hr & _)].
    + cbn [NewSimulator sim_allocations] in Ha. by rewrite lookup_empty in Ha.
    + cbn [NewSimulator sim_runs] in Hr. by rewrite lookup_empty in Hr.
  - destruct IH as (Hwf & Hx & Hs); [done|done|]. pose proof (quiet_call_step _ _ _ Hq) as [Hst He].
    split_and!; [|lia|].
    + by eapply quiet_call_wf.
    + intros id Hid. destruct (quiet_call_served P s1 s2 id Hwf Hq Hid); auto.
  - destruct IH as (Hwf & Hx & Hs); [done|lia|].
    pose proof (step_start I R s1 now input _ _ (surjective_pairing _)) as Hst.
    pose proof (wf_next _ Hwf). pose proof (sim_step_next _ _ Hst ltac:(lia) ltac:(lia)).
    split_and!; [eapply sim_step_preserves; [|exact Hwf|exact Hst]; lia|lia|].
    intros id Hid%start_served. auto.
Qed.

(** C3: the operator as a whole is safe.  In whatever order reconciliations, scheduling cycles and
    fleet registrations run, with other clients writing in between, and whatever the server answers:
    every status write of the operator is one of the life cycle or of a cycle, against the version
    that was read; no device of its simulator is allocated twice; and a workload holds devices or runs
    only if the server has held it in the phase Scheduled and not under deletion. *)
Theorem operator_safe {W : Type} `{ApiLaws W, ApiMachineryLaws} (n : nat)
    (w0 w : @World W Simulator) :
  operator_runs n w0 w → wo_sim w0 = NewSimulator → Z.of_nat n ≤ int64_max →
  writes_by operator_write w0 w ∧
  (∀ w1 w2 a1 a2 id, sim_allocations (wo_sim w) !! w1 = Some a1 →
     sim_allocations (wo_sim w) !! w2 = Some a2 →
     id ∈ a_DeviceIDs a1 → id ∈ a_DeviceIDs a2 → w1 = w2) ∧
  (∀ id, served (wo_sim w) id → was_scheduled (wo_api w) id).
Proof.
  intros Hr Hnew Hn. apply operator_runs_spec in Hr as [[_ Hc] Hw]. rewrite Hnew in Hc.
  destruct (calls_spec _ _ _ Hc Hn) as (Hwf & _ & Hs). split; [done|]. split; [|exact Hs].
  by apply (allocations_disjoint _ Hwf).
Qed.

(** ** Examples *)

Module OperatorExample.
Import ReconcileExample.
Local Notation World := (@Cluster.World SmallServer.server Simulator).
(** A new simulator and a scheduled workload; a fleet is registered, then the workload reconciled. *)
Definition w0 : World :=
  {| wo_api := SmallServer.init [object GPUWorkloadPhaseScheduled None]; wo_sim := NewSimulator;
     wo_log := [] |}.
Definition w1 : World := with_sim w0 (RegisterFleet (wo_sim w0) "ns/pool" SimExample.spec).1.
Definition started : World := (Reconcile r req 100 w1).1.

Lemma runs_to_started : operator_runs 2 w0 started.
Proof.
  eapply nsteps_l; [exact (op_register w0 "ns/pool" SimExample.spec)|]. apply nsteps_once.
  apply (op_reconcile map_iter_canonical env r req 100 w1 started (Reconcile r req 100 w1).2).
  unfold started. apply surjective_pairing.
Qed.

(** The workload is deleted while it runs, and created again under its name and scheduled. *)
Definition deleted : World :=
  with_api started (SmallServer.init [object GPUWorkloadPhaseRunning (Some 150)]).
Definition recreated : World :=
  with_api (Reconcile r req 150 deleted).1 (SmallServer.init [object GPUWorkloadPhaseScheduled None]).
Definition again : World := (Reconcile r req 200 recreated).1.
Definition phase_now (w : World) : option GPUWorkloadPhase :=
  option_map phase_of (SmallServer.get (wo_api w) req).
Definition starts (w : World) : list (string * Time) :=
  (λ e, (e.1, run_StartedAt e.2)) <$> map_to_list (sim_runs (wo_sim w)).
Definition later (w : World) : World := (Reconcile r req (10 ^ 15) w).1.
End OperatorExample.

Section operator_examples.
Import ReconcileExample OperatorExample.

Lemma operator_safe_witness :
  served (wo_sim started) "ns/w" ∧ was_scheduled (wo_api started) "ns/w" ∧
  writes_by operator_write w0 started.
Proof.
  destruct (operator_safe 2 w0 started runs_to_started eq_refl ltac:(by vm_compute)) as (Hw & _ & Hs).
  assert (Hv : served (wo_sim started) "ns/w").
  { left. destruct (sim_allocations (wo_sim started) !! "ns/w") as [a|] eqn:E; [|by vm_compute in E].
    by exists a. }
  exact (conj Hv (conj (Hs "ns/w" Hv) Hw)).
Defined.

(** Deleting a running workload releases its devices and leaves its run going: a workload created
    under the same name takes that run for its own.  It is marked Running without a run being started
    for it, and Succeeded when the old run ends. *)
Example deleted_run_adopted :
  starts started = [("run-1", 100)] ∧ phase_now again = Some GPUWorkloadPhaseRunning ∧
  starts again = [("run-1", 100)] ∧ phase_now (later again) = Some GPUWorkloadPhaseSucceeded.
Proof. by vm_compute. Qed.
End operator_examples.
