(* ===== verification/OperatorLiveness.v ===== *)
(** * The operator finishes what it admits

    On a server that nobody else writes to and that accepts what it documents to accept, a scheduled
    workload the simulator can run is carried through: started by its first reconciliation, polled
    until its run ends, and then marked Succeeded and released. *)

From stdpp Require Import prelude gmap strings pretty.
From S2P Require Import Prelude GoFloat SimModel Placement Runtime Simulator SchedInputs Selection.
From S2P Require Import Resources SchedState Cluster SchedulerLoop Reconciler.

Local Open Scope Z_scope.
Local Open Scope go_scope.

(** ** A quiet server *)

(** The metadata a write of one part of an object leaves alone. *)
Definition same_object (o o' : GPUWorkload) : Prop :=
  key_of (w_Meta o') = key_of (w_Meta o) ∧ w_Spec o' = w_Spec o ∧
  om_DeletionTimestamp (w_Meta o') = om_DeletionTimestamp (w_Meta o) ∧
  om_Finalizers (w_Meta o') = om_Finalizers (w_Meta o).

(** Documented: a read returns the current object, and a write against the current version is
    accepted; it replaces the status, or all but the status, of the current object. *)
Class QuietApi (W : Type) `{ApiClient W} := {
  settled : W → Prop;
  current : W → NamespacedName → option GPUWorkload;
  quiet_get : ∀ a k o, settled a → current a k = Some o →
    ∃ b, Get a k = (b, Ok o) ∧ settled b ∧ ∀ k', current b k' = current a k';
  quiet_key : ∀ a k o, settled a → current a k = Some o → key_of (w_Meta o) = k;
  quiet_status : ∀ a o cur, settled a → current a (key_of (w_Meta o)) = Some cur →
    om_ResourceVersion (w_Meta cur) = om_ResourceVersion (w_Meta o) →
    ∃ b after o', StatusUpdate a o = (b, Ok o') ∧ settled b ∧
      (∀ k, current b k = if decide (k = key_of (w_Meta o)) then Some after else current a k) ∧
      w_Status after = w_Status o ∧ same_object cur after ∧ answered o after o';
  quiet_update : ∀ a o cur, settled a → current a (key_of (w_Meta o)) = Some cur →
    om_ResourceVersion (w_Meta cur) = om_ResourceVersion (w_Meta o) →
    ∃ b after o', Update a o = (b, Ok o') ∧ settled b ∧
      (∀ k, current b k = if decide (k = key_of (w_Meta o)) then Some after else current a k) ∧
      w_Status after = w_Status cur ∧ answered o after o' ∧
      om_DeletionTimestamp (w_Meta after) = om_DeletionTimestamp (w_Meta cur);
}.

(** ** The run of the workload *)

Lemma prepareInput_id `{RunEnv} input input' :
  prepareInput input = Ok input' → ri_WorkloadID input' = ri_WorkloadID input.
Proof.
  unfold prepareInput. repeat (case_decide; [done|]). intros Hp.
  repeat case_match; simplify_eq; unfold applyKindDefaults, with_kind; repeat case_match; done.
Qed.

(** The run that a poll of workload [id] finds. *)
Definition latest_run (s : Simulator) (id key : string) (run : runRecord) : Prop :=
  sim_runs s !! key = Some run ∧ run_WorkloadID run = id ∧
  ∀ k r, sim_runs s !! k = Some r → run_WorkloadID r = id → k ≠ key →
    run_StartedAt r < run_StartedAt run.

Lemma GetLatest_latest `{MapIter} s now id key run :
  id ≠ "" → latest_run s id key run →
  GetLatestRunStatusForWorkload s now id = let '(s', st) := refreshRun s now key run in (s', Ok st).
Proof.
  intros Hid (Hk & Hw & Hmax). unfold GetLatestRunStatusForWorkload. rewrite decide_False by done.
  destruct (foldl _ _ _) as [[k r]|] eqn:Hf.
  - apply GetLatest_record in Hf as (Hr & Hrw & Hlast).
    destruct (decide (k = key)) as [->|Hne]; [by simplify_eq|].
    pose proof (Hmax k r Hr Hrw Hne). pose proof (Hlast key run Hk Hw). lia.
  - pose proof (later_spec id (map_iter (sim_runs s)) None ltac:(done)) as Hs. rewrite Hf in Hs.
    destruct Hs as [_ Hs]. exfalso. apply (Hs (key, run)); [by apply map_iter_lookup|done].
Qed.

(** ** Reconciliations *)

Section operator.
Context {W : Type} `{QuietApi W, ApiMachinery, MapIter, RunEnv}.
Local Notation World := (@Cluster.World W Simulator).
Implicit Types w : World.
Context (r : GPUWorkloadReconciler) (req : NamespacedName).
Context (Hsim : rc_RuntimeSimulator r = true) (Hpool : rc_UseWorkerPool r = false).

(** The object of [req] is in phase [p], is not being deleted and has its finalizer. *)
Definition standing (w : World) (p : GPUWorkloadPhase) (o : GPUWorkload) : Prop :=
  settled (wo_api w) ∧ current (wo_api w) req = Some o ∧ phase_of o = p ∧
  om_DeletionTimestamp (w_Meta o) = None ∧
  ContainsFinalizer (om_Finalizers (w_Meta o)) gpuWorkloadFinalizer = true.

Lemma standing_zero w p o : standing w p o → deletionIsZero o = true.
Proof. intros (_ & _ & _ & Hd & _). unfold deletionIsZero. by rewrite Hd. Qed.

(** Reading the object and finding it in a phase that is neither new nor terminal. *)
Lemma reconcile_standing w p o now :
  standing w p o → isTerminalPhase p = false → p ≠ PhaseNone →
  ∃ b, settled b ∧ (∀ k, current b k = current (wo_api w) k) ∧
    Reconcile r req now w = actuate r o now (with_api w b).
Proof using Type.
  intros Hs Ht Hn. pose proof (standing_zero _ _ _ Hs) as Hz.
  destruct Hs as (Hset & Hc & Hp & Hd & Hf). destruct (quiet_get _ _ _ Hset Hc) as (b & Hg & Hb & He).
  exists b. split_and!; [done|done|]. unfold Reconcile. rewrite Hg, Hz, Hf, Hp, Ht. simpl.
  by rewrite bool_decide_eq_false_2.
Qed.

Lemma standing_api w b p o :
  standing w p o → settled b → (∀ k, current b k = current (wo_api w) k) →
  standing (with_api w b) p o.
Proof. intros (_ & Hc & ?) Hb He. split_and!; try tauto. cbn. by rewrite He. Qed.

(** A status write of the standing object. *)
Lemma standing_write w p o o1 :
  standing w p o → key_of (w_Meta o1) = key_of (w_Meta o) →
  om_ResourceVersion (w_Meta o1) = om_ResourceVersion (w_Meta o) →
  ∃ w' after o', updateStatus w o1 = (w', Ok o') ∧ wo_sim w' = wo_sim w ∧
    standing w' (phase_of o1) after ∧ w_Spec after = w_Spec o ∧ answered o1 after o'.
Proof using Type.
  intros (Hset & Hc & Hp & Hd & Hf) Hk Hv. pose proof (quiet_key _ _ _ Hset Hc) as Hkey.
  destruct (quiet_status (wo_api w) o1 o Hset) as (b & after & o' & Hu & Hb & He & Hst & Hsame & Hans).
  { by rewrite Hk, Hkey. }
  { done. }
  destruct Hsame as (Hk' & Hsp & Hd' & Hf').
  exists (with_api w b), after, o'. unfold updateStatus, standing. rewrite Hu. split_and!; try done.
  - cbn [with_api wo_api]. rewrite He, decide_True; [done|]. by rewrite Hk, Hkey.
  - unfold phase_of. by rewrite Hst.
  - by rewrite Hd'.
  - by rewrite Hf'.
Qed.

Lemma record_keeps_world w o ty reason msg :
  wo_api (record r w o ty reason msg) = wo_api w ∧ wo_sim (record r w o ty reason msg) = wo_sim w.
Proof. unfold record, recordEvent. by destruct (rc_Recorder r). Qed.

(** The first reconciliation of a scheduled workload: it is started and marked Running. *)
Lemma reconcile_starts w o now s1 a s2 runID :
  standing w GPUWorkloadPhaseScheduled o →
  AllocateWithOptions (wo_sim w) (workload_id o) (ws_GPUCount (w_Spec o)) (ws_GPUMemoryMiB (w_Spec o))
    {| o_PlacementPolicy := PlacementPolicyFirstFit; o_RequireSameNode := false; o_MaxNodes := 0;
       o_PreferredDeviceType := "";
       o_PreferredProfile := ToLower (TrimSpace (ws_Profile (w_Spec o))) |} = (s1, Ok a) →
  StartWithRuntimeInput s1 now (buildRuntimeInput (workload_id o) o) = (s2, Ok runID) →
  ∃ w' o', Reconcile r req now w = (w', finished) ∧ wo_sim w' = s2 ∧
    standing w' GPUWorkloadPhaseRunning o' ∧ workload_id o' = workload_id o.
Proof using Hpool Hsim.
  intros Hs HA HS. destruct (reconcile_standing w _ o now Hs) as (b & Hb & He & ->); [done..|].
  pose proof (standing_api _ b _ _ Hs Hb He) as Hs'. pose proof (standing_zero _ _ _ Hs) as Hz.
  pose proof Hs as (_ & _ & Hp & _). unfold actuate. rewrite Hz, Hp, Hpool. cbn [andb].
  rewrite bool_decide_eq_true_2 by done. unfold executeAdmission. rewrite Hsim, Hp. cbn [negb].
  rewrite decide_True by done. unfold allocateAndStart. cbv zeta.
  cbn [wrs_AllocateWithOptions simulator_runtime wo_sim with_api]. rewrite HA.
  unfold startRun. cbn [wrs_StartWithRuntimeInput simulator_runtime wo_sim with_sim with_api].
  rewrite HS. unfold markRunning. rewrite Hp. rewrite decide_False by done.
  destruct (standing_write (with_sim (with_sim (with_api w b) s1) s2) GPUWorkloadPhaseScheduled o
    (with_phase o GPUWorkloadPhaseRunning)) as (w' & after & o' & Hu & Hsm & Hst & Hsp & Hans);
    [exact Hs'|done|done|].
  rewrite Hu. destruct (record_keeps_world w' o' "Normal" "Running" "Workload running") as [Ea Es].
  eexists _, after. split; [reflexivity|]. rewrite Es. split; [by rewrite Hsm|]. split.
  - unfold standing. rewrite Ea. exact Hst.
  - destruct Hans as (Hk & _). unfold workload_id. by rewrite Hk.
Qed.

(** A reconciliation while the run goes on: nothing changes, and it comes again in two seconds. *)
Lemma reconcile_waits w o now key run :
  standing w GPUWorkloadPhaseRunning o → workload_id o ≠ "" →
  latest_run (wo_sim w) (workload_id o) key run → run_Status run = RunStatusRunning →
  now < run_EndsAt run →
  ∃ b, Reconcile r req now w = (with_api w b, {| oc_RequeueAfter := 2 * Second; oc_err := None |}) ∧
    standing (with_api w b) GPUWorkloadPhaseRunning o.
Proof using Hpool Hsim.
  intros Hs Hid Hl Hr Hlt. destruct (reconcile_standing w _ o now Hs) as (b & Hb & He & ->); [done..|].
  pose proof (standing_zero _ _ _ Hs) as Hz. pose proof Hs as (_ & _ & Hp & _).
  exists b. split; [|by apply standing_api]. unfold actuate. rewrite Hz, Hp, Hpool. cbn [andb].
  rewrite (bool_decide_eq_false_2 (GPUWorkloadPhaseRunning = _)) by done.
  rewrite bool_decide_eq_true_2 by done. unfold pollRunningStatus. rewrite Hsim. cbn [negb].
  cbv zeta. cbn [wrs_GetLatestRunStatusForWorkload simulator_runtime wo_sim with_api].
  rewrite (GetLatest_latest _ now _ _ _ Hid Hl). unfold refreshRun, Before. rewrite Hr.
  rewrite (proj2 (Z.ltb_lt now (run_EndsAt run))) by done. done.
Qed.

(** The reconciliation that finds the run over. *)
Lemma reconcile_finishes w o now key run :
  standing w GPUWorkloadPhaseRunning o → workload_id o ≠ "" →
  latest_run (wo_sim w) (workload_id o) key run → run_Status run = RunStatusRunning →
  run_EndsAt run ≤ now →
  ∃ w' o', Reconcile r req now w = (w', finished) ∧
    current (wo_api w') req = Some o' ∧ phase_of o' = GPUWorkloadPhaseSucceeded ∧
    sim_allocations (wo_sim w') = delete (workload_id o) (sim_allocations (wo_sim w)) ∧
    sim_runs (wo_sim w') = <[key := with_status run RunStatusSucceeded]> (sim_runs (wo_sim w)).
Proof using Hpool Hsim.
  intros Hs Hid Hl Hr Hge. destruct (reconcile_standing w _ o now Hs) as (b & Hb & He & ->); [done..|].
  pose proof (standing_api _ b _ _ Hs Hb He) as Hs'. pose proof (standing_zero _ _ _ Hs) as Hz.
  pose proof Hs as (_ & Hcur & Hp & _). unfold actuate. rewrite Hz, Hp, Hpool. cbn [andb].
  rewrite (bool_decide_eq_false_2 (GPUWorkloadPhaseRunning = _)) by done.
  rewrite bool_decide_eq_true_2 by done. unfold pollRunningStatus. rewrite Hsim. cbn [negb].
  cbv zeta. cbn [wrs_GetLatestRunStatusForWorkload simulator_runtime wo_sim with_api].
  rewrite (GetLatest_latest _ now _ _ _ Hid Hl). unfold refreshRun, Before. rewrite Hr.
  rewrite (proj2 (Z.ltb_ge now (run_EndsAt run))) by done. rewrite bool_decide_eq_true_2 by done.
  cbn [andb negb targetPhase]. rewrite Hp. rewrite decide_False by done.
  rewrite bool_decide_eq_true_2 by done. set (s1 := with_runs (wo_sim w) _).
  destruct (standing_write (with_sim (with_api w b) s1) GPUWorkloadPhaseRunning o
    (countCompletion (with_phase o GPUWorkloadPhaseSucceeded)))
    as (w1 & after & o1 & Hu & Hsm & Hst & Hsp & Hans); [exact Hs'|done|done|].
  rewrite Hu. destruct Hst as (Hset1 & Hc1 & Hp1 & Hd1 & _). destruct Hans as (Hka & Hk1 & Hv1 & Hd & _).
  assert (Hreq : key_of (w_Meta o1) = req).
  { rewrite Hk1. cbn. exact (quiet_key _ _ _ (proj1 Hs) Hcur). }
  unfold updateObject. cbn [wo_api emit].
  destruct (quiet_update (wo_api w1) o1 after Hset1) as (c & after2 & o2 & Hu2 & Hset2 & He2 & Hst2 & Hans2 & Hd2).
  { by rewrite Hreq. }
  { by rewrite Hv1. }
  rewrite Hu2. unfold release. cbn [wo_sim with_api emit wrs_Release simulator_runtime].
  rewrite Hsm. cbn [wo_sim with_sim]. unfold Release. rewrite decide_False by done.
  cbn [fst]. assert (Hz2 : deletionIsZero o2 = true).
  { destruct Hans2 as (_ & _ & _ & Hd3 & _). unfold deletionIsZero. by rewrite Hd3, Hd2, Hd1. }
  assert (Hev : ∀ w2 o3 p, wo_api (completionEvent r w2 o3 p) = wo_api w2 ∧
    wo_sim (completionEvent r w2 o3 p) = wo_sim w2).
  { intros w2 o3 p. unfold completionEvent. destruct p; try done; apply record_keeps_world. }
  set (w2 := with_sim _ _). destruct (Hev w2 o2 GPUWorkloadPhaseSucceeded) as [Ea Es].
  rewrite Hz2. cbn [negb]. eexists _, after2. split; [reflexivity|]. rewrite Ea, Es.
  split_and!; [|unfold phase_of in *; by rewrite Hst2, Hp1|done|done].
  cbn [w2 with_sim wo_api with_api]. by rewrite He2, decide_True.
Qed.

(** Reconciliations at the times [ts], one after the other. *)
Definition reconcileAt (w : World) (ts : list Time) : World :=
  foldl (λ w t, (Reconcile r req t w).1) w ts.

Lemma reconcile_waits_all ts w o key run :
  standing w GPUWorkloadPhaseRunning o → workload_id o ≠ "" →
  latest_run (wo_sim w) (workload_id o) key run → run_Status run = RunStatusRunning →
  Forall (λ t, t < run_EndsAt run) ts →
  standing (reconcileAt w ts) GPUWorkloadPhaseRunning o ∧ wo_sim (reconcileAt w ts) = wo_sim w.
Proof using Hpool Hsim.
  intros Hs Hid Hl Hr Hts. revert w Hs Hl.
  induction Hts as [|t ts Ht _ IH]; intros w Hs Hl; [done|]. unfold reconcileAt. cbn [foldl].
  destruct (reconcile_waits w o t key run Hs Hid Hl Hr Ht) as (b & -> & Hs'). cbn [fst].
  exact (IH (with_api w b) Hs' Hl).
Qed.

(** The operator finishes what was admitted.  On a quiet server, a scheduled workload for which the
    simulator has devices and accepts the run is started and marked Running by its first
    reconciliation; reconciliations before the end of the run, however many, leave it Running and
    change nothing in the simulator; and the first one at or after the end, whenever it comes, marks
    it Succeeded, records the run as succeeded and returns its devices, so that the allocations are
    what they were before. *)
Theorem operator_completes w o now s1 a s2 runID run :
  standing w GPUWorkloadPhaseScheduled o → sim_wf (wo_sim w) →
  0 ≤ sim_nextRunID (wo_sim w) < int64_max →
  (∀ k x, sim_runs (wo_sim w) !! k = Some x → run_WorkloadID x = workload_id o →
     run_StartedAt x < now) →
  AllocateWithOptions (wo_sim w) (workload_id o) (ws_GPUCount (w_Spec o)) (ws_GPUMemoryMiB (w_Spec o))
    {| o_PlacementPolicy := PlacementPolicyFirstFit; o_RequireSameNode := false; o_MaxNodes := 0;
       o_PreferredDeviceType := "";
       o_PreferredProfile := ToLower (TrimSpace (ws_Profile (w_Spec o))) |} = (s1, Ok a) →
  StartWithRuntimeInput s1 now (buildRuntimeInput (workload_id o) o) = (s2, Ok runID) →
  sim_runs s2 !! runID = Some run →
  ∃ w1, Reconcile r req now w = (w1, finished) ∧
    ∀ ts t, Forall (λ t, t < run_EndsAt run) ts → run_EndsAt run ≤ t →
      let w2 := reconcileAt w1 ts in
      wo_sim w2 = s2 ∧ (∃ o2, standing w2 GPUWorkloadPhaseRunning o2) ∧
      ∃ w3 o3, Reconcile r req t w2 = (w3, finished) ∧ current (wo_api w3) req = Some o3 ∧
        phase_of o3 = GPUWorkloadPhaseSucceeded ∧
        sim_allocations (wo_sim w3) = sim_allocations (wo_sim w) ∧
        option_map run_Status (sim_runs (wo_sim w3) !! runID) = Some RunStatusSucceeded.
Proof using Hpool Hsim.
  intros Hs Hwf Hnext Hold HA HS Hrun.
  destruct (reconcile_starts w o now s1 a s2 runID Hs HA HS) as (w1 & o1 & Hr1 & Hs1 & Hst1 & Hid1).
  destruct (started_run _ _ _ _ _ _ _ _ _ _ _ run Hwf Hnext HA HS Hrun)
    as (q & _ & _ & _ & Hrr & Hnone & Hdel).
  assert (Hid : workload_id o ≠ "") by (by apply AllocateWithOptions_inv in HA as (? & _)).
  assert (Hl : latest_run s2 (workload_id o) runID run).
  { pose proof HA as (_ & _ & _ & _ & _ & -> & _)%AllocateWithOptions_inv.
    apply StartWithRuntimeInput_inv in HS as (input' & al & d & Hp & _ & _ & _ & _ & Hrid & ->).
    apply prepareInput_id in Hp. simpl in Hrun. rewrite lookup_insert_eq in Hrun. simplify_eq.
    split_and!; [simpl; apply lookup_insert_eq|exact Hp|]. intros k x Hk Hx Hne. simpl in *.
    rewrite lookup_insert_ne in Hk by done. eauto. }
  exists w1. split; [done|]. intros ts t Hts Ht w2.
  rewrite <- Hid1 in Hid, Hl, Hdel. rewrite <- Hs1 in Hl.
  destruct (reconcile_waits_all ts w1 o1 runID run Hst1 Hid Hl Hrr Hts) as [Hst2 Hs2].
  fold w2 in Hst2, Hs2. rewrite <- Hs2 in Hl.
  destruct (reconcile_finishes w2 o1 t runID run Hst2 Hid Hl Hrr Ht)
    as (w3 & o3 & Hr3 & Hc3 & Hp3 & Ha3 & Hn3).
  split_and!; [congruence|by exists o1|]. exists w3, o3. split_and!; try done.
  - rewrite Ha3, Hs2, Hs1. done.
  - rewrite Hn3, lookup_insert_eq. done.
Qed.
End operator.

(** ** The small server is quiet *)

Module QuietServer.
Import SmallServer.

(** Versions are numbered as they are stored, and what is current is stored. *)
Record tidy (s : server) : Prop := {
  tidy_versions : ∀ k n o, sv_versions s !! (k, "v" +:+ pretty n) = Some o → (n < size (sv_versions s))%nat;
}.

Lemma version_fresh s k : tidy s → sv_versions s !! (k, "v" +:+ pretty (size (sv_versions s))) = None.
Proof.
  intros [Hv]. destruct (sv_versions s !! _) as [o|] eqn:E; [|done]. apply Hv in E. lia.
Qed.

Lemma write_quiet s o f entry cur :
  tidy s → get s (key_of (w_Meta o)) = Some cur →
  om_ResourceVersion (w_Meta cur) = om_ResourceVersion (w_Meta o) →
  key_of (w_Meta (f cur)) = key_of (w_Meta cur) →
  ∃ s' v, let new := with_meta (f cur) (with_version (w_Meta (f cur)) v) in
    write s o f entry = (s', Ok new) ∧ tidy s' ∧
    ∀ k, get s' k = if decide (k = key_of (w_Meta o)) then Some new else get s k.
Proof.
  intros Ht Hg Hv Hk. pose proof (get_Some _ _ _ Hg) as [_ Hkc].
  set (v := "v" +:+ pretty (size (sv_versions s))).
  set (new := with_meta (f cur) (with_version (w_Meta (f cur)) v)).
  assert (Hkn : key_of (w_Meta new) = key_of (w_Meta o)) by (rewrite <- Hkc, <- Hk; done).
  assert (Hvk : version_key new = (pair_of (key_of (w_Meta o)), v)) by (unfold version_key; by rewrite Hkn).
  exists {| sv_versions := <[version_key new := new]> (sv_versions s);
            sv_current := <[pair_of (key_of (w_Meta o)) := v]> (sv_current s);
            sv_history := sv_history s ++ [entry cur new] |}, v.
  cbv zeta. fold new. split_and!.
  - unfold write. rewrite Hg. cbv zeta. fold v. fold new. rewrite decide_True; [done|].
    split_and!; [done| |by rewrite Hkn]. rewrite Hvk. by apply version_fresh.
  - constructor. intros k n x. cbn [sv_versions]. rewrite Hvk.
    rewrite map_size_insert_None by (by apply version_fresh).
    intros [[E _]|[_ Hx]]%lookup_insert_Some.
    + injection E as _ E. apply (inj (pretty (A:=nat)) (size (sv_versions s)) n) in E. lia.
    + apply tidy_versions in Hx; [lia|done].
  - intros k. unfold get. cbn [sv_current sv_versions]. case_decide as Hd.
    + subst k. rewrite lookup_insert_eq. simpl. rewrite Hvk, lookup_insert_eq. simpl.
      by rewrite decide_True.
    + rewrite lookup_insert_ne by (intros E%pair_of_inj; by symmetry in E).
      destruct (sv_current s !! pair_of k) as [v'|]; [|done]. simpl. rewrite Hvk.
      rewrite lookup_insert_ne; [done|]. intros E. apply Hd. apply pair_of_inj. congruence.
Qed.

#[export] Instance small_quiet : QuietApi server.
Proof.
  refine {| settled := tidy; current := get |}.
  - intros a k o Ht Hg. exists a. simpl. by rewrite Hg.
  - by intros a k o _ [_ Hk]%get_Some.
  - intros a o cur Ht Hg Hv. pose proof (get_Some _ _ _ Hg) as [_ Hk].
    destruct (write_quiet a o (set_status o) StatusWrite cur Ht Hg Hv) as (b & v & Hw & Hb & Hget);
      [done|]. eexists b, _, _. split; [exact Hw|]. split_and!; try done.
  - intros a o cur Ht Hg Hv. pose proof (get_Some _ _ _ Hg) as [_ Hk].
    destruct (write_quiet a o (set_object o) ObjectWrite cur Ht Hg Hv) as (b & v & Hw & Hb & Hget);
      [by rewrite Hk|]. eexists b, _, _. split; [exact Hw|]. split_and!; try done.
Defined.
End QuietServer.

(** ** An example *)

Module CompletionExample.
Import ReconcileExample QuietServer.
#[export] Existing Instance small_quiet.
Definition o : GPUWorkload := object GPUWorkloadPhaseScheduled None.
Definition w : @World SmallServer.server Simulator := world o.
Definition opts : AllocationOptions :=
  {| o_PlacementPolicy := PlacementPolicyFirstFit; o_RequireSameNode := false; o_MaxNodes := 0;
     o_PreferredDeviceType := ""; o_PreferredProfile := ToLower (TrimSpace (ws_Profile (w_Spec o))) |}.
Definition allocated : Simulator * Result Allocation :=
  AllocateWithOptions (wo_sim w) (workload_id o) (ws_GPUCount (w_Spec o)) (ws_GPUMemoryMiB (w_Spec o)) opts.
Definition begun : Simulator * Result string :=
  StartWithRuntimeInput allocated.1 100 (buildRuntimeInput (workload_id o) o).

Lemma w_standing : standing req w GPUWorkloadPhaseScheduled o.
Proof.
  unfold standing. split_and!; try (vm_compute; reflexivity). constructor. intros k n x Hx.
  cbn in Hx. apply lookup_insert_Some in Hx as [[E _]|[_ Hx]]; [discriminate E|].
  by rewrite lookup_empty in Hx.
Qed.

Lemma allocated_ok : ∃ a, allocated = (allocated.1, Ok a).
Proof.
  assert (H : match allocated.2 with Ok _ => true | Err _ => false end = true) by (vm_compute; reflexivity).
  rewrite (surjective_pairing allocated). destruct (allocated.2) as [a|e]; [|discriminate H].
  by exists a.
Qed.

Lemma begun_ok : begun = (begun.1, Ok "run-1").
Proof.
  rewrite (surjective_pairing begun). apply (f_equal (pair begun.1)). vm_compute. reflexivity.
Qed.

Lemma run_found : ∃ run, sim_runs begun.1 !! "run-1" = Some run.
Proof.
  assert (H : match sim_runs begun.1 !! "run-1" with Some _ => true | None => false end = true)
    by (vm_compute; reflexivity).
  destruct (sim_runs begun.1 !! "run-1") as [run|]; [by exists run|discriminate H].
Qed.
End CompletionExample.

Section completion_example.
Import ReconcileExample CompletionExample.

Lemma operator_completes_witness :
  ∃ w1 t, Reconcile r req 100 w = (w1, finished) ∧
    ∃ w3 o3, Reconcile r req t w1 = (w3, finished) ∧ current (wo_api w3) req = Some o3 ∧
      phase_of o3 = GPUWorkloadPhaseSucceeded ∧ sim_allocations (wo_sim w3) = sim_allocations (wo_sim w).
Proof.
  destruct allocated_ok as [a HA]. destruct run_found as [run Hrun].
  destruct (operator_completes r req eq_refl eq_refl w o 100 allocated.1 a begun.1 "run-1" run)
    as (w1 & H1 & H2).
  - exact w_standing.
  - exact (proj1 (sim_reach_wf _ _ SimExample.reach1)).
  - vm_compute. split; [discriminate|reflexivity].
  - intros k x Hk. exfalso. exact (eq_None_ne_Some_1 _ x (lookup_empty k) Hk).
  - exact HA.
  - exact begun_ok.
  - exact Hrun.
  - destruct (H2 [] (run_EndsAt run)) as (_ & _ & w3 & o3 & E1 & E2 & E3 & E4 & _);
      [constructor|apply Z.le_refl|].
    exists w1, (run_EndsAt run). split; [exact H1|]. exists w3, o3.
    exact (conj E1 (conj E2 (conj E3 E4))).
Defined.
End completion_example.
