(* ===== verification/WorkerLiveness.v ===== *)
(** * A worker finishes what it claims

    On a server that nobody else writes to, a worker that lists a claimable workload its remote simulator
    can run carries it through: claimed, run, reported as Succeeded and released, in one iteration of its
    loop. *)

From stdpp Require Import prelude gmap strings pretty.
From S2P Require Import Prelude GoFloat SimModel Placement Runtime Simulator SimErrors Resources Cluster.
From S2P Require Import SimHttp Worker OperatorLiveness.

Local Open Scope Z_scope.
Local Open Scope go_scope.

(** ** The calls of a worker on a quiet server *)

(** Documented: a list returns the current objects of the namespace; a merge patch of the annotations
    puts them over those of the current object and leaves the rest; a status write leaves the
    annotations. *)
Class QuietWorkerApi (W : Type) `{QuietApi W, WorkerApi W} := {
  quiet_list : ∀ a ns, settled a →
    ∃ b items, ListWorkloads a ns = (b, Ok items) ∧ settled b ∧ (∀ k, current b k = current a k) ∧
      ∀ o, o ∈ items ↔ current a (key_of (w_Meta o)) = Some o ∧ om_Namespace (w_Meta o) = ns;
  quiet_patch : ∀ a o ann cur, settled a → current a (key_of (w_Meta o)) = Some cur →
    ∃ b after o', PatchAnnotations a o ann = (b, Ok o') ∧ settled b ∧
      (∀ k, current b k = if decide (k = key_of (w_Meta o)) then Some after else current a k) ∧
      w_Status after = w_Status cur ∧ same_object cur after ∧ answered o after o' ∧
      om_Annotations (w_Meta after) = Some (ann ∪ default ∅ (om_Annotations (w_Meta cur)));
  quiet_annotations : ∀ a o b o' cur after, settled a → StatusUpdate a o = (b, Ok o') →
    current a (key_of (w_Meta o)) = Some cur → current b (key_of (w_Meta o)) = Some after →
    om_Annotations (w_Meta after) = om_Annotations (w_Meta cur);
}.

Section quiet.
Context {W N : Type} `{QuietWorkerApi W, SimulatorClient N, Clock N}.
Local Notation World := (@Cluster.World W N).
Implicit Types w : World.

(** From [w] to [w'] only the object of [key] changed, from [o] to [o']. *)
Definition only_object (key : NamespacedName) (w w' : World) (o o' : GPUWorkload) : Prop :=
  settled (wo_api w) ∧ settled (wo_api w') ∧
  current (wo_api w) key = Some o ∧ current (wo_api w') key = Some o' ∧
  (∀ k, k ≠ key → current (wo_api w') k = current (wo_api w) k) ∧
  key_of (w_Meta o') = key ∧ w_Spec o' = w_Spec o.

Lemma setWorkloadPhase_quiet o p w cur :
  settled (wo_api w) → current (wo_api w) (key_of (w_Meta o)) = Some cur →
  ∃ after, only_object (key_of (w_Meta o)) w (setWorkloadPhase o p w) cur after ∧
    phase_of after = p ∧ om_Annotations (w_Meta after) = om_Annotations (w_Meta cur) ∧
    wo_sim (setWorkloadPhase o p w) = wo_sim w ∧ wo_log (setWorkloadPhase o p w) = wo_log w.
Proof.
  intros Hs Hc. unfold setWorkloadPhase. destruct (quiet_get _ _ _ Hs Hc) as (b & -> & Hb & He).
  pose proof (quiet_key _ _ _ Hs Hc) as Hk. rewrite <- He in Hc.
  assert (key_of (w_Meta (with_phase cur p)) = key_of (w_Meta o)) as Hk' by done.
  destruct (quiet_status b (with_phase cur p) cur Hb) as (b' & after & o' & Hu & Hb' & Hn & Hst & Hsame & _);
    [by rewrite Hk'|done|].
  rewrite Hu. rewrite Hk' in Hn. cbn [fst]. exists after.
  assert (current b' (key_of (w_Meta o)) = Some after) as Hafter by (by rewrite Hn, decide_True).
  destruct Hsame as (Hka & Hsp & _). split_and!; try done.
  - split_and!; try done; [by rewrite <- He| |congruence].
    intros k Hne. cbn. by rewrite Hn, decide_False, He.
  - unfold phase_of. by rewrite Hst.
  - apply (quiet_annotations b (with_phase cur p) b' o'); by rewrite ?Hk'.
Qed.

(** A claim of the current object in phase Scheduled. *)
Lemma claimWorkload_quiet cfg o w :
  settled (wo_api w) → current (wo_api w) (key_of (w_Meta o)) = Some o →
  phase_of o = GPUWorkloadPhaseScheduled →
  ∃ w' run after, claimWorkload cfg o w = (w', run, None) ∧
    only_object (key_of (w_Meta o)) w w' o after ∧ phase_of after = GPUWorkloadPhaseRunning ∧
    (om_Annotations (w_Meta after) ≫= lookup AnnotationClaimedBy) = Some (dl_WorkerID cfg) ∧
    key_of (w_Meta run) = key_of (w_Meta o) ∧ w_Spec run = w_Spec o ∧
    wo_sim w' = wo_sim w ∧ wo_log w' = wo_log w ++ RecordWorkloadClaimed (dl_WorkerID cfg).
Proof.
  intros Hs Hc Hp. unfold claimWorkload. destruct (quiet_get _ _ _ Hs Hc) as (b & -> & Hb & He).
  rewrite decide_False by (by intros []). rewrite <- He in Hc.
  set (ann := <[AnnotationClaimedBy := _]> _).
  destruct (quiet_patch b o ann o Hb Hc) as (b1 & o1 & x1 & -> & Hb1 & Hn1 & _ & (Hk1 & Hsp1 & _) & _ & Ha1).
  assert (current b1 (key_of (w_Meta o)) = Some o1) as Hc1 by (by rewrite Hn1, decide_True).
  destruct (quiet_get _ _ _ Hb1 Hc1) as (b2 & -> & Hb2 & He2). rewrite <- He2 in Hc1.
  set (o2 := with_phase o1 GPUWorkloadPhaseRunning).
  assert (key_of (w_Meta o2) = key_of (w_Meta o)) as Hk2 by exact Hk1.
  destruct (quiet_status b2 o2 o1 Hb2)
    as (b3 & after & run & Hu & Hb3 & Hn3 & Hst & (Hk3 & Hsp3 & _) & (Hkr1 & Hkr & _ & _ & _ & Hspr));
    [by rewrite Hk2|done|]. rewrite Hk2 in Hn3, Hkr.
  assert (current b3 (key_of (w_Meta o)) = Some after) as Hc3 by (by rewrite Hn3, decide_True).
  rewrite Hu. eexists _, run, after. split; [reflexivity|]. split_and!; try done.
  - split_and!; try done; cbn [wo_api emit with_api]; [by rewrite <- He| |congruence|congruence].
    intros k Hne. by rewrite Hn3, decide_False, He2, Hn1, decide_False, He.
  - unfold phase_of. by rewrite Hst.
  - rewrite (quiet_annotations b2 o2 b3 run o1 after), Ha1; rewrite ?Hk2; try done. simpl.
    apply lookup_union_Some_l, lookup_insert_eq.
  - congruence.
Qed.

(** The first item that can be claimed is taken, the ones before it are passed over. *)
Lemma claimFirst_quiet cfg pre o post w w' run :
  Forall (λ x, claimable x = false) pre → claimable o = true →
  claimWorkload cfg o w = (w', run, None) → claimFirst cfg (pre ++ o :: post) w = (w', Ok (Some run)).
Proof.
  intros Hpre Ho HC. induction Hpre as [|x pre Hx _ IH]; cbn [claimFirst app].
  - by rewrite Ho, HC.
  - by rewrite Hx.
Qed.
End quiet.

Lemma only_object_trans {W N} `{QuietWorkerApi W} key (w1 w2 w3 : @World W N) o1 o2 o3 :
  only_object key w1 w2 o1 o2 → only_object key w2 w3 o2 o3 → only_object key w1 w3 o1 o3.
Proof.
  intros (? & ? & ? & ? & E1 & ? & ?) (? & ? & ? & ? & E2 & ? & ?). split_and!; try done.
  - intros k Hk. by rewrite E2, E1.
  - congruence.
Qed.

(** ** One iteration *)

Section iteration.
Context `{MapIter, RunEnv, CodecLaws} (promhttp : Request → Response) (base : string).
Local Instance iteration_client : SimulatorClient Net := remote_client promhttp base.
Context {W : Type} `{QuietWorkerApi W}.
Local Notation World := (@Cluster.World W Net).

(** C25: A worker finishes what its remote simulator can run.  On a server that nobody else writes to,
    let the list of the worker's namespace have [o] as the first workload that is Scheduled and
    unclaimed, let the simulator answer over HTTP without failures and have the devices for it, and let
    it accept the run, of at most [d] times two seconds.  Then one iteration of the worker's loop, unless
    it is stopped, ends with the run succeeded within [d] polls: the workload is stored with phase
    Succeeded, the claim of the worker and its specification; no other workload changed; the simulator
    has the run as succeeded and the allocations it had before; and exactly the claim, the start and the
    success were counted. *)
Theorem worker_completes done cfg pre o post (w : World) s1 s2 a runID r (d : nat) :
  let n := wo_sim w in
  let input := WorkloadToRuntimeInput o in
  let id := dl_WorkerID cfg in
  settled (wo_api w) →
  (ListWorkloads (wo_api w) (dl_Namespace cfg)).2 = Ok (pre ++ o :: post) →
  Forall (λ x, claimable x = false) pre → claimable o = true →
  plain_id (workload_id o) → sim_wf (net_sim n) → 0 ≤ sim_nextRunID (net_sim n) < int64_max →
  faithful (worker_request o) → faithful input → (∃ body, Marshal input = Ok body) →
  (∀ j, done j = false) →
  AllocateWithOptions (net_sim n) (workload_id o) (ws_GPUCount (w_Spec o))
    (ws_GPUMemoryMiB (w_Spec o)) (worker_options o) = (s1, Ok a) →
  StartWithRuntimeInput s1 (net_now n) input = (s2, Ok runID) →
  sim_runs s2 !! runID = Some r → run_EndsAt r - net_now n ≤ 2 * Second * Z.of_nat d →
  ∃ w' o' t,
    deploymentIteration done (S d) cfg w = (w', Some (Ended RunStatusSucceeded)) ∧
    only_object (key_of (w_Meta o)) w w' o o' ∧ phase_of o' = GPUWorkloadPhaseSucceeded ∧
    (om_Annotations (w_Meta o') ≫= lookup AnnotationClaimedBy) = Some id ∧
    sim_allocations (net_sim (wo_sim w')) = sim_allocations (net_sim n) ∧
    (run_Status <$> sim_runs (net_sim (wo_sim w')) !! runID) = Some RunStatusSucceeded ∧
    wo_log w' = wo_log w ++ RecordWorkloadClaimed id ++ RecordRunStarted id ++
                RecordRunCompleted id "succeeded" t.
Proof.
  intros n input id Hset HL Hpre Ho Hid Hwf Hnext Hfa Hfi Hbody Hdone HA HS Hr Hd.
  destruct (quiet_list (wo_api w) (dl_Namespace cfg) Hset) as (b & items & HL' & Hb & He & Hin).
  rewrite HL' in HL. injection HL as ->.
  assert (current b (key_of (w_Meta o)) = Some o) as Hcur
    by (rewrite He; apply Hin, elem_of_app; right; left).
  pose proof (claimable_unclaimed o Ho) as [Hphase _].
  set (cfg' := withPollInterval cfg).
  destruct (claimWorkload_quiet cfg' o (with_api w b) Hb Hcur Hphase)
    as (w1 & run & o1 & HC & Hx1 & Hp1 & Ha1 & Hkr & Hspr & Hs1 & Hl1).
  assert (workload_id run = workload_id o) as Eid by (unfold workload_id; by rewrite Hkr).
  assert (WorkloadToRuntimeInput run = WorkloadToRuntimeInput o) as Ein.
  { rewrite !runtime_inputs_agree. unfold buildRuntimeInput. by rewrite Eid, Hspr. }
  assert (worker_options run = worker_options o) as Eopt by (unfold worker_options; by rewrite Hspr).
  destruct (remote_completes promhttp base done cfg' run w1 s1 s2 a runID r d)
    as (n' & t & HR & Hal & Hst);
    rewrite ?Ein, ?Hs1, ?Eid, ?Eopt, ?Hspr; try done.
  { unfold worker_request. by rewrite Eid, Eopt, Hspr. }
  change (worker_client promhttp base) with iteration_client in HR, Hal, Hst.
  rewrite Eid, Hs1 in Hal. rewrite Eid in Hst. set (w2 := emit _ _) in HR.
  unfold completeRun in HR. set (w3 := emit w2 _) in HR.
  destruct Hx1 as (Hb1 & Hset1 & Hc1 & Hc1' & Hoth1 & Hko1 & Hsp1).
  destruct (setWorkloadPhase_quiet run GPUWorkloadPhaseSucceeded w3 o1)
    as (o2 & Hx2 & Hp2 & Ha2 & Hs2 & Hl2); [done|by rewrite Hkr|].
  rewrite Hkr in Hx2. exists (releaseRemoteAllocation (workload_id run)
    (setWorkloadPhase run GPUWorkloadPhaseSucceeded w3)), o2, t.
  split; [|split_and!].
  - unfold deploymentIteration, findAndClaimScheduledWorkload. fold cfg'.
    change (dl_Namespace cfg') with (dl_Namespace cfg). rewrite HL'.
    by rewrite (claimFirst_quiet cfg' pre o post _ w1 run Hpre Ho HC), HR.
  - apply (only_object_trans _ w w1 _ o o1).
    + split_and!; try done; [by rewrite <- He|]. intros k Hk. rewrite Hoth1 by done. apply He.
    + done.
  - done.
  - by rewrite Ha2.
  - unfold releaseRemoteAllocation. cbn [wo_sim with_sim]. by rewrite Hs2, Eid.
  - unfold releaseRemoteAllocation. cbn [wo_sim with_sim]. by rewrite Hs2, Eid.
  - unfold releaseRemoteAllocation. cbn [wo_log with_sim]. rewrite Hl2. cbn [wo_log emit w3 w2 with_sim].
    rewrite Hl1. cbn [wo_log with_api]. by rewrite <- !(assoc_L (++)).
Qed.
End iteration.

(** ** The small server *)

Module QuietWorkers.
Import SmallServer WorkerServer QuietServer.
#[export] Existing Instance small_quiet.

Lemma list_objects_spec s ns o :
  o ∈ list_objects s ns ↔ get s (key_of (w_Meta o)) = Some o ∧ om_Namespace (w_Meta o) = ns.
Proof.
  unfold list_objects. rewrite list_elem_of_omap. split.
  - intros ([ns' name] & [E _]%list_elem_of_filter & Hg). simpl in E, Hg. subst ns'.
    pose proof (get_Some _ _ _ Hg) as [_ Hk]. rewrite Hk. split; [done|].
    by apply (f_equal nn_Namespace) in Hk.
  - intros [Hg Hns]. exists (pair_of (key_of (w_Meta o))). split.
    + apply list_elem_of_filter. split; [done|]. unfold get in Hg.
      destruct (sv_current s !! _) as [v|] eqn:Hv; [|done].
      apply list_elem_of_fmap. exists (pair_of (key_of (w_Meta o)), v).
      by rewrite elem_of_map_to_list.
    + by destruct (key_of (w_Meta o)).
Qed.

#[export] Instance small_quiet_worker : QuietWorkerApi server.
Proof.
  split.
  - intros a ns Ht. exists a, (list_objects a ns). split_and!; try done. intros o. apply list_objects_spec.
  - intros a o ann cur Ht Hg. pose proof (get_Some _ _ _ Hg) as [_ Hk].
    simpl. unfold patch. simpl in Hg. rewrite Hg.
    destruct (write_quiet a cur (set_annotations ann) ObjectWrite cur Ht) as (b & v & Hw & Hb & Hget);
      [by rewrite Hk|done|done|]. rewrite Hk in Hget.
    eexists b, _, _. split; [exact Hw|]. split_and!; done.
  - intros a o b o' cur after Ht Hu Hg Hafter. simpl in *. pose proof (get_Some _ _ _ Hg) as [_ Hk].
    assert (om_ResourceVersion (w_Meta cur) = om_ResourceVersion (w_Meta o)) as Hv.
    { unfold write in Hu. rewrite Hg in Hu. by case_decide as Hd; [destruct Hd|]. }
    destruct (write_quiet a o (set_status o) StatusWrite cur Ht Hg Hv) as (b' & v & Hw & _ & Hget); [done|].
    rewrite Hw in Hu. injection Hu as -> _. rewrite Hget, decide_True in Hafter by done.
    by injection Hafter as <-.
Qed.
End QuietWorkers.

Section completes_example.
Import SimExample HttpExample SmallServer WorkerServer QuietServer WorkerExample QuietWorkers.

Lemma worker_completes_witness :
  ∃ w' o' t, deploymentIteration never 14 (config "a") start = (w', Some (Ended RunStatusSucceeded)) ∧
    get (wo_api w') (key_of (w_Meta o)) = Some o' ∧ phase_of o' = GPUWorkloadPhaseSucceeded ∧
    sim_allocations (net_sim (wo_sim w')) = ∅ ∧
    wo_log w' = RecordWorkloadClaimed "a" ++ RecordRunStarted "a" ++ RecordRunCompleted "a" "succeeded" t.
Proof.
  assert (Hid : plain_id (workload_id o))
    by (split; [by vm_compute|by apply (bool_decide_unpack _); vm_compute]).
  destruct (AllocateWithOptions s1 (workload_id o) 3 40000 (worker_options o)) as [s1' ra] eqn:HA.
  assert (Ha : ∃ a, ra = Ok a).
  { assert (Hb : match (AllocateWithOptions s1 (workload_id o) 3 40000 (worker_options o)).2 with
                 | Ok _ => true | Err _ => false end = true) by (vm_compute; reflexivity).
    rewrite HA in Hb. destruct ra; [by eexists|done]. }
  destruct Ha as [a ->].
  destruct (StartWithRuntimeInput s1' 100 (WorkloadToRuntimeInput o)) as [s2' rs] eqn:HS.
  assert (Hs : (λ x, (x.2, run_EndsAt <$> sim_runs x.1 !! "run-1"))
    (StartWithRuntimeInput (AllocateWithOptions s1 (workload_id o) 3 40000 (worker_options o)).1
       100 (WorkloadToRuntimeInput o)) = (Ok "run-1", Some (100 + 25 * Second)))
    by (vm_compute; reflexivity).
  rewrite HA in Hs. cbn [fst] in Hs. rewrite HS in Hs. simpl in Hs. injection Hs as -> Hr.
  destruct (sim_runs s2' !! "run-1") as [r|] eqn:Hrun; [|done]. injection Hr as Hr.
  assert (Hwf : sim_wf s1) by exact (proj1 (sim_reach_wf 1 s1 reach1)).
  assert (Hnext : 0 ≤ sim_nextRunID s1 < int64_max)
    by (replace (sim_nextRunID s1) with 0 by (vm_compute; reflexivity); unfold int64_max; lia).
  assert (Hfa : faithful (worker_request o)) by (change (worker_request o = request); vm_compute; reflexivity).
  assert (Hfi : faithful (WorkloadToRuntimeInput o))
    by (change (WorkloadToRuntimeInput o = input); vm_compute; reflexivity).
  assert (Hd : run_EndsAt r - 100 ≤ 2 * Second * Z.of_nat 13) by (rewrite Hr; unfold Second; lia).
  assert (Hset : settled (wo_api start)).
  { constructor. intros k n x Hx. cbn in Hx. apply lookup_insert_Some in Hx as [[E _]|[_ Hx]]; [discriminate E|].
    by rewrite lookup_empty in Hx. }
  assert (Hlist : (ListWorkloads (wo_api start) (dl_Namespace (config "a"))).2 = Ok ([] ++ o :: []))
    by (vm_compute; reflexivity).
  assert (Hclaim : claimable o = true) by (vm_compute; reflexivity).
  destruct (worker_completes page base never (config "a") [] o [] start s1' s2' a "run-1" r 13
    Hset Hlist (Forall_nil_2 _) Hclaim Hid Hwf Hnext Hfa Hfi (ex_intro _ "x" eq_refl) (λ _, eq_refl)
    HA HS Hrun Hd) as (w' & o' & t & Hw & (_ & _ & _ & Hc & _) & Hp & _ & Hal & _ & Hlog).
  exists w', o', t. split; [exact Hw|]. split; [exact Hc|]. split; [exact Hp|]. split; [|exact Hlog].
  rewrite Hal. reflexivity.
Defined.
End completes_example.
