(* ===== verification/EndToEnd.v ===== *)
(** * From the queue to the end of the run

    The scheduling cycle and the reconciler together, on a server that nobody else writes to: a
    namespace in which some queued workload fits makes progress, and what is admitted is carried
    through. *)

From stdpp Require Import prelude gmap strings pretty.
From S2P Require Import Prelude GoFloat SimModel Placement Runtime Simulator SchedInputs Admission.
From S2P Require Import Fairness Preemption Selection Resources SchedState Cluster SchedulerLoop.
From S2P Require Import Reconciler OperatorLiveness.

Local Open Scope Z_scope.
Local Open Scope go_scope.

(** ** Identifiers *)

Lemma cut_at c s t : c ∉ bytes s → Cut (s +:+ String c t) c = Some (s, t).
Proof.
  induction s as [|d s IH]; intros Hs.
  - change (Cut (String c t) c = Some ("", t)). cbn [Cut]. by rewrite Ascii.eqb_refl.
  - change (Cut (String d (s +:+ String c t)) c = Some (String d s, t)). cbn [Cut].
    apply not_elem_of_cons in Hs as [Hc Hs]. rewrite IH by done.
    by destruct (Ascii.eqb_spec d c) as [->|_].
Qed.

(** A name as the API server allows it: neither part is empty, and a namespace has no slash. *)
Definition named (k : NamespacedName) : Prop :=
  nn_Namespace k ≠ "" ∧ nn_Name k ≠ "" ∧ slash ∉ bytes (nn_Namespace k).

Lemma splitID_named k : named k → splitID (nn_String k) = Some k.
Proof.
  intros (Hns & Hn & Hs). unfold splitID, nn_String.
  change (nn_Namespace k +:+ "/" +:+ nn_Name k)
    with (nn_Namespace k +:+ String slash (nn_Name k)).
  rewrite cut_at by done. rewrite decide_False by (intros [?|?]; done). by destruct k.
Qed.

(** ** The cycle on a quiet server *)

Section cycle.
Context {W : Type} `{QuietApi W, ApiMachinery, MapIter, RunEnv}.
Local Notation World := (@Cluster.World W Simulator).
Implicit Types w : World.
Context (cfg : loopConfig).

(** From [w] to [w'] the object of [req] went from [o] to [o'] and into phase [p]; everything else, the
    simulator included, is as it was. *)
Definition only_moved (req : NamespacedName) (w w' : World) (o o' : GPUWorkload) (p : GPUWorkloadPhase)
    : Prop :=
  standing req w' p o' ∧ w_Spec o' = w_Spec o ∧ key_of (w_Meta o') = key_of (w_Meta o) ∧
  wo_sim w' = wo_sim w ∧ ∀ k, k ≠ req → current (wo_api w') k = current (wo_api w) k.

Lemma only_moved_same req w w1 w2 o o' p :
  only_moved req w w1 o o' p → wo_api w2 = wo_api w1 → wo_sim w2 = wo_sim w1 →
  only_moved req w w2 o o' p.
Proof. unfold only_moved, standing. by intros ? -> ->. Qed.

Lemma patchOnce_quiet req w o now reason msg :
  standing req w GPUWorkloadPhaseQueued o →
  ∃ w' o', patchOnce cfg req now reason msg w = (w', None) ∧
    only_moved req w w' o o' GPUWorkloadPhaseScheduled.
Proof.
  intros (Hset & Hc & Hp & Hd & Hf). pose proof (quiet_key _ _ _ Hset Hc) as Hkey.
  destruct (quiet_get _ _ _ Hset Hc) as (b & Hg & Hb & He).
  destruct (quiet_status b (admitPatch o now reason msg) o Hb)
    as (c & after & o' & Hu & Hc' & He' & Hst & Hsame & _).
  { cbn. by rewrite Hkey, He. }
  { done. }
  destruct Hsame as (Hk' & Hsp & Hd' & Hf'). unfold patchOnce. rewrite Hg.
  rewrite decide_False by (intros Hn; by apply Hn). cbn [wo_api with_api]. rewrite Hu.
  eexists _, after. split; [reflexivity|].
  apply (only_moved_same req w (with_api w c)).
  - unfold only_moved, standing. cbn [wo_api wo_sim with_api]. split_and!; try done.
    + rewrite He', decide_True; [done|by cbn].
    + unfold phase_of. by rewrite Hst.
    + by rewrite Hd'.
    + by rewrite Hf'.
    + intros k Hk. rewrite He', decide_False by (cbn; congruence). apply He.
  - unfold SchedulerLoop.record, recordEvent. by destruct (lc_Recorder cfg).
  - unfold SchedulerLoop.record, recordEvent. by destruct (lc_Recorder cfg).
Qed.

Lemma patch_quiet req w o now reason msg :
  named req → standing req w GPUWorkloadPhaseQueued o →
  ∃ w' o', patchWorkloadAdmittedAndScheduled cfg (nn_String req) reason msg now w = (w', None) ∧
    only_moved req w w' o o' GPUWorkloadPhaseScheduled.
Proof.
  intros Hn Hs. destruct (patchOnce_quiet req w o now reason msg Hs) as (w' & o' & Hp & Hm).
  unfold patchWorkloadAdmittedAndScheduled. rewrite splitID_named by done.
  unfold runWithConflictRetry, maxConflictRetries. cbn [retryLoop]. rewrite Hp.
  eexists _, o'. split; [reflexivity|]. destruct (lc_ClaimableProducer cfg); [|done].
  by eapply only_moved_same.
Qed.
End cycle.

(** ** Progress *)

Section progress.
Context {W : Type} `{QuietApi W, ApiMachinery, MapIter, RunEnv}.
Local Notation World := (@Cluster.World W Simulator).
Implicit Types w : World.

(** The queue the loop works on is up to date: each of its workloads is an object of the server that is
    queued under its name. *)
Definition queue_current (w : World) (inp : SchedulingInputs) : Prop :=
  ∀ q, q ∈ in_QueuedWorkloads inp →
  ∃ req o, named req ∧ nn_String req = q_WorkloadID q ∧ standing req w GPUWorkloadPhaseQueued o.

(** The batch of one: the first admissible workload of the fair order is patched to Scheduled. *)
Lemma batch_admits cfg now inp w :
  Valid inp → InRange inp → queue_current w inp →
  (∃ q, q ∈ in_QueuedWorkloads inp ∧ admissible inp q) →
  ∃ b q req o o', batchLoop cfg 1 now 0 inp w = Some b ∧ br_admittedCount b = 1 ∧
    first_with (admissible inp) (fairOrder inp) q ∧ named req ∧ nn_String req = q_WorkloadID q ∧
    standing req w GPUWorkloadPhaseQueued o ∧
    only_moved req w (br_world b) o o' GPUWorkloadPhaseScheduled.
Proof.
  intros HV HR Hcur (q0 & Hq0 & Hadm).
  destruct (SelectOneForAdmission_spec inp HV HR) as [Hfree|[(Hno & _)|(Hno & _)]].
  2,3: exfalso; rewrite Forall_forall in Hno; specialize (Hno q0 Hq0); tauto.
  pose proof (selected_nonempty inp HV HR _ (or_introl Hfree)) as Hne.
  destruct Hfree as (q & Hf & Hid & Hv & _).
  assert (Hq : q ∈ in_QueuedWorkloads inp).
  { apply first_with_elem in Hf as [Hf _]. by apply fairOrder_elem in Hf. }
  destruct (Hcur q Hq) as (req & o & Hn & Hreq & Hs).
  set (d := SelectOneForAdmission inp) in *.
  destruct (patch_quiet cfg req w o now (s_reason d) (s_message d) Hn Hs) as (w' & o' & Hp & Hm).
  rewrite Hreq, <- Hid in Hp. cbn [batchLoop]. fold d. rewrite decide_False by done. rewrite Hv.
  cbn [length]. rewrite decide_False by lia. rewrite Hp, Hid, (selected_by_id inp HV q Hq).
  set (w2 := emit w' _).
  assert (Hm2 : only_moved req w w2 o o' GPUWorkloadPhaseScheduled) by (by eapply only_moved_same).
  assert (∃ working err, ApplyVirtualAdmission inp q now = Some (working, err)) as (working & err & ->).
  { pose proof (ApplyVirtualAdmission_spec inp q now HV HR Hq) as Ha.
    destruct (byProfile _ !! _) as [cap|]; [|destruct Ha as (? & ? & ?); eauto].
    case_decide; [eauto|destruct Ha as (? & ? & ?); eauto]. }
  destruct err; cbn [batchLoop]; eexists _, q, req, o, o'; (split; [reflexivity|]);
    by split_and!.
Qed.

(** What becomes of a workload that stands Scheduled in [w]: if the simulator has devices for it and
    accepts its run when it is reconciled at [now], that reconciliation starts it, the reconciliations
    before the end of the run keep it Running, and the first one at or after the end marks it
    Succeeded and gives its devices back. *)
Definition carried_through (r : GPUWorkloadReconciler) (req : NamespacedName) (w : World)
    (o : GPUWorkload) : Prop :=
  ∀ now s1 a s2 runID run,
  (∀ k x, sim_runs (wo_sim w) !! k = Some x → run_WorkloadID x = workload_id o →
     run_StartedAt x < now) →
  AllocateWithOptions (wo_sim w) (workload_id o) (ws_GPUCount (w_Spec o)) (ws_GPUMemoryMiB (w_Spec o))
    {| o_PlacementPolicy := PlacementPolicyFirstFit; o_RequireSameNode := false; o_MaxNodes := 0;
       o_PreferredDeviceType := "";
       o_PreferredProfile := ToLower (TrimSpace (ws_Profile (w_Spec o))) |} = (s1, Ok a) →
  StartWithRuntimeInput s1 now (buildRuntimeInput (workload_id o) o) = (s2, Ok runID) →
  sim_runs s2 !! runID = Some run →
  ∃ w1, Reconcile r req now w = (w1, finished) ∧
    ∀ ts t, Forall (λ t, t < run_EndsAt run) ts → run_EndsAt run ≤ t →
      let w2 := reconcileAt r req w1 ts in
      wo_sim w2 = s2 ∧ (∃ o2, standing req w2 GPUWorkloadPhaseRunning o2) ∧
      ∃ w3 o3, Reconcile r req t w2 = (w3, finished) ∧ current (wo_api w3) req = Some o3 ∧
        phase_of o3 = GPUWorkloadPhaseSucceeded ∧
        sim_allocations (wo_sim w3) = sim_allocations (wo_sim w) ∧
        option_map run_Status (sim_runs (wo_sim w3) !! runID) = Some RunStatusSucceeded.

(** C7: from the queue to the end of the run, on a server nobody else writes to, for an operator that
    admits at most one workload per cycle ([lc_MaxAdmissionsPerCycle] at most 1, the default), runs
    workloads itself (it has its simulator and does not use the worker pool), and for the first namespace
    the cycle visits.  If the snapshot of that namespace is valid and in range, its queued workloads are
    stored in phase Queued, and some queued workload fits, then the cycle writes Scheduled into the first
    workload of the fair order that fits, which keeps its spec, and changes no other object and nothing in
    the simulator.  From there the reconciler carries the workload through: given devices and an accepted
    run, it is started, kept Running until the run is over and then marked Succeeded, with the
    allocations as they were before. *)
Theorem queue_progresses cfg r st0 st nowc w ns rest inp :
  lc_MaxAdmissionsPerCycle cfg ≤ 1 → rc_RuntimeSimulator r = true → rc_UseWorkerPool r = false →
  namespacesWithQueueAndFleet st0 = ns :: rest → snapshotForNamespace (st ns) ns = Some inp →
  Validate inp = None → InRange inp → queue_current w inp →
  sim_wf (wo_sim w) → 0 ≤ sim_nextRunID (wo_sim w) < int64_max →
  (∃ q, q ∈ in_QueuedWorkloads inp ∧ admissible inp q) →
  ∃ wc q req o o', runSchedulingCycle cfg st0 st nowc w = Some wc ∧
    first_with (admissible inp) (fairOrder inp) q ∧ named req ∧ nn_String req = q_WorkloadID q ∧
    standing req w GPUWorkloadPhaseQueued o ∧
    only_moved req w wc o o' GPUWorkloadPhaseScheduled ∧ carried_through r req wc o'.
Proof.
  intros Hmax Hsim Hpool Hns Hsnap HV HR Hcur Hwf Hnext Hadm.
  set (w0 := emit w [Inc "scheduling_cycles_total" []]).
  destruct (batch_admits cfg (nowc ns) inp w0 (proj1 (Validate_None inp) HV) HR Hcur Hadm)
    as (b & q & req & o & o' & Hb & Hone & Hf & Hname & Hid & Hs & Hm).
  set (wc := emit (br_world b) [Observe "admissions_per_cycle" (br_admittedCount b)]).
  assert (Hmc : only_moved req w wc o o' GPUWorkloadPhaseScheduled)
    by (by apply (only_moved_same req w (br_world b))).
  exists wc, q, req, o, o'. split_and!; try done.
  - unfold runSchedulingCycle. rewrite Hns. fold w0. cbn [namespaceLoop]. rewrite Hsnap.
    rewrite decide_False by (destruct Hadm as (x & Hx & _); by destruct (in_QueuedWorkloads inp);
      [apply not_elem_of_nil in Hx|]).
    assert (maxAdmissions cfg = 1) as Hmx
      by (unfold maxAdmissions; destruct (Z.leb_spec (lc_MaxAdmissionsPerCycle cfg) 0); lia).
    rewrite HV, Hmx.
    change (Z.to_nat 1) with 1%nat. rewrite Hb, Hone. unfold wc. by rewrite Hone.
  - destruct Hmc as (Hst & _ & _ & Es & _). intros now s1 a s2 runID run.
    apply (operator_completes r req Hsim Hpool); [done|by rewrite Es..].
Qed.
End progress.

(** ** An example *)

Module ProgressExample.
Import ReconcileExample CompletionExample.
Definition queued : GPUWorkload := object GPUWorkloadPhaseQueued None.
Definition w0 : @World SmallServer.server Simulator := world queued.
Definition q : QueuedWorkload := GPUWorkloadToQueuedWorkload queued "ns/w" 5.
Definition st : schedulerState :=
  upsertQueued (setFleet {| st_queued := ∅; st_scheduled := ∅; st_running := ∅; st_fleet := ∅;
                            st_quotas := ∅ |} "ns" CycleExample.fleet) "ns" q.
Definition inp : SchedulingInputs :=
  {| in_QueuedWorkloads := [q]; in_ScheduledWorkloads := []; in_RunningWorkloads := [];
     in_FleetFreeCapacity := CycleExample.fleet; in_TenantQuotas := ∅ |}.
Definition wc : @World SmallServer.server Simulator :=
  default w0 (runSchedulingCycle (CycleExample.cfg 1) st (λ _, st) (λ _, 9) w0).
Definition scheduled : GPUWorkload := default queued (current (wo_api wc) req).
Definition opts : AllocationOptions :=
  {| o_PlacementPolicy := PlacementPolicyFirstFit; o_RequireSameNode := false; o_MaxNodes := 0;
     o_PreferredDeviceType := "";
     o_PreferredProfile := ToLower (TrimSpace (ws_Profile (w_Spec scheduled))) |}.
Definition allocated : Simulator * Result Allocation :=
  AllocateWithOptions (wo_sim wc) (workload_id scheduled) (ws_GPUCount (w_Spec scheduled))
    (ws_GPUMemoryMiB (w_Spec scheduled)) opts.
Definition begun : Simulator * Result string :=
  StartWithRuntimeInput allocated.1 100 (buildRuntimeInput (workload_id scheduled) scheduled).

Lemma queued_standing : standing req w0 GPUWorkloadPhaseQueued queued.
Proof.
  unfold standing. split_and!; try (vm_compute; reflexivity). constructor. intros k n x Hx.
  cbn in Hx. apply lookup_insert_Some in Hx as [[E _]|[_ Hx]]; [discriminate E|].
  by rewrite lookup_empty in Hx.
Qed.

Lemma inp_current : queue_current w0 inp.
Proof.
  intros x ->%list_elem_of_singleton. exists req, queued. split_and!; [|reflexivity|exact queued_standing].
  split_and!; [done|done|]. apply (bool_decide_unpack (slash ∉ bytes "ns")). vm_compute. exact I.
Qed.

Lemma progress_in_range : InRange inp.
Proof. solve_in_range. Qed.

Lemma inp_admissible : admissible inp q.
Proof.
  split_and!; [by intros (cap & Hcap & _)|by vm_compute|].
  exists CycleExample.cap. split_and!; [by vm_compute|vm_compute; discriminate..].
Qed.

Lemma devices_found : ∃ a, allocated = (allocated.1, Ok a).
Proof.
  assert (H : match allocated.2 with Ok _ => true | Err _ => false end = true) by (vm_compute; reflexivity).
  rewrite (surjective_pairing allocated). destruct (allocated.2) as [a|e]; [|discriminate H].
  by exists a.
Qed.

Lemma run_accepted : begun = (begun.1, Ok "run-1").
Proof.
  rewrite (surjective_pairing begun). apply (f_equal (pair begun.1)). vm_compute. reflexivity.
Qed.

Lemma accepted_run_found : ∃ run, sim_runs begun.1 !! "run-1" = Some run.
Proof.
  assert (H : match sim_runs begun.1 !! "run-1" with Some _ => true | None => false end = true)
    by (vm_compute; reflexivity).
  destruct (sim_runs begun.1 !! "run-1") as [run|]; [by exists run|discriminate H].
Qed.
End ProgressExample.

Section progress_example.
Import ReconcileExample CompletionExample ProgressExample.

Lemma queue_progresses_witness :
  ∃ w1 t w3 o3, Reconcile r req 100 wc = (w1, finished) ∧ Reconcile r req t w1 = (w3, finished) ∧
    current (wo_api w3) req = Some o3 ∧ phase_of o3 = GPUWorkloadPhaseSucceeded ∧
    sim_allocations (wo_sim w3) = sim_allocations (wo_sim w0).
Proof.
  destruct devices_found as [a HA]. destruct accepted_run_found as [run Hrun].
  destruct (queue_progresses (CycleExample.cfg 1) r st (λ _, st) (λ _, 9) w0 "ns" [] inp)
    as (wc' & q' & req' & o & o' & Hc & Hf & Hn & Hid & _ & Hm & Ht).
  1-6: reflexivity || (vm_compute; discriminate).
  - exact progress_in_range.
  - exact inp_current.
  - exact (proj1 (sim_reach_wf _ _ SimExample.reach1)).
  - vm_compute. split; [discriminate|reflexivity].
  - exists q. split; [by constructor|exact inp_admissible].
  - assert (wc' = wc) as -> by (unfold wc; by rewrite Hc).
    assert (req' = req) as ->.
    { apply first_with_elem in Hf as [Hf _]. apply fairOrder_elem in Hf.
      apply list_elem_of_singleton in Hf as ->. apply splitID_named in Hn. rewrite Hid in Hn.
      by injection Hn as <-. }
    destruct Hm as ((_ & Hcur & _) & _ & _ & Es & _).
    assert (o' = scheduled) as -> by (unfold scheduled; by rewrite Hcur).
    destruct (Ht 100 ProgressExample.allocated.1 a ProgressExample.begun.1 "run-1" run)
      as (w1 & H1 & H2); [|exact HA|exact run_accepted|exact Hrun|].
    + rewrite Es. intros k x Hk. exfalso. exact (eq_None_ne_Some_1 _ x (lookup_empty k) Hk).
    + destruct (H2 [] (run_EndsAt run)) as (_ & _ & w3 & o3 & E1 & E2 & E3 & E4 & _);
        [constructor|apply Z.le_refl|].
      exists w1, (run_EndsAt run), w3, o3. rewrite Es in E4. exact (conj H1 (conj E1 (conj E2 (conj E3 E4)))).
Defined.
End progress_example.
