(* ===== verification/Startup.v ===== *)
(** * How the programs start and stop (cmd/main.go, cmd/submitter/main.go, cmd/simulator/main.go, [Start]
    of internal/controller/scheduler_loop.go, [Run] of internal/submitter/consumer.go)

    [main] of the operator builds a manager, gives it the controllers and the runnables, and starts it;
    the scheduler loop registers its handlers with the informers before its goroutine takes triggers;
    the submitter consumes its topic until it is told to stop. *)

From stdpp Require Import prelude gmap strings.
From S2P Require Import Prelude GoFloat SimModel Runtime Simulator SchedInputs Resources SchedState.
From S2P Require Import Cluster SchedulerLoop Reconciler PoolReconciler SimHttp Submitter WorkerJobs.
From S2P Require Import Programs Metrics.

Local Open Scope Z_scope.
Local Open Scope go_scope.

(** ** The scheduler loop *)

Inductive resource := RWorkload | RPool | RQuota | RJob.
#[export] Instance resource_eq_dec : EqDecision resource.
Proof. solve_decision. Defined.

(** The cache of controller-runtime: getting the informer of a resource, and adding a handler to it. *)
Class InformerCache := {
  GetInformer : resource → option error;
  AddEventHandler : resource → option error;
}.

Section start.
Context `{InformerCache, MapIter}.

Definition registerWorkloadInformer : option error :=
  match GetInformer RWorkload with
  | Some e => Some (Wrapf "get GPUWorkload informer" e)
  | None => AddEventHandler RWorkload
  end.

Definition registerPoolInformer : option error :=
  match GetInformer RPool with
  | Some e => Some (Wrapf "get GPUNodePool informer" e)
  | None => AddEventHandler RPool
  end.

Definition registerQuotaInformer : option error :=
  match GetInformer RQuota with
  | Some e => Some (Wrapf "get TenantQuota informer" e)
  | None => AddEventHandler RQuota
  end.

(** [Start] until its goroutine runs: a fresh state and a trigger, the three registrations, and the
    fleet seeded from the list of all pools. *)
Definition Start (listAll : Result (list GPUNodePool)) : Result loopState :=
  let s := {| lp_state := newSchedulerState; lp_trigger := Some false |} in
  match registerWorkloadInformer with
  | Some e => Err e
  | None =>
  match registerPoolInformer with
  | Some e => Err e
  | None =>
  match registerQuotaInformer with
  | Some e => Err e
  | None => Ok (startSeed s listAll)
  end end end.

(** The goroutine of [Start]: it waits for the trigger, runs a cycle, pauses and waits again.  Given how
    long each trigger lets it wait and how long each cycle takes, the times at which the cycles start,
    from [t] on. *)
Fixpoint cycleStarts (cfg : loopConfig) (t : Time) (runs : list (Z * Z)) : list Time :=
  match runs with
  | [] => []
  | (wait, took) :: runs =>
      let cycleStart := t + wait in
      let now := cycleStart + took in
      cycleStart :: cycleStarts cfg (now + cyclePause cfg cycleStart now) runs
  end.

Definition NeedLeaderElection : bool := true.

(** Whatever the triggers do, a cycle starts no sooner than [MinCycleInterval] after the one before. *)
Lemma cycles_spaced cfg runs t i s s' :
  Forall (λ r, 0 ≤ r.1 ∧ 0 ≤ r.2) runs → lc_MinCycleInterval cfg ≤ int64_max →
  cycleStarts cfg t runs !! i = Some s → cycleStarts cfg t runs !! (i + 1)%nat = Some s' →
  s + lc_MinCycleInterval cfg ≤ s'.
Proof.
  intros Hruns Hmax. revert t i. induction Hruns as [|[wait took] runs [Hw Ht] Hruns IH]; intros t i; [done|].
  cbn [cycleStarts]. destruct i as [|i]; [|apply IH]. simpl in *. intros [= <-].
  destruct runs as [|[wait' took'] runs]; [done|]. cbn. intros [= <-].
  apply Forall_cons in Hruns as [[Hw' _] _]. cbn in Hw'.
  pose proof (cyclePause_spaced cfg (t + wait) (t + wait + took) ltac:(lia) Hmax). lia.
Qed.

(** [Start] fails exactly when a registration does, with the error of the first, and otherwise a cycle
    is pending whenever the fleet could be listed. *)
Lemma Start_outcome listAll :
  match Start listAll with
  | Err e => Some e ∈ [registerWorkloadInformer; registerPoolInformer; registerQuotaInformer]
  | Ok s => registerWorkloadInformer = None ∧ registerPoolInformer = None ∧ registerQuotaInformer = None ∧
            lp_trigger s = Some (match listAll with Ok _ => true | Err _ => false end)
  end.
Proof.
  unfold Start. destruct registerWorkloadInformer; [set_solver|].
  destruct registerPoolInformer; [set_solver|]. destruct registerQuotaInformer; [set_solver|].
  split_and!; [done..|]. by destruct listAll.
Qed.
End start.

(** ** The operator *)

(** The flags of cmd/main.go. *)
Record operatorFlags := {
  of_metricsAddr : string;
  of_probeAddr : string;
  of_enableLeaderElection : bool;
  of_secureMetrics : bool;
  of_webhookCertPath : string;
  of_webhookCertName : string;
  of_webhookCertKey : string;
  of_metricsCertPath : string;
  of_metricsCertName : string;
  of_metricsCertKey : string;
  of_enableHTTP2 : bool;
}.

Definition defaultFlags : operatorFlags :=
  {| of_metricsAddr := "0"; of_probeAddr := ":8081"; of_enableLeaderElection := false;
     of_secureMetrics := true; of_webhookCertPath := ""; of_webhookCertName := "tls.crt";
     of_webhookCertKey := "tls.key"; of_metricsCertPath := ""; of_metricsCertName := "tls.crt";
     of_metricsCertKey := "tls.key"; of_enableHTTP2 := false |}.

(** The protocols a TLS server offers; an option changes them. *)
Definition tlsOption : Type := list string → list string.

(** A server: its certificate when one is named, and its TLS options. *)
Record serverOptions := {
  so_CertDir : string;
  so_CertName : string;
  so_KeyName : string;
  so_TLSOpts : list tlsOption;
}.

Record managerOptions := {
  mo_BindAddress : string;
  mo_SecureServing : bool;
  mo_FilterProvider : bool;
  mo_Metrics : serverOptions;
  mo_WebhookServer : serverOptions;
  mo_HealthProbeBindAddress : string;
  mo_LeaderElection : bool;
  mo_LeaderElectionID : string;
}.

Definition tlsOpts (fl : operatorFlags) : list tlsOption :=
  if of_enableHTTP2 fl then [] else [λ _, ["http/1.1"]].

(** The certificate is set when its directory is named. *)
Definition withCert (path name key : string) (opts : list tlsOption) : serverOptions :=
  if decide (path = "") then {| so_CertDir := ""; so_CertName := ""; so_KeyName := ""; so_TLSOpts := opts |}
  else {| so_CertDir := path; so_CertName := name; so_KeyName := key; so_TLSOpts := opts |}.

Definition managerOptionsOf (fl : operatorFlags) : managerOptions :=
  {| mo_BindAddress := of_metricsAddr fl; mo_SecureServing := of_secureMetrics fl;
     mo_FilterProvider := of_secureMetrics fl;
     mo_Metrics := withCert (of_metricsCertPath fl) (of_metricsCertName fl) (of_metricsCertKey fl)
                     (tlsOpts fl);
     mo_WebhookServer := withCert (of_webhookCertPath fl) (of_webhookCertName fl) (of_webhookCertKey fl)
                           (tlsOpts fl);
     mo_HealthProbeBindAddress := of_probeAddr fl; mo_LeaderElection := of_enableLeaderElection fl;
     mo_LeaderElectionID := "gpu-scheduler.ishanchopra.dev" |}.

(** What the manager is given: a controller with its resource, its name and the resources it owns; the
    two runnables; the two checks. *)
Inductive managed :=
| PoolController (for_ : resource) (name : string) (fleetURL : string) (strict : bool)
| QuotaController (for_ : resource) (name : string)
| WorkloadController (for_ : resource) (name : string) (owns : list resource)
    (r : GPUWorkloadReconciler) (simulatorURL : string) (template : WorkerJobTemplate)
| LoopRunnable (cfg : loopConfig) (producer : option KafkaClaimableProducer) (leaderOnly : bool)
| BacklogRunnable (pollInterval : Z) (leaderOnly : bool)
| HealthzCheck (name : string)
| ReadyzCheck (name : string).

(** controller-runtime: a manager with the options, giving it something, running it until it ends. *)
Class Manager (M : Type) := {
  NewManager : managerOptions → Result M;
  Give : M → managed → M * option error;
  StartManager : M → M * option error;
}.

(** [SetupWithManager] of the three reconcilers *)
Definition setupPool (setup : operatorSetup) : managed :=
  PoolController RPool "gpunodepool" (os_SimulatorURL setup) (os_StrictRemote setup).
Definition setupQuota : managed := QuotaController RQuota "tenantquota".
Definition setupWorkload (setup : operatorSetup) : managed :=
  WorkloadController RWorkload "gpuworkload" [RJob] (os_Reconciler setup) (os_SimulatorURL setup)
    (os_WorkerJobTemplate setup).

(** What [main] gives the manager, in order, with the message it logs when that fails. *)
Definition setupSteps (setup : operatorSetup) : list (managed * string) :=
  [(setupPool setup, "Failed to create controller");
   (setupQuota, "Failed to create controller");
   (setupWorkload setup, "Failed to create controller");
   (LoopRunnable (os_Loop setup) (os_Producer setup) NeedLeaderElection,
    "Failed to add SchedulerLoop runnable");
   (BacklogRunnable (os_BacklogInterval setup) true, "Failed to add BacklogMetrics runnable");
   (HealthzCheck "healthz", "Failed to set up health check");
   (ReadyzCheck "readyz", "Failed to set up readyz check")].

(** How [main] ends: [os.Exit(1)] after a message, or a return. *)
Inductive ending := Exit1 (msg : string) | Returned.

Section operator.
Context {M : Type} `{Manager M}.

Fixpoint runSetup (m : M) (steps : list (managed * string)) : M * option string :=
  match steps with
  | [] => (m, None)
  | (x, msg) :: steps =>
      match Give m x with
      | (m, Some _) => (m, Some msg)
      | (m, None) => runSetup m steps
      end
  end.

(** [main]: the manager, if there is one, as it was when [main] ended. *)
Definition operatorRun (fl : operatorFlags) (getenv : string → string) : option M * ending :=
  match NewManager (managerOptionsOf fl) with
  | Err _ => (None, Exit1 "Failed to create manager")
  | Ok m =>
      match runSetup m (setupSteps (operatorMain getenv)) with
      | (m, Some msg) => (Some m, Exit1 msg)
      | (m, None) =>
          match StartManager m with
          | (m, Some _) => (Some m, Exit1 "Failed to run manager")
          | (m, None) => (Some m, Returned)
          end
      end
  end.
End operator.

(** A manager holds what it accepted, in order, and starts it. *)
Class ManagerLaws (M : Type) `{Manager M} := {
  holds : M → list managed;
  running : M → bool;
  new_manager : ∀ o m, NewManager o = Ok m → holds m = [] ∧ running m = false;
  give_ok : ∀ m x m', Give m x = (m', None) → holds m' = holds m ++ [x] ∧ running m' = running m;
  give_err : ∀ m x m' e, Give m x = (m', Some e) → holds m' = holds m ∧ running m' = running m;
  start_holds : ∀ m m' e, StartManager m = (m', e) → holds m' = holds m;
}.

Section operator_laws.
Context {M : Type} `{ManagerLaws M}.

Lemma runSetup_holds steps m m' r :
  runSetup m steps = (m', r) →
  running m' = running m ∧
  ∃ k, holds m' = holds m ++ take k steps.*1 ∧
       match r with
       | None => k = length steps
       | Some msg => ∃ x, steps !! k = Some (x, msg)
       end.
Proof.
  revert m. induction steps as [|[x msg] steps IH]; intros m; cbn [runSetup].
  { intros [= <- <-]. split; [done|]. exists 0%nat. by rewrite app_nil_r. }
  destruct (Give m x) as [m1 [e|]] eqn:Hg.
  - intros [= <- <-]. apply give_err in Hg as [Hh Hr]. split; [done|]. exists 0%nat.
    rewrite Hh, app_nil_r. split; [done|]. by exists x.
  - intros Hs. apply give_ok in Hg as [Hh Hr]. destruct (IH m1 Hs) as (Hr' & k & Hk & Hres).
    split; [congruence|]. exists (S k). csimpl. rewrite Hk, Hh, <- app_assoc. split; [done|].
    destruct r; [exact Hres|]. by rewrite Hres.
Qed.
End operator_laws.

(** ** The simulator *)

(** cmd/simulator/main.go: the listen address and the state the server starts from; [ListenAndServe]
    always returns an error, with which [log.Fatal] exits. *)
Definition simulatorMain (addr : option string) (listenAndServe : string → Simulator → error)
    : ending :=
  Exit1 (Error (listenAndServe (default ":8080" addr) NewSimulator)).

(** ** The submitter *)

Definition TopicWorkloadSubmit : string := "gpu.workloads.submit".
Definition TopicWorkloadSubmitDLQ : string := "gpu.workloads.submit.dlq".

(** [strings.Split(s, ",")] *)
Definition splitComma (s : string) : list string := of_bytes <$> split_byte comma (bytes s).

Record Consumer := {
  c_Namespace : string;
  c_Brokers : list string;
  c_GroupID : string;
  c_DLQTopic : string;
}.

Record readerConfig := { rd_Brokers : list string; rd_Topic : string; rd_GroupID : string }.
Record writerConfig := { wr_Brokers : list string; wr_Topic : string }.

(** The reader and the writer that [Run] opens, and the writer of the producer. *)
Definition consumerReader (c : Consumer) : readerConfig :=
  {| rd_Brokers := c_Brokers c; rd_Topic := TopicWorkloadSubmit; rd_GroupID := c_GroupID c |}.
Definition consumerDLQ (c : Consumer) : writerConfig :=
  {| wr_Brokers := c_Brokers c; wr_Topic := c_DLQTopic c |}.
Definition producerWriter (brokers : string) : writerConfig :=
  {| wr_Brokers := splitComma (TrimSpace brokers); wr_Topic := TopicWorkloadSubmit |}.

Record submitterFlags := {
  sf_brokers : string;
  sf_groupID : string;
  sf_namespace : string;
  sf_metricsAddr : string;
}.

Definition submitterDefaults : submitterFlags :=
  {| sf_brokers := "localhost:9092"; sf_groupID := "gpu-scheduler-submitter"; sf_namespace := "default";
     sf_metricsAddr := ":8080" |}.

Definition submitterConsumer (fl : submitterFlags) : Consumer :=
  {| c_Namespace := sf_namespace fl; c_Brokers := splitComma (TrimSpace (sf_brokers fl));
     c_GroupID := sf_groupID fl; c_DLQTopic := TopicWorkloadSubmitDLQ |}.

(** Whether the metrics are served. *)
Definition servesMetrics (fl : submitterFlags) : bool :=
  negb (bool_decide (sf_metricsAddr fl = "")) && negb (bool_decide (sf_metricsAddr fl = "0")).

Section submitter_run.
Context `{Sha256} {W : Type} `{SubmitterEnv W}.

(** [Run]: [ctx k] is the error of the context the [k]-th time it is asked, at the top of the loop and
    after a fetch that failed; with the error [Run] returns comes how often it was asked.  [None] when the fuel ends or on a panic. *)
Fixpoint consumerRun (c : Consumer) (ctx : nat → option error) (fuel k : nat) (w : W)
    (effs : list effect) : option (W * list effect * error * nat) :=
  match fuel with
  | O => None
  | S fuel =>
      match ctx k with
      | Some e => Some (w, effs, e, S k)
      | None =>
          match FetchMessage w with
          | (w', Err _) =>
              match ctx (S k) with
              | Some e => Some (w', effs, e, S (S k))
              | None => consumerRun c ctx fuel (S (S k)) w' effs
              end
          | (_, Ok _) =>
              '(w', effs', _) ← runIteration (c_Namespace c) w;
              consumerRun c ctx fuel (S k) w' (effs ++ effs')
          end
      end
  end.

(** [main] after the flags: the metrics, the configuration of the cluster, the client and the
    consumer, whose error matters only while the context lives. *)
Definition submitterMain {R : Type} `{Prometheus R} (g : registries R) (fl : submitterFlags)
    (getConfig newClient : option error) (ctx : nat → option error) (fuel : nat)
    (w : W) : option (W * list effect * ending) :=
  _ ← startMetrics SubmitterDaemon g;
  match getConfig with
  | Some _ => Some (w, [], Exit1 "")
  | None =>
  match newClient with
  | Some _ => Some (w, [], Exit1 "")
  | None =>
      '(w, effs, _, k) ← consumerRun (submitterConsumer fl) ctx fuel 0 w [];
      Some (w, effs, match ctx k with Some _ => Returned | None => Exit1 "" end)
  end end.

Lemma processMessage_ends namespace msg (w : W) :
  ∃ w' effs err, processMessage namespace msg w = Some (w', effs, err).
Proof.
  unfold processMessage, sendToDLQ. destruct (Unmarshal (km_Value msg)) as [req|e].
  2:{ destruct (WriteDLQ _ _ _ _). by repeat eexists. }
  destruct (ValidateRequest req) as [e|] eqn:Hv.
  { destruct (WriteDLQ _ _ _ _). by repeat eexists. }
  destruct (request_submitted namespace req Hv) as (cr & -> & _). simpl.
  destruct (Create w cr) as [w' [e|]]; [destruct (IsAlreadyExists e)|]; by repeat eexists.
Qed.

Lemma runIteration_ends namespace (w : W) : ∃ r, runIteration namespace w = Some r.
Proof.
  unfold runIteration. destruct (FetchMessage w) as [w1 [msg|e]]; [|by eexists].
  destruct (processMessage_ends namespace msg w1) as (w2 & effs & err & ->). simpl.
  destruct err; [by eexists|]. destruct (CommitMessages w2 msg) as [w3 [e|]]; by eexists.
Qed.


(** A context that is cancelled before it is asked for the [n]-th time, and stays so. *)
Definition cancelled_at (n : nat) (e : error) (ctx : nat → option error) : Prop :=
  ∀ i, ctx i = if decide (i < n)%nat then None else Some e.

Lemma consumerRun_ends c ctx n e fuel k (w : W) effs :
  cancelled_at n e ctx → (n - k < fuel)%nat →
  ∃ w' effs' k', consumerRun c ctx fuel k w effs = Some (w', effs', e, k') ∧ (n ≤ k')%nat.
Proof.
  intros Hctx. revert k w effs. induction fuel as [|fuel IH]; intros k w effs Hk; [lia|].
  cbn [consumerRun]. rewrite (Hctx k). case_decide as Hkn.
  2:{ repeat eexists. lia. }
  destruct (FetchMessage w) as [w1 [msg|e1]].
  - destruct (runIteration_ends (c_Namespace c) w) as [[[w2 effs2] b] ->]. simpl. apply IH. lia.
  - rewrite (Hctx (S k)). case_decide; [apply IH; lia|]. repeat eexists. lia.
Qed.
End submitter_run.

(** ** Properties *)

Section startup_claims.
Context {M : Type} `{ManagerLaws M}.

(** The claimable topic the environment names, if it names brokers. *)
Definition named_producer (getenv : string → string) : option KafkaClaimableProducer :=
  if decide (TrimSpace (getenv "KAFKA_BROKERS") = "") then None
  else Some {| kp_Brokers := brokerList (TrimSpace (getenv "KAFKA_BROKERS"));
               kp_Topic := orDefault (TrimSpace (getenv "CLAIMABLE_TOPIC")) TopicWorkloadClaimable |}.

Lemma producer_named getenv : os_Producer (operatorMain getenv) = named_producer getenv.
Proof.
  unfold operatorMain, named_producer, NewKafkaClaimableProducer, orDefault. cbn [os_Producer].
  case_decide; [done|]. by rewrite TrimSpace_idemp, decide_False.
Qed.

Lemma batch_named getenv :
  maxAdmissionsPerCycle getenv =
  Z.max 1 (default 1 (Atoi (TrimSpace (getenv "MAX_ADMISSIONS_PER_CYCLE")))).
Proof.
  unfold maxAdmissionsPerCycle. case_decide as E; [by rewrite E|].
  destruct (Atoi _) as [n|]; [|done]. simpl. destruct (Z.leb_spec 1 n); lia.
Qed.

(** C39: the manager is started only with everything the operator consists of.  When [main] returns, or
    fails to run the manager, the manager holds exactly: the controllers of pools (with the remote
    simulator of the environment, in strict mode), of quotas and of workloads (which own Jobs; with the
    simulator, events, and the worker pool if the environment says so); the scheduler loop (for the
    leader only, with the batch size of the environment, at least 1, and the claimable topic if there
    are brokers); the backlog metrics (for the leader only); the health check and the readiness check;
    once each and in this order.  When something is refused, [main] exits with the message of that step,
    the manager was not started and holds what came before it.  Unless HTTP/2 is enabled, both servers
    offer HTTP/1.1 only. *)
Theorem operator_assembled (fl : operatorFlags) (getenv : string → string) :
  let url := TrimSpace (getenv "SIMULATOR_URL") in
  let producer := named_producer getenv in
  let parts :=
    [PoolController RPool "gpunodepool" url true;
     QuotaController RQuota "tenantquota";
     WorkloadController RWorkload "gpuworkload" [RJob]
       {| rc_RuntimeSimulator := true; rc_Recorder := true;
          rc_UseWorkerPool := bool_decide (ToLower (TrimSpace (getenv "USE_WORKER_POOL")) = "true") |}
       url DefaultWorkerJobTemplate;
     LoopRunnable
       {| lc_MaxAdmissionsPerCycle :=
            Z.max 1 (default 1 (Atoi (TrimSpace (getenv "MAX_ADMISSIONS_PER_CYCLE"))));
          lc_MinCycleInterval := 0; lc_Recorder := true;
          lc_ClaimableProducer := bool_decide (is_Some producer) |}
       producer true;
     BacklogRunnable 0 true;
     HealthzCheck "healthz";
     ReadyzCheck "readyz"] in
  let messages :=
    ["Failed to create controller"; "Failed to create controller"; "Failed to create controller";
     "Failed to add SchedulerLoop runnable"; "Failed to add BacklogMetrics runnable";
     "Failed to set up health check"; "Failed to set up readyz check"] in
  match operatorRun fl getenv with
  | (None, e) => e = Exit1 "Failed to create manager"
  | (Some m, e) =>
      (holds m = parts ∧ e ∈ [Returned; Exit1 "Failed to run manager"]) ∨
      (running m = false ∧ ∃ k msg, messages !! k = Some msg ∧ holds m = take k parts ∧ e = Exit1 msg)
  end ∧
  (of_enableHTTP2 fl = false → ∀ protos,
   foldl (λ p f, f p) protos (so_TLSOpts (mo_Metrics (managerOptionsOf fl))) = ["http/1.1"] ∧
   foldl (λ p f, f p) protos (so_TLSOpts (mo_WebhookServer (managerOptionsOf fl))) = ["http/1.1"]).
Proof.
  intros url producer parts messages. set (steps := setupSteps (operatorMain getenv)).
  assert (steps.*1 = parts ∧ steps.*2 = messages) as [Hparts Hmsgs].
  { split; [|done]. unfold parts, producer. rewrite <- producer_named, <- batch_named.
    unfold steps, setupSteps. cbn [fmap list_fmap fst]. repeat f_equal. unfold operatorMain.
    cbn [os_Loop os_Producer]. f_equal. by destruct (if decide _ then _ else _). }
  clearbody parts messages. split.
  - unfold operatorRun. destruct (NewManager _) as [m|e] eqn:Hn; [|done].
    apply new_manager in Hn as [Hh Hr]. fold steps.
    destruct (runSetup m steps) as [m1 r] eqn:Hs. apply runSetup_holds in Hs as (Hr1 & k & Hk & Hres).
    rewrite Hh, Hparts in Hk. simpl in Hk. destruct r as [msg|].
    + right. destruct Hres as [x Hx]. split; [congruence|]. exists k, msg. split_and!; [|done..].
      by rewrite <- Hmsgs, list_lookup_fmap, Hx.
    + assert (holds m1 = parts) as Hall.
      { rewrite Hk, Hres, <- Hparts. apply take_ge. by rewrite length_fmap. }
      destruct (StartManager m1) as [m2 e] eqn:Hst. apply start_holds in Hst.
      destruct e; left; (split; [congruence|set_solver]).
  - intros Hh protos. unfold managerOptionsOf, withCert, tlsOpts. rewrite Hh. cbn [mo_Metrics mo_WebhookServer].
    split; by case_decide.
Qed.
End startup_claims.

(** C38: the submitter stops when it is told to.  Once the context is cancelled, [Run] returns its error,
    after at most as many rounds as checks were made before, whatever the topic, the API server and the
    dead-letter topic answered, and [main] ends without an error; before that it does not give up. *)
Theorem submitter_stops `{Sha256} {W R : Type} `{SubmitterEnv W, Prometheus R} (g g' : registries R)
    (fl : submitterFlags) (ctx : nat → option error) (n : nat) (e : error) (w : W) :
  startMetrics SubmitterDaemon g = Some g' → cancelled_at n e ctx →
  (∃ w' effs, submitterMain g fl None None ctx (S n) w = Some (w', effs, Returned)) ∧
  (∀ fuel w' effs err k, consumerRun (submitterConsumer fl) ctx fuel 0 w [] = Some (w', effs, err, k) →
     err = e ∧ (n ≤ k)%nat) ∧
  rd_Topic (consumerReader (submitterConsumer fl)) ≠ wr_Topic (consumerDLQ (submitterConsumer fl)) ∧
  producerWriter (sf_brokers fl)
    = {| wr_Brokers := rd_Brokers (consumerReader (submitterConsumer fl));
         wr_Topic := rd_Topic (consumerReader (submitterConsumer fl)) |}.
Proof.
  intros Hg Hctx. split_and!; [| |done|done].
  - unfold submitterMain. rewrite Hg. cbn [mbind option_bind].
    destruct (consumerRun_ends (submitterConsumer fl) ctx n e (S n) 0 w [] Hctx) as (w' & effs & k & Hr & Hk);
      [lia|].
    rewrite Hr. cbn [mbind option_bind]. rewrite (Hctx k), decide_False by lia. by repeat eexists.
  - intros fuel. generalize 0%nat as j, (@nil effect) as l. revert w.
    induction fuel as [|fuel IH]; intros w j l w' effs err k; cbn [consumerRun]; [done|].
    rewrite (Hctx j). case_decide; [|intros [= <- <- <- <-]; split; [done|lia]].
    destruct (FetchMessage w) as [w1 [msg|e1]].
    + destruct (runIteration _ w) as [[[w2 effs2] b]|]; cbn [mbind option_bind]; [apply IH|done].
    + rewrite (Hctx (S j)). case_decide; [apply IH|]. intros [= <- <- <- <-]. split; [done|lia].
Qed.

(** ** Witnesses *)

Module StartupExample.
(** A manager with what it holds and whether it was started. *)
#[export] Instance manager : Manager (list managed * bool) := {|
  NewManager o := if decide (mo_HealthProbeBindAddress o = "") then Err (Errorf "no address") else Ok ([], false);
  Give m x := ((m.1 ++ [x], m.2), None);
  StartManager m := ((m.1, true), None);
|}.
#[export] Instance manager_laws : ManagerLaws (list managed * bool).
Proof.
  refine {| holds := fst; running := snd |}.
  - intros o m. cbn. case_decide; [done|]. by intros [= <-].
  - intros [l b] x m'. cbn. by intros [= <-].
  - done.
  - intros [l b] m' e. by intros [= <- <-].
Defined.
Definition stop_at (n : nat) (i : nat) : option error :=
  if decide (i < n)%nat then None else Some (Errorf "context canceled").
#[export] Instance counting : Prometheus nat := {|
  BuildFQName ns n := ns +:+ n; Register r _ := (S r, None)
|}.
Definition no_metrics : registries nat := {| default_registry := 0%nat; controller_registry := 0%nat |}.
End StartupExample.

Section startup_witness.
Import StartupExample ProgramsExample.
#[local] Existing Instances SubmitExample.sha SubmitExample.env.

Lemma operator_assembled_witness :
  ∃ m, operatorRun (M := list managed * bool) defaultFlags environment = (Some m, Returned) ∧
       length (holds m) = 7%nat ∧ running m = true.
Proof.
  destruct (operator_assembled (M := list managed * bool) defaultFlags environment) as [Hr _].
  eexists. split; [reflexivity|]. split; [|reflexivity].
  destruct Hr as [[Hh _]|(Hf & _)]; [|discriminate Hf]. exact (f_equal length Hh).
Defined.

(** Two messages, then nothing more to fetch; the context is cancelled before the fifth check. *)
Lemma submitter_stops_witness :
  ∃ w effs, submitterMain no_metrics submitterDefaults None None (stop_at 5) 6
              (SubmitExample.start ["a"; "b"] 0) = Some (w, effs, Returned).
Proof.
  exact (proj1 (submitter_stops no_metrics _ submitterDefaults (stop_at 5) 5
                  (Errorf "context canceled") (SubmitExample.start ["a"; "b"] 0) eq_refl
                  (λ i, eq_refl))).
Defined.
End startup_witness.
